(* ===== verification/_CoqProject ===== *)
-Q . S2P
Prelude.v
Json.v
TerminalState.v
MemoryState.v
MemoryShape.v
State.v
Personas.v
Memory.v
MemoryFacts.v
MemoryLive.v
Inputs.v
Journal.v
Plans.v
Pricing.v
Usage.v
Approvals.v
MemoryBranch.v
Jobs.v
JobDiscovery.v
Terminals.v
TerminalOutput.v
Turns.v
Operations.v
Schedules.v
Machine.v
History.v
Ledger.v
Invariant.v
ContextFacts.v
Database.v
JobFacts.v
DiscoveryFacts.v
ScheduleFacts.v
EffectFacts.v
TerminalFacts.v
MemoryFrames.v
OperationFacts.v
UsageFacts.v
TurnFacts.v
System.v
Samples.v
MemorySamples.v
WriterTheorems.v
TurnTheorems.v
OperationTheorems.v
TerminalTheorems.v
MemoryTheorems.v
JobTheorems.v
UsageTheorems.v
WorkspaceState.v
Workspaces.v
WorkspaceInvites.v
WorkspaceFacts.v
WorkspaceSteps.v
InviteSteps.v
WorkspaceSystem.v
WorkspaceAuthority.v
AuthoritySteps.v
RoleSteps.v
JoinFacts.v
WorkspaceErrors.v
WorkspaceSamples.v
WorkspaceTheorems.v
Apps.v
AppsSystem.v
AppsFacts.v
AppsAuthority.v
AppsSamples.v
AppsTheorems.v
