(* ===== verification/Prelude.v ===== *)
(** * The secretary state service, workspaces and apps: a verified model

    Sumi runs personal agents ("personas").  Everything a persona is and does
    is kept by one service, package [agentstate] of
    [src/apps/api/internal/agentstate]: a Go layer over PostgreSQL whose
    functions are each one transaction.  A runtime (the "writer") acquires a
    persona's lease, loads a turn for its oldest input, saves the model's plan,
    claims each planned call, and commits the turn; people decide approvals,
    set budgets and share terminals; runners execute jobs and terminal
    sessions.  All of them race, crash and retry, and the service promises
    that the record stays right: one writer, one turn at a time, effects at
    most once, elevated effects only under a human grant, money within its
    cap, input to a terminal delivered at most once, and a memory that
    condenses the journal without losing or repeating any of it.

    People and agents meet in workspaces, kept by package [workspace] of
    [src/apps/api/internal/workspace] with the enrollment grants of package
    [koseki]: who is a member, which roles give which capabilities, who may
    invite whom.  That service promises that authority only ever comes from
    authority, that nobody becomes a member without asking, and that an
    invitation lets in one participant once.  Which apps a workspace or a
    participant has installed is kept by package [apps] of
    [src/apps/api/internal/apps], which asks the workspace service for the
    authority to change it and promises the apps that an authority once
    withdrawn does not come back.

    ** How the code is modelled

    A transaction is a function of the state-and-error monad [M] of this file:
    an [Err] rolls everything back.  [ptx] runs on the tables of one persona
    ([PersonaRow]), [tx] on the whole database ([DB]); [call] is a call whose
    state changes although it answers an error.  SQL statements become the
    list and map operations their WHERE, ORDER BY and ON CONFLICT clauses
    describe; CHECK and UNIQUE constraints become the errors they raise.
    [now] is an argument of each operation, new identifiers are arguments,
    [int64] arithmetic wraps where the Go code does not check it.  What the
    standard library provides and no theorem depends on in detail (SHA-256,
    JSON text, time formatting) are the fields of the class [GoLib]; UUID
    parsing and the collation of text are those of [WsLib].  The workspace
    service runs on its own tables ([WDB], transactions [wtx]); triggers and
    foreign keys of the schema are guards of the writes.  The app service runs
    on tables of its own ([ADB], transactions [atx]) next to those of a host
    of which it knows the interface [WorkspaceAuthorizer] only.

    ** The files

    - [Json]: JSON values; [State], [TerminalState], [MemoryState]: rows,
      requests, errors.
    - [Personas], [Inputs], [Journal], [Plans], [Turns], [Operations],
      [Schedules] ([store.go], [experience.go], [memory.go]): the life of an
      input from admission to its resolution.
    - [Approvals] ([approvals.go]), [Jobs] ([jobs.go]), [Pricing] and [Usage]
      ([usage.go]), [Terminals] ([terminal.go]): the other operations.
    - [Memory] ([memory.go]): sealing ranges of the journal, applying prepared
      texts, consolidating them ([MemoryMaintain], [MemoryStatus]);
      [MemoryBranch] ([memory_branch.go], [memory_recovery.go]): the branch in
      which a text is prepared, its claim, its checkpoints, its confirmation,
      the [memory.resume] tool.  [MemoryShape] holds the invariant of the
      chunk table and the steps it may take, [MemoryFacts] and [MemoryLive]
      what a pass of maintenance does, [ContextFacts] how the rendered context
      follows from the invariant.
    - [JobDiscovery] ([job_discovery.go]): the queries over all personas and
      the global sweep; [DiscoveryFacts]: the walk of their cursors.
    - [TerminalOutput]: an abstract output stream and the refinement of the
      output window to it.
    - [Machine], [History], [Ledger], [Invariant], [Database]: the invariant
      of a persona's tables and the order along which they may change.
    - [JobFacts], [ScheduleFacts], [EffectFacts], [TerminalFacts],
      [MemoryFrames], [OperationFacts], [UsageFacts], [TurnFacts]: every operation keeps the
      invariant and moves along that order.  [EffectFacts] states as the class
      [EffectFrame] what the core relies on about tool effects implemented
      elsewhere (they admit inputs, queue jobs, work on memory and sessions);
      [TerminalFacts] discharges it for the terminal tools, [MemoryFrames] for
      [memory.resume], and [Samples] for one that queues a job as the browser
      tools do.
    - [System]: the calls, their execution, what other packages write to the
      same rows (among it what a transfer of a persona does in place, with the
      re-pending of grants of [portable/bundle.go], [repend] in [Approvals]),
      reachability and runs; [Samples], [MemorySamples]: concrete histories.
    - [WriterTheorems], [TurnTheorems], [OperationTheorems],
      [TerminalTheorems], [MemoryTheorems], [JobTheorems], [UsageTheorems]:
      the properties.
    - [WorkspaceState] ([workspace/model.go], [store.go], [participant/ref.go]):
      tables, participants, memberships, effective capabilities, permission
      checks; [Workspaces] ([store.go], [roles.go]): creation, ownership,
      roles, assignments, removal; [WorkspaceInvites] ([store.go],
      [enrollment_bundle.go], [koseki/enrollment_invites.go],
      [enrollment_workspace.go]): share codes, targeted invitations,
      enrollment bundles.
    - [WorkspaceFacts] the invariant of these tables and their order of
      change, [WorkspaceSteps] and [InviteSteps] that every operation keeps
      them, [WorkspaceSystem] the calls, what other services write, and
      reachability.  [WorkspaceAuthority], [AuthoritySteps] and [RoleSteps]:
      how a call may move capabilities; [JoinFacts]: how tenures are opened;
      [WorkspaceErrors]: an error that cannot occur.  [WorkspaceSamples] and
      [WorkspaceTheorems]: a concrete workspace and the properties.
    - [Apps] ([apps/model.go], [apps/store.go]): owners, the catalog,
      admission, install intents, switching and removing installations;
      [AppsSystem]: the calls and the four changes they can make to the tables;
      [AppsFacts]: that each call makes one of them or none, what histories
      keep, the errors; [AppsAuthority]: the law of the interface and the
      workspace service as its instance.  [AppsSamples], [AppsTheorems]: a
      concrete installation and the properties.

    ** What the theorems show

    - Writers: no call under a superseded generation changes anything, for
      ever, and a late record of usage, which carries none, touches only the
      ledger and what waited for money; a released lease is handed over at
      once.
    - Turns: at most one turn runs, waiting inputs have a cause that releases
      them, each resolved input has exactly one outbox entry, the journal is
      numbered and free of duplicates, submissions and commits replay for
      ever, recovery reclaims what a dead writer held.
    - Operations: a settled call never reruns, an elevated one completed only
      under a grant a human gave for exactly it, denials stay and are not
      retried, a decision is final unless a transfer re-pends an unspent
      grant, plans only grow.
    - Jobs and schedules: each end and each firing in the tables is announced
      exactly once, verdicts are final, claims respect routing, the global sweep marks
      exactly the expired claims, discovery by cursor visits every job once.
    - Memory: the rendered context shares the journal out between raw records
      and disjoint blocks, for ever; ranges are sealed where no call is cut
      from its result; maintenance applies no more than the limit asks for and
      as much as is prepared; a text is used only after the very candidate
      under review was confirmed in a later round, and [memory.resume] starts
      that confirmation over; one branch at a time, checkpoints only extend.
      One theorem shows what a checkpoint the service accepts and cannot read
      blocks until it is replaced.
    - Terminals: superseded runners are powerless, taken input is never served
      again and accepted input never stranded, the output rows implement an
      abstract byte stream of which the newest bytes are kept, repeated drains
      add nothing, readers see every data row and marker once and in order.
    - Usage: prices are exact or refused, admission respects the cap,
      reconciliation conserves exposure but for holds that were recorded before,
      facts only gain certainty.
    - Workspaces: whatever capability anybody gains or loses through a call
      its caller held; a tenure is opened only by the participant it is for,
      without roles, as owner of a new workspace or from a pending invitation
      whose issuer still may invite; a share code is used once and answers its
      redeemer the same for ever; a code bundled with an enrollment lets in
      only the person enrolled; the tables stay well formed; what somebody who
      is not a member is told, and where it gives a workspace away.
    - Apps: an installation and epoch once refused are refused for ever; an
      install intent is answered once and for all; whoever changes an
      installation holds the authority of its owner; the tables stay well
      formed and no intent is left half done.

    ** Bounds and termination

    Every loop of the code runs over rows already read, so every recursion of
    the model is structural and there is no fuel.  Theorems about runs hold
    for any finite sequence of calls in any order with any arguments, clocks
    included ([run] in [System], [wreach] in [WorkspaceSystem], [areach] in
    [AppsSystem]).  Runs start without personas; replacing a persona's rows by
    those of a bundle from another placement is not a step of them.

    ** Conventions and limits

    A [json.RawMessage] is its value with the length of its text, because the
    code measures the text and otherwise decodes it; struct fields are found
    as [encoding/json] finds them, without regard to case.  The [state] column
    of a branch is text: a query that casts it to [jsonb] fails when the text
    has a NUL escape, and the cast is evaluated for each row in preparation.
    Persona identifiers are opaque strings; where the code casts to [uuidv7]
    and the cast can fail inside the modelled operations it is modelled.
    Transactions are atomic and serial: the row locks the code takes are what
    justifies it, and a place where they do not is listed as a finding of the
    manifest.  Not modelled: HTTP decoding and authentication, publication to
    in-process listeners after a commit, the advisory lock of terminal
    drivers, the conversation history tool, the transports of the workspace
    service, the files service, messaging and the remaining packages listed in the manifest with the reason for each. *)

(** ** Shared vocabulary

    Generic material every component file uses and that mentions nothing of
    the program: the result type of fallible code and the state-and-error
    monad transactions are written in, field update for records, machine
    integers at their width, the string functions of Go's [strings] and
    [strconv] packages that the sources call, and lemmas on numbered logs
    (append-only lists whose entries carry consecutive sequence numbers). *)

From Stdlib Require Import Ascii ZArith Lia.
From stdpp Require Export base strings pretty numbers option gmap.
From stdpp Require Export list.
From stdpp Require Import sorting.

Set Default Goal Selector "!".
#[export] Set Warnings "-clear-no-such-hyp".

#[global] Arguments list_to_map : simpl never.

Coercion Z.of_nat : nat >-> Z.

(** ** Results and transactions *)

(** What a Go function returning [(value, error)] returns. *)
Inductive res (E A : Type) : Type :=
| Ok (a : A)
| Err (e : E).
Arguments Ok {E A} a.
Arguments Err {E A} e.

#[global] Instance res_ret {E} : MRet (res E) := λ A a, Ok a.
#[global] Instance res_bind {E} : MBind (res E) := λ A B f r,
  match r with Ok a => f a | Err e => Err e end.

(** A transaction over the state [S]: an [Err] rolls the whole transaction
    back, so no intermediate state survives it. *)
Definition M (E S A : Type) : Type := S → res E (A * S).

#[global] Instance M_ret {E S} : MRet (M E S) := λ A a s, Ok (a, s).
#[global] Instance M_bind {E S} : MBind (M E S) := λ A B f m s,
  match m s with
  | Ok (a, s') => f a s'
  | Err e => Err e
  end.

Definition throw {E S A} (e : E) : M E S A := λ _, Err e.
Definition gets {E S A} (f : S → A) : M E S A := λ s, Ok (f s, s).
Definition modify {E S} (f : S → S) : M E S unit := λ s, Ok (tt, f s).
Definition lift {E S A} (r : res E A) : M E S A := λ s,
  match r with Ok a => Ok (a, s) | Err e => Err e end.
Definition guard_or {E S} (b : bool) (e : E) : M E S unit :=
  if b then mret tt else throw e.
(** [for _, x := range l { body }] with early return on error. *)
Fixpoint for_each {E S A} (l : list A) (body : A → M E S unit) : M E S unit :=
  match l with
  | [] => mret tt
  | x :: l => body x ;; for_each l body
  end.

(** The same, counting the rows [body] reports as changed. *)
Fixpoint for_count {E S A} (l : list A) (body : A → M E S bool) : M E S Z :=
  match l with
  | [] => mret 0%Z
  | x :: l => b ← body x; n ← for_count l body; mret (if b : bool then n + 1 else n)%Z
  end.

(** Committing a transaction: the state after the call and its outcome. *)
Definition commit {E S A} (m : M E S A) (s : S) : S * res E A :=
  match m s with
  | Ok (a, s') => (s', Ok a)
  | Err e => (s, Err e)
  end.

(** A call made of several transactions: each commits on its own, and the
    later ones run only after the earlier ones succeeded. *)
Definition call (E S A : Type) : Type := S → S * res E A.
Definition then_call {E S A B} (c : call E S A) (k : A → call E S B) : call E S B := λ s,
  match c s with
  | (s', Ok a) => k a s'
  | (s', Err e) => (s', Err e)
  end.
Definition ret_call {E S A} (r : res E A) : call E S A := λ s, (s, r).

(** *** Inverting a successful run *)

Section monad.
Context {E S : Type}.
Implicit Types (s : S).

Lemma bind_ok {A B} (m : M E S A) (k : A → M E S B) s b s' :
  (m ≫= k) s = Ok (b, s') → ∃ a s1, m s = Ok (a, s1) ∧ k a s1 = Ok (b, s').
Proof.
  unfold mbind, M_bind. destruct (m s) as [[a s1]|e] eqn:Hm; [eauto|done].
Qed.

Lemma throw_ok {A} (e : E) s (a : A) s' : throw e s = Ok (a, s') → False.
Proof. done. Qed.

Lemma guard_ok b (e : E) s u s' :
  guard_or b e s = Ok (u, s') → b = true ∧ s' = s.
Proof. unfold guard_or. destruct b; [|done]. intros [= _ ->]. done. Qed.

Lemma lift_ok {A} (r : res E A) s a s' :
  lift r s = Ok (a, s') → r = Ok a ∧ s' = s.
Proof. unfold lift. destruct r; [|done]. intros [= -> ->]. done. Qed.

Lemma commit_err {A} (m : M E S A) s e :
  (commit m s).2 = Err e → (commit m s).1 = s.
Proof. unfold commit. destruct (m s) as [[a s']|e']; done. Qed.

(** A relation every successful run of [m] moves the state along. *)
Definition steps {A} (R : S → S → Prop) (m : M E S A) : Prop :=
  ∀ s a s', m s = Ok (a, s') → R s s'.

Section preorder.
Context (R : S → S → Prop) `{!PreOrder R}.

Lemma steps_ret {A} (a : A) : steps R (mret a).
Proof. intros s b s' [= _ <-]. reflexivity. Qed.
Lemma steps_throw {A} (e : E) : steps R (@throw E S A e).
Proof. by intros s b s'. Qed.
Lemma steps_gets {A} (f : S → A) : steps R (gets f).
Proof. intros s b s' [= _ <-]. reflexivity. Qed.
Lemma steps_lift {A} (r : res E A) : steps R (lift r).
Proof. intros s b s' [_ ->]%lift_ok. reflexivity. Qed.
Lemma steps_guard b (e : E) : steps R (guard_or b e).
Proof. intros s u s' [_ ->]%guard_ok. reflexivity. Qed.
Lemma steps_bind {A B} (m : M E S A) (k : A → M E S B) :
  steps R m → (∀ a, steps R (k a)) → steps R (m ≫= k).
Proof.
  intros Hm Hk s b s' (a & s1 & H1 & H2)%bind_ok.
  transitivity s1; [by eapply Hm | by eapply Hk].
Qed.
Lemma steps_for_each {A} (l : list A) body :
  (∀ x, steps R (body x)) → steps R (for_each l body).
Proof.
  intros Hb. induction l as [|x l IH]; simpl; [apply steps_ret|].
  apply steps_bind; [apply Hb | done].
Qed.
Lemma steps_for_count {A} (l : list A) body :
  (∀ x, steps R (body x)) → steps R (for_count l body).
Proof.
  intros Hb. induction l as [|x l IH]; simpl; [apply steps_ret|].
  apply steps_bind; [apply Hb|]. intros b. apply steps_bind; [done|].
  intros n. apply steps_ret.
Qed.
Lemma steps_commit {A} (m : M E S A) s : steps R m → R s (commit m s).1.
Proof.
  intros Hm. unfold commit. destruct (m s) as [[a s']|e] eqn:H; simpl.
  - by eapply Hm.
  - reflexivity.
Qed.
End preorder.

Lemma steps_modify (R : S → S → Prop) (f : S → S) :
  (∀ s, R s (f s)) → steps R (modify (E:=E) f).
Proof. intros Hf s u s' [= _ <-]. apply Hf. Qed.
End monad.

(** A state-local transaction run on a component of a larger state. *)
Lemma steps_mono {E S A} (R R' : S → S → Prop) (m : M E S A) :
  (∀ s s', R s s' → R' s s') → steps R m → steps R' m.
Proof. intros H Hm s a s' Hr. by eapply H, Hm. Qed.

(** ** Record field update

    [r <| f := v |>] is [r] with field [f] replaced.  A record declares its
    eta-expansion as an [Eta] instance; the setter of each field is found by
    abstracting that field out of it. *)
Class Eta (R : Type) := eta : R → R.
Class Setter {R T} (proj : R → T) := set_field : (T → T) → R → R.
Arguments set_field {R T} proj {_} _ _ /.

Ltac mk_setter :=
  lazymatch goal with
  | |- @Setter ?R ?T ?p =>
    unfold Setter; let f := fresh "f" in let r := fresh "r" in intros f r;
    let b := eval hnf in (@eta R ltac:(typeclasses eauto) r) in
    match b with context C [p r] => let y := context C [f (p r)] in exact y end
  end.
#[export] Hint Extern 0 (Setter _) => mk_setter : typeclass_instances.

Notation "r <| p := v |>" := (set_field p (λ _, v) r)
  (at level 1, left associativity, format "r  <| p  :=  v |>").
Notation "r <| p ::= f |>" := (set_field p f r)
  (at level 1, left associativity, format "r  <| p  ::=  f |>").

(** ** Tactics

    [inv_tx] takes apart every hypothesis saying that a transaction
    succeeded, down to the reads and writes it performed. *)
Ltac inv_tx_step :=
  match goal with
  | H : (_ ≫= _) _ = Ok _ |- _ =>
      let a := fresh "a" in let s := fresh "s" in
      apply bind_ok in H as (a & s & ? & H)
  | H : mbind _ _ _ = Ok _ |- _ =>
      let a := fresh "a" in let s := fresh "s" in
      apply bind_ok in H as (a & s & ? & H)
  | H : throw _ _ = Ok _ |- _ => by apply throw_ok in H
  | H : guard_or _ _ _ = Ok _ |- _ => apply guard_ok in H as [? ->]
  | H : lift _ _ = Ok _ |- _ => apply lift_ok in H as [? ->]
  | H : mret _ _ = Ok _ |- _ => injection H as H; subst
  | H : gets _ _ = Ok _ |- _ => injection H as H; subst
  | H : modify _ _ = Ok _ |- _ => injection H as H; subst
  | H : Ok _ = Ok _ |- _ => injection H as H; subst
  | H : Err _ = Ok _ |- _ => discriminate H
  | H : (_, _) = (_, _) |- _ => injection H as H; subst
  | H : (match ?x with _ => _ end) _ = Ok _ |- _ => destruct x eqn:?
  | H : (match ?x with _ => _ end) = Ok _ |- _ => destruct x eqn:?
  end.
Ltac inv_tx := repeat (inv_tx_step; simpl in *).

(** Boolean guards to propositions. *)
Ltac reflect_bools :=
  repeat match goal with
  | H : _ && _ = true |- _ => apply andb_true_iff in H as [? ?]
  | H : _ || _ = false |- _ => apply orb_false_iff in H as [? ?]
  | H : negb _ = true |- _ => apply negb_true_iff in H
  | H : negb _ = false |- _ => apply negb_false_iff in H
  | H : bool_decide _ = true |- _ => apply bool_decide_eq_true_1 in H
  | H : bool_decide _ = false |- _ => apply bool_decide_eq_false_1 in H
  | H : (_ =? _)%Z = true |- _ => apply Z.eqb_eq in H
  | H : (_ =? _)%Z = false |- _ => apply Z.eqb_neq in H
  | H : (_ <? _)%Z = true |- _ => apply Z.ltb_lt in H
  | H : (_ <? _)%Z = false |- _ => apply Z.ltb_ge in H
  | H : (_ <=? _)%Z = true |- _ => apply Z.leb_le in H
  | H : (_ <=? _)%Z = false |- _ => apply Z.leb_gt in H
  end.

(** [tx_steps] decomposes a goal [steps R m] along the structure of [m];
    the goals left are those of its [modify] leaves. *)
Create HintDb tx discriminated.
#[export] Hint Resolve steps_ret steps_throw steps_gets steps_lift steps_guard : tx.
Ltac tx_steps :=
  repeat match goal with
  | |- steps _ _ => solve [auto with tx typeclass_instances]
  | |- steps _ (_ ≫= _) => apply steps_bind; [typeclasses eauto| |]
  | |- steps _ (mbind _ _) => apply steps_bind; [typeclasses eauto| |]
  | |- steps _ (for_each _ _) => apply steps_for_each; [typeclasses eauto|]
  | |- steps _ (for_count _ _) => apply steps_for_count; [typeclasses eauto|]
  | |- steps _ (modify _) => apply steps_modify
  | |- steps _ (match ?x with _ => _ end) => destruct x eqn:?
  | |- steps _ _ => fail 1
  | |- ∀ _, _ => intro
  end.

(** ** Machine integers *)

Definition MaxInt64 : Z := 9223372036854775807.
Definition MinInt64 : Z := -9223372036854775808.

(** The value of a Go [int64] expression whose exact value is [z]. *)
Definition int64 (z : Z) : Z := ((z + 2 ^ 63) mod 2 ^ 64 - 2 ^ 63)%Z.

Definition is_int64 (z : Z) : Prop := (MinInt64 ≤ z ≤ MaxInt64)%Z.

Lemma int64_id z : is_int64 z → int64 z = z.
Proof.
  unfold is_int64, MinInt64, MaxInt64, int64. intros H.
  rewrite Z.mod_small; lia.
Qed.

Lemma int64_range z : is_int64 (int64 z).
Proof.
  unfold is_int64, MinInt64, MaxInt64, int64.
  pose proof (Z.mod_pos_bound (z + 2 ^ 63) (2 ^ 64) ltac:(lia)). lia.
Qed.

(** ** Go's string functions *)

Definition HasPrefix (s p : string) : bool := String.prefix p s.

(** [strings.ContainsRune(s, 0)]: the NUL byte is its own UTF-8 encoding. *)
Fixpoint contains_nul (s : string) : bool :=
  match s with
  | EmptyString => false
  | String c s => Ascii.eqb c Ascii.zero || contains_nul s
  end.

(** [strings.ReplaceAll(s, "\x00", "")] *)
Fixpoint strip_nul (s : string) : string :=
  match s with
  | EmptyString => EmptyString
  | String c s => if Ascii.eqb c Ascii.zero then strip_nul s else String c (strip_nul s)
  end.

Lemma strip_nul_spec s : contains_nul (strip_nul s) = false.
Proof.
  induction s as [|c s IH]; simpl; [done|].
  destruct (Ascii.eqb c Ascii.zero) eqn:Hc; simpl; [done|]. by rewrite Hc, IH.
Qed.

(** [strings.LastIndex(s, sub)], as an offset or nothing. *)
Fixpoint last_index (sub s : string) : option nat :=
  match s with
  | EmptyString => if HasPrefix s sub then Some 0 else None
  | String _ s' =>
      match last_index sub s' with
      | Some i => Some (S i)
      | None => if HasPrefix s sub then Some 0 else None
      end
  end.

(** [s[i:]] and [s[:i]] *)
Fixpoint str_drop (i : nat) (s : string) : string :=
  match i, s with
  | S i, String _ s => str_drop i s
  | _, _ => s
  end.
Fixpoint str_take (i : nat) (s : string) : string :=
  match i, s with
  | S i, String c s => String c (str_take i s)
  | _, _ => EmptyString
  end.

Lemma prefix_app p s : HasPrefix (p +:+ s) p = true.
Proof.
  unfold HasPrefix. induction p as [|c p IH]; simpl; [by destruct s|].
  destruct (Ascii.ascii_dec c c); [done|congruence].
Qed.

Lemma str_app_assoc a b c : a +:+ (b +:+ c) = (a +:+ b) +:+ c.
Proof. induction a as [|x a IH]; [done|]. exact (f_equal (String x) IH). Qed.

Lemma str_app_inj a b c : a +:+ b = a +:+ c → b = c.
Proof. induction a as [|x a IH]; [done|]. intros [= H]. by apply IH. Qed.

Lemma str_drop_app a b : str_drop (String.length a) (a +:+ b) = b.
Proof. induction a as [|c a IH]; simpl; [by destruct b|done]. Qed.
Lemma str_take_app a b : str_take (String.length a) (a +:+ b) = a.
Proof. induction a as [|c a IH]; simpl; [by destruct b|by f_equal]. Qed.

(** Nothing shorter than [sub] contains it, so the last occurrence of a
    separator is found behind any prefix. *)
Lemma last_index_app sub a b i :
  last_index sub b = Some i → last_index sub (a +:+ b) = Some (String.length a + i).
Proof. intros H. induction a as [|c a IH]; simpl; [done|]. by rewrite IH. Qed.

(** [range s] decodes runes: the width of the first one, where an invalid
    byte is a rune of its own. *)
Definition byte_in (lo hi : Z) (c : ascii) : bool :=
  let n := Z.of_nat (Ascii.nat_of_ascii c) in ((lo <=? n) && (n <=? hi))%Z.
Definition cont (c : ascii) : bool := byte_in 128 191 c.
Definition rune_width (s : string) : nat :=
  match s with
  | String a (String b t) =>
      let two := byte_in 194 223 a && cont b in
      let three3 := (byte_in 224 224 a && byte_in 160 191 b)
        || (byte_in 225 236 a && cont b) || (byte_in 237 237 a && byte_in 128 159 b)
        || (byte_in 238 239 a && cont b) in
      let four4 := (byte_in 240 240 a && byte_in 144 191 b)
        || (byte_in 241 243 a && cont b) || (byte_in 244 244 a && byte_in 128 143 b) in
      if two then 2
      else match t with
           | String c t =>
               if three3 && cont c then 3
               else match t with
                    | String d _ => if four4 && cont c && cont d then 4 else 1
                    | EmptyString => 1
                    end
           | EmptyString => 1
           end
  | _ => 1
  end.

(** The byte offset of rune number [n], if the string has one. *)
Fixpoint rune_offset (n : nat) (s : string) : option nat :=
  match s, n with
  | EmptyString, _ => None
  | _, O => Some O
  | _, S n => let w := rune_width s in Nat.add w <$> rune_offset n (str_drop w s)
  end.

(** [strings.Split(s, "/")], [strings.Join(l, " ")] *)
Fixpoint split_slash (s : string) : list string :=
  match s with
  | EmptyString => [EmptyString]
  | String c s =>
      if Ascii.eqb c "/" then EmptyString :: split_slash s
      else match split_slash s with
           | [] => [String c EmptyString]
           | x :: l => String c x :: l
           end
  end.
Fixpoint join_space (l : list string) : string :=
  match l with
  | [] => EmptyString
  | [x] => x
  | x :: l => x +:+ " " +:+ join_space l
  end.

(** [path.Clean(s) == s] for a non-empty relative path: [.] itself, or
    non-empty segments none of which is [.], with [..] only in front. *)
Fixpoint clean_segments (front : bool) (l : list string) : bool :=
  match l with
  | [] => true
  | x :: l =>
      negb (bool_decide (x = "")) && negb (bool_decide (x = "."))
      && (if bool_decide (x = "..") then front && clean_segments true l
          else clean_segments false l)
  end.
Definition path_is_clean (s : string) : bool :=
  bool_decide (s = ".") || clean_segments true (split_slash s).

(** [strconv.Itoa] on a non-negative argument, and [strconv.Atoi] on a string
    of digits (the sign forms [Atoi] also accepts are not produced here and
    are rejected). *)
Definition itoa (n : Z) : string := pretty n.

Definition digit_val (c : ascii) : option Z :=
  let n := Z.of_nat (Ascii.nat_of_ascii c) in
  if ((48 <=? n) && (n <=? 57))%Z then Some (n - 48)%Z else None.
Fixpoint atoi_go (acc : Z) (s : string) : option Z :=
  match s with
  | EmptyString => Some acc
  | String c s =>
      match digit_val c with
      | Some d => atoi_go (acc * 10 + d) s
      | None => None
      end
  end.
Definition atoi (s : string) : option Z :=
  match s with EmptyString => None | _ => atoi_go 0 s end.

Lemma digit_val_pretty (x : N) :
  (x < 10)%N → digit_val (pretty_N_char x) = Some (Z.of_N x).
Proof.
  intros Hx. destruct x as [|p]; [done|].
  do 9 (destruct p as [p|p|]; try done; try lia).
Qed.

Lemma atoi_go_pretty (x : N) s : atoi_go 0 (pretty_N_go x s) = atoi_go (Z.of_N x) s.
Proof.
  revert s. induction (N.lt_wf_0 x) as [x _ IH]; intros s.
  destruct (decide (x = 0)%N) as [->|Hx]; [done|].
  rewrite pretty_N_go_step by lia.
  rewrite IH by (apply N.div_lt; lia). simpl.
  rewrite digit_val_pretty by (apply N.mod_lt; lia).
  f_equal. pose proof (N.div_mod x 10 ltac:(lia)). lia.
Qed.

Fixpoint all_digits (s : string) : bool :=
  match s with
  | EmptyString => true
  | String c s => match digit_val c with Some _ => all_digits s | None => false end
  end.

Lemma all_digits_pretty_go (x : N) s :
  all_digits s = true → all_digits (pretty_N_go x s) = true.
Proof.
  revert s. induction (N.lt_wf_0 x) as [x _ IH]; intros s Hs.
  destruct (decide (x = 0)%N) as [->|Hx]; [done|].
  rewrite pretty_N_go_step by lia. apply IH; [apply N.div_lt; lia|]. simpl.
  rewrite digit_val_pretty by (apply N.mod_lt; lia). done.
Qed.

Lemma itoa_pos p : itoa (Zpos p) = pretty_N_go (Npos p) "".
Proof. done. Qed.

Lemma itoa_digits n : (0 ≤ n)%Z → all_digits (itoa n) = true.
Proof.
  destruct n as [|p|p]; intros; [done| |lia].
  rewrite itoa_pos. by apply all_digits_pretty_go.
Qed.

(** A positive number is printed without a leading zero. *)
Lemma pretty_go_leading (x : N) s :
  (0 < x)%N → HasPrefix (pretty_N_go x s) "0" = false.
Proof.
  revert s. induction (N.lt_wf_0 x) as [x _ IH]; intros s Hx.
  rewrite pretty_N_go_step by lia. destruct (decide (x / 10 = 0)%N) as [H0|H0].
  - rewrite H0. assert (x < 10)%N as Hlt by (by apply N.div_small_iff in H0).
    rewrite N.mod_small by done.
    assert (x = 1 ∨ x = 2 ∨ x = 3 ∨ x = 4 ∨ x = 5 ∨ x = 6 ∨ x = 7 ∨ x = 8 ∨ x = 9)%N as Hc by lia.
    by repeat destruct Hc as [->|Hc]; [..|rewrite Hc].
  - apply IH; [apply N.div_lt; lia|by apply N.neq_0_lt_0].
Qed.
Lemma itoa_canonical n :
  (0 ≤ n)%Z → Nat.ltb 1 (String.length (itoa n)) && HasPrefix (itoa n) "0" = false.
Proof.
  destruct n as [|p|p]; intros; [done| |lia].
  rewrite itoa_pos, pretty_go_leading by lia. apply andb_false_r.
Qed.

Lemma itoa_nonempty n : (0 ≤ n)%Z → itoa n ≠ EmptyString.
Proof.
  destruct n as [|p|p]; intros Hn; [done| |lia]. intros H.
  pose proof (atoi_go_pretty (Npos p) "") as Ha.
  rewrite <-itoa_pos, H in Ha. simpl in Ha. congruence.
Qed.

(** Printing and reading back a call index. *)
Lemma atoi_itoa n : (0 ≤ n)%Z → atoi (itoa n) = Some n.
Proof.
  intros Hn. unfold atoi. pose proof (itoa_nonempty n Hn).
  destruct (itoa n) eqn:E; [done|]. rewrite <-E.
  destruct n as [|p|p]; [by injection E as <- <-| |lia].
  rewrite itoa_pos. apply atoi_go_pretty.
Qed.

Lemma prefix_digits c sub s :
  digit_val c = None → all_digits s = true → String.prefix (String c sub) s = false.
Proof.
  intros Hc. destruct s as [|d s]; simpl; [done|].
  destruct (digit_val d) eqn:Hd; [|done].
  destruct (Ascii.ascii_dec c d) as [->|]; [congruence|done].
Qed.

Lemma last_index_digits c sub s :
  digit_val c = None → all_digits s = true → last_index (String c sub) s = None.
Proof.
  intros Hc. induction s as [|d s IH]; simpl; [done|].
  destruct (digit_val d) eqn:Hd; [|done]. intros Hs. rewrite IH by done.
  unfold HasPrefix. simpl. destruct (Ascii.ascii_dec c d) as [->|]; [congruence|done].
Qed.

(** ** Sums over tables *)

Definition msum {K} `{Countable K} {A} (f : A → Z) (m : gmap K A) : Z :=
  map_fold (λ _ a n, f a + n)%Z 0%Z m.

Section msum.
Context {K} `{Countable K} {A : Type}.
Implicit Types (f : A → Z) (m : gmap K A).

Lemma msum_insert_new f m k a :
  m !! k = None → msum f (<[k := a]> m) = (f a + msum f m)%Z.
Proof.
  intros Hk. unfold msum. rewrite map_fold_insert_L; [done| |done].
  intros. lia.
Qed.

Lemma msum_delete f m k a : m !! k = Some a → msum f m = (f a + msum f (delete k m))%Z.
Proof.
  intros Hk. rewrite <-(insert_delete_id m k a Hk) at 1.
  apply msum_insert_new, lookup_delete_eq.
Qed.

(** Replacing a row changes a sum by the difference of the row. *)
Lemma msum_insert f m k a b :
  m !! k = Some a → msum f (<[k := b]> m) = (msum f m - f a + f b)%Z.
Proof.
  intros Hk. rewrite (msum_delete f m k a Hk), <-insert_delete_eq, msum_insert_new.
  - lia.
  - apply lookup_delete_eq.
Qed.

Lemma msum_ext f g m : (∀ k a, m !! k = Some a → f a = g a) → msum f m = msum g m.
Proof.
  induction m as [|k a m Hk IH] using map_ind; intros Hfg; [done|].
  rewrite !msum_insert_new by done. rewrite (Hfg k a) by by rewrite lookup_insert_eq.
  rewrite IH; [done|]. intros k' b Hb. apply (Hfg k'). rewrite lookup_insert_ne; [done|].
  intros ->. congruence.
Qed.

Lemma msum_nonneg f m : (∀ k a, m !! k = Some a → 0 ≤ f a)%Z → (0 ≤ msum f m)%Z.
Proof.
  induction m as [|k a m Hk IH] using map_ind; intros Hf; [done|].
  rewrite msum_insert_new by done.
  assert (0 ≤ f a)%Z by (apply (Hf k); by rewrite lookup_insert_eq).
  assert (0 ≤ msum f m)%Z; [|lia]. apply IH. intros k' b Hb.
  apply (Hf k'). rewrite lookup_insert_ne; [done|]. intros ->. congruence.
Qed.

Lemma msum_empty f : msum f (∅ : gmap K A) = 0%Z.
Proof. unfold msum. by rewrite map_fold_empty. Qed.

Lemma msum_union f m1 m2 : m1 ##ₘ m2 → msum f (m1 ∪ m2) = (msum f m1 + msum f m2)%Z.
Proof.
  induction m1 as [|k a m1 Hk IH] using map_ind; intros Hd.
  - by rewrite (left_id_L ∅ (∪)), msum_empty.
  - apply map_disjoint_insert_l in Hd as [Hk2 Hd].
    rewrite <-insert_union_l, msum_insert_new by by apply lookup_union_None.
    rewrite IH, msum_insert_new by done. lia.
Qed.

End msum.

Lemma msum_fmap {K} `{Countable K} {A B} (g : A → B) f (m : gmap K A) :
  msum f (g <$> m) = msum (f ∘ g) m.
Proof.
  induction m as [|k a m Hk IH] using map_ind; [by rewrite fmap_empty, !msum_empty|].
  rewrite fmap_insert, !msum_insert_new, IH; [done|done|]. by rewrite lookup_fmap, Hk.
Qed.

Lemma sublist_mem {A} (l k : list A) x : l `sublist_of` k → x ∈ l → x ∈ k.
Proof. intros Hs Hx. eapply elem_of_submseteq; [exact Hx|by apply sublist_submseteq]. Qed.

(** A sublist that holds every element of a list without repetitions is the
    whole list. *)
Lemma sublist_all {A} (l k : list A) :
  l `sublist_of` k → NoDup k → (∀ x, x ∈ k → x ∈ l) → l = k.
Proof.
  induction 1 as [|x l k Hs IH|x l k Hs IH]; intros Hn Hin; [done|..];
    apply NoDup_cons in Hn as [Hx Hn].
  - f_equal. apply IH; [done|]. intros y Hy. specialize (Hin y ltac:(by right)).
    apply elem_of_cons in Hin as [->|?]; done.
  - destruct Hx. eapply sublist_mem; [exact Hs|]. apply Hin. by left.
Qed.

(** ** How a table may change

    [table_hist R m m']: no row of [m] is gone from [m'], and each moved
    along [R]. *)
Definition table_hist {K} `{Countable K} {A} (R : A → A → Prop) (m m' : gmap K A) : Prop :=
  ∀ k x, m !! k = Some x → ∃ x', m' !! k = Some x' ∧ R x x'.

Section table_hist.
Context {K} `{Countable K} {A : Type} (R : A → A → Prop) `{!PreOrder R}.
Implicit Types (m : gmap K A).

#[global] Instance table_hist_preorder : PreOrder (table_hist (K:=K) R).
Proof.
  split.
  - intros m k x Hx. exists x. done.
  - intros m1 m2 m3 H12 H23 k x Hx. apply H12 in Hx as (y & Hy & ?).
    apply H23 in Hy as (z & Hz & ?). exists z. split; [done|]. by transitivity y.
Qed.

Lemma table_hist_alter m k f :
  (∀ x, m !! k = Some x → R x (f x)) → table_hist R m (alter f k m).
Proof.
  intros Hf k' x Hx. destruct (decide (k = k')) as [<-|].
  - exists (f x). rewrite lookup_alter_eq, Hx. auto.
  - exists x. by rewrite lookup_alter_ne by done.
Qed.

Lemma table_hist_insert m k y :
  (∀ x, m !! k = Some x → R x y) → table_hist R m (<[k := y]> m).
Proof.
  intros Hf k' x Hx. destruct (decide (k = k')) as [<-|].
  - exists y. rewrite lookup_insert_eq. auto.
  - exists x. by rewrite lookup_insert_ne by done.
Qed.

Lemma table_hist_fmap m f : (∀ k x, m !! k = Some x → R x (f x)) → table_hist R m (f <$> m).
Proof. intros Hf k x Hx. exists (f x). rewrite lookup_fmap, Hx. eauto. Qed.

Lemma table_hist_imap m f :
  (∀ k x, m !! k = Some x → ∃ y, f k x = Some y ∧ R x y) → table_hist R m (map_imap f m).
Proof.
  intros Hf k x Hx. destruct (Hf k x Hx) as (y & Hy & ?). exists y.
  by rewrite map_lookup_imap, Hx.
Qed.
End table_hist.

Lemma alter_found {K} `{Countable K} {A} (f : A → A) (k : K) (m : gmap K A) x :
  m !! k = Some x → alter f k m = <[k := f x]> m.
Proof.
  intros Hx. apply map_eq. intros k'. rewrite lookup_insert. case_decide as Hk.
  - subst k'. by rewrite lookup_alter_eq, Hx.
  - by rewrite lookup_alter_ne.
Qed.

Lemma alter_absent {K} `{Countable K} {A} (f : A → A) (k : K) (m : gmap K A) :
  m !! k = None → alter f k m = m.
Proof.
  intros Hk. apply map_eq. intros k'. destruct (decide (k = k')) as [<-|].
  - by rewrite lookup_alter_eq, Hk.
  - by rewrite lookup_alter_ne.
Qed.

(** A loop over distinct rows of a table, each iteration writing that table
    at its own key only: every iteration finds its row as it was read. *)
Section distinct.
Context {E S K A : Type} `{Countable K} (tbl : S → gmap K A).
Context (R : S → S → Prop) `{!PreOrder R}.

Lemma steps_distinct (l : list (K * A)) (body : K * A → M E S unit) s u s' :
  NoDup (l.*1) → (∀ kv, kv ∈ l → tbl s !! kv.1 = Some kv.2) →
  (∀ kv s u s', kv ∈ l → tbl s !! kv.1 = Some kv.2 → body kv s = Ok (u, s') →
     R s s' ∧ ∀ k, k ≠ kv.1 → tbl s' !! k = tbl s !! k) →
  for_each l body s = Ok (u, s') → R s s'.
Proof.
  intros Hnd Hrows Hbody. revert s Hrows Hnd. induction l as [|kv l IH]; intros s Hrows Hnd; simpl.
  - intros [= _ <-]. reflexivity.
  - intros (u1 & s1 & H1 & H2)%bind_ok. apply NoDup_cons in Hnd as [Hkv Hnd].
    destruct (Hbody kv s u1 s1) as [HR Hoth]; [left|apply Hrows; left|done|].
    transitivity s1; [done|]. apply IH; [|intros kv' Hin|done|done].
    + intros kv' t u' t' Hin. apply Hbody. by right.
    + rewrite Hoth; [apply Hrows; by right|]. intros Heq. apply Hkv. rewrite <-Heq.
      by apply list_elem_of_fmap_2.
Qed.

(** When each iteration sets its own row, the loop sets exactly those. *)
Lemma for_each_sets (l : list (K * A)) (body : K * A → M E S unit) (g : K * A → A) s u s' :
  NoDup (l.*1) → (∀ kv, kv ∈ l → tbl s !! kv.1 = Some kv.2) →
  (∀ kv s u s', kv ∈ l → tbl s !! kv.1 = Some kv.2 → body kv s = Ok (u, s') →
     tbl s' = <[kv.1 := g kv]> (tbl s)) →
  for_each l body s = Ok (u, s') →
  (∀ kv, kv ∈ l → tbl s' !! kv.1 = Some (g kv)) ∧
  (∀ k, k ∉ l.*1 → tbl s' !! k = tbl s !! k).
Proof.
  intros Hnd Hrows Hbody. revert s Hrows Hnd. induction l as [|kv l IH]; intros s Hrows Hnd; simpl.
  - intros [= _ <-]. split; [|done]. intros kv Hkv. by apply not_elem_of_nil in Hkv.
  - intros (u1 & s1 & H1 & H2)%bind_ok. apply NoDup_cons in Hnd as [Hkv Hnd].
    apply Hbody in H1; [|left|apply Hrows; left].
    assert (∀ k, k ∈ l.*1 → k ≠ kv.1) as Hne by by intros k Hk ->.
    destruct (IH ltac:(intros * ?; apply Hbody; by right) s1) as [Hin Hout]; [|done|done|].
    { intros kv' Hkv'. rewrite H1, lookup_insert_ne; [apply Hrows; by right|].
      intros Heq. apply (Hne kv'.1); [by apply list_elem_of_fmap_2|done]. }
    split.
    + intros kv' [->|Hkv']%elem_of_cons; [|by apply Hin].
      by rewrite Hout, H1, lookup_insert_eq.
    + intros k [Hk1 Hk2]%not_elem_of_cons. by rewrite Hout, H1, lookup_insert_ne.
Qed.
End distinct.

(** The rows an [ORDER BY ... LIMIT n] query over a table returns. *)
Lemma StronglySorted_snoc {A} (R : relation A) l x :
  StronglySorted R l → Forall (λ y, R y x) l → StronglySorted R (l ++ [x]).
Proof.
  induction 1 as [|y l Hl IH HF]; intros Hx; simpl; [repeat constructor|].
  inversion Hx; subst. constructor; [auto|]. apply Forall_app. split; [done|]. by constructor.
Qed.

Lemma StronglySorted_keep {A} (R : relation A) (P : A → Prop) `{!∀ x, Decision (P x)} l :
  StronglySorted R l → StronglySorted R (filter P l).
Proof.
  induction 1 as [|y l Hl IH HF]; [constructor|]. rewrite filter_cons.
  case_decide; [|done]. constructor; [done|].
  rewrite Forall_forall in *. intros z [_ Hz]%list_elem_of_filter. auto.
Qed.

Lemma filter_ext_Forall {A} (P Q : A → Prop) `{!∀ x, Decision (P x), !∀ x, Decision (Q x)} l :
  Forall (λ x, P x ↔ Q x) l → filter P l = filter Q l.
Proof.
  induction 1 as [|x l Hx _ IH]; [done|]. rewrite !filter_cons, IH.
  by destruct (decide (P x)), (decide (Q x)); try tauto.
Qed.

Lemma filter_all {A} (P : A → Prop) `{!∀ x, Decision (P x)} l : Forall P l → filter P l = l.
Proof.
  induction 1 as [|x l Hx _ IH]; [done|]. rewrite filter_cons. rewrite decide_True by done.
  by rewrite IH.
Qed.
Lemma filter_none {A} (P : A → Prop) `{∀ x, Decision (P x)} (l : list A) :
  Forall (λ x, ¬ P x) l → filter P l = [].
Proof.
  induction 1 as [|x l Hx HF IH]; [done|]. rewrite filter_cons. by case_decide.
Qed.
Lemma NoDup_fmap_inj {A B} (f : A → B) (l : list A) x y :
  NoDup (f <$> l) → x ∈ l → y ∈ l → f x = f y → x = y.
Proof.
  induction l as [|z l IH]; intros Hnd Hx Hy Hf; [by apply not_elem_of_nil in Hx|].
  apply NoDup_cons in Hnd as [Hz Hnd].
  apply elem_of_cons in Hx as [->|Hx], Hy as [->|Hy]; [done| | |by apply IH].
  - exfalso. apply Hz. rewrite Hf. by apply list_elem_of_fmap_2.
  - exfalso. apply Hz. rewrite <-Hf. by apply list_elem_of_fmap_2.
Qed.
(** A sorted list whose keys differ is sorted by what its relation and the
    difference of keys give. *)
Lemma StronglySorted_keyed {A K} (key : A → K) (R R' : relation A) (l : list A) :
  StronglySorted R l → NoDup (key <$> l) →
  (∀ x y, x ∈ l → y ∈ l → key x ≠ key y → R x y → R' x y) → StronglySorted R' l.
Proof.
  induction 1 as [|x l Hl IH Hx]; intros Hnd HR; [constructor|].
  apply NoDup_cons in Hnd as [Hk Hnd]. constructor.
  - apply IH; [done|]. intros y z Hy Hz. apply HR; by right.
  - rewrite Forall_forall in *. intros y Hy. apply HR; [by left|by right| |by apply Hx].
    intros E. apply Hk. rewrite E. by apply list_elem_of_fmap_2.
Qed.
Lemma NoDup_fmap_keep {A B} (f : A → B) (P : A → Prop) `{∀ x, Decision (P x)} (l : list A) :
  NoDup (f <$> l) → NoDup (f <$> filter P l).
Proof.
  induction l as [|x l IH]; [done|]. rewrite fmap_cons, NoDup_cons. intros [Hx Hl].
  rewrite filter_cons. case_decide; [|by apply IH]. rewrite fmap_cons, NoDup_cons.
  split; [|by apply IH]. intros (y & Hy & Hin)%list_elem_of_fmap. apply Hx, list_elem_of_fmap.
  exists y. split; [done|]. by apply list_elem_of_filter in Hin as [].
Qed.
Lemma Forall_keep {A} (P Q : A → Prop) `{∀ x, Decision (Q x)} (l : list A) :
  Forall P l → Forall P (filter Q l).
Proof. intros HF. rewrite Forall_forall in *. intros x [_ Hx]%list_elem_of_filter. auto. Qed.

Lemma take_sorted_spec {A} (R : relation A) `{!RelDecision R} (P : A → Prop)
    `{!∀ x, Decision (P x)} n l x :
  x ∈ take n (merge_sort R (filter P l)) → P x ∧ x ∈ l.
Proof.
  intros Hx. assert (x ∈ merge_sort R (filter P l)) as Hin.
  { rewrite <-(take_drop n). apply elem_of_app. by left. }
  rewrite merge_sort_Permutation in Hin. by apply list_elem_of_filter in Hin.
Qed.

Lemma take_sorted_all {A} (R : relation A) `{!RelDecision R} (P : A → Prop)
    `{!∀ x, Decision (P x)} n l x :
  (length (take n (merge_sort R (filter P l))) < n)%nat → P x → x ∈ l →
  x ∈ take n (merge_sort R (filter P l)).
Proof.
  intros Hn HP Hx. rewrite length_take in Hn. rewrite take_ge by lia.
  rewrite merge_sort_Permutation. by apply list_elem_of_filter.
Qed.

Lemma take_sorted_distinct {K A} `{Countable K} (R : relation (K * A)) `{!RelDecision R}
    (P : K * A → Prop) `{!∀ x, Decision (P x)} n (m : gmap K A) :
  NoDup ((take n (merge_sort R (filter P (map_to_list m)))).*1).
Proof.
  eapply sublist_NoDup; [|apply fmap_sublist, sublist_take].
  rewrite merge_sort_Permutation. eapply sublist_NoDup; [apply (NoDup_fst_map_to_list m)|].
  apply fmap_sublist, sublist_filter.
Qed.

(** ** Numbered logs

    A table whose rows get [COALESCE(MAX(seq), 0) + 1] on insertion, kept as
    the list of its rows in insertion order. *)
Section log.
Context {A : Type} (sq : A → Z).
Implicit Types (l : list A).

Definition max_seq l : Z := foldr (λ x n, Z.max (sq x) n) 0%Z l.
Definition numbered l : Prop := sq <$> l = seqZ 1 (length l).

Lemma max_seq_app l1 l2 : max_seq (l1 ++ l2) = Z.max (max_seq l1) (max_seq l2).
Proof.
  induction l1 as [|x l1 IH]; simpl.
  - assert (0 ≤ max_seq l2)%Z; [|lia]. induction l2; simpl; lia.
  - rewrite IH. lia.
Qed.

Lemma numbered_snoc l x :
  numbered (l ++ [x]) ↔ numbered l ∧ sq x = (1 + length l)%Z.
Proof.
  unfold numbered. rewrite fmap_app, length_app. simpl.
  rewrite Nat2Z.inj_add, seqZ_app by lia. simpl. split.
  - intros H. apply app_inj_2 in H as [H1 H2]; [|done].
    split; [done|]. rewrite seqZ_cons in H2 by lia. injection H2. lia.
  - intros [-> ->]. by rewrite (seqZ_cons (1 + _)) by lia.
Qed.

Lemma numbered_max l : numbered l → max_seq l = length l.
Proof.
  induction l as [|x l IH] using rev_ind; [done|].
  intros [H1 H2]%numbered_snoc. rewrite max_seq_app, length_app. simpl.
  rewrite IH by done. lia.
Qed.

Lemma numbered_elem l x : numbered l → x ∈ l → (1 ≤ sq x ≤ length l)%Z.
Proof.
  unfold numbered. intros H Hx.
  assert (sq x ∈ sq <$> l) as Hs by by apply list_elem_of_fmap_2.
  rewrite H in Hs. apply elem_of_seqZ in Hs. lia.
Qed.

(** In a numbered log a sequence number names one row. *)
Lemma numbered_inj l x y : numbered l → x ∈ l → y ∈ l → sq x = sq y → x = y.
Proof.
  unfold numbered. intros H Hx Hy Hxy.
  apply list_elem_of_lookup in Hx as [i Hi]. apply list_elem_of_lookup in Hy as [j Hj].
  assert (Hi' : (sq <$> l) !! i = Some (sq x)) by by rewrite list_lookup_fmap, Hi.
  assert (Hj' : (sq <$> l) !! j = Some (sq y)) by by rewrite list_lookup_fmap, Hj.
  rewrite H in Hi', Hj'. apply lookup_seqZ in Hi' as [Hi1 Hi2].
  apply lookup_seqZ in Hj' as [Hj1 Hj2].
  assert (i = j) as -> by lia. congruence.
Qed.
End log.

(** Rows given consecutive numbers behind [base], as [INSERT ... SELECT
    base + ord] does. *)
Fixpoint number_from {A B} (base : Z) (mk : Z → A → B) (l : list A) : list B :=
  match l with
  | [] => []
  | x :: l => mk (base + 1)%Z x :: number_from (base + 1) mk l
  end.

Lemma length_number_from {A B} base (mk : Z → A → B) l :
  length (number_from base mk l) = length l.
Proof. revert base. induction l as [|x l IH]; intros; simpl; [done|]. by rewrite IH. Qed.

Lemma numbered_number_from {A B} (sq : B → Z) (mk : Z → A → B) (base : Z) l l0 :
  (∀ n x, sq (mk n x) = n) → numbered sq l0 → base = length l0 →
  numbered sq (l0 ++ number_from base mk l).
Proof.
  intros Hmk. revert base l0. induction l as [|x l IH]; intros base l0 H0 ->; simpl.
  - by rewrite app_nil_r.
  - rewrite cons_middle, (assoc_L (++)). apply IH.
    + apply numbered_snoc. split; [done|]. rewrite Hmk. lia.
    + rewrite length_app. simpl. lia.
Qed.

Lemma elem_of_number_from {A B} base (mk : Z → A → B) l y :
  y ∈ number_from base mk l → ∃ n x, x ∈ l ∧ y = mk n x ∧ (base < n ≤ base + length l)%Z.
Proof.
  revert base. induction l as [|x l IH]; intros base; simpl; [by intros []%not_elem_of_nil|].
  intros [->|Hy]%elem_of_cons.
  - exists (base + 1)%Z, x. split; [by left|]. split; [done|lia].
  - apply IH in Hy as (n & x' & Hx' & -> & Hn). exists n, x'.
    split; [by right|]. split; [done|]. lia.
Qed.

#[export] Hint Resolve numbered_number_from : core.
