(* ===== verification/Json.v ===== *)
(** * JSON values as the state service handles them

    Payloads, tool requests and responses are [map[string]any] in the Go code
    and [jsonb] in PostgreSQL.  An object is a finite map, so equality of
    objects is the order-insensitive equality of [jsonb].  A number is the
    exact rational a decoded [float64] denotes. *)

From Stdlib Require Import ZArith QArith Qcanon.
From S2P Require Import Prelude.
Set Warnings "-register-all".

Inductive json :=
| JNull
| JBool (b : bool)
| JNum (q : Qc)
| JStr (s : string)
| JArr (l : list json)
| JObj (m : gmap string json).

(** A Go [map[string]any] that is not nil. *)
Abbreviation obj := (gmap string json).

Definition json_eq_dec : ∀ x y : json, Decision (x = y).
Proof.
  refine (fix go x y : Decision (x = y) :=
    match x, y with
    | JNull, JNull => left _
    | JBool a, JBool b => cast_if (decide (a = b))
    | JNum a, JNum b => cast_if (decide (a = b))
    | JStr a, JStr b => cast_if (decide (a = b))
    | JArr a, JArr b => cast_if (@decide (a = b) (@list_eq_dec json go a b))
    | JObj a, JObj b => cast_if (@decide (a = b) (@gmap_eq_dec string _ _ json go a b))
    | _, _ => right _
    end); clear go; abstract congruence.
Defined.
#[global] Instance json_dec : EqDecision json := json_eq_dec.

(** Whether any string value in [v] contains NUL. *)
Fixpoint hasNUL (v : json) : bool :=
  match v with
  | JStr s => contains_nul s
  | JObj m => map_fold (λ _ e b, hasNUL e || b) false m
  | JArr l => existsb hasNUL l
  | _ => false
  end.

(** What a [jsonb] column can hold: no NUL in a string or in an object key
    (PostgreSQL raises 22P05 otherwise). *)
Fixpoint jsonb_ok (v : json) : bool :=
  match v with
  | JStr s => negb (contains_nul s)
  | JObj m => map_fold (λ k e b, negb (contains_nul k) && jsonb_ok e && b) true m
  | JArr l => forallb jsonb_ok l
  | _ => true
  end.

#[global] Arguments hasNUL : simpl never.
#[global] Arguments jsonb_ok : simpl never.

(** [s, _ := m[k].(string)] and its relatives: the zero value when the key is
    absent or holds another type. *)
Definition get_str (m : obj) (k : string) : string :=
  match m !! k with Some (JStr s) => s | _ => "" end.
Definition get_bool (m : obj) (k : string) : bool :=
  match m !! k with Some (JBool b) => b | _ => false end.
Definition get_obj (m : obj) (k : string) : option obj :=
  match m !! k with Some (JObj o) => Some o | _ => None end.

(** A number equal to its own truncation, as an integer. *)
Definition num_int (q : Qc) : option Z :=
  if decide (Qden (this q) = 1%positive) then Some (Qnum (this q)) else None.
Definition jint (z : Z) : json := JNum (Q2Qc (inject_Z z)).

(** Semantic equality of two payloads; nil is not the empty object. *)
Definition jsonbEqual (a b : option obj) : bool :=
  match a, b with
  | None, None => true
  | Some a, Some b => bool_decide (a = b)
  | _, _ => false
  end.

Lemma jsonbEqual_spec a b : jsonbEqual a b = true ↔ a = b.
Proof.
  destruct a, b; simpl; try done.
  rewrite bool_decide_eq_true. split; [by intros ->|by intros [= ->]].
Qed.

Lemma num_int_jint z : num_int (Q2Qc (inject_Z z)) = Some z.
Proof.
  unfold num_int, Q2Qc, this, inject_Z, Qred.
  pose proof (Z.ggcd_correct_divisors z 1) as Hd.
  pose proof (Z.ggcd_gcd z 1) as Hg.
  destruct (Z.ggcd z 1) as [g [a b]]. simpl in *.
  rewrite Z.gcd_1_r in Hg. subst g. rewrite !Z.mul_1_l in Hd.
  destruct Hd as [-> <-]. done.
Qed.
