(* ===== verification/TerminalState.v ===== *)
(** * The tables of terminal sessions

    Data of [terminal.go]: a session, the ledger of its inputs and the
    window of its output.  The rows of [core_terminal_inputs] and
    [core_terminal_output] belong to one session each, so a session is kept
    together with them in a [Term]; both lists are in [seq] order. *)

From Stdlib Require Import ZArith Lia.
From Stdlib Require Import Strings.Byte.
From S2P Require Import Prelude Json.
Local Open Scope Z_scope.

(** ** Statuses the CHECK constraints allow *)

Inductive TermStatus :=
| TsRequested | TsClaimed | TsActive | TsEnding | TsEnded | TsInterrupted | TsLost.
Inductive TInputStatus :=
| TiIntended | TiDequeued | TiWritten | TiInterrupted | TiExpired | TiFailed | TiUnknown.
Inductive ChunkKind := CkData | CkGap.
#[global] Instance term_status_dec : EqDecision TermStatus.
Proof. solve_decision. Defined.
#[global] Instance tinput_status_dec : EqDecision TInputStatus.
Proof. solve_decision. Defined.
#[global] Instance chunk_kind_dec : EqDecision ChunkKind.
Proof. solve_decision. Defined.

Definition term_status_text (s : TermStatus) : string :=
  match s with
  | TsRequested => "requested" | TsClaimed => "claimed" | TsActive => "active"
  | TsEnding => "ending" | TsEnded => "ended" | TsInterrupted => "interrupted"
  | TsLost => "lost"
  end.
Definition tinput_status_text (s : TInputStatus) : string :=
  match s with
  | TiIntended => "intended" | TiDequeued => "dequeued" | TiWritten => "written"
  | TiInterrupted => "interrupted" | TiExpired => "expired" | TiFailed => "failed"
  | TiUnknown => "unknown"
  end.

(** ** Rows *)

Record TerminalSession := mkSession {
  ts_id : string;
  ts_name : string;
  ts_mode : string;
  ts_backend : string;
  ts_operation_id : option string;
  ts_status : TermStatus;
  ts_epoch : Z;
  ts_claimed_by : option string;
  ts_claim_expires_at : option Z;
  ts_control_holder : option string;
  ts_control_until : option Z;
  ts_requested_by : string;
  ts_created_by : string;
  ts_exit_code : option Z;
  ts_exit_signal : option string;
  ts_end_reason : option string;
  ts_output_bytes : Z;
  ts_output_base : Z;
  ts_created_at : Z;
  ts_updated_at : Z;
  ts_ended_at : option Z
}.
#[global] Instance eta_session : Eta TerminalSession := λ r,
  mkSession (ts_id r) (ts_name r) (ts_mode r) (ts_backend r) (ts_operation_id r) (ts_status r)
    (ts_epoch r) (ts_claimed_by r) (ts_claim_expires_at r) (ts_control_holder r)
    (ts_control_until r) (ts_requested_by r) (ts_created_by r) (ts_exit_code r)
    (ts_exit_signal r) (ts_end_reason r) (ts_output_bytes r) (ts_output_base r)
    (ts_created_at r) (ts_updated_at r) (ts_ended_at r).

Record TerminalInput := mkTInput {
  ti_id : string;
  ti_epoch : Z;
  ti_seq : Z;
  ti_kind : string;
  ti_payload : obj;
  ti_source : string;
  ti_status : TInputStatus;
  ti_detail : option obj;
  ti_created_at : Z;
  ti_updated_at : Z
}.
#[global] Instance eta_tinput : Eta TerminalInput := λ r,
  mkTInput (ti_id r) (ti_epoch r) (ti_seq r) (ti_kind r) (ti_payload r) (ti_source r)
    (ti_status r) (ti_detail r) (ti_created_at r) (ti_updated_at r).

Record TerminalOutputChunk := mkOut {
  oc_seq : Z;
  oc_kind : ChunkKind;
  oc_base : Z;
  oc_gap_to : option Z;
  oc_data : list byte;
  oc_created_at : Z
}.
#[global] Instance eta_out : Eta TerminalOutputChunk := λ r,
  mkOut (oc_seq r) (oc_kind r) (oc_base r) (oc_gap_to r) (oc_data r) (oc_created_at r).

Record Term := mkTerm {
  tm_session : TerminalSession;
  tm_inputs : list TerminalInput;
  tm_output : list TerminalOutputChunk
}.
#[global] Instance eta_term : Eta Term := λ r,
  mkTerm (tm_session r) (tm_inputs r) (tm_output r).

(** The input slot of a session's end. *)
Definition terminalInputPrefix : string := "terminal:".

(** ** What may change in a session

    A committed session keeps its identity; its epoch and its output offsets
    only rise; a close that was accepted is never undone; an ended session
    is frozen with its ledger and its output.  The ledger only grows, and a
    row that has left [intended] never returns to it. *)

Definition term_over (s : TermStatus) : bool :=
  match s with TsEnded | TsLost => true | _ => false end.
Definition term_closing (s : TermStatus) : bool :=
  match s with TsEnding | TsEnded | TsLost => true | _ => false end.
Definition tinput_open (s : TInputStatus) : bool :=
  match s with TiIntended | TiDequeued => true | _ => false end.

Record tinput_hist (i i' : TerminalInput) : Prop := {
  tih_id : ti_id i' = ti_id i;
  tih_seq : ti_seq i' = ti_seq i;
  tih_what : ti_kind i' = ti_kind i ∧ ti_payload i' = ti_payload i ∧ ti_source i' = ti_source i;
  tih_epoch : ti_epoch i ≤ ti_epoch i';
  tih_taken : ti_status i ≠ TiIntended → ti_status i' ≠ TiIntended ∧ ti_epoch i' = ti_epoch i;
  tih_final : tinput_open (ti_status i) = false → i' = i
}.

Definition ledger_grows (l l' : list TerminalInput) : Prop :=
  ∃ a b, l' = a ++ b ∧ Forall2 tinput_hist l a.

Record term_hist (t t' : Term) : Prop := {
  tmh_identity : ts_id (tm_session t') = ts_id (tm_session t)
    ∧ ts_name (tm_session t') = ts_name (tm_session t)
    ∧ ts_backend (tm_session t') = ts_backend (tm_session t)
    ∧ ts_created_at (tm_session t') = ts_created_at (tm_session t);
  tmh_epoch : ts_epoch (tm_session t) ≤ ts_epoch (tm_session t');
  tmh_bytes : ts_output_bytes (tm_session t) ≤ ts_output_bytes (tm_session t');
  tmh_base : ts_output_base (tm_session t) ≤ ts_output_base (tm_session t');
  tmh_closing : term_closing (ts_status (tm_session t)) = true →
    term_closing (ts_status (tm_session t')) = true;
  tmh_over : term_over (ts_status (tm_session t)) = true → t' = t;
  tmh_inputs : ledger_grows (tm_inputs t) (tm_inputs t')
}.

#[global] Instance tinput_hist_preorder : PreOrder tinput_hist.
Proof.
  split; [intros i; split; try done; split_and!; done|].
  intros a b c [H1 H2 (H3&H4&H5) H6 H7 H8] [K1 K2 (K3&K4&K5) K6 K7 K8].
  split; try congruence; try lia.
  - split_and!; congruence.
  - intros Ha. destruct (H7 Ha) as [Hb ?]. destruct (K7 Hb). split; [done|congruence].
  - intros Ha. specialize (H8 Ha). subst b. by apply K8.
Qed.

#[global] Instance ledger_grows_preorder : PreOrder ledger_grows.
Proof.
  split.
  - intros l. exists l, []. split; [by rewrite app_nil_r|]. reflexivity.
  - intros l1 l2 l3 (a & b & -> & Hab) (c & d & -> & Hcd).
    apply Forall2_app_inv_l in Hcd as (c1 & c2 & H1 & H2 & ->).
    exists c1, (c2 ++ d). split; [by rewrite app_assoc|]. by etrans.
Qed.

#[global] Instance term_hist_preorder : PreOrder term_hist.
Proof.
  split; [intros t; split; try done; split_and!; done|].
  intros a b c [(?&?&?&?) He Hy Hb Hc Ho Hi] [(?&?&?&?) Ke Ky Kb Kc Ko Ki].
  split; try lia; auto.
  - split_and!; congruence.
  - intros Ha. specialize (Ho Ha). subst b. by apply Ko.
  - by etrans.
Qed.

(** ** What holds of every session *)

Definition claim_ok (s : TerminalSession) : Prop :=
  match ts_status s with
  | TsClaimed | TsActive => is_Some (ts_claimed_by s) ∧ is_Some (ts_claim_expires_at s)
  | TsEnding => is_Some (ts_claimed_by s) ↔ is_Some (ts_claim_expires_at s)
  | _ => ts_claimed_by s = None ∧ ts_claim_expires_at s = None
  end.

(** Rows still to be delivered carry the session's current epoch, and a
    session that is over has none. *)
Record tinput_ok (s : TerminalSession) (i : TerminalInput) : Prop := {
  tio_epoch : ti_epoch i ≤ ts_epoch s;
  tio_open : tinput_open (ti_status i) = true →
    ti_epoch i = ts_epoch s ∧ term_over (ts_status s) = false
}.

Record term_ok (t : Term) : Prop := {
  tmo_claim : claim_ok (tm_session t);
  tmo_epoch : 0 ≤ ts_epoch (tm_session t);
  tmo_offsets : 0 ≤ ts_output_base (tm_session t) ∧ 0 ≤ ts_output_bytes (tm_session t);
  tmo_over : term_over (ts_status (tm_session t)) = true → is_Some (ts_ended_at (tm_session t));
  tmo_ledger : numbered ti_seq (tm_inputs t);
  tmo_inputs : Forall (tinput_ok (tm_session t)) (tm_inputs t)
}.
