(* ===== verification/MemoryState.v ===== *)
(** * The tables of the memory layer

    Data of [memory.go] and [memory_branch.go]: the sealed ranges of a
    persona's journal with the life cycle of their replacement
    ([core_memory_chunks]), and the private branch that prepares one
    ([core_memory_branches]). *)

From Stdlib Require Import ZArith Lia.
From S2P Require Import Prelude Json.
Local Open Scope Z_scope.

Inductive ChunkStatus :=
| ChSealed | ChPreparing | ChPrepared | ChApplied | ChKept | ChFailed | ChSuperseded.
Inductive BranchStatus := BrRunning | BrPaused | BrPrepared | BrKept.
#[global] Instance chunk_status_dec : EqDecision ChunkStatus.
Proof. solve_decision. Defined.
#[global] Instance branch_status_dec : EqDecision BranchStatus.
Proof. solve_decision. Defined.

(** A sealed range of the journal ([layer] 1) or a target over accepted
    fragments ([layer] 2, [sources] their keys in order). *)
Record MemoryChunk := mkChunk {
  mc_layer : Z;
  mc_sources : option (list Z);
  mc_first_seq : Z;
  mc_last_seq : Z;
  mc_est_tokens : Z;
  mc_status : ChunkStatus;
  mc_replacement : option string;
  mc_replacement_est_tokens : option Z;
  mc_attempts : Z;
  mc_interruptions : Z;
  mc_last_error : option string;
  mc_claimed_generation : option Z;
  mc_claimed_at : option Z;
  mc_not_before : option Z;
  mc_created_at : Z;
  mc_prepared_at : option Z;
  mc_applied_at : option Z
}.
#[global] Instance eta_chunk : Eta MemoryChunk := λ r,
  mkChunk (mc_layer r) (mc_sources r) (mc_first_seq r) (mc_last_seq r) (mc_est_tokens r)
    (mc_status r) (mc_replacement r) (mc_replacement_est_tokens r) (mc_attempts r)
    (mc_interruptions r) (mc_last_error r) (mc_claimed_generation r) (mc_claimed_at r)
    (mc_not_before r) (mc_created_at r) (mc_prepared_at r) (mc_applied_at r).

(** A [json.RawMessage] by what the code looks at: its value and the length
    of its text. *)
Record RawMessage := mkRaw { raw_value : json; raw_len : Z }.

Record BranchSourceRange := mkRange {
  rg_first_seq : Z;
  rg_last_seq : Z;
  rg_message_index : option Z;
  rg_layer : option Z;
  rg_chunk_seq : option Z
}.
Record BranchSnapshot := mkSnapshot {
  sn_messages : list RawMessage;
  sn_tools : list RawMessage;
  sn_ranges : list BranchSourceRange;
  sn_binding : option json
}.
Record branchIssue := mkIssue { is_code : string; is_message : string }.
#[global] Instance issue_dec : EqDecision branchIssue.
Proof. solve_decision. Defined.

(** A branch as it is read together with its chunk; the attempts it
    supersedes are kept in this form. *)
Record MemoryBranch := mkBranch {
  bn_chunk : MemoryChunk;
  bn_snapshot : BranchSnapshot;
  bn_state : option json;
  bn_revision : Z;
  bn_previous : option json
}.

Record BranchRow := mkBranchRow {
  br_snapshot : BranchSnapshot;
  br_previous_attempts : list MemoryBranch;
  br_state : option json;
  br_revision : Z;
  br_checkpoint_hash : string;
  br_status : BranchStatus;
  br_retry_at : option Z;
  br_issue : option branchIssue;
  br_updated_at : Z
}.
#[global] Instance eta_branch_row : Eta BranchRow := λ r,
  mkBranchRow (br_snapshot r) (br_previous_attempts r) (br_state r) (br_revision r)
    (br_checkpoint_hash r) (br_status r) (br_retry_at r) (br_issue r) (br_updated_at r).

(** [estTextTokens]: about four bytes a token. *)
Definition estTextTokens (text : string) : Z := Z.quot (String.length text + 3) 4.

Definition L0ChunkMinTokens : Z := 10000.
Definition L0ForcedSealLimitTokens : Z := L0ChunkMinTokens * 2.
Definition L0LiveLimitTokens : Z := 40000.
Definition L1LimitTokens : Z := 15000.
Definition L1DropToTokens : Z := 11000.
Definition L2LimitTokens : Z := 10000.
