(* ===== verification/MemoryShape.v ===== *)
(** * The shape of a persona's memory

    What holds of the memory chunks of a persona and how they may change.
    Layer 1 chunks tile the journal from its first record; a layer 2 target
    spans a run of fragments; applied blocks never overlap, and whatever left
    the raw context is represented by an applied block.  [mem_step] is the
    state machine of the table; each step keeps [mem_ok] and moves every row
    along [chunk_hist]. *)

From Stdlib Require Import ZArith Lia.
From S2P Require Import Prelude Json MemoryState.
Local Open Scope Z_scope.

Implicit Types (C : gmap Z MemoryChunk) (c d : MemoryChunk).

(** ** Ranges *)

Definition in_chunk (c : MemoryChunk) (s : Z) : Prop := mc_first_seq c ≤ s ≤ mc_last_seq c.

(** [COALESCE(MAX(last_seq), 0)] *)
Definition covered (C : gmap Z MemoryChunk) : Z :=
  map_fold (λ _ c m, Z.max (mc_last_seq c) m) 0 C.

(** The chunks [l] of one layer lie end to end over [first .. last]. *)
Fixpoint spans (C : gmap Z MemoryChunk) (layer : Z) (l : list Z) (first last : Z) : Prop :=
  match l with
  | [] => False
  | k :: l => ∃ c, C !! k = Some c ∧ mc_layer c = layer ∧ mc_first_seq c = first ∧
      match l with
      | [] => mc_last_seq c = last
      | _ => spans C layer l (mc_last_seq c + 1) last
      end
  end.

(** Statuses in which a chunk's events still render raw. *)
Definition raw_status (s : ChunkStatus) : bool :=
  match s with ChApplied | ChSuperseded => false | _ => true end.
Definition text_ok (c : MemoryChunk) : Prop :=
  match mc_status c with
  | ChPrepared | ChApplied | ChSuperseded =>
      ∃ text, mc_replacement c = Some text ∧
        mc_replacement_est_tokens c = Some (estTextTokens text) ∧
        estTextTokens text < mc_est_tokens c
  | _ => True
  end.

(** ** The invariant *)

Record mem_ok (n : Z) (C : gmap Z MemoryChunk) : Prop := {
  mo_key : ∀ k c, C !! k = Some c → 0 < k;
  mo_range : ∀ k c, C !! k = Some c → 1 ≤ mc_first_seq c ∧ mc_first_seq c ≤ mc_last_seq c ≤ n;
  mo_layer : ∀ k c, C !! k = Some c →
    mc_layer c = 1 ∧ mc_sources c = None ∨
    mc_layer c = 2 ∧ ∃ l layer, mc_sources c = Some l ∧
      spans C layer l (mc_first_seq c) (mc_last_seq c);
  mo_text : ∀ k c, C !! k = Some c → text_ok c;
  mo_tiles : ∀ k k' c c' s, C !! k = Some c → C !! k' = Some c' →
    mc_layer c = 1 → mc_layer c' = 1 → in_chunk c s → in_chunk c' s → k = k';
  mo_cover : ∀ s, 1 ≤ s ≤ covered C → ∃ k c, C !! k = Some c ∧ mc_layer c = 1 ∧ in_chunk c s;
  mo_applied : ∀ k k' c c' s, C !! k = Some c → C !! k' = Some c' →
    mc_status c = ChApplied → mc_status c' = ChApplied → in_chunk c s → in_chunk c' s → k = k';
  mo_upper : ∀ k k' c c' s, C !! k = Some c → C !! k' = Some c' →
    mc_layer c = 2 → raw_status (mc_status c) = false → mc_layer c' = 1 →
    in_chunk c s → in_chunk c' s → mc_status c' = ChSuperseded;
  mo_superseded : ∀ k c s, C !! k = Some c → mc_status c = ChSuperseded → in_chunk c s →
    ∃ k' c', C !! k' = Some c' ∧ mc_status c' = ChApplied ∧ in_chunk c' s
}.

(** How one row may change: never its range, never back from being
    represented. *)
Record chunk_hist (c c' : MemoryChunk) : Prop := {
  ch_layer : mc_layer c' = mc_layer c;
  ch_sources : mc_sources c' = mc_sources c;
  ch_first : mc_first_seq c' = mc_first_seq c;
  ch_last : mc_last_seq c' = mc_last_seq c;
  ch_est : mc_est_tokens c' = mc_est_tokens c;
  ch_applied : mc_status c = ChApplied →
    (mc_status c' = ChApplied ∨ mc_status c' = ChSuperseded) ∧ mc_replacement c' = mc_replacement c;
  ch_superseded : mc_status c = ChSuperseded → c' = c
}.
#[global] Instance chunk_hist_preorder : PreOrder chunk_hist.
Proof.
  split; [intros c; split; auto|]. intros c1 c2 c3 [? ? ? ? ? A1 S1] [? ? ? ? ? A2 S2].
  split; try congruence.
  - intros H. destruct (A1 H) as [[H2|H2] E].
    + destruct (A2 H2) as [? ?]. split; [done|congruence].
    + specialize (S2 H2). subst. auto.
  - intros H. specialize (S1 H). subst. auto.
Qed.
Definition mem_hist (C C' : gmap Z MemoryChunk) : Prop :=
  ∀ k c, C !! k = Some c → ∃ c', C' !! k = Some c' ∧ chunk_hist c c'.
#[global] Instance mem_hist_preorder : PreOrder mem_hist.
Proof.
  split.
  - intros C k c H. by exists c.
  - intros C1 C2 C3 H12 H23 k c H.
    destruct (H12 k c H) as (c2 & H2 & Hc2). destruct (H23 k c2 H2) as (c3 & H3 & Hc3).
    exists c3. split; [done|]. by etrans.
Qed.

(** ** Steps *)

(** [UPDATE ... SET status = 'superseded' WHERE chunk_seq = ANY(l) AND status
    = 'applied'] *)
Definition supersede (l : list Z) (C : gmap Z MemoryChunk) : gmap Z MemoryChunk :=
  map_imap (λ k c, Some (if bool_decide (k ∈ l ∧ mc_status c = ChApplied)
                         then c <| mc_status := ChSuperseded |> else c)) C.
Definition apply_chunk (now : Z) (c : MemoryChunk) : MemoryChunk :=
  c <| mc_status := ChApplied |> <| mc_applied_at := Some now |>.

(** Only with [b] may a chunk be taken into preparation. *)
Inductive mem_step (b : bool) (n : Z) (C : gmap Z MemoryChunk) : gmap Z MemoryChunk → Prop :=
| step_seal k c :
    C !! k = None → 0 < k → mc_layer c = 1 → mc_sources c = None → mc_status c = ChSealed →
    mc_first_seq c = covered C + 1 → mc_first_seq c ≤ mc_last_seq c ≤ n →
    mem_step b n C (<[k := c]> C)
| step_target k c l layer :
    C !! k = None → 0 < k → mc_layer c = 2 → mc_sources c = Some l → mc_status c = ChSealed →
    spans C layer l (mc_first_seq c) (mc_last_seq c) →
    mem_step b n C (<[k := c]> C)
| step_apply k c now :
    C !! k = Some c → mc_layer c = 1 → mc_status c = ChPrepared →
    mem_step b n C (<[k := apply_chunk now c]> C)
| step_swap k c l now :
    C !! k = Some c → mc_layer c = 2 → mc_status c = ChPrepared → mc_sources c = Some l →
    (∀ j, j ∈ l → ∃ d, C !! j = Some d ∧ mc_status d = ChApplied) →
    mem_step b n C (<[k := apply_chunk now c]> (supersede l C))
| step_local k c c' :
    C !! k = Some c → raw_status (mc_status c) = true → raw_status (mc_status c') = true →
    mc_layer c' = mc_layer c → mc_sources c' = mc_sources c → mc_first_seq c' = mc_first_seq c →
    mc_last_seq c' = mc_last_seq c → mc_est_tokens c' = mc_est_tokens c → text_ok c' →
    (mc_status c' = ChPreparing → b = true ∨ c' = c) →
    mem_step b n C (<[k := c']> C).

(** ** Lemmas on ranges *)

Lemma covered_le C k c : C !! k = Some c → mc_last_seq c ≤ covered C.
Proof.
  revert k c. unfold covered.
  apply (map_fold_weak_ind (λ m C, ∀ k c, C !! k = Some c → mc_last_seq c ≤ m)).
  - intros k c. by rewrite lookup_empty.
  - intros j x C' r Hj IH k c. rewrite lookup_insert. case_decide; [intros [= ->]; lia|].
    intros Hk. specialize (IH k c Hk). lia.
Qed.
Lemma covered_attained C : covered C = 0 ∨ ∃ k c, C !! k = Some c ∧ covered C = mc_last_seq c.
Proof.
  unfold covered.
  apply (map_fold_weak_ind (λ m C, m = 0 ∨ ∃ k c, C !! k = Some c ∧ m = mc_last_seq c)).
  - by left.
  - intros j x C' r Hj IH. destruct (Z.max_spec (mc_last_seq x) r) as [[Hlt ->]|[Hle ->]].
    + destruct IH as [->|(k & c & Hk & ->)]; [by left|]. right. exists k, c.
      split; [|done]. rewrite lookup_insert_ne; [done|]. intros ->. congruence.
    + right. exists j, x. by rewrite lookup_insert_eq.
Qed.
Lemma covered_bound n C : mem_ok n C → 0 ≤ n → 0 ≤ covered C ≤ n.
Proof.
  intros H Hn. destruct (covered_attained C) as [->|(k & c & Hk & ->)]; [lia|].
  pose proof (mo_range _ _ H k c Hk). lia.
Qed.

(** Equal ranges cover equally. *)
Definition same_ranges (C C' : gmap Z MemoryChunk) : Prop :=
  ∀ k, (λ c, (mc_layer c, mc_sources c, mc_first_seq c, mc_last_seq c)) <$> C !! k
     = (λ c, (mc_layer c, mc_sources c, mc_first_seq c, mc_last_seq c)) <$> C' !! k.
Lemma same_ranges_lookup C C' k c' :
  same_ranges C C' → C' !! k = Some c' → ∃ c, C !! k = Some c ∧ mc_layer c = mc_layer c' ∧
    mc_sources c = mc_sources c' ∧ mc_first_seq c = mc_first_seq c' ∧ mc_last_seq c = mc_last_seq c'.
Proof.
  intros H Hk. specialize (H k). rewrite Hk in H. destruct (C !! k) as [c|]; [|done].
  simpl in H. exists c. split; [done|]. injection H. auto.
Qed.
Lemma same_ranges_sym C C' : same_ranges C C' → same_ranges C' C.
Proof. intros H k. by rewrite (H k). Qed.
Lemma same_ranges_covered C C' : same_ranges C C' → covered C = covered C'.
Proof.
  assert (∀ C C', same_ranges C C' → covered C ≤ covered C') as Hle.
  { intros C1 C2 H. destruct (covered_attained C1) as [->|(k & c & Hk & ->)].
    - destruct (covered_attained C2) as [->|(k & c & Hk & E)]; [done|]. rewrite E.
      clear -E. unfold covered in E. rewrite <-E.
      apply (map_fold_weak_ind (λ m _, 0 ≤ m)); [done|]. intros; lia.
    - destruct (same_ranges_lookup _ _ _ _ (same_ranges_sym _ _ H) Hk) as (c2 & Hk2 & _ & _ & _ & El).
      rewrite <-El. by eapply covered_le. }
  intros H. apply Z.le_antisymm; apply Hle; [done|by apply same_ranges_sym].
Qed.
Lemma spans_weaken C C' layer l first last :
  (∀ k c, C !! k = Some c → ∃ c', C' !! k = Some c' ∧ mc_layer c' = mc_layer c ∧
     mc_first_seq c' = mc_first_seq c ∧ mc_last_seq c' = mc_last_seq c) →
  spans C layer l first last → spans C' layer l first last.
Proof.
  intros HC. revert first. induction l as [|k l IH]; intros first; [done|].
  intros (c & Hk & Hl & Hf & Hr). destruct (HC k c Hk) as (c' & Hk' & El & Ef & Ee).
  exists c'. split_and!; [done|congruence|congruence|]. destruct l as [|k' l]; [congruence|].
  rewrite Ee. by apply IH.
Qed.
Lemma spans_point C layer l first last s :
  spans C layer l first last → first ≤ s ≤ last →
  ∃ k c, k ∈ l ∧ C !! k = Some c ∧ mc_layer c = layer ∧ in_chunk c s.
Proof.
  revert first. induction l as [|k l IH]; intros first; [done|].
  intros (c & Hk & Hl & Hf & Hr) Hs. destruct (decide (s ≤ mc_last_seq c)) as [Hle|Hgt].
  - exists k, c. split_and!; [by left|done|done|]. unfold in_chunk. lia.
  - destruct l as [|k' l]; [lia|]. destruct (IH _ Hr) as (j & d & Hj & ?); [lia|].
    exists j, d. split; [by right|done].
Qed.
Lemma spans_inside C layer l first last :
  (∀ k c, C !! k = Some c → mc_first_seq c ≤ mc_last_seq c) →
  spans C layer l first last →
  first ≤ last ∧ ∀ k, k ∈ l → ∃ c, C !! k = Some c ∧ mc_layer c = layer ∧
    first ≤ mc_first_seq c ∧ mc_last_seq c ≤ last.
Proof.
  intros HC. revert first. induction l as [|k l IH]; intros first; [done|].
  intros (c & Hk & Hl & Hf & Hr). pose proof (HC k c Hk) as Hle.
  destruct l as [|k' l].
  - split; [lia|]. intros j ->%list_elem_of_singleton. exists c. split_and!; done || lia.
  - apply IH in Hr as [Hlast Hin]. split; [lia|]. intros j [->|Hj]%elem_of_cons.
    + exists c. split_and!; done || lia.
    + destruct (Hin j Hj) as (d & ? & ? & ? & ?). exists d. split_and!; done || lia.
Qed.

(** ** Steps keep the invariant *)

(** Steps that change no range only owe what the statuses say. *)
Lemma mem_ok_same n C C' :
  mem_ok n C → same_ranges C C' →
  (∀ k c, C' !! k = Some c → text_ok c) →
  (∀ k k' c c' s, C' !! k = Some c → C' !! k' = Some c' →
     mc_status c = ChApplied → mc_status c' = ChApplied → in_chunk c s → in_chunk c' s → k = k') →
  (∀ k k' c c' s, C' !! k = Some c → C' !! k' = Some c' →
     mc_layer c = 2 → raw_status (mc_status c) = false → mc_layer c' = 1 →
     in_chunk c s → in_chunk c' s → mc_status c' = ChSuperseded) →
  (∀ k c s, C' !! k = Some c → mc_status c = ChSuperseded → in_chunk c s →
     ∃ k' c', C' !! k' = Some c' ∧ mc_status c' = ChApplied ∧ in_chunk c' s) →
  mem_ok n C'.
Proof.
  intros H HS Ht Ha Hu Hsup. split; try done.
  - intros k c Hk. destruct (same_ranges_lookup _ _ _ _ HS Hk) as (d & Hd & _). by eapply mo_key.
  - intros k c Hk. destruct (same_ranges_lookup _ _ _ _ HS Hk) as (d & Hd & _ & _ & <- & <-).
    by eapply mo_range.
  - intros k c Hk. destruct (same_ranges_lookup _ _ _ _ HS Hk) as (d & Hd & <- & <- & <- & <-).
    destruct (mo_layer _ _ H k d Hd) as [?|(? & l & layer & ? & Hsp)]; [by left|]. right.
    split; [done|]. exists l, layer. split; [done|]. eapply spans_weaken; [|exact Hsp].
    intros j x Hj. destruct (same_ranges_lookup _ _ _ _ (same_ranges_sym _ _ HS) Hj)
      as (x' & ? & ? & ? & ? & ?). eauto.
  - intros k k' c c' s Hk Hk' Hl Hl' Hs Hs'.
    destruct (same_ranges_lookup _ _ _ _ HS Hk) as (d & Hd & El & _ & Ef & Ee).
    destruct (same_ranges_lookup _ _ _ _ HS Hk') as (d' & Hd' & El' & _ & Ef' & Ee').
    eapply (mo_tiles _ _ H k k' d d' s); unfold in_chunk in *; congruence || lia.
  - intros s Hs. rewrite <-(same_ranges_covered _ _ HS) in Hs.
    destruct (mo_cover _ _ H s Hs) as (k & c & Hk & Hl & Hin).
    destruct (same_ranges_lookup _ _ _ _ (same_ranges_sym _ _ HS) Hk) as (d & Hd & El & _ & Ef & Ee).
    exists k, d. split_and!; [done|congruence|]. unfold in_chunk in *. lia.
Qed.

Lemma same_ranges_insert C k c c' :
  C !! k = Some c → mc_layer c' = mc_layer c → mc_sources c' = mc_sources c →
  mc_first_seq c' = mc_first_seq c → mc_last_seq c' = mc_last_seq c →
  same_ranges C (<[k := c']> C).
Proof.
  intros Hk El Es Ef Ee j. rewrite lookup_insert. case_decide; [subst|done].
  rewrite Hk. simpl. congruence.
Qed.

Lemma local_ok n C k c c' :
  mem_ok n C → C !! k = Some c → raw_status (mc_status c) = true →
  raw_status (mc_status c') = true → same_ranges C (<[k := c']> C) → text_ok c' →
  mem_ok n (<[k := c']> C).
Proof.
  intros H Hk Hr Hr' HS Ht.
  assert (∀ j d, <[k:=c']> C !! j = Some d → raw_status (mc_status d) = false → C !! j = Some d) as Hback.
  { intros j d. rewrite lookup_insert. case_decide; [|done]. intros [= <-]. congruence. }
  assert (∀ j d, C !! j = Some d → raw_status (mc_status d) = false → <[k:=c']> C !! j = Some d) as Hfwd.
  { intros j d Hj Hd. rewrite lookup_insert_ne; [done|]. intros <-. congruence. }
  apply (mem_ok_same n C); try done.
  - intros j d. rewrite lookup_insert. case_decide; [by intros [= <-]|]. by apply (mo_text _ _ H).
  - intros j j' d d' s Hj Hj' Hd Hd'. apply Hback in Hj; [|by rewrite Hd]. apply Hback in Hj'; [|by rewrite Hd'].
    by eapply mo_applied.
  - intros j j' d d' s Hj Hj' Hl Hd Hl' Hs Hs'. apply Hback in Hj; [|done].
    destruct (same_ranges_lookup _ _ _ _ HS Hj') as (e & He & El & _ & Ef & Ee).
    assert (mc_status e = ChSuperseded) as He2.
    { eapply (mo_upper _ _ H j j' d e s); unfold in_chunk in *; congruence || lia. }
    rewrite lookup_insert in Hj'. case_decide; [subst j'|congruence].
    rewrite Hk in He. injection He as ->. by rewrite He2 in Hr.
  - intros j d s Hj Hd Hs. apply Hback in Hj; [|by rewrite Hd].
    destruct (mo_superseded _ _ H j d s Hj Hd Hs) as (k' & x & Hx & Hxs & Hxin).
    exists k', x. split_and!; [|done|done]. apply Hfwd; [done|by rewrite Hxs].
Qed.

Lemma apply_ok n C k c now :
  mem_ok n C → C !! k = Some c → mc_layer c = 1 → mc_status c = ChPrepared →
  mem_ok n (<[k := apply_chunk now c]> C).
Proof.
  intros H Hk Hl Hp.
  (* no upper block stands where a prepared chunk still renders raw *)
  assert (∀ j d s, C !! j = Some d → raw_status (mc_status d) = false → in_chunk c s →
    in_chunk d s → False) as Hfree.
  { intros j d s Hj Hd Hs Hs'. destruct (mo_layer _ _ H j d Hj) as [[Hl1 _]|[Hl2 _]].
    - assert (j = k) as -> by eauto using mo_tiles. rewrite Hk in Hj. injection Hj as ->.
      by rewrite Hp in Hd.
    - assert (mc_status c = ChSuperseded) by (eapply mo_upper; eauto). congruence. }
  apply (mem_ok_same n C); try done.
  - by apply (same_ranges_insert _ _ c).
  - intros j d. rewrite lookup_insert. case_decide; [|by apply (mo_text _ _ H)]. intros [= <-].
    pose proof (mo_text _ _ H k c Hk) as Ht. unfold text_ok in *. rewrite Hp in Ht. exact Ht.
  - intros j j' d d' s. rewrite !lookup_insert. repeat case_decide; subst; try done.
    + intros [= <-] Hj' _ Hd' Hs Hs'. destruct (Hfree j' d' s); try done. by rewrite Hd'.
    + intros Hj [= <-] Hd _ Hs Hs'. destruct (Hfree j d s); try done. by rewrite Hd.
    + by eapply mo_applied.
  - intros j j' d d' s. rewrite !lookup_insert. repeat case_decide; subst; try done.
    + intros [= <-] [= <-]. simpl. intros ? ? ?. congruence.
    + intros [= <-] _. simpl. congruence.
    + intros Hj [= <-] Hd Hr _ Hs Hs'. by destruct (Hfree j d s).
    + by eapply mo_upper.
  - intros j d s. rewrite !lookup_insert. case_decide; [by intros [= <-]|].
    intros Hj Hd Hs. destruct (mo_superseded _ _ H j d s Hj Hd Hs) as (k' & x & Hx & Hxs & Hxin).
    exists k', x. split_and!; [|done|done]. rewrite lookup_insert_ne; [done|]. intros <-. congruence.
Qed.

Lemma lookup_supersede l C j :
  supersede l C !! j =
  (λ c, if bool_decide (j ∈ l ∧ mc_status c = ChApplied) then c <| mc_status := ChSuperseded |> else c)
    <$> C !! j.
Proof. unfold supersede. rewrite map_lookup_imap. by destruct (C !! j). Qed.
(** A row behind [supersede]: the row itself, or a source with its new
    status. *)
Lemma supersede_inv l C j d :
  supersede l C !! j = Some d →
  ∃ e, C !! j = Some e ∧ (d = e ∧ (j ∈ l → mc_status e ≠ ChApplied) ∨
    j ∈ l ∧ mc_status e = ChApplied ∧ d = (e <| mc_status := ChSuperseded |>)).
Proof.
  rewrite lookup_supersede. destruct (C !! j) as [e|]; [|done]. intros [= <-].
  exists e. split; [done|]. case_bool_decide as Hb; [right|left]; tauto.
Qed.
Lemma same_ranges_supersede l C : same_ranges C (supersede l C).
Proof.
  intros j. rewrite lookup_supersede. destruct (C !! j) as [e|]; [|done]. simpl.
  by destruct (bool_decide _).
Qed.
Lemma same_ranges_trans C1 C2 C3 : same_ranges C1 C2 → same_ranges C2 C3 → same_ranges C1 C3.
Proof. intros H1 H2 k. by rewrite (H1 k). Qed.

Section swap.
Context (n : Z) (C : gmap Z MemoryChunk) (k : Z) (c : MemoryChunk) (l : list Z) (now : Z).
Hypothesis (Hok : mem_ok n C) (Hk : C !! k = Some c) (Hl : mc_layer c = 2)
  (Hp : mc_status c = ChPrepared) (Hsrc : mc_sources c = Some l)
  (Happ : ∀ j, j ∈ l → ∃ d, C !! j = Some d ∧ mc_status d = ChApplied).
Let C' := <[k := apply_chunk now c]> (supersede l C).

Lemma swap_not_source : k ∉ l.
Proof. intros Hin. destruct (Happ k Hin) as (d & Hd & Hs). congruence. Qed.

Lemma swap_spans : ∃ layer, spans C layer l (mc_first_seq c) (mc_last_seq c).
Proof.
  destruct (mo_layer _ _ Hok k c Hk) as [[? _]|(_ & l' & layer & Hl' & Hsp)]; [congruence|].
  assert (l' = l) as -> by congruence. by exists layer.
Qed.

Lemma swap_source_at s :
  in_chunk c s → ∃ j d, j ∈ l ∧ C !! j = Some d ∧ mc_status d = ChApplied ∧ in_chunk d s.
Proof.
  intros Hs. destruct swap_spans as [layer Hsp].
  destruct (spans_point _ _ _ _ _ s Hsp Hs) as (j & d & Hj & Hd & _ & Hin).
  destruct (Happ j Hj) as (d' & Hd' & Ha). exists j, d. split_and!; congruence || done.
Qed.
Lemma swap_source_in j d s : j ∈ l → C !! j = Some d → in_chunk d s → in_chunk c s.
Proof.
  intros Hj Hd Hs. destruct swap_spans as [layer Hsp].
  destruct (spans_inside _ _ _ _ _ (λ k c H, proj1 (proj2 (mo_range _ _ Hok k c H))) Hsp) as [_ Hin].
  destruct (Hin j Hj) as (d' & Hd' & _ & ? & ?). assert (d' = d) as -> by congruence.
  unfold in_chunk in *. lia.
Qed.

(** Rows of the new table. *)
Lemma swap_lookup j d :
  C' !! j = Some d →
  (j = k ∧ d = apply_chunk now c) ∨
  (j ≠ k ∧ j ∈ l ∧ ∃ e, C !! j = Some e ∧ mc_status e = ChApplied ∧ d = (e <| mc_status := ChSuperseded |>)) ∨
  (j ≠ k ∧ (j ∉ l) ∧ C !! j = Some d).
Proof.
  unfold C'. rewrite lookup_insert. case_decide as Hj; [intros [= <-]; by left|].
  intros (e & He & [[-> Hn]|(Hin & Ha & ->)])%supersede_inv; right; [|by left; eauto 10].
  right. split; [done|]. split; [|done]. intros Hin. destruct (Happ j Hin) as (x & Hx & Hxs).
  apply (Hn Hin). congruence.
Qed.
Lemma swap_keeps j d : C !! j = Some d → j ≠ k → j ∉ l → C' !! j = Some d.
Proof.
  intros Hj Hn Hin. unfold C'. rewrite lookup_insert_ne by done.
  rewrite lookup_supersede, Hj. simpl. by rewrite bool_decide_eq_false_2 by tauto.
Qed.

Lemma swap_applied_disjoint j d s :
  C' !! j = Some d → mc_status d = ChApplied → j ≠ k → in_chunk c s → in_chunk d s → False.
Proof.
  intros Hj Hd Hn Hs Hs'. apply swap_lookup in Hj as [[? _]|[(_ & _ & e & _ & _ & ->)|(_ & Hin & Hj)]];
    [done|done|].
  destruct (swap_source_at s Hs) as (i & x & Hi & Hx & Hxa & Hxin).
  assert (i = j) as -> by (by eapply (mo_applied _ _ Hok)). done.
Qed.

Lemma swap_same : same_ranges C C'.
Proof.
  eapply same_ranges_trans; [apply (same_ranges_supersede l)|].
  apply (same_ranges_insert _ _ c); try done. rewrite lookup_supersede, Hk. simpl.
  rewrite bool_decide_eq_false_2; [done|]. intros [_ ?]. congruence.
Qed.

Lemma swap_text j d : C' !! j = Some d → text_ok d.
Proof.
  intros [[-> ->]|[(_ & _ & e & He & Ha & ->)|(_ & _ & Hj)]]%swap_lookup; [| |by eapply mo_text].
  - pose proof (mo_text _ _ Hok k c Hk) as Ht. unfold text_ok in *. by rewrite Hp in Ht.
  - pose proof (mo_text _ _ Hok j e He) as Ht. unfold text_ok in *. by rewrite Ha in Ht.
Qed.

Lemma swap_upper j j' d d' s :
  C' !! j = Some d → C' !! j' = Some d' → mc_layer d = 2 → raw_status (mc_status d) = false →
  mc_layer d' = 1 → in_chunk d s → in_chunk d' s → mc_status d' = ChSuperseded.
Proof.
  intros Hj Hj' Hd Hr Hd' Hs Hs'.
  (* some block of the old table represents this position *)
  assert (∃ i x, C !! i = Some x ∧ raw_status (mc_status x) = false ∧ in_chunk x s ∧
    (mc_layer x = 2 ∨ i ∈ l)) as (i & x & Hx & Hxr & Hxs & Hxl).
  { apply swap_lookup in Hj as [[-> ->]|[(_ & Hin & e & He & Ha & ->)|(_ & _ & Hj)]].
    - destruct (swap_source_at s Hs) as (i & x & Hi & Hx & Ha & Hin).
      exists i, x. rewrite Ha. auto.
    - exists j, e. rewrite Ha. auto.
    - exists j, d. auto. }
  apply swap_lookup in Hj' as [[-> ->]|[(_ & _ & e & _ & _ & ->)|(_ & Hn & Hj')]]; [|done|].
  { simpl in Hd'. congruence. }
  destruct (mo_layer _ _ Hok i x Hx) as [[Hx1 _]|[Hx2 _]]; [|by eapply (mo_upper _ _ Hok i j')].
  destruct Hxl as [?|Hi]; [congruence|].
  assert (i = j') as -> by (by eapply (mo_tiles _ _ Hok)). done.
Qed.

Lemma swap_superseded j d s :
  C' !! j = Some d → mc_status d = ChSuperseded → in_chunk d s →
  ∃ k' c', C' !! k' = Some c' ∧ mc_status c' = ChApplied ∧ in_chunk c' s.
Proof.
  intros Hj Hd Hs.
  assert (in_chunk c s → ∃ k' c', C' !! k' = Some c' ∧ mc_status c' = ChApplied ∧ in_chunk c' s) as Hc.
  { intros Hc. exists k, (apply_chunk now c). split; [apply lookup_insert_eq|done]. }
  apply swap_lookup in Hj as [[-> ->]|[(_ & Hin & e & He & Ha & ->)|(_ & _ & Hj)]]; [done| |].
  - apply Hc. by eapply (swap_source_in j e).
  - destruct (mo_superseded _ _ Hok j d s Hj Hd Hs) as (i & x & Hx & Hxa & Hxs).
    destruct (decide (i ∈ l)) as [Hi|Hi]; [apply Hc; by eapply (swap_source_in i x)|].
    exists i, x. split; [|done]. apply swap_keeps; [done| |done]. intros ->. congruence.
Qed.

Lemma swap_ok : mem_ok n C'.
Proof.
  apply (mem_ok_same n C); [done|apply swap_same|exact swap_text| |exact swap_upper|exact swap_superseded].
  intros j j' d d' s Hj Hj' Hd Hd' Hs Hs'.
  destruct (decide (j = k)) as [->|Hn], (decide (j' = k)) as [->|Hn']; [done| | |].
  - assert (C' !! k = Some (apply_chunk now c)) as E by apply lookup_insert_eq.
    rewrite E in Hj. injection Hj as <-. by destruct (swap_applied_disjoint j' d' s).
  - assert (C' !! k = Some (apply_chunk now c)) as E by apply lookup_insert_eq.
    rewrite E in Hj'. injection Hj' as <-. by destruct (swap_applied_disjoint j d s).
  - apply swap_lookup in Hj as [[? _]|[(_ & _ & e & _ & _ & ->)|(_ & _ & Hj)]]; [done|done|].
    apply swap_lookup in Hj' as [[? _]|[(_ & _ & e & _ & _ & ->)|(_ & _ & Hj')]]; [done|done|].
    by eapply (mo_applied _ _ Hok).
Qed.

Lemma swap_hist : mem_hist C C'.
Proof.
  intros j d Hj. unfold C'. rewrite lookup_insert. case_decide as Hn.
  - subst j. assert (d = c) as -> by congruence. exists (apply_chunk now c). split; [done|].
    split; try done; rewrite Hp; done.
  - rewrite lookup_supersede, Hj. simpl. eexists. split; [done|].
    case_bool_decide as Hb; [|done]. destruct Hb as [_ Hb]. split; try done; [auto|congruence].
Qed.
End swap.

(** A new chunk that renders raw. *)
Lemma new_chunk_ok n C k c :
  mem_ok n C → C !! k = None → 0 < k → raw_status (mc_status c) = true → text_ok c →
  1 ≤ mc_first_seq c ∧ mc_first_seq c ≤ mc_last_seq c ≤ n →
  (mc_layer c = 1 ∧ mc_sources c = None ∧ mc_first_seq c = covered C + 1 ∨
   mc_layer c = 2 ∧ mc_last_seq c ≤ covered C ∧ ∃ l layer, mc_sources c = Some l ∧
     spans C layer l (mc_first_seq c) (mc_last_seq c)) →
  mem_ok n (<[k := c]> C).
Proof.
  intros H Hk H0 Hraw Ht Hrange Hkind.
  assert (∀ j d, <[k:=c]> C !! j = Some d → j = k ∧ d = c ∨ j ≠ k ∧ C !! j = Some d) as Hin.
  { intros j d. rewrite lookup_insert. case_decide; [subst; intros [= <-]|]; auto. }
  assert (∀ j d, C !! j = Some d → <[k:=c]> C !! j = Some d) as Hold.
  { intros j d Hj. rewrite lookup_insert_ne; [done|]. intros <-. congruence. }
  assert (covered (<[k:=c]> C) = Z.max (mc_last_seq c) (covered C)) as Hcov.
  { unfold covered. rewrite map_fold_insert_L; [done|intros; lia|done]. }
  (* a layer 1 chunk lies behind all others *)
  assert (mc_layer c = 1 → ∀ j d s, C !! j = Some d → in_chunk c s → in_chunk d s → False) as Hnew.
  { intros Hl j d s Hj Hs Hs'. pose proof (covered_le _ _ _ Hj). unfold in_chunk in *.
    destruct Hkind as [(_ & _ & ?)|(? & _)]; [lia|congruence]. }
  split.
  - intros j d [[-> ->]|[_ Hj]]%Hin; [done|by eapply mo_key].
  - intros j d [[-> ->]|[_ Hj]]%Hin; [done|by eapply mo_range].
  - intros j d Hj. apply Hin in Hj as [[-> ->]|[_ Hj]].
    + destruct Hkind as [(? & ? & _)|(? & _ & l & layer & ? & Hsp)]; [by left|]. right.
      split; [done|]. exists l, layer. split; [done|]. eapply spans_weaken; [|exact Hsp]. eauto 10.
    + destruct (mo_layer _ _ H j d Hj) as [?|(? & l & layer & ? & Hsp)]; [by left|]. right.
      split; [done|]. exists l, layer. split; [done|]. eapply spans_weaken; [|exact Hsp]. eauto 10.
  - intros j d [[-> ->]|[_ Hj]]%Hin; [done|by eapply mo_text].
  - intros j j' d d' s [[-> ->]|[_ Hj]]%Hin [[-> ->]|[_ Hj']]%Hin Hd Hd' Hs Hs'; [done| | |].
    + by destruct (Hnew Hd j' d' s).
    + by destruct (Hnew Hd' j d s).
    + by eapply (mo_tiles _ _ H).
  - intros s Hs. rewrite Hcov in Hs. destruct (decide (s ≤ covered C)) as [Hle|Hgt].
    + destruct (mo_cover _ _ H s) as (j & d & Hj & ? & ?); [lia|]. exists j, d. auto.
    + destruct Hkind as [(Hl & _ & Hf)|(_ & ? & _)]; [|lia]. exists k, c.
      split_and!; [apply lookup_insert_eq|done|]. unfold in_chunk. lia.
  - intros j j' d d' s [[-> ->]|[_ Hj]]%Hin [[-> ->]|[_ Hj']]%Hin Hd Hd'; [done| | |].
    + by rewrite Hd in Hraw.
    + by rewrite Hd' in Hraw.
    + by eapply (mo_applied _ _ H).
  - intros j j' d d' s [[-> ->]|[_ Hj]]%Hin [[-> ->]|[_ Hj']]%Hin Hd Hr Hd' Hs Hs'.
    + congruence.
    + congruence.
    + by destruct (Hnew Hd' j d s).
    + by eapply (mo_upper _ _ H j).
  - intros j d s [[-> ->]|[_ Hj]]%Hin Hd Hs; [by rewrite Hd in Hraw|].
    destruct (mo_superseded _ _ H j d s Hj Hd Hs) as (i & x & Hx & ?). exists i, x. auto.
Qed.

Lemma mem_step_ok b n C C' : mem_ok n C → mem_step b n C C' → mem_ok n C'.
Proof.
  intros H Hs. pose proof (λ k c Hk, proj1 (proj2 (mo_range _ _ H k c Hk))) as Hle.
  destruct Hs as [k c Hk H0 Hl Hsrc Hst Hf Hr|k c l layer Hk H0 Hl Hsrc Hst Hsp
    |k c now Hk Hl Hp|k c l now Hk Hl Hp Hsrc Ha|k c c' Hk Hr Hr' ? ? ? ? ? Ht ?].
  - assert (0 ≤ covered C).
    { destruct (covered_attained C) as [->|(j & d & Hj & ->)]; [lia|].
      pose proof (mo_range _ _ H j d Hj). lia. }
    apply new_chunk_ok; try done; rewrite ?Hst; try done; [by unfold text_ok; rewrite Hst|lia|by left].
  - destruct (spans_inside _ _ _ _ _ Hle Hsp) as [Hfl Hin].
    assert (1 ≤ mc_first_seq c ∧ mc_last_seq c ≤ covered C) as [Hfirst Hlast].
    { destruct (spans_point _ _ _ _ _ (mc_first_seq c) Hsp ltac:(lia)) as (j & d & Hj & Hd & _ & Hd1).
      destruct (spans_point _ _ _ _ _ (mc_last_seq c) Hsp ltac:(lia)) as (j' & d' & Hj' & Hd' & _ & Hd2).
      pose proof (mo_range _ _ H j d Hd). pose proof (covered_le _ _ _ Hd').
      destruct (Hin j Hj) as (x & Hx & _ & ? & ?). unfold in_chunk in *.
      assert (x = d) as -> by congruence. lia. }
    assert (covered C ≤ n).
    { destruct (covered_attained C) as [E|(j & d & Hj & E)]; [lia|].
      pose proof (mo_range _ _ H j d Hj). lia. }
    apply new_chunk_ok; try done; rewrite ?Hst; try done;
      [by unfold text_ok; rewrite Hst|lia|right]. eauto 10.
  - by apply apply_ok.
  - by apply swap_ok.
  - eapply local_ok; try done. by eapply same_ranges_insert.
Qed.

Lemma insert_hist C k c :
  (∀ d, C !! k = Some d → chunk_hist d c) → mem_hist C (<[k := c]> C).
Proof.
  intros H j d Hj. destruct (decide (j = k)) as [->|Hn].
  - exists c. split; [apply lookup_insert_eq|auto].
  - exists d. by rewrite lookup_insert_ne.
Qed.

Lemma mem_step_hist b n C C' : mem_step b n C C' → mem_hist C C'.
Proof.
  intros [k c Hk|k c l layer Hk|k c now Hk Hl Hp|k c l now Hk Hl Hp Hsrc Ha|k c c' Hk Hr Hr' ? ? ? ? ? Ht ?].
  - apply insert_hist. congruence.
  - apply insert_hist. congruence.
  - apply insert_hist. intros d Hd. assert (d = c) as -> by congruence. split; simpl; congruence.
  - by apply swap_hist.
  - apply insert_hist. intros d Hd. assert (d = c) as -> by congruence.
    split; try done; intros E; by rewrite E in Hr.
Qed.

(** Appending to the journal only makes room. *)
Lemma mem_ok_grow n n' C : n ≤ n' → mem_ok n C → mem_ok n' C.
Proof.
  intros Hn H. split; try apply H. intros k c Hk. pose proof (mo_range _ _ H k c Hk). lia.
Qed.
Lemma mem_ok_empty n : mem_ok n ∅.
Proof.
  split; try (intros *; by rewrite lookup_empty). intros s. unfold covered.
  rewrite map_fold_empty. lia.
Qed.

(** Any number of steps. *)
Lemma mem_steps b n C C' : rtc (mem_step b n) C C' → mem_ok n C → mem_ok n C' ∧ mem_hist C C'.
Proof.
  induction 1 as [|C1 C2 C3 Hs _ IH]; intros H; [done|].
  destruct (IH (mem_step_ok _ _ _ _ H Hs)) as [? ?]. split; [done|].
  etrans; [by eapply mem_step_hist|done].
Qed.

(** ** Preparation *)

(** One chunk at a time is in preparation, and it has its branch. *)
Record prep_ok (C : gmap Z MemoryChunk) (B : gmap Z BranchRow) : Prop := {
  po_one : ∀ k k' c c', C !! k = Some c → C !! k' = Some c' →
    mc_status c = ChPreparing → mc_status c' = ChPreparing → k = k';
  po_branch : ∀ k c, C !! k = Some c → mc_status c = ChPreparing → is_Some (B !! k);
  po_chunk : ∀ k, is_Some (B !! k) → is_Some (C !! k)
}.

Lemma quiet_step n C C' :
  mem_step false n C C' →
  (∀ k c, C' !! k = Some c → mc_status c = ChPreparing → C !! k = Some c) ∧
  (∀ k, is_Some (C !! k) → is_Some (C' !! k)).
Proof.
  intros Hs. split.
  - destruct Hs as [k c Hk H0 Hl Hsrc Hst|k c l layer Hk H0 Hl Hsrc Hst|k c now Hk Hl Hp
      |k c l now Hk Hl Hp Hsrc Ha|k c c' Hk Hr Hr' ? ? ? ? ? Ht Hq]; intros j d; rewrite lookup_insert;
      case_decide; try (by auto); subst.
    + intros [= <-]. congruence.
    + intros [= <-]. congruence.
    + by intros [= <-].
    + by intros [= <-].
    + intros (e & He & [[-> _]|(_ & _ & ->)])%supersede_inv; [done|]. done.
    + intros [= <-] Hpr. destruct (Hq Hpr) as [Hb|Hb]; [done|congruence].
  - intros k [c Hk]. destruct (mem_step_hist _ _ _ _ Hs k c Hk) as (c' & Hc' & _). by exists c'.
Qed.
Lemma quiet_prep n C C' B : rtc (mem_step false n) C C' → prep_ok C B → prep_ok C' B.
Proof.
  induction 1 as [|C1 C2 C3 Hs _ IH]; intros H; [done|]. apply IH.
  destruct (quiet_step _ _ _ Hs) as [Hq Hd]. split.
  - intros k k' c c' Hk Hk' Hc Hc'. eapply (po_one _ _ H); eauto.
  - intros k c Hk Hc. eapply (po_branch _ _ H); eauto.
  - intros k Hk. apply Hd. by apply (po_chunk _ _ H).
Qed.

(** A rewrite of every row at once that leaves ranges, standing and text as
    they are. *)
Definition same_standing (c c' : MemoryChunk) : Prop :=
  mc_layer c' = mc_layer c ∧ mc_sources c' = mc_sources c ∧ mc_first_seq c' = mc_first_seq c ∧
  mc_last_seq c' = mc_last_seq c ∧ mc_est_tokens c' = mc_est_tokens c ∧ mc_status c' = mc_status c ∧
  mc_replacement c' = mc_replacement c ∧
  mc_replacement_est_tokens c' = mc_replacement_est_tokens c.

Lemma standing_map_steps n (f : MemoryChunk → MemoryChunk) C :
  mem_ok n C →
  (∀ k c, C !! k = Some c → f c = c ∨ mc_status c = ChSealed ∧ same_standing c (f c)) →
  rtc (mem_step false n) C (f <$> C).
Proof.
  intros HC Hf.
  assert (∀ D, D ⊆ C → rtc (mem_step false n) C ((f <$> D) ∪ C)) as Hsub.
  { intros D. induction D as [|k c D Hk IH] using map_ind; intros HD.
    - rewrite fmap_empty, map_empty_union. apply rtc_refl.
    - assert (C !! k = Some c) as Hc by (eapply lookup_weaken; [|exact HD]; apply lookup_insert_eq).
      etrans; [apply IH; etrans; [by apply insert_subseteq|done]|].
      rewrite fmap_insert, <-insert_union_l.
      assert (((f <$> D) ∪ C) !! k = Some c) as Hkc.
      { rewrite lookup_union_r; [done|]. by rewrite lookup_fmap, Hk. }
      destruct (Hf k c Hc) as [->|(Hs & ? & ? & ? & ? & ? & Est & ? & ?)].
      { rewrite insert_id by done. apply rtc_refl. }
      apply rtc_once. apply (step_local _ _ _ k c); rewrite ?Est, ?Hs; try done.
      unfold text_ok. by rewrite Est, Hs. }
  specialize (Hsub C (reflexivity C)). replace (f <$> C) with ((f <$> C) ∪ C); [done|].
  apply map_eq. intros k. rewrite lookup_union, !lookup_fmap. by destruct (C !! k).
Qed.
