(* ===== verification/State.v ===== *)
(** * The canonical state of the secretary state service

    Data of package [agentstate]: the rows of the PostgreSQL tables and the
    requests and results of the API, with the statuses the tables' CHECK
    constraints allow.  All tables whose primary key starts with
    [persona_id] (and that reference [core_personas]) are grouped by persona
    in a [PersonaRow]; the remaining ones are in [DB].  Times are
    microseconds since the epoch; [now] is an argument of each operation.
    The [admission_seq] identity is a counter per persona, since only the
    order of a persona's own inputs is ever compared. *)

From Stdlib Require Import ZArith.
From S2P Require Import Prelude Json TerminalState MemoryState.
Local Open Scope string_scope.
Local Open Scope list_scope.
Local Open Scope Z_scope.

(** ** Errors

    The sentinel errors of the package.  [ErrBadRequest] carries the full
    text, which the ledger and the journal keep.  [PgData] is a PostgreSQL
    class 22 or 23514 error, [PgError] any other database error (such as a
    unique violation).  [ErrBadData] is a bad request that wraps a
    PostgreSQL data error: it differs from the others in that the failed
    statement has aborted the transaction. *)
Inductive err :=
| ErrPersonaNotFound | ErrWriterHeld | ErrGenerationFence | ErrInputNotFound
| ErrTurnNotFound | ErrTurnConflict | ErrOpNotFound
| ErrUnknownTool (tool : string)
| ErrBadRequest (text : string)
| ErrBadData (text : string)
| ErrPersonaInactive (authority : string)
| ErrPersonaBound
| ErrApprovalNotFound | ErrApprovalConflict | ErrApprovalDecidedBy | ErrApprovalForbidden
| ErrJobNotFound | ErrJobConflict | ErrJobNotClaimed
| ErrUsageFactConflict | ErrFundingNotFound | ErrFundingForbidden
| ErrTerminalNotFound | ErrTerminalNotClaimed | ErrTerminalNotLive | ErrTerminalEnded
| ErrTerminalControl | ErrTerminalCapacity
| ErrTerminalBackend (backend : string)
| ErrTerminalLaunchFenced
| ErrMemoryConflict (text : string)
| ErrChunkNotFound
| PgData (text : string)
| PgError (text : string).
#[global] Instance err_dec : EqDecision err.
Proof. solve_decision. Defined.

Definition badreq (detail : string) : err := ErrBadRequest ("bad request: " +:+ detail).

(** The inactive authorities; the terminal 'transferred' one wraps
    ErrPersonaTransferred as well, which is the argument here. *)
Definition inactiveAuthorityError (authority : string) : err :=
  ErrPersonaInactive authority.

(** [err.Error()]; the details some sentinels are wrapped with are not kept. *)
Definition err_text (e : err) : string :=
  match e with
  | ErrBadRequest m | ErrBadData m | PgData m | PgError m => m
  | ErrUnknownTool t => "unknown tool: " +:+ t
  | ErrPersonaInactive a =>
      if bool_decide (a = "transferred")
      then "persona is not active in this placement: persona transferred to another placement"
      else "persona is not active in this placement: persona authority is " +:+ a
  | ErrPersonaNotFound => "persona not found"
  | ErrWriterHeld => "writer lease held by another live holder"
  | ErrGenerationFence => "writer generation fenced"
  | ErrInputNotFound => "input not found"
  | ErrTurnNotFound => "turn not found"
  | ErrTurnConflict => "conflicting turn state"
  | ErrOpNotFound => "operation not found"
  | ErrPersonaBound => "persona is already bound to a different human"
  | ErrApprovalNotFound => "approval not found"
  | ErrApprovalConflict => "conflicting approval decision"
  | ErrApprovalDecidedBy => "approval decision must identify the deciding human"
  | ErrApprovalForbidden => "approval decision not permitted for this human"
  | ErrJobNotFound => "job not found"
  | ErrJobConflict => "conflicting job state"
  | ErrJobNotClaimed => "job is not claimed by this runner"
  | ErrUsageFactConflict => "conflicting usage fact"
  | ErrFundingNotFound => "funding source not found"
  | ErrFundingForbidden => "funding source is not yours"
  | ErrTerminalNotFound => "terminal session not found"
  | ErrTerminalNotClaimed => "terminal session is not claimed by this runner or epoch"
  | ErrTerminalNotLive => "terminal session has no live claim"
  | ErrTerminalEnded => "terminal session has ended"
  | ErrTerminalControl => "terminal session is under exclusive human control"
  | ErrTerminalCapacity => "terminal session capacity exhausted"
  | ErrTerminalBackend b => "terminal backend is not running in this deployment: " +:+ b
  | ErrTerminalLaunchFenced => "persona or terminal session does not admit this launch"
  | ErrMemoryConflict m => "conflicting memory state: " +:+ m
  | ErrChunkNotFound => "memory chunk not found"
  end.

(** NUL in a value bound for [jsonb]. *)
Definition nul_error : err := PgData "unsupported Unicode escape sequence".

(** Deterministic data errors become bad requests. *)
Definition dataErr (e : err) : err :=
  match e with PgData m => ErrBadData ("bad request: " +:+ m) | e => e end.
Definition isBadRequest (e : err) : bool :=
  match e with ErrBadRequest _ | ErrBadData _ => true | _ => false end.
Definition isDataError (e : err) : bool :=
  match e with PgData _ => true | _ => false end.

(** The library functions whose results the model does not look into: Go's
    crypto/sha256 with hex, encoding/json, time, strconv, fmt and
    strings.TrimSpace, and
    PostgreSQL's cast of a text to [uuid] (its canonical text, or none when
    the text is not one). *)
Class GoLib := {
  sha256_hex : string → string;
  json_Marshal : json → string;
  time_Marshal : Z → string;
  time_Parse : string → option Z;
  strconv_Quote : string → string;
  fmt_Sprint : json → string;
  strings_TrimSpace : string → string;
  pg_uuid : string → option string
}.

(** ** Statuses *)

Inductive Authority := Active | Sealed | Staged | Transferred.
Inductive InputStatus := Queued | Claimed | Waiting | InputDone.
Inductive TurnStatus := TurnRunning | TurnAwaiting | TurnDone | TurnInterrupted | TurnFailed.
Inductive OpStatus := OpRunning | OpAwaitingApproval | OpDone | OpFailed.
Inductive ApprovalStatus := Pending | Approved | Denied.
Inductive ScheduleStatus := SchPending | SchClaimed | SchFired | SchCancelled | SchExpired.
Inductive JobStatus :=
| JobQueued | JobRunning | JobCancelRequested | JobDone | JobFailed | JobCancelled | JobLost.
Inductive ReservationStatus := Held | Settled | Released.
Inductive FactStatus := Reported | Unknown | NotSent | Unrecorded.

#[global] Instance authority_dec : EqDecision Authority.
Proof. solve_decision. Defined.
#[global] Instance input_status_dec : EqDecision InputStatus.
Proof. solve_decision. Defined.
#[global] Instance turn_status_dec : EqDecision TurnStatus.
Proof. solve_decision. Defined.
#[global] Instance op_status_dec : EqDecision OpStatus.
Proof. solve_decision. Defined.
#[global] Instance approval_status_dec : EqDecision ApprovalStatus.
Proof. solve_decision. Defined.
#[global] Instance schedule_status_dec : EqDecision ScheduleStatus.
Proof. solve_decision. Defined.
#[global] Instance job_status_dec : EqDecision JobStatus.
Proof. solve_decision. Defined.
#[global] Instance reservation_status_dec : EqDecision ReservationStatus.
Proof. solve_decision. Defined.
#[global] Instance fact_status_dec : EqDecision FactStatus.
Proof. solve_decision. Defined.

Definition authority_text (a : Authority) : string :=
  match a with
  | Active => "active" | Sealed => "sealed" | Staged => "staged"
  | Transferred => "transferred"
  end.
Definition job_status_text (s : JobStatus) : string :=
  match s with
  | JobQueued => "queued" | JobRunning => "running"
  | JobCancelRequested => "cancel_requested" | JobDone => "done"
  | JobFailed => "failed" | JobCancelled => "cancelled" | JobLost => "lost"
  end.
Definition schedule_status_text (s : ScheduleStatus) : string :=
  match s with
  | SchPending => "pending" | SchClaimed => "claimed" | SchFired => "fired"
  | SchCancelled => "cancelled" | SchExpired => "expired"
  end.

(** ** Rows *)

Record Persona := mkPersona {
  p_human_id : option string;
  p_display_name : string;
  p_created_at : Z;
  p_authority : Authority;
  p_transfer_id : option string;
  p_model_intent : option json
}.
#[global] Instance eta_persona : Eta Persona := λ r,
  mkPersona (p_human_id r) (p_display_name r) (p_created_at r) (p_authority r)
    (p_transfer_id r) (p_model_intent r).

Record WriterLease := mkLease {
  l_generation : Z;
  l_holder_id : string;
  l_acquired_at : Z;
  l_expires_at : Z
}.
#[global] Instance eta_lease : Eta WriterLease := λ r,
  mkLease (l_generation r) (l_holder_id r) (l_acquired_at r) (l_expires_at r).

Record Input := mkInput {
  in_id : string;
  in_kind : string;
  in_payload : obj;
  in_actor_kind : string;
  in_actor_id : string;
  in_source_surface : string;
  in_thread_id : string;
  in_occurred_at : option Z;
  in_attention : string;
  in_status : InputStatus;
  in_claimed_generation : option Z;
  in_turn_id : option string;
  in_created_at : Z;
  in_done_at : option Z;
  in_not_before : option Z;
  in_received_seq : option Z;
  in_admission_seq : Z;
  in_waiting_since : option Z;
  in_waited_ms : Z
}.
#[global] Instance eta_input : Eta Input := λ r,
  mkInput (in_id r) (in_kind r) (in_payload r) (in_actor_kind r) (in_actor_id r)
    (in_source_surface r) (in_thread_id r) (in_occurred_at r) (in_attention r)
    (in_status r) (in_claimed_generation r) (in_turn_id r) (in_created_at r)
    (in_done_at r) (in_not_before r) (in_received_seq r) (in_admission_seq r)
    (in_waiting_since r) (in_waited_ms r).

Record EventInput := mkEventInput { ei_kind : string; ei_payload : obj }.
#[global] Instance event_input_dec : EqDecision EventInput.
Proof. solve_decision. Defined.

Record Event := mkEvent {
  ev_seq : Z;
  ev_turn_id : string;
  ev_kind : string;
  ev_payload : obj;
  ev_created_at : Z
}.

Record FundingRef := mkFunding {
  f_kind : string; f_id : string; f_version : string; f_model : string; f_provider : string
}.
#[global] Instance funding_dec : EqDecision FundingRef.
Proof. solve_decision. Defined.

Record UsageEstimate := mkEstimate {
  est_input_tokens : Z;
  est_output_bound : option Z
}.
#[global] Instance estimate_dec : EqDecision UsageEstimate.
Proof. solve_decision. Defined.

Record CommitWait := mkWait {
  w_kind : string; w_funding : FundingRef; w_estimate : option UsageEstimate
}.
#[global] Instance commit_wait_dec : EqDecision CommitWait.
Proof. solve_decision. Defined.

Record CommitRequest := mkCommit {
  cr_outcome : string;
  cr_events : option (list EventInput);
  cr_output : option obj;
  cr_usage : option obj;
  cr_error : string;
  cr_retryable : bool;
  cr_error_kind : string;
  cr_retry_after_ms : Z;
  cr_wait : option CommitWait
}.
#[global] Instance eta_commit : Eta CommitRequest := λ r,
  mkCommit (cr_outcome r) (cr_events r) (cr_output r) (cr_usage r) (cr_error r)
    (cr_retryable r) (cr_error_kind r) (cr_retry_after_ms r) (cr_wait r).
#[global] Instance commit_request_dec : EqDecision CommitRequest.
Proof. solve_decision. Defined.

Record Turn := mkTurn {
  tu_id : string;
  tu_input_id : string;
  tu_generation : Z;
  tu_attempt : Z;
  tu_status : TurnStatus;
  tu_started_at : Z;
  tu_finished_at : option Z;
  tu_output : option obj;
  tu_usage : option obj;
  tu_error : option string;
  tu_commit_request : option CommitRequest
}.
#[global] Instance eta_turn : Eta Turn := λ r,
  mkTurn (tu_id r) (tu_input_id r) (tu_generation r) (tu_attempt r) (tu_status r)
    (tu_started_at r) (tu_finished_at r) (tu_output r) (tu_usage r) (tu_error r)
    (tu_commit_request r).

Record PlanCall := mkCall {
  pc_call_id : string; pc_tool : string; pc_route : string; pc_request : obj
}.
#[global] Instance plan_call_dec : EqDecision PlanCall.
Proof. solve_decision. Defined.

Record Decision := mkDecision {
  d_text : string;
  d_calls : list PlanCall;
  d_usage : obj;
  d_continuation : option json
}.
#[global] Instance eta_decision : Eta Decision := λ r,
  mkDecision (d_text r) (d_calls r) (d_usage r) (d_continuation r).
#[global] Instance decision_dec : EqDecision Decision.
Proof. solve_decision. Defined.

Record TurnPlan := mkPlan {
  tp_turn_id : string;
  tp_generation : Z;
  tp_plan : list Decision;
  tp_created_at : Z
}.
#[global] Instance eta_plan : Eta TurnPlan := λ r,
  mkPlan (tp_turn_id r) (tp_generation r) (tp_plan r) (tp_created_at r).

Record Operation := mkOp {
  op_id : string;
  op_turn_id : string;
  op_tool : string;
  op_idempotency_key : string;
  op_request : obj;
  op_status : OpStatus;
  op_response : option obj;
  op_claimed_generation : Z;
  op_created_at : Z;
  op_completed_at : option Z
}.
#[global] Instance eta_op : Eta Operation := λ r,
  mkOp (op_id r) (op_turn_id r) (op_tool r) (op_idempotency_key r) (op_request r)
    (op_status r) (op_response r) (op_claimed_generation r) (op_created_at r)
    (op_completed_at r).

Record ToolApproval := mkApproval {
  ap_id : string;
  ap_input_id : string;
  ap_call_index : Z;
  ap_operation_id : string;
  ap_turn_id : string;
  ap_tool : string;
  ap_route : string;
  ap_required_by : string;
  ap_request : obj;
  ap_action_digest : string;
  ap_status : ApprovalStatus;
  ap_decision : option string;
  ap_decision_id : option string;
  ap_decided_by_kind : option string;
  ap_decided_by_id : option string;
  ap_provenance : option string;
  ap_decided_at : option Z;
  ap_consumed_at : option Z;
  ap_prior_decision : option string;
  ap_prior_decided_by_kind : option string;
  ap_prior_decided_by_id : option string;
  ap_prior_decided_at : option Z;
  ap_created_at : Z
}.
#[global] Instance eta_approval : Eta ToolApproval := λ r,
  mkApproval (ap_id r) (ap_input_id r) (ap_call_index r) (ap_operation_id r)
    (ap_turn_id r) (ap_tool r) (ap_route r) (ap_required_by r) (ap_request r)
    (ap_action_digest r) (ap_status r) (ap_decision r) (ap_decision_id r)
    (ap_decided_by_kind r) (ap_decided_by_id r) (ap_provenance r) (ap_decided_at r)
    (ap_consumed_at r) (ap_prior_decision r) (ap_prior_decided_by_kind r)
    (ap_prior_decided_by_id r) (ap_prior_decided_at r) (ap_created_at r).

Record Schedule := mkSchedule {
  sc_id : string;
  sc_wake_at : Z;
  sc_payload : obj;
  sc_miss_policy : string;
  sc_status : ScheduleStatus;
  sc_claimed_generation : option Z;
  sc_created_at : Z;
  sc_fired_at : option Z
}.
#[global] Instance eta_schedule : Eta Schedule := λ r,
  mkSchedule (sc_id r) (sc_wake_at r) (sc_payload r) (sc_miss_policy r) (sc_status r)
    (sc_claimed_generation r) (sc_created_at r) (sc_fired_at r).

Record OutboxEntry := mkOutbox {
  ob_seq : Z;
  ob_kind : string;
  ob_payload : obj;
  ob_created_at : Z;
  ob_delivered_at : option Z
}.

Record Job := mkJob {
  j_id : string;
  j_kind : string;
  j_request : obj;
  j_status : JobStatus;
  j_claimed_by : option string;
  j_claim_expires_at : option Z;
  j_created_by : string;
  j_created_at : Z;
  j_started_at : option Z;
  j_finished_at : option Z;
  j_cancel_requested_at : option Z;
  j_result : option obj;
  j_error : option string;
  j_notified_at : option Z
}.
#[global] Instance eta_job : Eta Job := λ r,
  mkJob (j_id r) (j_kind r) (j_request r) (j_status r) (j_claimed_by r)
    (j_claim_expires_at r) (j_created_by r) (j_created_at r) (j_started_at r)
    (j_finished_at r) (j_cancel_requested_at r) (j_result r) (j_error r)
    (j_notified_at r).

(** *** Usage accounting *)

Record UsageBudget := mkBudget {
  b_limit_minor : Z;
  b_currency : string;
  b_rate_input : Z;
  b_rate_output : Z;
  b_rate_cached : option Z;
  b_pricing_revision : string;
  b_updated_at : Z
}.

Record Reservation := mkReservation {
  rs_kind : string;
  rs_phase : string;
  rs_turn_id : option string;
  rs_input_id : option string;
  rs_round : Z;
  rs_funding : FundingRef;
  rs_reserved_minor : Z;
  rs_currency : option string;
  rs_bounded : bool;
  rs_est_input_tokens : Z;
  rs_est_output_bound : option Z;
  rs_rate_input : option Z;
  rs_rate_output : option Z;
  rs_rate_cached : option Z;
  rs_pricing_revision : option string;
  rs_generation : Z;
  rs_status : ReservationStatus;
  rs_created_at : Z;
  rs_settled_at : option Z
}.
#[global] Instance eta_reservation : Eta Reservation := λ r,
  mkReservation (rs_kind r) (rs_phase r) (rs_turn_id r) (rs_input_id r) (rs_round r)
    (rs_funding r) (rs_reserved_minor r) (rs_currency r) (rs_bounded r)
    (rs_est_input_tokens r) (rs_est_output_bound r) (rs_rate_input r)
    (rs_rate_output r) (rs_rate_cached r) (rs_pricing_revision r) (rs_generation r)
    (rs_status r) (rs_created_at r) (rs_settled_at r).

Record UsageFact := mkFact {
  uf_kind : string;
  uf_phase : string;
  uf_turn_id : option string;
  uf_input_id : option string;
  uf_round : option Z;
  uf_funding : FundingRef;
  uf_status : FactStatus;
  uf_input_tokens : option Z;
  uf_output_tokens : option Z;
  uf_cached_tokens : option Z;
  uf_quantities : obj;
  uf_cost_minor : option Z;
  uf_currency : option string;
  uf_cost_basis : option string;
  uf_pricing_revision : option string;
  uf_recorded_at : Z
}.
#[global] Instance eta_fact : Eta UsageFact := λ r,
  mkFact (uf_kind r) (uf_phase r) (uf_turn_id r) (uf_input_id r) (uf_round r)
    (uf_funding r) (uf_status r) (uf_input_tokens r) (uf_output_tokens r)
    (uf_cached_tokens r) (uf_quantities r) (uf_cost_minor r) (uf_currency r)
    (uf_cost_basis r) (uf_pricing_revision r) (uf_recorded_at r).

Record BudgetWaitRow := mkWaitRow {
  bw_turn_id : string;
  bw_funding_kind : string;
  bw_funding_id : string;
  bw_needed_minor : Z;
  bw_currency : string;
  bw_estimate : UsageEstimate;
  bw_created_at : Z
}.
#[global] Instance eta_wait_row : Eta BudgetWaitRow := λ r,
  mkWaitRow (bw_turn_id r) (bw_funding_kind r) (bw_funding_id r) (bw_needed_minor r)
    (bw_currency r) (bw_estimate r) (bw_created_at r).

(** ** A persona's tables and the database *)

Record PersonaRow := mkRow {
  ps_persona : Persona;
  ps_lease : option WriterLease;
  ps_inputs : gmap string Input;                   (* by input_id *)
  ps_turns : gmap string Turn;                     (* by turn_id *)
  ps_plans : gmap string TurnPlan;                 (* by input_id *)
  ps_ops : gmap string Operation;                  (* by operation_id *)
  ps_approvals : gmap (string * Z) ToolApproval;   (* by input_id, call_index *)
  ps_schedules : gmap string Schedule;             (* by schedule_id *)
  ps_jobs : gmap string Job;                       (* by job_id *)
  ps_events : list Event;                          (* in seq order *)
  ps_outbox : list OutboxEntry;                    (* in seq order *)
  ps_waits : gmap string BudgetWaitRow;            (* by input_id *)
  ps_chunks : gmap Z MemoryChunk;                  (* by chunk_seq *)
  ps_branches : gmap Z BranchRow;                  (* by chunk_seq *)
  ps_reservations : gmap string Reservation;       (* by fact_id *)
  ps_facts : gmap string UsageFact;                (* by fact_id *)
  ps_terms : gmap string Term;                     (* by session_id *)
  ps_next_admission : Z
}.
#[global] Instance eta_row : Eta PersonaRow := λ r,
  mkRow (ps_persona r) (ps_lease r) (ps_inputs r) (ps_turns r) (ps_plans r) (ps_ops r)
    (ps_approvals r) (ps_schedules r) (ps_jobs r) (ps_events r) (ps_outbox r)
    (ps_waits r) (ps_chunks r) (ps_branches r) (ps_reservations r) (ps_facts r)
    (ps_terms r) (ps_next_admission r).

Record Grant := mkGrant { g_human_id : string; g_revoked_at : option Z }.
Record Selection := mkSelection { sel_kind : string; sel_connection_id : string }.

Record DB := mkDB {
  db_personas : gmap string PersonaRow;
  db_humans : gset string;
  db_budgets : gmap (string * string) UsageBudget;  (* funding kind, id *)
  db_connections : gmap string string;              (* connection_id, human_id *)
  db_grants : gmap string Grant;                    (* funding_id *)
  db_selections : gmap string Selection             (* human_id *)
}.
#[global] Instance eta_db : Eta DB := λ r,
  mkDB (db_personas r) (db_humans r) (db_budgets r) (db_connections r) (db_grants r)
    (db_selections r).

(** A transaction on one persona's tables, and on the whole database. *)
Abbreviation ptx := (M err PersonaRow).
Abbreviation tx := (M err DB).

Definition empty_row (p : Persona) : PersonaRow :=
  mkRow p None ∅ ∅ ∅ ∅ ∅ ∅ ∅ [] [] ∅ ∅ ∅ ∅ ∅ ∅ 1.

(** Run a persona transaction on persona [p]; [missing] is what the code
    reports when the persona's rows are not there. *)
Definition with_persona {A} (p : string) (missing : err) (m : ptx A) : tx A := λ db,
  match db_personas db !! p with
  | None => Err missing
  | Some row =>
      match m row with
      | Ok (a, row') => Ok (a, db <| db_personas := <[p := row']> (db_personas db) |>)
      | Err e => Err e
      end
  end.

Lemma with_persona_ok {A} p missing (m : ptx A) db a db' :
  with_persona p missing m db = Ok (a, db') →
  ∃ row row', db_personas db !! p = Some row ∧ m row = Ok (a, row') ∧
    db' = db <| db_personas := <[p := row']> (db_personas db) |>.
Proof.
  unfold with_persona. destruct (db_personas db !! p) as [row|]; [|done].
  destruct (m row) as [[a' row']|e] eqn:Hm; [|done]. intros [= -> <-]. eauto 10.
Qed.

(** The same where a missing persona simply has no rows. *)
Definition with_persona_or {A} (p : string) (d : A) (m : ptx A) : tx A := λ db,
  match db_personas db !! p with
  | None => Ok (d, db)
  | Some _ => with_persona p ErrPersonaNotFound m db
  end.

(** ** Single-table writes *)

Definition upd_input (i : string) (f : Input → Input) (row : PersonaRow) : PersonaRow :=
  row <| ps_inputs ::= alter f i |>.
Definition upd_turn (t : string) (f : Turn → Turn) (row : PersonaRow) : PersonaRow :=
  row <| ps_turns ::= alter f t |>.
Definition upd_op (o : string) (f : Operation → Operation) (row : PersonaRow) : PersonaRow :=
  row <| ps_ops ::= alter f o |>.
Definition upd_job (j : string) (f : Job → Job) (row : PersonaRow) : PersonaRow :=
  row <| ps_jobs ::= alter f j |>.

(** [INSERT INTO core_outbox ... SELECT COALESCE(MAX(seq), 0) + 1]; returns
    the new seq. *)
Definition append_outbox (now : Z) (kind : string) (payload : obj) : ptx Z := λ row,
  let n := max_seq ob_seq (ps_outbox row) + 1 in
  if jsonb_ok (JObj payload) then
    Ok (n, row <| ps_outbox := ps_outbox row ++ [mkOutbox n kind payload now None] |>)
  else Err (PgData "unsupported Unicode escape sequence").

(** [INSERT INTO core_inputs ... ON CONFLICT (persona_id, input_id) DO
    NOTHING]; reports whether a row was inserted. *)
Definition insert_input (mk : Z → Input) : ptx bool := λ row,
  let i := mk (ps_next_admission row) in
  match ps_inputs row !! in_id i with
  | Some _ => Ok (false, row)
  | None => Ok (true, row <| ps_inputs := <[in_id i := i]> (ps_inputs row) |>
                          <| ps_next_admission ::= Z.succ |>)
  end.

(** The persona's running turn ([core_turns_one_running]: at most one). *)
Definition running_turns (row : PersonaRow) : list (string * Turn) :=
  filter (λ kt, tu_status kt.2 = TurnRunning) (map_to_list (ps_turns row)).
Definition running_turn (row : PersonaRow) : option (string * Turn) :=
  head (running_turns row).

Lemma running_turn_Some row tid t :
  running_turn row = Some (tid, t) → ps_turns row !! tid = Some t ∧ tu_status t = TurnRunning.
Proof.
  unfold running_turn. intros H%head_Some_elem_of.
  apply list_elem_of_filter in H as [? H%elem_of_map_to_list]. done.
Qed.

Lemma running_turn_None row tid t :
  running_turn row = None → ps_turns row !! tid = Some t → tu_status t ≠ TurnRunning.
Proof.
  unfold running_turn. intros H%head_None Ht Hr.
  assert ((tid, t) ∈ running_turns row) as Hin.
  { apply list_elem_of_filter. split; [done|]. by apply elem_of_map_to_list. }
  rewrite H in Hin. by apply not_elem_of_nil in Hin.
Qed.
