(* ===== verification/Personas.v ===== *)
(** * Personas and the writer lease

    [store.go]: persona creation, binding to a human, the model intent, and
    the writer lease whose generation fences every mutation of the core.
    Operations on one persona are [ptx]; those that also read other tables,
    or that create the persona, are [tx]. *)

From Stdlib Require Import ZArith Lia.
From S2P Require Import Prelude Json State.
Local Open Scope string_scope.
Local Open Scope list_scope.
Local Open Scope Z_scope.

(** ** The fence *)

Definition requireGeneration (generation : Z) : ptx unit := λ row,
  match ps_lease row with
  | None => Err ErrGenerationFence
  | Some l =>
      if negb (l_generation l =? generation) then Err ErrGenerationFence
      else if bool_decide (p_authority (ps_persona row) ≠ Active) then Err ErrGenerationFence
      else Ok (tt, row)
  end.

(** A fenced call on persona [p]: without a lease row there is no fence to
    pass, so a persona that does not exist is fenced too. *)
Definition fenced {A} (p : string) (generation : Z) (m : ptx A) : tx A :=
  with_persona p ErrGenerationFence (requireGeneration generation ;; m).

(** ** Personas *)

Definition bindHuman (p humanID : string) : tx Persona := λ db,
  if bool_decide (humanID ∈ db_humans db) then
    match db_personas db !! p with
    | None => Err ErrPersonaNotFound
    | Some row =>
        let per := ps_persona row in
        match p_human_id per with
        | None =>
            if bool_decide (p_authority per = Staged ∨ p_authority per = Active) then
              let per' := per <| p_human_id := Some humanID |> in
              Ok (per', db <| db_personas ::= <[p := row <| ps_persona := per' |>]> |>)
            else Err (inactiveAuthorityError (authority_text (p_authority per)))
        | Some h =>
            if bool_decide (h = humanID) then Ok (per, db) else Err ErrPersonaBound
        end
    end
  else Err (badreq ("human " +:+ humanID +:+ " does not exist")).

(** The human_id column references [humans]. *)
Definition fk_human (db : DB) (humanID : option string) : bool :=
  match humanID with None => true | Some h => bool_decide (h ∈ db_humans db) end.

Definition EnsurePersona (now : Z) (p : string) (humanID : option string)
    (displayName : string) : tx (Persona * bool) := λ db,
  match db_personas db !! p with
  | None =>
      if fk_human db humanID then
        let per := mkPersona humanID displayName now Active None None in
        Ok ((per, true), db <| db_personas ::= <[p := empty_row per]> |>)
      else Err (PgError "core_personas_human_id_fkey")
  | Some row =>
      let per := ps_persona row in
      match humanID with
      | None => Ok ((per, false), db)
      | Some h =>
          match p_human_id per with
          | None =>
              match bindHuman p h db with
              | Ok (_, db') => Ok ((per <| p_human_id := Some h |>, false), db')
              | Err e => Err e
              end
          | Some h' =>
              if bool_decide (h' = h) then Ok ((per, false), db) else Err ErrPersonaBound
          end
      end
  end.

Definition ClearModelIntent : ptx unit := λ row,
  let per := ps_persona row in
  if bool_decide (p_authority per = Staged ∨ p_authority per = Active) then
    Ok (tt, row <| ps_persona := per <| p_model_intent := None |> |>)
  else Err (inactiveAuthorityError (authority_text (p_authority per))).

Definition PersonaAuthority (p : string) (db : DB) : res err Authority :=
  match db_personas db !! p with
  | None => Err ErrPersonaNotFound
  | Some row => Ok (p_authority (ps_persona row))
  end.

(** The counts of [PersonaState]. *)
Record PersonaState := mkState {
  pst_persona : Persona;
  pst_lease : option WriterLease;
  pst_queued_inputs : nat;
  pst_waiting_inputs : nat;
  pst_running_turn : option string;
  pst_pending_approvals : nat;
  pst_pending_schedules : nat;
  pst_latest_event_seq : Z
}.
Definition get_PersonaState (row : PersonaRow) : PersonaState :=
  let inputs_in st := size (filter (λ kv, in_status kv.2 = st) (ps_inputs row)) in
  mkState (ps_persona row) (ps_lease row) (inputs_in Queued) (inputs_in Waiting)
    (fst <$> running_turn row)
    (size (filter (λ kv, ap_status kv.2 = Pending) (ps_approvals row)))
    (size (filter (λ kv, sc_status kv.2 = SchPending) (ps_schedules row)))
    (max_seq ev_seq (ps_events row)).

(** ** The writer lease *)

Definition AcquireWriter (now : Z) (holderID : string) (ttl : Z) : ptx WriterLease := λ row,
  if bool_decide (p_authority (ps_persona row) = Active) then
    match ps_lease row with
    | None =>
        let l := mkLease 1 holderID now (now + ttl) in
        Ok (l, row <| ps_lease := Some l |>)
    | Some l =>
        if bool_decide (l_expires_at l < now) || bool_decide (l_holder_id l = holderID) then
          if l_generation l =? MaxInt64 then Err (PgData "bigint out of range")
          else
            let l' := mkLease (l_generation l + 1) holderID now (now + ttl) in
            Ok (l', row <| ps_lease := Some l' |>)
        else Err ErrWriterHeld
    end
  else Err (inactiveAuthorityError (authority_text (p_authority (ps_persona row)))).

Definition lease_matches (holderID : string) (generation : Z) (row : PersonaRow) : bool :=
  match ps_lease row with
  | Some l => (l_generation l =? generation) && bool_decide (l_holder_id l = holderID)
  | None => false
  end.

Definition RenewWriter (now : Z) (holderID : string) (generation ttl : Z)
    : ptx WriterLease := λ row,
  match ps_lease row with
  | Some l =>
      if lease_matches holderID generation row then
        let l' := l <| l_expires_at := now + ttl |> in
        Ok (l', row <| ps_lease := Some l' |>)
      else Err ErrGenerationFence
  | None => Err ErrGenerationFence
  end.

(** The released lease expires at the epoch and keeps its generation. *)
Definition ReleaseWriter (holderID : string) (generation : Z) : ptx unit := λ row,
  match ps_lease row with
  | Some l =>
      if lease_matches holderID generation row then
        Ok (tt, row <| ps_lease := Some (l <| l_expires_at := 0 |>) |>)
      else Err ErrGenerationFence
  | None => Err ErrGenerationFence
  end.

(** ** Facts about the fence *)

Definition lease_gen (row : PersonaRow) : option Z := l_generation <$> ps_lease row.

Lemma requireGeneration_ok g row u row' :
  requireGeneration g row = Ok (u, row') ↔
  u = tt ∧ row' = row ∧ lease_gen row = Some g ∧ p_authority (ps_persona row) = Active.
Proof.
  unfold requireGeneration, lease_gen. destruct (ps_lease row) as [l|]; simpl; [|naive_solver].
  destruct (l_generation l =? g) eqn:Hg; simpl; reflect_bools; [|naive_solver congruence].
  case_bool_decide; naive_solver congruence.
Qed.

(** Anything but the current generation of an active persona is refused, and
    the refusal is the fence error. *)
Lemma requireGeneration_err g row :
  lease_gen row ≠ Some g ∨ p_authority (ps_persona row) ≠ Active →
  requireGeneration g row = Err ErrGenerationFence.
Proof.
  intros H. destruct (requireGeneration g row) as [[u row']|e] eqn:Hr.
  - apply requireGeneration_ok in Hr. naive_solver.
  - f_equal. unfold requireGeneration in Hr. repeat case_match; congruence.
Qed.

(** The lease row is never removed and its generation never decreases. *)
Definition lease_mono (row row' : PersonaRow) : Prop :=
  ∀ g, lease_gen row = Some g → ∃ g', lease_gen row' = Some g' ∧ g ≤ g'.

#[global] Instance lease_mono_preorder : PreOrder lease_mono.
Proof.
  split.
  - intros row g Hg. by exists g.
  - intros r1 r2 r3 H12 H23 g Hg.
    apply H12 in Hg as (g2 & Hg2 & ?). apply H23 in Hg2 as (g3 & Hg3 & ?).
    exists g3. split; [done|lia].
Qed.

Lemma lease_mono_eq row row' : ps_lease row' = ps_lease row → lease_mono row row'.
Proof. intros H g Hg. exists g. unfold lease_gen in *. rewrite H. split; [done|lia]. Qed.
#[export] Hint Resolve lease_mono_eq : core.

(** Acquiring raises the generation strictly. *)
Lemma AcquireWriter_gen now h ttl row l row' :
  AcquireWriter now h ttl row = Ok (l, row') →
  lease_gen row' = Some (l_generation l) ∧
  ∀ g, lease_gen row = Some g → l_generation l = g + 1.
Proof.
  unfold AcquireWriter, lease_gen. intros H.
  repeat case_match; simplify_eq/=; split; try done; intros g [= <-]; done.
Qed.

Lemma AcquireWriter_mono now h ttl : steps lease_mono (AcquireWriter now h ttl).
Proof.
  intros row l row' [H1 H2]%AcquireWriter_gen g Hg.
  exists (l_generation l). split; [done|]. apply H2 in Hg. lia.
Qed.

Lemma RenewWriter_mono now h g ttl : steps lease_mono (RenewWriter now h g ttl).
Proof.
  unfold RenewWriter, lease_mono, lease_gen. intros row l row' H g' Hg'.
  repeat case_match; simplify_eq/=. eexists. split; [done|lia].
Qed.

Lemma ReleaseWriter_mono h g : steps lease_mono (ReleaseWriter h g).
Proof.
  unfold ReleaseWriter, lease_mono, lease_gen. intros row l row' H g' Hg'.
  repeat case_match; simplify_eq/=. eexists. split; [done|lia].
Qed.
#[export] Hint Resolve AcquireWriter_mono RenewWriter_mono ReleaseWriter_mono : tx.

(** A fenced call under any other generation changes nothing. *)
Lemma fenced_refused {A} p g (m : ptx A) db row :
  db_personas db !! p = Some row → lease_gen row ≠ Some g →
  commit (fenced p g m) db = (db, Err ErrGenerationFence).
Proof.
  intros Hrow Hg. unfold commit, fenced, with_persona. rewrite Hrow.
  unfold mbind, M_bind. by rewrite requireGeneration_err by auto.
Qed.
