(* ===== verification/Memory.v ===== *)
(** * Memory maintenance

    [memory.go]: [MemoryMaintain] seals newly safe ranges of the journal,
    applies prepared replacements while the raw context is too long, swaps
    fragments for a prepared upper-layer target and creates the next target;
    [MemoryStatus] reports the shape.  Token estimates are the code's
    capacity heuristic. *)

From Stdlib Require Import ZArith Lia.
From stdpp Require Import sorting.
From S2P Require Import Prelude Json MemoryState MemoryShape State Personas.
Local Open Scope string_scope.
Local Open Scope list_scope.
Local Open Scope Z_scope.

Section memory.
Context `{GL : !GoLib}.

Definition estPayloadTokens (kind : string) (payload : obj) : Z :=
  Z.quot (String.length kind + 16 + String.length (json_Marshal (JObj payload)) + 3) 4.

(** ** The seal walk *)

(** Records of one decision share the round of their turn; none for other
    records. *)
Definition roundKey (e : Event) : option string :=
  match ev_payload e !! "round" with
  | Some r =>
      if bool_decide (ev_kind e ∈ ["assistant_message"; "tool_call"; "tool_result"])
      then Some (ev_turn_id e +:+ ":" +:+ fmt_Sprint r) else None
  | None => None
  end.

(** Where each known round ends. *)
Definition roundEnds (tail : list Event) : gmap string Z :=
  foldl (λ m e, match roundKey e with Some k => <[k := ev_seq e]> m | None => m end) ∅ tail.

(** The open window: its first and last record, its estimate, the calls
    without result, the end of the rounds it touched and the kind of the
    record before. *)
Record Walk := mkWalk {
  wk_start : Z;
  wk_last : Z;
  wk_est : Z;
  wk_pending : gset string;
  wk_active : Z;
  wk_prev : string
}.
Definition walk0 : Walk := mkWalk (-1) (-1) 0 ∅ (-1) "".

(** Whether the window is sealed before [e]. *)
Definition cuts (w : Walk) (e : Event) : bool :=
  (0 <=? wk_start w) && bool_decide (wk_pending w = ∅) && (wk_active w <? ev_seq e)
  && (if bool_decide (ev_kind e = "input_received") then L0ChunkMinTokens <=? wk_est w
      else if bool_decide (ev_kind e = "assistant_message")
      then (L0ForcedSealLimitTokens <? wk_est w) && negb (bool_decide (wk_prev w = "tool_result"))
      else false).

Definition reset (w : Walk) : Walk :=
  mkWalk (-1) (wk_last w) 0 (wk_pending w) (wk_active w) (wk_prev w).

Definition pend (e : Event) (pending : gset string) : gset string :=
  let id := get_str (ev_payload e) "call_id" in
  if bool_decide (ev_kind e = "tool_call") then
    if bool_decide (id = "") then pending else {[id]} ∪ pending
  else if bool_decide (ev_kind e = "tool_result") then pending ∖ {[id]}
  else pending.

Definition round_end (ends : gmap string Z) (e : Event) (active : Z) : Z :=
  match roundKey e with
  | Some k => Z.max active (default 0 (ends !! k))
  | None => active
  end.

(** [e] joins the window. *)
Definition join (ends : gmap string Z) (w : Walk) (e : Event) : Walk :=
  mkWalk (if wk_start w <? 0 then ev_seq e else wk_start w) (ev_seq e)
    (wk_est w + estPayloadTokens (ev_kind e) (ev_payload e))
    (pend e (wk_pending w)) (round_end ends e (wk_active w)) (ev_kind e).

(** The sealed ranges with their estimates, and the window left open. *)
Fixpoint seal_walk (ends : gmap string Z) (w : Walk) (tail : list Event)
    : list (Z * Z * Z) * Walk :=
  match tail with
  | [] => ([], w)
  | e :: tail =>
      if cuts w e then
        let '(l, w') := seal_walk ends (join ends (reset w) e) tail in
        ((wk_start w, wk_last w, wk_est w) :: l, w')
      else seal_walk ends (join ends w e) tail
  end.

Definition unsealed (row : PersonaRow) : list Event :=
  filter (λ e, covered (ps_chunks row) < ev_seq e) (ps_events row).
Definition walk_tail (tail : list Event) : list (Z * Z * Z) * Walk :=
  seal_walk (roundEnds tail) walk0 tail.

(** [COALESCE(MAX(chunk_seq), 0)] *)
Definition max_chunk (C : gmap Z MemoryChunk) : Z := map_fold (λ k _ m, Z.max k m) 0 C.

Definition sealed_chunk (now layer : Z) (sources : option (list Z)) (first last est : Z)
    : MemoryChunk :=
  mkChunk layer sources first last est ChSealed None None 0 0 None None None None now None None.

Fixpoint seal_chunks (now seq : Z) (l : list (Z * Z * Z)) (C : gmap Z MemoryChunk)
    : Z * gmap Z MemoryChunk :=
  match l with
  | [] => (seq, C)
  | (first, last, est) :: l =>
      seal_chunks now (seq + 1) l (<[seq + 1 := sealed_chunk now 1 None first last est]> C)
  end.

(** ** Applying prepared replacements *)

Definition sum_chunks (f : MemoryChunk → Z) (P : MemoryChunk → bool) (C : gmap Z MemoryChunk) : Z :=
  foldr (λ kc n, f kc.2 + n) 0 (filter (λ kc, P kc.2 = true) (map_to_list C)).
Definition chunk_raw (C : gmap Z MemoryChunk) : Z :=
  sum_chunks mc_est_tokens (λ c, (mc_layer c =? 1) && raw_status (mc_status c)) C.

Definition key_le (a b : Z * MemoryChunk) : Prop := a.1 ≤ b.1.
#[global] Instance key_le_dec : RelDecision key_le.
Proof. intros a b. unfold key_le. apply _. Defined.
(** The rows [P] selects, [ORDER BY chunk_seq]. *)
Definition chunks_where (P : MemoryChunk → bool) (C : gmap Z MemoryChunk) : list (Z * MemoryChunk) :=
  merge_sort key_le (filter (λ kc, P kc.2 = true) (map_to_list C)).

Definition mark_applied (now k : Z) (C : gmap Z MemoryChunk) : gmap Z MemoryChunk :=
  alter (λ c, if bool_decide (mc_status c = ChPrepared) then apply_chunk now c else c) k C.

Fixpoint apply_prepared (now live : Z) (cands : list (Z * MemoryChunk)) (C : gmap Z MemoryChunk)
    : Z * gmap Z MemoryChunk :=
  match cands with
  | [] => (live, C)
  | (k, c) :: cands =>
      if live <=? L0LiveLimitTokens then (live, C)
      else apply_prepared now (live - mc_est_tokens c) cands (mark_applied now k C)
  end.

(** ** The upper layer *)

Definition appliedLayerTokens (layer : Z) (C : gmap Z MemoryChunk) : Z :=
  sum_chunks (λ c, default 0 (mc_replacement_est_tokens c))
    (λ c, (mc_layer c =? layer) && bool_decide (mc_status c = ChApplied)) C.

Definition source_rows (l : list Z) (C : gmap Z MemoryChunk) : list (Z * MemoryChunk) :=
  filter (λ kc, kc.1 ∈ l) (map_to_list C).

Definition stale_error : string :=
  "upper-layer target is stale: its selected sources are no longer applied".

(** The layer the sources share; none when the target is stale. *)
Definition source_layer (l : list Z) (C : gmap Z MemoryChunk) : option Z :=
  match source_rows l C with
  | [] => None
  | ((_, c) :: _) as srcs =>
      if bool_decide (length srcs = length l)
         && forallb (λ kd, bool_decide (mc_status kd.2 = ChApplied) && (mc_layer kd.2 =? mc_layer c)) srcs
         && ((mc_layer c =? 1) || (mc_layer c =? 2))
      then Some (mc_layer c) else None
  end.

Definition layer_limit (layer : Z) : Z := if layer =? 1 then L1LimitTokens else L2LimitTokens.

Definition applyUpperTarget (now k : Z) (target : MemoryChunk) (C : gmap Z MemoryChunk)
    : res err (gmap Z MemoryChunk) :=
  let l := default [] (mc_sources target) in
  match source_layer l C with
  | None => Ok (alter (λ c, if bool_decide (mc_status c = ChPrepared)
                  then c <| mc_status := ChFailed |> <| mc_last_error := Some stale_error |> else c) k C)
  | Some layer =>
      if appliedLayerTokens layer C <=? layer_limit layer then Ok C
      else if negb (bool_decide (length (filter (λ kc, mc_status kc.2 = ChApplied) (source_rows l C))
                                 = length l))
      then Err (ErrMemoryConflict ("upper target " +:+ itoa k +:+ " lost sources mid-apply"))
      else Ok (mark_applied now k (supersede l C))
  end.

Fixpoint apply_targets (now : Z) (targets : list (Z * MemoryChunk)) (C : gmap Z MemoryChunk)
    : res err (gmap Z MemoryChunk) :=
  match targets with
  | [] => Ok C
  | (k, target) :: targets =>
      C ← applyUpperTarget now k target C;
      apply_targets now targets C
  end.

(** ** The next target *)

Definition first_le (a b : Z * MemoryChunk) : Prop := mc_first_seq a.2 ≤ mc_first_seq b.2.
#[global] Instance first_le_dec : RelDecision first_le.
Proof. intros a b. unfold first_le. apply _. Defined.
(** The applied fragments of a layer in journal order. *)
Definition fragments (layer : Z) (C : gmap Z MemoryChunk) : list (Z * MemoryChunk) :=
  merge_sort first_le (filter (λ kc, mc_layer kc.2 = layer ∧ mc_status kc.2 = ChApplied)
                         (map_to_list C)).

Definition busy (C : gmap Z MemoryChunk) : bool :=
  existsb (λ kc, (2 <=? mc_layer kc.2)
    && bool_decide (mc_status kc.2 ∈ [ChSealed; ChPreparing; ChPrepared])) (map_to_list C).

(** A verdict for exactly these sources stands. *)
Definition settled (l : list Z) (C : gmap Z MemoryChunk) : bool :=
  existsb (λ kc, (2 <=? mc_layer kc.2) && bool_decide (mc_status kc.2 ∈ [ChKept; ChFailed])
    && bool_decide (mc_sources kc.2 = Some l)) (map_to_list C).

(** A run of adjacent fragments: its keys, extent and estimate. *)
Record Group := mkGroup { gr_keys : list Z; gr_first : Z; gr_last : Z; gr_consumed : Z }.
Definition start_group (kc : Z * MemoryChunk) : Group :=
  mkGroup [kc.1] (mc_first_seq kc.2) (mc_last_seq kc.2) (default 0 (mc_replacement_est_tokens kc.2)).
Definition extend_group (g : Group) (kc : Z * MemoryChunk) : Group :=
  mkGroup (gr_keys g ++ [kc.1]) (gr_first g) (mc_last_seq kc.2)
    (gr_consumed g + default 0 (mc_replacement_est_tokens kc.2)).

(** The first run without a verdict, the group [g] being built. *)
Fixpoint choose_group (C : gmap Z MemoryChunk) (whole : bool) (room : Z) (g : Group)
    (frags : list (Z * MemoryChunk)) : option Group :=
  match frags with
  | [] => if settled (gr_keys g) C then None else Some g
  | kc :: frags =>
      if (mc_first_seq kc.2 =? gr_last g + 1) && (whole || (gr_consumed g <? room))
      then choose_group C whole room (extend_group g kc) frags
      else if settled (gr_keys g) C then choose_group C whole room (start_group kc) frags
      else Some g
  end.

(** A fragment without an estimate cannot be scanned. *)
Definition select (C : gmap Z MemoryChunk) (layer limit dropTo : Z) (whole : bool)
    : res err (option Group) :=
  let total := appliedLayerTokens layer C in
  if total <=? limit then Ok None
  else
    let frags := fragments layer C in
    if existsb (λ kc, bool_decide (mc_replacement_est_tokens kc.2 = None)) frags
    then Err (PgError "cannot scan NULL into *int64")
    else Ok match frags with
    | [] => None
    | kc :: frags => choose_group C whole (total - dropTo) (start_group kc) frags
    end.

Definition insert_target (now seq : Z) (g : Group) (C : gmap Z MemoryChunk) : gmap Z MemoryChunk :=
  <[seq + 1 := sealed_chunk now 2 (Some (gr_keys g)) (gr_first g) (gr_last g) (gr_consumed g)]> C.

Definition prepareUpperTarget (now seq : Z) (C : gmap Z MemoryChunk) : res err (gmap Z MemoryChunk) :=
  if busy C then Ok C
  else
    g1 ← select C 1 L1LimitTokens L1DropToTokens false;
    match g1 with
    | Some g => Ok (insert_target now seq g C)
    | None =>
        g2 ← select C 2 L2LimitTokens L2LimitTokens true;
        match g2 with
        | Some g => Ok (insert_target now seq g C)
        | None => Ok C
        end
    end.

(** ** The maintenance step *)

Definition maintain (now : Z) (events : list Event) (C : gmap Z MemoryChunk)
    : res err (gmap Z MemoryChunk) :=
  let '(sealed, w) := walk_tail events in
  let '(seq, C) := seal_chunks now (max_chunk C) sealed C in
  let live := chunk_raw C + wk_est w in
  let C := if L0LiveLimitTokens <? live
           then (apply_prepared now live
                   (chunks_where (λ c, (mc_layer c =? 1) && bool_decide (mc_status c = ChPrepared)) C) C).2
           else C in
  C ← apply_targets now
        (chunks_where (λ c, (2 <=? mc_layer c) && bool_decide (mc_status c = ChPrepared)) C) C;
  prepareUpperTarget now seq C.

Definition maintain_tx (now : Z) : ptx unit := λ row,
  match maintain now (unsealed row) (ps_chunks row) with
  | Err e => Err e
  | Ok C => Ok (tt, row <| ps_chunks := C |>)
  end.

(** ** The status *)

(** [state::jsonb] *)
Definition castable (state : option json) : bool :=
  match state with Some v => jsonb_ok v | None => true end.
(** [state::jsonb->k] *)
Definition json_field (k : string) (state : option json) : option json :=
  match state with Some (JObj m) => m !! k | _ => None end.
(** [state::jsonb->>k] *)
Definition text_field (k : string) (state : option json) : option string :=
  match state with
  | Some (JObj m) =>
      match m !! k with
      | None | Some JNull => None
      | Some (JStr s) => Some s
      | Some (JBool b) => Some (if b then "true" else "false")
      | Some v => Some (json_Marshal v)
      end
  | _ => None
  end.

Record MemoryBranchStatus := mkBranchStatus {
  bs_chunk_seq : Z;
  bs_status : BranchStatus;
  bs_revision : Z;
  bs_retry_at : option Z;
  bs_issue : option branchIssue;
  bs_pause_reason : option string
}.
Record MemoryStatus := mkMemoryStatus {
  st_branches : list MemoryBranchStatus;
  st_live_raw_tokens : Z;
  st_applied_tokens : Z;
  st_counts : ChunkStatus → Z;
  st_claimable : Z;
  st_next_claimable_at : option Z;
  st_covered_seq : Z;
  st_latest_seq : Z
}.

Definition count_chunks (P : Z → MemoryChunk → bool) (C : gmap Z MemoryChunk) : Z :=
  length (filter (λ kc, P kc.1 kc.2 = true) (map_to_list C)).
(** When the branch of a chunk in preparation can be claimed. *)
Definition branch_ready_at (now : Z) (B : gmap Z BranchRow) (k : Z) : option Z :=
  match B !! k with
  | Some b => if bool_decide (br_status b = BrRunning) then Some now else br_retry_at b
  | None => None
  end.
Definition min_opt (a b : option Z) : option Z :=
  match a, b with Some x, Some y => Some (Z.min x y) | Some x, None => Some x | None, b => b end.

Definition memory_shape (now : Z) (row : PersonaRow) : MemoryStatus :=
  let C := ps_chunks row in
  let preparing := chunks_where (λ c, bool_decide (mc_status c = ChPreparing)) C in
  mkMemoryStatus
    (omap (λ kc, (λ b, mkBranchStatus kc.1 (br_status b) (br_revision b) (br_retry_at b) (br_issue b)
                         (text_field "pause_reason" (br_state b))) <$> ps_branches row !! kc.1) preparing)
    (chunk_raw C + foldr (λ e n, estPayloadTokens (ev_kind e) (ev_payload e) + n) 0 (unsealed row))
    (sum_chunks (λ c, default 0 (mc_replacement_est_tokens c))
       (λ c, bool_decide (mc_status c = ChApplied)) C)
    (λ s, count_chunks (λ _ c, bool_decide (mc_status c = s)) C)
    (count_chunks (λ k c, bool_decide (mc_status c = ChPreparing)
       && match branch_ready_at now (ps_branches row) k with Some t => t <=? now | None => false end) C)
    (foldr (λ kc m, min_opt (branch_ready_at now (ps_branches row) kc.1) m) None preparing)
    (covered C) (max_seq ev_seq (ps_events row)).

Definition get_MemoryStatus (now : Z) (row : PersonaRow) : res err MemoryStatus :=
  if forallb (λ kc, castable (ps_branches row !! kc.1 ≫= br_state))
       (chunks_where (λ c, bool_decide (mc_status c = ChPreparing)) (ps_chunks row))
  then Ok (memory_shape now row) else Err nul_error.

(** The status is read once the step is committed: it may fail on its own. *)
Definition MemoryMaintain (now : Z) (p : string) (generation : Z) : tx (res err MemoryStatus) :=
  fenced p generation (maintain_tx now ;; gets (get_MemoryStatus now)).
End memory.
