(* ===== verification/MemoryFacts.v ===== *)
(** * Memory maintenance moves along its state machine

    The seal walk cuts the unsealed journal into segments that are closed
    under tool calls and decision rounds; sealing, applying, swapping and
    creating targets are steps of [mem_step], so [maintain] keeps [mem_ok]. *)

From Stdlib Require Import ZArith Lia.
From stdpp Require Import sorting.
From S2P Require Import Prelude Json MemoryState MemoryShape State Personas Memory.
Local Open Scope list_scope.
Local Open Scope Z_scope.

Section facts.
Context `{GL : !GoLib}.
Implicit Types (e : Event) (w : Walk) (C : gmap Z MemoryChunk).

(** ** What the walk has seen *)

Definition est_sum (l : list Event) : Z :=
  foldr (λ e n, estPayloadTokens (ev_kind e) (ev_payload e) + n) 0 l.
Definition pending_of (l : list Event) : gset string := foldl (λ P e, pend e P) ∅ l.
Definition active_of (ends : gmap string Z) (l : list Event) : Z :=
  foldl (λ a e, round_end ends e a) (-1) l.

(** The window holds the records [cur], read after [pre]. *)
Record window (ends : gmap string Z) (pre cur : list Event) (w : Walk) : Prop := {
  wi_start : wk_start w = match cur with [] => -1 | e :: _ => ev_seq e end;
  wi_last : ∀ e, last cur = Some e → wk_last w = ev_seq e;
  wi_est : wk_est w = est_sum cur;
  wi_pending : wk_pending w = pending_of (pre ++ cur);
  wi_active : wk_active w = active_of ends (pre ++ cur)
}.

(** Everything in [p] is settled when [e] comes. *)
Definition closed (ends : gmap string Z) (p : list Event) (e : Event) : Prop :=
  pending_of p = ∅ ∧ active_of ends p < ev_seq e ∧
  (ev_kind e = "input_received"%string ∨ ev_kind e = "assistant_message"%string).

(** A sealed range is the segment it names. *)
Definition names (r : Z * Z * Z) (seg : list Event) : Prop :=
  (∃ e, head seg = Some e ∧ r.1.1 = ev_seq e) ∧ (∃ e, last seg = Some e ∧ r.1.2 = ev_seq e) ∧
  r.2 = est_sum seg ∧ L0ChunkMinTokens ≤ est_sum seg.

Lemma est_sum_app l1 l2 : est_sum (l1 ++ l2) = est_sum l1 + est_sum l2.
Proof. induction l1 as [|e l1 IH]; simpl; [done|]. rewrite IH. lia. Qed.
Lemma pending_snoc l e : pending_of (l ++ [e]) = pend e (pending_of l).
Proof. unfold pending_of. by rewrite foldl_app. Qed.
Lemma active_snoc ends l e : active_of ends (l ++ [e]) = round_end ends e (active_of ends l).
Proof. unfold active_of. by rewrite foldl_app. Qed.

Lemma window_join ends pre cur w e :
  0 < ev_seq e → Forall (λ e, 0 < ev_seq e) cur → window ends pre cur w →
  window ends pre (cur ++ [e]) (join ends w e).
Proof.
  intros He Hpos [Hs Hl Hest Hp Ha]. split; simpl.
  - rewrite Hs. destruct cur as [|x cur]; [done|]. inversion Hpos; subst. simpl.
    destruct (ev_seq x <? 0) eqn:Hx; reflect_bools; [lia|done].
  - intros x. rewrite last_snoc. by intros [= ->].
  - rewrite Hest, est_sum_app. simpl. lia.
  - by rewrite (assoc_L (++)), pending_snoc, Hp.
  - by rewrite (assoc_L (++)), active_snoc, Ha.
Qed.
Lemma window_reset ends pre cur w : window ends pre cur w → window ends (pre ++ cur) [] (reset w).
Proof. intros [Hs Hl Hest Hp Ha]. split; simpl; rewrite ?app_nil_r; done. Qed.

Lemma cuts_closed ends pre cur w e :
  window ends pre cur w → cuts w e = true →
  cur ≠ [] ∧ closed ends (pre ++ cur) e ∧ names (wk_start w, wk_last w, wk_est w) cur.
Proof.
  intros [Hs Hl Hest Hp Ha] Hc. unfold cuts in Hc.
  apply andb_true_iff in Hc as [[[H1 H2]%andb_true_iff H3]%andb_true_iff H4]. reflect_bools.
  assert (cur ≠ []) as Hne by (intros ->; rewrite Hs in H1; lia).
  assert (L0ChunkMinTokens ≤ wk_est w ∧
    (ev_kind e = "input_received"%string ∨ ev_kind e = "assistant_message"%string)) as [Hmin Hk].
  { destruct (bool_decide (ev_kind e = _)) eqn:K1; [reflect_bools; split; [done|by left]|].
    destruct (bool_decide (ev_kind e = "assistant_message"%string)) eqn:K2; [|done].
    apply andb_true_iff in H4 as [H4 _]. reflect_bools.
    unfold L0ForcedSealLimitTokens, L0ChunkMinTokens in *. split; [lia|by right]. }
  split; [done|]. split.
  - unfold closed. rewrite <-Hp, <-Ha. done.
  - split; [|split; [|by rewrite <-Hest]].
    + destruct cur as [|x cur]; [done|]. by exists x.
    + destruct (last cur) as [x|] eqn:Hx; [|by apply last_None in Hx]. exists x. auto.
Qed.

(** The walk as a segmentation of what it reads. *)
Lemma seal_walk_spec ends pre cur w tail l w' :
  window ends pre cur w → Forall (λ e, 0 < ev_seq e) (cur ++ tail) →
  seal_walk ends w tail = (l, w') →
  ∃ segs rest, cur ++ tail = concat segs ++ rest ∧ Forall2 names l segs ∧
    wk_est w' = est_sum rest ∧
    ∀ a s b, segs = a ++ s :: b → ∃ e post, concat b ++ rest = e :: post ∧
      closed ends (pre ++ concat a ++ s) e.
Proof.
  revert pre cur w l. induction tail as [|e tail IH]; intros pre cur w l Hw Hpos H; simpl in H.
  { injection H as <- <-. exists [], cur. rewrite app_nil_r. split_and!; [done|constructor|apply Hw|].
    by intros [|] ? ?. }
  pose proof Hpos as [Hcur [He Htail]%Forall_cons]%Forall_app.
  destruct (cuts w e) eqn:Hc.
  - destruct (seal_walk ends (join ends (reset w) e) tail) as [l1 w1] eqn:Hrec. injection H as <- <-.
    destruct (cuts_closed _ _ _ _ _ Hw Hc) as (Hne & Hcl & Hnm).
    assert (window ends (pre ++ cur) [e] (join ends (reset w) e)) as Hw1.
    { apply (window_join _ _ []); [done|constructor|by apply window_reset]. }
    destruct (IH _ _ _ _ Hw1 ltac:(by constructor) Hrec) as (segs & rest & Happ & HF & Hest & Hcuts).
    exists (cur :: segs), rest. simpl. rewrite <-(assoc_L (++)), <-Happ.
    split_and!; [done|by constructor|done|].
    intros [|s0 a] s b Hseg; simpl in Hseg; injection Hseg as -> ->.
    + exists e, tail. split; [by rewrite <-Happ|done].
    + destruct (Hcuts a s b eq_refl) as (x & post & Hx & Hxc). exists x, post. split; [done|].
      simpl. by rewrite <-!(assoc_L (++)) in *.
  - assert (window ends pre (cur ++ [e]) (join ends w e)) as Hw1 by by apply window_join.
    destruct (IH _ _ _ _ Hw1 ltac:(by rewrite <-(assoc_L (++))) H) as (segs & rest & Happ & ?).
    exists segs, rest. rewrite <-Happ. split; [by rewrite <-(assoc_L (++))|done].
Qed.

(** ** Segments are closed *)

Definition calls (x : Event) (id : string) : Prop :=
  ev_kind x = "tool_call"%string ∧ get_str (ev_payload x) "call_id" = id ∧ id ≠ ""%string.
Definition answers (y : Event) (id : string) : Prop :=
  ev_kind y = "tool_result"%string ∧ get_str (ev_payload y) "call_id" = id.

Lemma pend_keeps y id P : id ∈ P → id ∈ pend y P ∨ answers y id.
Proof.
  intros Hid. unfold pend, answers. destruct (bool_decide (ev_kind y = "tool_call"%string)) eqn:K1.
  { left. destruct (bool_decide (_ = ""%string)); set_solver. }
  destruct (bool_decide (ev_kind y = "tool_result"%string)) eqn:K2; [|by left]. reflect_bools.
  destruct (decide (get_str (ev_payload y) "call_id" = id)) as [E|E]; [by right|]. left. set_solver.
Qed.
Lemma pending_answered id b P :
  id ∈ P → id ∉ foldl (λ P e, pend e P) P b → ∃ y, y ∈ b ∧ answers y id.
Proof.
  revert P. induction b as [|y b IH]; intros P Hin Hout; [done|]. simpl in Hout.
  destruct (pend_keeps y id P Hin) as [Hy|Hy].
  - destruct (IH _ Hy Hout) as (z & Hz & ?). exists z. split; [by right|done].
  - exists y. split; [by left|done].
Qed.
Lemma calls_answered p a x b id :
  pending_of p = ∅ → p = a ++ x :: b → calls x id → ∃ y, y ∈ b ∧ answers y id.
Proof.
  intros Hp -> (Hk & Hid & Hne). apply (pending_answered id b (pend x (pending_of a))).
  - unfold pend. rewrite bool_decide_eq_true_2 by done. rewrite Hid.
    rewrite bool_decide_eq_false_2 by done. set_solver.
  - unfold pending_of in Hp. rewrite foldl_app in Hp. simpl in Hp. unfold pending_of. rewrite Hp.
    set_solver.
Qed.

Definition precedes (x y : Event) : Prop := ev_seq x < ev_seq y.

Lemma roundEnds_snoc l x :
  roundEnds (l ++ [x]) = match roundKey x with Some k => <[k := ev_seq x]> (roundEnds l)
                         | None => roundEnds l end.
Proof. unfold roundEnds. by rewrite foldl_app. Qed.
Lemma roundEnds_ge l y k :
  StronglySorted precedes l → y ∈ l → roundKey y = Some k →
  ∃ s, roundEnds l !! k = Some s ∧ ev_seq y ≤ s.
Proof.
  induction l as [|x l IH] using rev_ind; intros Hs Hy Hk; [by apply not_elem_of_nil in Hy|].
  apply StronglySorted_app in Hs as (Hlt & Hs & _). rewrite roundEnds_snoc.
  assert (∃ s, match roundKey x with Some k => <[k := ev_seq x]> (roundEnds l) | None => roundEnds l end
            !! k = Some s ∧ ev_seq y ≤ s ∨ y = x) as (s & [Hd| ->]).
  { apply elem_of_app in Hy as [Hy|Hy]; [|exists 0; right; by apply list_elem_of_singleton].
    destruct (IH Hs Hy Hk) as (s & Hsk & Hle). specialize (Hlt y x Hy ltac:(by left)).
    unfold precedes in Hlt. destruct (roundKey x) as [k'|]; [|eauto].
    destruct (decide (k' = k)) as [->|Hn].
    - exists (ev_seq x). left. rewrite lookup_insert_eq. split; [done|lia].
    - exists s. left. by rewrite lookup_insert_ne. }
  - by exists s.
  - rewrite Hk. exists (ev_seq x). rewrite lookup_insert_eq. split; [done|lia].
Qed.

Lemma active_ge ends l x k :
  x ∈ l → roundKey x = Some k → default 0 (ends !! k) ≤ active_of ends l.
Proof.
  induction l as [|y l IH] using rev_ind; intros Hx Hk; [by apply not_elem_of_nil in Hx|].
  rewrite active_snoc. unfold round_end. apply elem_of_app in Hx as [Hx|Hx].
  - specialize (IH Hx Hk). destruct (roundKey y); lia.
  - apply list_elem_of_singleton in Hx as ->. rewrite Hk. lia.
Qed.

(** Nothing a segment starts continues outside it. *)
Definition self_contained (tail seg : list Event) : Prop :=
  (∀ x id, x ∈ seg → calls x id → ∃ y, y ∈ seg ∧ answers y id ∧ ev_seq x < ev_seq y) ∧
  (∀ x y k, x ∈ seg → y ∈ tail → roundKey x = Some k → roundKey y = Some k → y ∈ seg).

Lemma closed_rounds tail p e x y k :
  StronglySorted precedes tail → closed (roundEnds tail) p e →
  x ∈ p → y ∈ tail → roundKey x = Some k → roundKey y = Some k → ev_seq y < ev_seq e.
Proof.
  intros Hs (_ & Ha & _) Hx Hy Hkx Hky. destruct (roundEnds_ge _ _ _ Hs Hy Hky) as (s & Hsk & Hle).
  pose proof (active_ge (roundEnds tail) p x k Hx Hkx) as Hge. rewrite Hsk in Hge. simpl in Hge. lia.
Qed.

Lemma segments_closed tail segs rest :
  StronglySorted precedes tail → tail = concat segs ++ rest →
  (∀ a s b, segs = a ++ s :: b → ∃ e post, concat b ++ rest = e :: post ∧
     closed (roundEnds tail) (concat a ++ s) e) →
  Forall (self_contained tail) segs.
Proof.
  intros Hs Htail Hcuts. apply Forall_forall. intros seg (a & b & Hsegs)%list_elem_of_split.
  destruct (Hcuts a seg b Hsegs) as (e & post & Hpost & Hcl).
  assert (tail = (concat a ++ seg) ++ e :: post) as Ht.
  { rewrite Htail, Hsegs, concat_app. simpl. by rewrite <-!(assoc_L (++)), <-Hpost. }
  assert (∀ y, y ∈ tail → ev_seq y < ev_seq e → y ∈ concat a ++ seg) as Hbefore.
  { intros y Hy Hlt. rewrite Ht in Hy, Hs. apply elem_of_app in Hy as [Hy|Hy]; [done|].
    apply StronglySorted_app_1_r in Hs. apply StronglySorted_inv in Hs as [_ Hall].
    rewrite Forall_forall in Hall. apply elem_of_cons in Hy as [->|Hy]; [lia|].
    specialize (Hall y Hy). unfold precedes in Hall. lia. }
  split.
  - intros x id (u & v & ->)%list_elem_of_split Hx. destruct Hcl as (Hp & _).
    destruct (calls_answered _ (concat a ++ u) x v id Hp ltac:(by rewrite <-(assoc_L (++))) Hx)
      as (y & Hy & Hans). exists y. split; [|split; [done|]].
    + apply elem_of_app. right. by right.
    + rewrite Ht, <-!(assoc_L (++)) in Hs. simpl in Hs. do 2 apply StronglySorted_app_1_r in Hs.
      apply StronglySorted_inv in Hs as [_ Hall]. rewrite Forall_forall in Hall.
      apply (Hall y), elem_of_app. by left.
  - intros x y k Hx Hy Hkx Hky.
    assert (y ∈ concat a ++ seg) as Hin.
    { apply Hbefore; [done|]. eapply (closed_rounds tail _ e x); try done. apply elem_of_app. by right. }
    apply elem_of_app in Hin as [Hin|]; [exfalso|done].
    (* an earlier cut already closed the round *)
    destruct a as [|s0 a0 _] using rev_ind; [by apply not_elem_of_nil in Hin|].
    destruct (Hcuts a0 s0 (seg :: b)) as (e0 & post0 & Hpost0 & Hcl0).
    { by rewrite Hsegs, <-(assoc_L (++)). }
    rewrite concat_app in Hin. simpl in Hin. rewrite app_nil_r in Hin.
    assert (x ∈ tail) as Hxt by (rewrite Ht; apply elem_of_app; left; apply elem_of_app; by right).
    pose proof (closed_rounds tail _ e0 y x k Hs Hcl0 Hin Hxt Hky Hkx) as Hlt.
    (* but [x] comes at or after the record of that cut *)
    assert (x ∈ e0 :: post0) as Hx0.
    { rewrite <-Hpost0. simpl. apply elem_of_app. left. apply elem_of_app. by left. }
    assert (StronglySorted precedes (e0 :: post0)) as Hs0.
    { rewrite Htail, Hsegs, <-(assoc_L (++)), concat_app in Hs. simpl in Hs.
      rewrite <-!(assoc_L (++)) in Hs. do 2 apply StronglySorted_app_1_r in Hs.
      rewrite <-Hpost0. simpl. by rewrite <-(assoc_L (++)). }
    apply StronglySorted_inv in Hs0 as [_ Hall]. rewrite Forall_forall in Hall.
    apply elem_of_cons in Hx0 as [->|Hx0]; [lia|]. specialize (Hall x Hx0).
    unfold precedes in Hall. lia.
Qed.

(** ** Segments tile the tail *)

Fixpoint tiled (b top : Z) (l : list (Z * Z * Z)) : Prop :=
  match l with
  | [] => b ≤ top
  | (first, last, _) :: l => first = b + 1 ∧ first ≤ last ∧ tiled last top l
  end.

Lemma seqZ_split (x y : list Z) b m :
  x ++ y = seqZ b m → x = seqZ b (length x) ∧ y = seqZ (b + length x) (m - length x).
Proof.
  revert b m. induction x as [|a x IH]; intros b m H.
  - simpl in *. by rewrite Z.add_0_r, Z.sub_0_r.
  - assert (0 < m) as Hm.
    { destruct (decide (0 < m)); [done|]. rewrite seqZ_nil in H by lia. done. }
    rewrite seqZ_cons in H by done. injection H as -> H. apply IH in H as [Hx Hy].
    simpl. rewrite seqZ_cons by lia. split.
    + f_equal. rewrite Hx at 1. f_equal; lia.
    + rewrite Hy. f_equal; lia.
Qed.

Lemma consecutive_ends (seg : list Event) b :
  ev_seq <$> seg = seqZ b (length seg) →
  (∀ e, head seg = Some e → ev_seq e = b) ∧ (∀ e, last seg = Some e → ev_seq e = b + length seg - 1).
Proof.
  intros H. split.
  - intros e He. destruct seg as [|x seg]; [done|]. injection He as ->.
    simpl in H. rewrite seqZ_cons in H by lia. by injection H.
  - intros e He. rewrite last_lookup in He.
    assert ((ev_seq <$> seg) !! pred (length seg) = Some (ev_seq e)) as Hl by by rewrite list_lookup_fmap, He.
    rewrite H in Hl. apply lookup_seqZ in Hl as [-> Hl]. destruct seg; [done|]. simpl. lia.
Qed.

Lemma names_tiled l segs rest b m :
  Forall2 names l segs → ev_seq <$> (concat segs ++ rest) = seqZ (b + 1) m → 0 ≤ m →
  tiled b (b + m) l.
Proof.
  intros HF. revert b m. induction HF as [|[[f t] est] seg l segs Hn HF IH]; intros b m H Hm; simpl in *;
    [lia|].
  rewrite <-(assoc_L (++)), fmap_app in H.
  assert (length seg ≤ m) as Hle.
  { apply (f_equal length) in H. rewrite length_app, length_fmap, length_seqZ in H. lia. }
  apply seqZ_split in H as [Hseg Hrest].
  rewrite length_fmap in Hseg, Hrest. destruct (consecutive_ends _ _ Hseg) as [Hh Hl].
  destruct Hn as ((x & Hx & Ef) & (y & Hy & Et) & _). simpl in Ef, Et.
  rewrite (Hh x Hx) in Ef. rewrite (Hl y Hy) in Et.
  assert (0 < length seg) by (destruct seg; [done|simpl; lia]).
  split; [done|]. split; [lia|].
  replace (b + m) with (t + (m - length seg)) by lia. apply IH; [|lia].
  rewrite Hrest. f_equal; lia.
Qed.

(** ** The unsealed tail *)

Lemma seqZ_above c n : 0 ≤ c ≤ n → filter (λ s, c < s) (seqZ 1 n) = seqZ (c + 1) (n - c).
Proof.
  intros Hc. replace n with (c + (n - c)) at 1 by lia. rewrite seqZ_app by lia.
  rewrite filter_app, filter_none, filter_all.
  - simpl. f_equal. lia.
  - apply Forall_forall. intros s Hs%elem_of_seqZ. lia.
  - apply Forall_forall. intros s Hs%elem_of_seqZ. lia.
Qed.

Lemma unsealed_seqs row :
  numbered ev_seq (ps_events row) → mem_ok (length (ps_events row)) (ps_chunks row) →
  ev_seq <$> unsealed row
  = seqZ (covered (ps_chunks row) + 1) (length (ps_events row) - covered (ps_chunks row)).
Proof.
  intros Hn Hok. rewrite <-seqZ_above by (eapply covered_bound; [done|lia]).
  unfold numbered in Hn. rewrite <-Hn. unfold unsealed.
  generalize (covered (ps_chunks row)). clear Hn Hok. intros c.
  induction (ps_events row) as [|e l IH]; [done|]. rewrite fmap_cons, !filter_cons.
  repeat case_decide; try done. by rewrite fmap_cons, IH.
Qed.

Lemma seqZ_precedes (l : list Event) b m :
  ev_seq <$> l = seqZ b m → StronglySorted precedes l ∧ Forall (λ e, b ≤ ev_seq e) l.
Proof.
  revert b m. induction l as [|e l IH]; intros b m H; [by split; constructor|].
  simpl in H. assert (0 < m) as Hm.
  { destruct (decide (0 < m)); [done|]. rewrite seqZ_nil in H by lia. done. }
  rewrite seqZ_cons in H by done. injection H as He H. apply IH in H as [Hs Hge].
  split; (constructor; [done || lia|]).
  - eapply Forall_impl; [exact Hge|]. intros x Hx. unfold precedes. simpl in Hx. lia.
  - eapply Forall_impl; [exact Hge|]. simpl. lia.
Qed.

(** What the walk seals of a tail. *)
Lemma walk_tail_spec tail b m l w :
  0 ≤ b → 0 ≤ m → ev_seq <$> tail = seqZ (b + 1) m → walk_tail tail = (l, w) →
  tiled b (b + m) l ∧ ∃ segs rest, tail = concat segs ++ rest ∧ Forall2 names l segs ∧
    wk_est w = est_sum rest ∧ Forall (self_contained tail) segs.
Proof.
  intros Hb Hm Hseq Hwalk. destruct (seqZ_precedes _ _ _ Hseq) as [Hs Hge].
  assert (window (roundEnds tail) [] [] walk0) as Hw0 by (split; done).
  destruct (seal_walk_spec _ [] [] _ tail l w Hw0) as (segs & rest & Happ & HF & Hest & Hcuts);
    [|done|]. { eapply Forall_impl; [exact Hge|]. simpl. lia. }
  simpl in Happ. split.
  - eapply names_tiled; [done| |done]. by rewrite <-Happ.
  - exists segs, rest. split_and!; [done|done|done|]. by eapply segments_closed.
Qed.

(** ** The parts of a maintenance pass as steps *)

Definition keys_below (seq : Z) (C : gmap Z MemoryChunk) : Prop := ∀ k c, C !! k = Some c → k ≤ seq.

Lemma max_chunk_below C : keys_below (max_chunk C) C ∧ 0 ≤ max_chunk C.
Proof.
  unfold max_chunk.
  apply (map_fold_weak_ind (λ m C, keys_below m C ∧ 0 ≤ m)).
  - split; [|done]. intros k c. by rewrite lookup_empty.
  - intros j x C' r Hj [IH H0]. split; [|lia]. intros k c. rewrite lookup_insert.
    case_decide; [subst; intros _; lia|]. intros Hk. specialize (IH k c Hk). lia.
Qed.
Lemma keys_below_fresh seq C k : keys_below seq C → seq < k → C !! k = None.
Proof.
  intros H Hk. destruct (C !! k) as [c|] eqn:E; [|done]. specialize (H k c E). lia.
Qed.
Lemma covered_insert C k c :
  C !! k = None → covered (<[k := c]> C) = Z.max (mc_last_seq c) (covered C).
Proof. intros Hk. unfold covered. rewrite map_fold_insert_L; [done|intros; lia|done]. Qed.

Lemma seal_chunks_steps n now l seq C seq' C' :
  keys_below seq C → 0 ≤ seq → tiled (covered C) n l → seal_chunks now seq l C = (seq', C') →
  rtc (mem_step false n) C C' ∧ keys_below seq' C' ∧ seq ≤ seq' ∧
  ∀ k c, C' !! k = Some c → C !! k = Some c ∨
    ∃ first last est, (first, last, est) ∈ l ∧ c = sealed_chunk now 1 None first last est.
Proof.
  revert seq C. induction l as [|[[first last] est] l IH]; intros seq C Hk H0 Ht H; simpl in *.
  { injection H as <- <-. split_and!; [done|done|lia|auto]. }
  destruct Ht as (-> & Hle & Ht). set (c := sealed_chunk now 1 None _ last est) in *.
  assert (C !! (seq + 1) = None) as Hf by (eapply keys_below_fresh; [done|lia]).
  assert (tiled (covered (<[seq + 1 := c]> C)) n l) as Ht'.
  { rewrite covered_insert by done. simpl. rewrite Z.max_l by lia. done. }
  assert (keys_below (seq + 1) (<[seq + 1 := c]> C)) as Hk'.
  { intros k d. rewrite lookup_insert. case_decide; [intros _; lia|]. intros Hd.
    specialize (Hk k d Hd). lia. }
  destruct (IH _ _ Hk' ltac:(lia) Ht' H) as (Hrtc & Hk2 & Hseq & Hrows).
  split_and!; [|done|lia|].
  - eapply rtc_l; [|exact Hrtc]. apply step_seal; try done; simpl; [lia|].
    assert (last ≤ n); [|lia]. clear -Ht. revert last Ht. induction l as [|[[? ?] ?] l IH]; simpl;
      intros last Ht; [lia|]. destruct Ht as (-> & ? & Ht). specialize (IH _ Ht). lia.
  - intros k d Hd. destruct (Hrows k d Hd) as [Hd'|(f & t & x & Hin & ->)].
    + rewrite lookup_insert in Hd'. case_decide; [|by left]. injection Hd' as <-. right.
      exists (covered C + 1), last, est. split; [by left|done].
    + right. exists f, t, x. split; [by right|done].
Qed.

Lemma mark_applied_insert now k C c :
  C !! k = Some c → mc_status c = ChPrepared → mark_applied now k C = <[k := apply_chunk now c]> C.
Proof.
  intros Hk Hp. unfold mark_applied. rewrite (alter_found _ _ _ c) by done.
  by rewrite bool_decide_eq_true_2.
Qed.

(** The rows of a list of candidates are still in the table. *)
Definition still (l : list (Z * MemoryChunk)) (C : gmap Z MemoryChunk) : Prop :=
  NoDup l.*1 ∧ ∀ k c, (k, c) ∈ l → C !! k = Some c ∧ mc_status c = ChPrepared.

Lemma still_cons k c l C C' :
  still ((k, c) :: l) C → (∀ j d, C !! j = Some d → j ≠ k → mc_status d = ChPrepared → C' !! j = Some d) →
  still l C'.
Proof.
  intros [Hnd Hl] HC. apply NoDup_cons in Hnd as [Hk Hnd]. split; [done|].
  intros j d Hj. destruct (Hl j d) as [Hd Hp]; [by right|]. split; [|done].
  apply HC; [done| |done]. intros ->. apply Hk. by apply (list_elem_of_fmap_2 fst) in Hj.
Qed.

Lemma chunks_where_elem P C k c : (k, c) ∈ chunks_where P C ↔ C !! k = Some c ∧ P c = true.
Proof.
  unfold chunks_where. rewrite merge_sort_Permutation, list_elem_of_filter, elem_of_map_to_list.
  simpl. tauto.
Qed.
Lemma chunks_where_still P C :
  (∀ c, P c = true → mc_status c = ChPrepared) → still (chunks_where P C) C.
Proof.
  intros HP. split.
  - unfold chunks_where. rewrite merge_sort_Permutation. apply NoDup_fmap_keep, NoDup_fst_map_to_list.
  - intros k c [Hk Hp]%chunks_where_elem. auto.
Qed.

Lemma apply_prepared_steps n now live cands C live' C' :
  still cands C → (∀ k c, (k, c) ∈ cands → mc_layer c = 1) →
  apply_prepared now live cands C = (live', C') →
  rtc (mem_step false n) C C' ∧ dom C' = dom C.
Proof.
  revert live C. induction cands as [|[k c] cands IH]; intros live C Hst Hl H; simpl in H.
  { by injection H as <- <-. }
  destruct (_ <=? _); [by injection H as <- <-|].
  destruct (proj2 Hst k c ltac:(by left)) as [Hk Hp]. rewrite (mark_applied_insert _ _ _ c) in H by done.
  apply IH in H as [Hr Hd].
  - split; [eapply rtc_l; [|exact Hr]; apply step_apply; auto; apply (Hl k); by left|].
    rewrite Hd. apply dom_insert_lookup_L. by exists c.
  - eapply still_cons; [done|]. intros j d Hj Hn _. by rewrite lookup_insert_ne.
  - intros j d Hj. apply (Hl j). by right.
Qed.

(** ** Targets *)

Lemma source_rows_elem l C k c : (k, c) ∈ source_rows l C ↔ k ∈ l ∧ C !! k = Some c.
Proof. unfold source_rows. rewrite list_elem_of_filter, elem_of_map_to_list. done. Qed.

Lemma source_layer_applied l C layer :
  source_layer l C = Some layer → ∀ j, j ∈ l → ∃ d, C !! j = Some d ∧ mc_status d = ChApplied.
Proof.
  unfold source_layer. intros H j Hj.
  assert (length (source_rows l C) = length l ∧
    ∀ k d, (k, d) ∈ source_rows l C → mc_status d = ChApplied) as [Hlen Hall].
  { destruct (source_rows l C) as [|[k0 c0] srcs]; [done|].
    destruct (_ && _) eqn:Hc; [|done]. apply andb_true_iff in Hc as [[Hlen Hf]%andb_true_iff _].
    split; [by apply bool_decide_eq_true in Hlen|]. intros k d Hd. rewrite forallb_forall in Hf.
    apply list_elem_of_In in Hd. specialize (Hf _ Hd). apply andb_true_iff in Hf as [Hf _].
    by apply bool_decide_eq_true in Hf. }
  assert ((source_rows l C).*1 ≡ₚ l) as Hperm.
  { apply submseteq_length_Permutation; [|by rewrite length_fmap, Hlen].
    apply NoDup_submseteq.
    - apply NoDup_fmap_keep, NoDup_fst_map_to_list.
    - intros x ([y d] & -> & Hy)%list_elem_of_fmap. by apply source_rows_elem in Hy as []. }
  rewrite <-Hperm in Hj. apply list_elem_of_fmap in Hj as ([y d] & -> & Hd). exists d.
  split; [by apply source_rows_elem in Hd as []|by eapply Hall].
Qed.

Lemma dom_supersede l C : dom (supersede l C) = dom C.
Proof.
  apply set_eq. intros j. rewrite !elem_of_dom, lookup_supersede. apply fmap_is_Some.
Qed.

Lemma applyUpperTarget_steps n now k t C C' :
  mem_ok n C → C !! k = Some t → mc_status t = ChPrepared → mc_layer t ≠ 1 →
  applyUpperTarget now k t C = Ok C' →
  rtc (mem_step false n) C C' ∧ dom C' = dom C ∧
  ∀ j d, C !! j = Some d → j ≠ k → mc_status d = ChPrepared → C' !! j = Some d.
Proof.
  intros Hok Hk Hp Hl H. unfold applyUpperTarget in H.
  destruct (mo_layer _ _ Hok k t Hk) as [[? _]|(Hl2 & l & layer & Hs & _)]; [done|].
  rewrite Hs in H. simpl in H. destruct (source_layer l C) as [ly|] eqn:Hsl.
  - destruct (_ <=? _); [injection H as <-; split_and!; try done; auto|].
    destruct (negb _); [done|]. injection H as <-.
    assert (supersede l C !! k = Some t) as Hk'.
    { rewrite lookup_supersede, Hk. simpl. rewrite bool_decide_eq_false_2; [done|].
      intros [_ ?]. congruence. }
    rewrite (mark_applied_insert _ _ _ t) by done. split_and!.
    + apply rtc_once. eapply step_swap; try done. by eapply source_layer_applied.
    + rewrite dom_insert_lookup_L by (by exists t). apply dom_supersede.
    + intros j d Hj Hn Hd. rewrite lookup_insert_ne by done. rewrite lookup_supersede, Hj. simpl.
      rewrite bool_decide_eq_false_2; [done|]. intros [_ ?]. congruence.
  - injection H as <-. set (f := λ c, if bool_decide (mc_status c = ChPrepared) then _ else c).
    rewrite (alter_found f k C t) by done.
    assert (f t = t <| mc_status := ChFailed |> <| mc_last_error := Some stale_error |>) as ->.
    { unfold f. by rewrite bool_decide_eq_true_2. }
    split_and!.
    + apply rtc_once. eapply step_local; try done. by rewrite Hp.
    + apply dom_insert_lookup_L. by exists t.
    + intros j d Hj Hn _. by rewrite lookup_insert_ne.
Qed.

Lemma apply_targets_steps n now targets C C' :
  mem_ok n C → still targets C → (∀ k t, (k, t) ∈ targets → mc_layer t ≠ 1) →
  apply_targets now targets C = Ok C' → rtc (mem_step false n) C C' ∧ dom C' = dom C.
Proof.
  revert C. induction targets as [|[k t] targets IH]; intros C Hok Hst Hl H; simpl in H.
  { by injection H as <-. }
  destruct (applyUpperTarget now k t C) as [C1|] eqn:H1; [|done].
  destruct (proj2 Hst k t ltac:(by left)) as [Hk Hp].
  destruct (applyUpperTarget_steps n now k t C C1 Hok Hk Hp ltac:(apply (Hl k); by left) H1)
    as (Hr1 & Hd1 & Hkeep).
  destruct (mem_steps _ _ _ _ Hr1 Hok) as [Hok1 _].
  apply IH in H as [Hr Hd]; [|done|by eapply still_cons|intros j x Hj; apply (Hl j); by right].
  split; [by etrans|congruence].
Qed.

Lemma spans_snoc C layer l first last k c :
  spans C layer l first last → C !! k = Some c → mc_layer c = layer → mc_first_seq c = last + 1 →
  spans C layer (l ++ [k]) first (mc_last_seq c).
Proof.
  intros Hs Hk Hl Hf. revert first Hs. induction l as [|j l IH]; intros first; [done|].
  intros (d & Hd & Hdl & Hdf & Hr). exists d. split_and!; try done.
  destruct l as [|j' l]; [|by apply IH]. subst last. exists c. done.
Qed.

Lemma choose_group_spans C layer whole room g frags g' :
  spans C layer (gr_keys g) (gr_first g) (gr_last g) →
  (∀ k c, (k, c) ∈ frags → C !! k = Some c ∧ mc_layer c = layer) →
  choose_group C whole room g frags = Some g' →
  spans C layer (gr_keys g') (gr_first g') (gr_last g').
Proof.
  revert g. induction frags as [|[k c] frags IH]; intros g Hg Hf H; simpl in H.
  { destruct (settled _ C); [done|]. by injection H as <-. }
  destruct (Hf k c ltac:(by left)) as [Hk Hl].
  assert (∀ j d, (j, d) ∈ frags → C !! j = Some d ∧ mc_layer d = layer) as Hf'.
  { intros j d Hj. apply Hf. by right. }
  destruct (_ && _) eqn:Hadj; [|destruct (settled _ C)].
  - apply andb_true_iff in Hadj as [Hadj _]. reflect_bools. eapply IH; [|done|exact H].
    by eapply spans_snoc.
  - eapply IH; [|done|exact H]. by exists c.
  - by injection H as <-.
Qed.

Lemma select_spans C layer limit dropTo whole g :
  select C layer limit dropTo whole = Ok (Some g) →
  spans C layer (gr_keys g) (gr_first g) (gr_last g).
Proof.
  unfold select. destruct (_ <=? _); [done|]. destruct (existsb _ _); [done|].
  intros H. injection H as H.
  assert (∀ k c, (k, c) ∈ fragments layer C → C !! k = Some c ∧ mc_layer c = layer) as Hf.
  { intros k c. unfold fragments. rewrite merge_sort_Permutation, list_elem_of_filter, elem_of_map_to_list.
    simpl. tauto. }
  destruct (fragments layer C) as [|[k c] frags]; [done|].
  eapply choose_group_spans; [| |exact H].
  - destruct (Hf k c ltac:(by left)). by exists c.
  - intros j d Hj. apply Hf. by right.
Qed.

Lemma prepareUpperTarget_steps n now seq C C' :
  keys_below seq C → 0 ≤ seq → prepareUpperTarget now seq C = Ok C' → rtc (mem_step false n) C C'.
Proof.
  intros Hk H0 H. unfold prepareUpperTarget in H. destruct (busy C); [by injection H as <-|].
  assert (∀ g layer, spans C layer (gr_keys g) (gr_first g) (gr_last g) →
    rtc (mem_step false n) C (insert_target now seq g C)) as Hins.
  { intros g layer Hg. apply rtc_once. eapply step_target; try done; [|lia].
    eapply keys_below_fresh; [done|lia]. }
  unfold mbind, res_bind in H.
  destruct (select C 1 _ _ _) as [[g|]|] eqn:H1; [|  |done].
  - injection H as <-. eapply Hins, select_spans. done.
  - destruct (select C 2 _ _ _) as [[g|]|] eqn:H2; [| |done]; injection H as <-; [|done].
    eapply Hins, select_spans. done.
Qed.

(** ** A maintenance pass *)

Definition is_prepared (layer1 : bool) (c : MemoryChunk) : bool :=
  (if layer1 then mc_layer c =? 1 else 2 <=? mc_layer c) && bool_decide (mc_status c = ChPrepared).
Definition applied_pass (now : Z) (w : Walk) (C : gmap Z MemoryChunk) : gmap Z MemoryChunk :=
  let live := chunk_raw C + wk_est w in
  if L0LiveLimitTokens <? live
  then (apply_prepared now live (chunks_where (is_prepared true) C) C).2 else C.

(** The pass split at its stages. *)
Lemma maintain_stages now tail C C' :
  maintain now tail C = Ok C' →
  ∃ l w seq C1 C3, walk_tail tail = (l, w) ∧ seal_chunks now (max_chunk C) l C = (seq, C1) ∧
    apply_targets now (chunks_where (is_prepared false) (applied_pass now w C1)) (applied_pass now w C1)
      = Ok C3 ∧ prepareUpperTarget now seq C3 = Ok C'.
Proof.
  unfold maintain, mbind, res_bind. destruct (walk_tail tail) as [l w].
  destruct (seal_chunks _ _ _ _) as [seq C1] eqn:Hs. simpl.
  change (λ c : MemoryChunk, (2 <=? mc_layer c) && bool_decide (mc_status c = ChPrepared))
    with (is_prepared false).
  change (λ c : MemoryChunk, (mc_layer c =? 1) && bool_decide (mc_status c = ChPrepared))
    with (is_prepared true).
  fold (applied_pass now w C1). destruct (apply_targets _ _ _) as [C3|] eqn:Ht; [|done].
  intros H. exists l, w, seq, C1, C3. done.
Qed.

Lemma is_prepared_still b C : still (chunks_where (is_prepared b) C) C.
Proof.
  apply chunks_where_still. unfold is_prepared. intros c Hc. apply andb_true_iff in Hc as [_ Hc].
  by apply bool_decide_eq_true in Hc.
Qed.
Lemma applied_pass_steps n now w C :
  rtc (mem_step false n) C (applied_pass now w C) ∧ dom (applied_pass now w C) = dom C.
Proof.
  unfold applied_pass. destruct (_ <? _); [|done].
  destruct (apply_prepared _ _ _ _) as [live C'] eqn:Ha. simpl.
  eapply apply_prepared_steps; [apply is_prepared_still| |exact Ha].
  intros k c [_ Hp]%chunks_where_elem. unfold is_prepared in Hp. apply andb_true_iff in Hp as [Hp _].
  by reflect_bools.
Qed.

Lemma keys_below_dom seq C C' : dom C' = dom C → keys_below seq C → keys_below seq C'.
Proof.
  intros Hd H k c Hk. assert (k ∈ dom C) as [d Hd']%elem_of_dom; [|by eapply H].
  rewrite <-Hd. apply elem_of_dom. by exists c.
Qed.

Record pass_ok (n now : Z) (tail : list Event) (l : list (Z * Z * Z)) (w : Walk)
    (C C1 C2 C' : gmap Z MemoryChunk) : Prop := {
  pa_walk : walk_tail tail = (l, w);
  pa_seal : rtc (mem_step false n) C C1;
  pa_sealed : ∀ k c, C1 !! k = Some c → C !! k = Some c ∨
    ∃ first last est, (first, last, est) ∈ l ∧ c = sealed_chunk now 1 None first last est;
  pa_applied : C2 = applied_pass now w C1;
  pa_apply : rtc (mem_step false n) C1 C2;
  pa_upper : rtc (mem_step false n) C2 C';
  pa_new : ∀ k c, C' !! k = Some c → is_Some (C1 !! k) ∨ mc_layer c = 2;
  pa_stages : ∃ seq C3, seal_chunks now (max_chunk C) l C = (seq, C1) ∧ mem_ok n C2 ∧
    apply_targets now (chunks_where (is_prepared false) C2) C2 = Ok C3 ∧
    keys_below seq C3 ∧ prepareUpperTarget now seq C3 = Ok C'
}.

Lemma maintain_pass n now tail C C' :
  mem_ok n C → 0 ≤ n → ev_seq <$> tail = seqZ (covered C + 1) (n - covered C) →
  maintain now tail C = Ok C' → ∃ l w C1 C2, pass_ok n now tail l w C C1 C2 C'.
Proof.
  intros Hok Hn Hseq (l & w & seq & C1 & C3 & Hw & Hs & Ht & Hp)%maintain_stages.
  pose proof (covered_bound _ _ Hok Hn) as Hc. destruct (max_chunk_below C) as [Hk H0].
  destruct (walk_tail_spec tail (covered C) (n - covered C) l w ltac:(lia) ltac:(lia) Hseq Hw)
    as [Htile _]. replace (covered C + (n - covered C)) with n in Htile by lia.
  destruct (seal_chunks_steps n now l _ _ _ _ Hk H0 Htile Hs) as (Hr1 & Hk1 & Hseq1 & Hrows).
  destruct (mem_steps _ _ _ _ Hr1 Hok) as [Hok1 _].
  destruct (applied_pass_steps n now w C1) as [Hr2 Hd2].
  destruct (mem_steps _ _ _ _ Hr2 Hok1) as [Hok2 _].
  destruct (apply_targets_steps n now _ _ C3 Hok2 (is_prepared_still false _)) as [Hr3 Hd3]; [|done|].
  { intros k t [_ Hp']%chunks_where_elem. unfold is_prepared in Hp'.
    apply andb_true_iff in Hp' as [Hp' _]. reflect_bools. lia. }
  assert (keys_below seq C3) as Hk3.
  { eapply keys_below_dom; [|exact Hk1]. congruence. }
  pose proof (prepareUpperTarget_steps n now seq C3 C' Hk3 ltac:(lia) Hp) as Hr4.
  exists l, w, C1, (applied_pass now w C1). split; try done; [by etrans| |by exists seq, C3].
  intros k c Hc'. unfold prepareUpperTarget, mbind, res_bind in Hp.
  assert (C' = C3 ∨ ∃ g, C' = insert_target now seq g C3) as [->|[g ->]].
  { destruct (busy C3); [left; congruence|]. destruct (select C3 1 _ _ _) as [[g|]|]; [| |done].
    - right. exists g. congruence.
    - destruct (select C3 2 _ _ _) as [[g|]|]; [| |done]; [right; exists g; congruence|left; congruence]. }
  - left. apply elem_of_dom. rewrite <-Hd2, <-Hd3. apply elem_of_dom. by exists c.
  - unfold insert_target in Hc'. rewrite lookup_insert in Hc'. case_decide; [injection Hc' as <-; by right|].
    left. apply elem_of_dom. rewrite <-Hd2, <-Hd3. apply elem_of_dom. by exists c.
Qed.

Lemma pass_steps n now tail l w C C1 C2 C' :
  pass_ok n now tail l w C C1 C2 C' → rtc (mem_step false n) C C'.
Proof. intros []. etrans; [done|]. by etrans. Qed.
End facts.
