(* ===== verification/MemoryLive.v ===== *)
(** * The live raw estimate

    What a maintenance pass does to the records still rendered raw: sealing
    moves them from the tail into chunks, applying takes whole chunks out,
    oldest first and no more than the limit asks for, and the upper layer
    leaves them alone. *)

From Stdlib Require Import ZArith Lia.
From stdpp Require Import sorting.
From S2P Require Import Prelude Json MemoryState MemoryShape State Personas Memory MemoryFacts.
Local Open Scope list_scope.
Local Open Scope Z_scope.

Section live.
Context `{GL : !GoLib}.
Implicit Types (C : gmap Z MemoryChunk) (a : list (Z * MemoryChunk)).

(** ** Sums over a table *)

Definition total (M : gmap Z Z) : Z := map_fold (λ _ x n, x + n) 0 M.

Lemma total_insert M k x : M !! k = None → total (<[k := x]> M) = x + total M.
Proof. intros Hk. unfold total. rewrite map_fold_insert_L; [done|intros; lia|done]. Qed.
Lemma total_update M k x y : M !! k = Some x → total (<[k := y]> M) = total M - x + y.
Proof.
  intros Hk. rewrite <-(insert_delete_id M k x Hk) at 2. rewrite <-(insert_delete_eq M k y).
  rewrite !total_insert by apply lookup_delete_eq. lia.
Qed.

(** The layer-1 chunks rendered raw. *)
Definition is_live (c : MemoryChunk) : bool := (mc_layer c =? 1) && raw_status (mc_status c).
Definition live_est (c : MemoryChunk) : Z := if is_live c then mc_est_tokens c else 0.

Lemma chunk_raw_total C : chunk_raw C = total (live_est <$> C).
Proof.
  unfold chunk_raw, sum_chunks, total. rewrite map_fold_foldr, map_to_list_fmap.
  generalize (map_to_list C). intros l. induction l as [|[k c] l IH]; [done|].
  rewrite filter_cons, fmap_cons. simpl in *. rewrite <-IH. unfold live_est, is_live.
  by destruct ((mc_layer c =? 1) && _); case_decide.
Qed.
Lemma chunk_raw_ext C C' : (∀ k, live_est <$> C' !! k = live_est <$> C !! k) → chunk_raw C' = chunk_raw C.
Proof.
  intros H. rewrite !chunk_raw_total. f_equal. apply map_eq. intros k. by rewrite !lookup_fmap.
Qed.
Lemma chunk_raw_insert C k c : C !! k = None → chunk_raw (<[k := c]> C) = live_est c + chunk_raw C.
Proof.
  intros Hk. rewrite !chunk_raw_total, fmap_insert. apply total_insert. by rewrite lookup_fmap, Hk.
Qed.
Lemma chunk_raw_update C k c c' :
  C !! k = Some c → chunk_raw (<[k := c']> C) = chunk_raw C - live_est c + live_est c'.
Proof.
  intros Hk. rewrite !chunk_raw_total, fmap_insert. apply total_update. by rewrite lookup_fmap, Hk.
Qed.

(** ** Applying *)

Definition ests a : Z := foldr (λ kc n, mc_est_tokens kc.2 + n) 0 a.
Lemma ests_snoc a kc : ests (a ++ [kc]) = ests a + mc_est_tokens kc.2.
Proof. unfold ests. rewrite foldr_app. simpl. induction a as [|x a IH]; simpl in *; lia. Qed.

(** Of the candidates [l] the first ones, [a], were applied. *)
Record applied_first (now live live' : Z) (l : list (Z * MemoryChunk)) C C' a : Prop := {
  af_prefix : a `prefix_of` l;
  af_live : live' = live - ests a;
  af_raw : chunk_raw C' = chunk_raw C - ests a;
  af_enough : live' ≤ L0LiveLimitTokens ∨ a = l;
  af_needed : ∀ kc, last a = Some kc → L0LiveLimitTokens < live' + mc_est_tokens kc.2;
  af_rows : ∀ k c, (k, c) ∈ a → C' !! k = Some (apply_chunk now c);
  af_others : ∀ k, k ∉ a.*1 → C' !! k = C !! k
}.

Lemma apply_prepared_first now live l C live' C' :
  still l C → (∀ k c, (k, c) ∈ l → mc_layer c = 1) → apply_prepared now live l C = (live', C') →
  ∃ a, applied_first now live live' l C C' a.
Proof.
  revert live C. induction l as [|[k c] l IH]; intros live C Hst Hl H; simpl in H.
  { injection H as <- <-. exists []. split; simpl; try done; try lia; [by right|].
    by intros k c ?%not_elem_of_nil. }
  destruct (live <=? _) eqn:Hlive; reflect_bools.
  { injection H as <- <-. exists []. split; simpl; try done; try lia; [apply prefix_nil|].
    by intros j d ?%not_elem_of_nil. }
  destruct (proj2 Hst k c ltac:(by left)) as [Hk Hp]. rewrite (mark_applied_insert _ _ _ c) in H by done.
  assert (still l (<[k := apply_chunk now c]> C)) as Hst'.
  { eapply still_cons; [done|]. intros j d Hj Hn _. by rewrite lookup_insert_ne. }
  destruct (IH _ _ Hst' ltac:(intros j d Hj; apply (Hl j); by right) H)
    as (a & [Hpre Hlv Hraw Hen Hneed Hrows Hoth]). exists ((k, c) :: a).
  assert (k ∉ a.*1) as Hka.
  { intros ([j d] & -> & Hj)%list_elem_of_fmap. destruct Hst as [Hnd _].
    apply NoDup_cons in Hnd as [Hn _]. apply Hn. apply (list_elem_of_fmap_2 fst _ (j, d)).
    destruct Hpre as [z ->]. apply elem_of_app. by left. }
  split; simpl.
  - by apply prefix_cons.
  - lia.
  - rewrite Hraw, (chunk_raw_update _ _ c) by done.
    assert (live_est c = mc_est_tokens c ∧ live_est (apply_chunk now c) = 0) as [-> ->]; [|lia].
    unfold live_est, is_live. simpl. rewrite Hp, (Hl k c) by by left. done.
  - destruct Hen as [?| ->]; [by left|by right].
  - destruct a as [|x a] using rev_ind; [intros kc [= <-]; simpl in *; lia|].
    intros kc. rewrite app_comm_cons, last_snoc. intros [= <-]. apply Hneed. by rewrite last_snoc.
  - intros j d [[= -> ->]|Hj]%elem_of_cons; [|by apply Hrows].
    rewrite Hoth by done. by rewrite lookup_insert_eq.
  - intros j [Hn Hj]%not_elem_of_cons. rewrite Hoth by done. by rewrite lookup_insert_ne.
Qed.

(** ** The upper layer leaves raw chunks alone *)

Definition live_of C : gmap Z MemoryChunk := filter (λ kc, is_live kc.2 = true) C.

Lemma live_of_lookup C k c : live_of C !! k = Some c ↔ C !! k = Some c ∧ is_live c = true.
Proof. unfold live_of. by rewrite map_lookup_filter_Some. Qed.
Lemma live_of_ext C C' :
  (∀ k c, is_live c = true → C' !! k = Some c ↔ C !! k = Some c) → live_of C' = live_of C.
Proof.
  intros H. apply map_eq. intros k. apply option_eq. intros c. rewrite !live_of_lookup. naive_solver.
Qed.
Lemma chunk_raw_live C : chunk_raw C = chunk_raw (live_of C).
Proof.
  induction C as [|k c C Hk IH] using map_ind; [done|].
  rewrite chunk_raw_insert by done. unfold live_est. destruct (is_live c) eqn:Hc.
  - assert (live_of (<[k := c]> C) = <[k := c]> (live_of C)) as ->.
    { unfold live_of. by rewrite map_filter_insert_True. }
    rewrite chunk_raw_insert, <-IH; [unfold live_est; by rewrite Hc|].
    unfold live_of. rewrite map_lookup_filter_None. by left.
  - rewrite (live_of_ext C); [done|]. intros j d Hd. rewrite lookup_insert. case_decide; [|done].
    subst. rewrite Hk. split; [intros [= ->]; congruence|done].
Qed.
Lemma live_update C k c c' :
  C !! k = Some c → is_live c = false → is_live c' = false → live_of (<[k := c']> C) = live_of C.
Proof.
  intros Hk Hc Hc'. apply live_of_ext. intros j d Hd. rewrite lookup_insert. case_decide; [|done].
  subst. rewrite Hk. split; intros [= ->]; congruence.
Qed.
Lemma live_supersede l C : live_of (supersede l C) = live_of C.
Proof.
  apply live_of_ext. intros j d Hd. rewrite lookup_supersede. destruct (C !! j) as [c|] eqn:Hj; [|done].
  simpl. case_bool_decide as Hb; [|done]. destruct Hb as [_ Ha].
  split; intros [= <-]; unfold is_live in Hd; simpl in Hd; rewrite ?Ha, andb_false_r in Hd; done.
Qed.
Lemma upper_not_live c : mc_layer c ≠ 1 → is_live c = false.
Proof. intros H. unfold is_live. destruct (mc_layer c =? 1) eqn:E; [reflect_bools; done|done]. Qed.

Lemma applyUpperTarget_live now k t C C' :
  C !! k = Some t → mc_status t = ChPrepared → mc_layer t ≠ 1 →
  applyUpperTarget now k t C = Ok C' → live_of C' = live_of C.
Proof.
  intros Hk Hp Hl H. unfold applyUpperTarget in H. destruct (source_layer _ C) as [ly|].
  - destruct (_ <=? _); [by injection H as <-|]. destruct (negb _); [done|]. injection H as <-.
    assert (supersede (default [] (mc_sources t)) C !! k = Some t) as Hk'.
    { rewrite lookup_supersede, Hk. simpl. rewrite bool_decide_eq_false_2; [done|].
      intros [_ ?]. congruence. }
    rewrite (mark_applied_insert _ _ _ t), (live_update _ _ t), live_supersede by
      (done || by apply upper_not_live). done.
  - injection H as <-. apply live_of_ext. intros j d Hd. rewrite lookup_alter. case_decide; [subst|done].
    rewrite Hk. simpl. rewrite bool_decide_eq_true_2 by done.
    split; intros [= <-]; by rewrite upper_not_live in Hd.
Qed.
Lemma apply_targets_live n now targets C C' :
  mem_ok n C → still targets C → (∀ k t, (k, t) ∈ targets → mc_layer t ≠ 1) →
  apply_targets now targets C = Ok C' → live_of C' = live_of C.
Proof.
  revert C. induction targets as [|[k t] targets IH]; intros C Hok Hst Hl H; simpl in H.
  { by injection H as <-. }
  destruct (applyUpperTarget now k t C) as [C1|] eqn:H1; [|done].
  destruct (proj2 Hst k t ltac:(by left)) as [Hk Hp].
  assert (mc_layer t ≠ 1) as Hlt by (apply (Hl k); by left).
  destruct (applyUpperTarget_steps n now k t C C1 Hok Hk Hp Hlt H1) as (Hr1 & _ & Hkeep).
  destruct (mem_steps _ _ _ _ Hr1 Hok) as [Hok1 _].
  rewrite (IH C1); [by eapply applyUpperTarget_live|done|by eapply still_cons| |done].
  intros j x Hj. apply (Hl j). by right.
Qed.
Lemma prepareUpperTarget_live now seq C C' :
  keys_below seq C → prepareUpperTarget now seq C = Ok C' → live_of C' = live_of C.
Proof.
  intros Hk H. unfold prepareUpperTarget, mbind, res_bind in H.
  assert (∀ g, live_of (insert_target now seq g C) = live_of C) as Hins.
  { intros g. apply live_of_ext. intros j d Hd. unfold insert_target. rewrite lookup_insert.
    case_decide; [subst|done]. rewrite (keys_below_fresh seq) by (done || lia).
    split; [by intros [= <-]|done]. }
  destruct (busy C); [by injection H as <-|]. destruct (select C 1 _ _ _) as [[g|]|]; [| |done].
  - injection H as <-. apply Hins.
  - destruct (select C 2 _ _ _) as [[g|]|]; [| |done]; injection H as <-; [apply Hins|done].
Qed.

(** ** The tail after sealing *)

Definition top (b : Z) (l : list (Z * Z * Z)) : Z := foldl (λ _ r, r.1.2) b l.

Lemma tiled_top b n l : tiled b n l → b ≤ top b l ≤ n.
Proof.
  revert b. induction l as [|[[f t] est] l IH]; intros b; simpl; [lia|].
  intros (-> & ? & Ht%IH). unfold top in *. simpl in *. lia.
Qed.
Lemma seal_chunks_covered now n l seq C seq' C' :
  keys_below seq C → tiled (covered C) n l → seal_chunks now seq l C = (seq', C') →
  covered C' = top (covered C) l.
Proof.
  revert seq C. induction l as [|[[f t] est] l IH]; intros seq C Hk Ht H; simpl in *.
  { by injection H as <- <-. }
  destruct Ht as (-> & Hle & Ht). set (c := sealed_chunk now 1 None _ t est) in *.
  assert (covered (<[seq + 1 := c]> C) = t) as Hc.
  { rewrite covered_insert by (eapply keys_below_fresh; [done|lia]). simpl. lia. }
  apply IH in H as ->; rewrite ?Hc; try done.
  intros k d. rewrite lookup_insert. case_decide; [intros _; lia|]. intros Hd%Hk. lia.
Qed.

Lemma names_rest l segs rest b m :
  Forall2 names l segs → ev_seq <$> (concat segs ++ rest) = seqZ (b + 1) m → 0 ≤ m →
  Forall (λ e, ev_seq e ≤ top b l) (concat segs) ∧ Forall (λ e, top b l < ev_seq e) rest.
Proof.
  intros HF. revert b m. induction HF as [|[[f t] est] seg l segs Hn HF IH]; intros b m H Hm; simpl in *.
  { split; [constructor|]. apply seqZ_precedes in H as [_ Hge]. eapply Forall_impl; [exact Hge|].
    simpl. lia. }
  rewrite <-(assoc_L (++)), fmap_app in H.
  assert (length seg ≤ m) as Hle.
  { apply (f_equal length) in H. rewrite length_app, length_fmap, length_seqZ in H. lia. }
  apply seqZ_split in H as [Hseg Hrest]. rewrite length_fmap in Hseg, Hrest.
  destruct (consecutive_ends _ _ Hseg) as [_ Hl].
  destruct Hn as (_ & (y & Hy & Et) & _). simpl in Et. rewrite (Hl y Hy) in Et.
  destruct (IH t (m - length seg)) as [H1 H2]; [|lia|].
  { rewrite Hrest. f_equal; lia. }
  change (top b ((f, t, est) :: l)) with (top t l). split; [|done]. apply Forall_app. split; [|done].
  assert (t ≤ top t l) as Htop.
  { eapply tiled_top, (names_tiled l segs rest t (m - length seg)); [done| |lia]. rewrite Hrest. f_equal; lia. }
  apply Forall_forall. intros e He%(list_elem_of_fmap_2 ev_seq). rewrite Hseg in He.
  apply elem_of_seqZ in He. lia.
Qed.

(** ** A whole pass *)

Section pass.
Context (n now : Z) (row : PersonaRow) (l : list (Z * Z * Z)) (w : Walk)
  (C1 C2 C' : gmap Z MemoryChunk).
Hypothesis Hn : n = length (ps_events row).
Hypothesis Hnum : numbered ev_seq (ps_events row).
Hypothesis Hok : mem_ok n (ps_chunks row).
Hypothesis Hpass : pass_ok n now (unsealed row) l w (ps_chunks row) C1 C2 C'.

Lemma pass_ok_end : mem_ok n C1 ∧ mem_ok n C' ∧ mem_hist C1 C'.
Proof.
  destruct (mem_steps _ _ _ _ (pa_seal _ _ _ _ _ _ _ _ _ Hpass) Hok) as [H1 _].
  destruct (mem_steps false n C1 C') as [H2 Hh]; [|done|done].
  etrans; [apply Hpass|apply Hpass].
Qed.

Lemma pass_tiled :
  tiled (covered (ps_chunks row)) n l ∧ ∃ segs rest, unsealed row = concat segs ++ rest ∧
    Forall2 names l segs ∧ wk_est w = est_sum rest ∧ Forall (self_contained (unsealed row)) segs.
Proof.
  pose proof (covered_bound _ _ Hok ltac:(lia)) as Hc.
  pose proof (walk_tail_spec (unsealed row) (covered (ps_chunks row)) (n - covered (ps_chunks row))
                l w) as H.
  replace (covered (ps_chunks row) + (n - covered (ps_chunks row))) with n in H by lia.
  apply H; [lia|lia| |apply Hpass]. subst n. by apply unsealed_seqs.
Qed.

Lemma pass_covered : covered C' = top (covered (ps_chunks row)) l.
Proof.
  destruct Hpass as [_ _ _ _ _ _ Hnew (seq & C3 & Hs & _)]. destruct pass_ok_end as (_ & H' & Hh).
  rewrite <-(seal_chunks_covered now n l _ _ _ _ (proj1 (max_chunk_below _)) (proj1 pass_tiled) Hs).
  apply Z.le_antisymm.
  - destruct (decide (covered C' ≤ 0)) as [?|Hpos].
    { pose proof (covered_bound n C1 (proj1 pass_ok_end)). lia. }
    destruct (mo_cover _ _ H' (covered C') ltac:(lia)) as (k & c & Hk & Hl & Hin).
    destruct (Hnew k c Hk) as [[d Hd]|?]; [|congruence].
    destruct (Hh k d Hd) as (c' & Hc' & Hch). rewrite Hk in Hc'. injection Hc' as <-.
    pose proof (covered_le C1 k d Hd). pose proof (ch_last _ _ Hch). unfold in_chunk in Hin. lia.
  - destruct (covered_attained C1) as [->|(k & c & Hk & ->)].
    { pose proof (covered_bound n C' H'). lia. }
    destruct (Hh k c Hk) as (c' & Hc' & Hch). rewrite <-(ch_last _ _ Hch). by eapply covered_le.
Qed.

(** The tail left open is what the walk left open. *)
Lemma pass_tail : est_sum (unsealed (row <| ps_chunks := C' |>)) = wk_est w.
Proof.
  destruct pass_tiled as (Ht & segs & rest & Happ & HF & -> & _).
  pose proof (tiled_top _ _ _ Ht) as Htop. pose proof (covered_bound _ _ Hok ltac:(lia)) as Hc.
  destruct (names_rest l segs rest (covered (ps_chunks row)) (n - covered (ps_chunks row)) HF) as [H1 H2].
  { rewrite <-Happ. subst n. by apply unsealed_seqs. }
  { lia. }
  f_equal. unfold unsealed at 1. simpl. rewrite pass_covered.
  transitivity (filter (λ e, top (covered (ps_chunks row)) l < ev_seq e) (unsealed row)).
  - unfold unsealed. rewrite list_filter_filter_l; [done|]. intros e He. lia.
  - rewrite Happ, filter_app, filter_none, filter_all; [done|done|].
    eapply Forall_impl; [exact H1|]. simpl. lia.
Qed.

Lemma pass_applied :
  ∃ a live', applied_first now (chunk_raw C1 + wk_est w) live' (chunks_where (is_prepared true) C1) C1 C2 a.
Proof.
  rewrite (pa_applied _ _ _ _ _ _ _ _ _ Hpass). unfold applied_pass.
  destruct (L0LiveLimitTokens <? _) eqn:Hlim; reflect_bools.
  - destruct (apply_prepared _ _ _ _) as [live' D] eqn:Ha. simpl.
    eapply apply_prepared_first in Ha as [a Ha]; [by exists a, live'|apply is_prepared_still|].
    intros k c [_ Hp]%chunks_where_elem. unfold is_prepared in Hp. apply andb_true_iff in Hp as [Hp _].
    by reflect_bools.
  - exists [], (chunk_raw C1 + wk_est w). split; simpl; try done; try lia; [apply prefix_nil|].
    by intros k c ?%not_elem_of_nil.
Qed.

Lemma pass_upper : live_of C' = live_of C2.
Proof.
  destruct Hpass as [_ _ _ _ _ _ _ (seq & C3 & _ & Hok2 & Ht & Hk & Hp)].
  rewrite (prepareUpperTarget_live _ _ _ _ Hk Hp).
  eapply apply_targets_live; [done|apply is_prepared_still| |done].
  intros k t [_ Hp']%chunks_where_elem. unfold is_prepared in Hp'.
  apply andb_true_iff in Hp' as [Hp' _]. reflect_bools. lia.
Qed.

Lemma seal_chunks_keeps seq l0 C seq' D k c :
  keys_below seq C → seal_chunks now seq l0 C = (seq', D) → C !! k = Some c → D !! k = Some c.
Proof.
  revert seq C. induction l0 as [|[[f t] est] l0 IH]; intros seq C Hk H Hc; simpl in H.
  { by injection H as <- <-. }
  pose proof (Hk k c Hc). eapply IH; [|exact H|by rewrite lookup_insert_ne by lia].
  intros j d. rewrite lookup_insert. case_decide; [intros _; lia|]. intros Hd%Hk. lia.
Qed.

(** The records of a new chunk. *)
Definition records_of (c : MemoryChunk) : list Event :=
  filter (λ e, mc_first_seq c ≤ ev_seq e ∧ ev_seq e ≤ mc_last_seq c) (ps_events row).

Lemma segment_filter A seg B f t est :
  unsealed row = A ++ seg ++ B → names (f, t, est) seg → StronglySorted precedes (unsealed row) →
  filter (λ e, f ≤ ev_seq e ∧ ev_seq e ≤ t) (ps_events row) = seg.
Proof.
  intros Happ ((x & Hx & Ef) & (y & Hy & Et) & _) Hs. simpl in Ef, Et. subst f t.
  assert (x ∈ seg) as Hxs by (destruct seg; [done|]; injection Hx as ->; by left).
  assert (y ∈ seg) as Hys by (apply last_Some in Hy as [s' ->]; apply elem_of_app; right; by left).
  assert (covered (ps_chunks row) < ev_seq x) as Hcov.
  { assert (x ∈ unsealed row) as Hin.
    { rewrite Happ. apply elem_of_app. right. apply elem_of_app. by left. }
    unfold unsealed in Hin. by apply list_elem_of_filter in Hin as []. }
  transitivity (filter (λ e, ev_seq x ≤ ev_seq e ∧ ev_seq e ≤ ev_seq y) (unsealed row)).
  { unfold unsealed. rewrite list_filter_filter_l; [done|]. intros e He. lia. }
  rewrite Happ in Hs |- *. apply StronglySorted_app in Hs as (HA & _ & Hs).
  apply StronglySorted_app in Hs as (HB & Hseg & _).
  rewrite !filter_app, filter_none, (filter_none _ B), app_nil_r.
  - apply filter_all, Forall_forall. intros e He. split.
    + destruct seg as [|z seg]; [done|]. injection Hx as ->. apply StronglySorted_inv in Hseg as [_ HF].
      apply elem_of_cons in He as [->|He]; [lia|]. rewrite Forall_forall in HF.
      specialize (HF e He). unfold precedes in HF. lia.
    + apply last_Some in Hy as [s' ->]. apply StronglySorted_app in Hseg as (Hlt & _).
      apply elem_of_app in He as [He| ->%list_elem_of_singleton]; [|lia].
      specialize (Hlt e y He ltac:(by left)). unfold precedes in Hlt. lia.
  - apply Forall_forall. intros e He. specialize (HB y e Hys He). unfold precedes in HB. lia.
  - apply Forall_forall. intros e He.
    specialize (HA e x He ltac:(apply elem_of_app; by left)). unfold precedes in HA. lia.
Qed.

Lemma pass_segment k c :
  C' !! k = Some c → mc_layer c = 1 → ps_chunks row !! k = None →
  records_of c ≠ [] ∧ mc_est_tokens c = est_sum (records_of c) ∧
  L0ChunkMinTokens ≤ mc_est_tokens c ∧ self_contained (unsealed row) (records_of c) ∧
  covered (ps_chunks row) < mc_first_seq c.
Proof.
  intros Hk Hl Hnew. destruct (pa_new _ _ _ _ _ _ _ _ _ Hpass k c Hk) as [[c1 Hc1]|?]; [|congruence].
  destruct pass_ok_end as (_ & _ & Hh). destruct (Hh k c1 Hc1) as (c' & Hc' & [_ _ Ef El Ee _ _]).
  rewrite Hk in Hc'. injection Hc' as <-.
  destruct (pa_sealed _ _ _ _ _ _ _ _ _ Hpass k c1 Hc1) as [?|(f & t & est & Hin & ->)]; [congruence|].
  simpl in Ef, El, Ee. destruct pass_tiled as (_ & segs & rest & Happ & HF & _ & Hsc).
  apply list_elem_of_lookup in Hin as [i Hin].
  destruct (Forall2_lookup_l _ _ _ _ _ HF Hin) as (seg & Hseg%list_elem_of_lookup_2 & Hnm).
  pose proof (Forall_forall (self_contained (unsealed row)) segs) as [Hall _].
  specialize (Hall Hsc seg Hseg). apply list_elem_of_split in Hseg as (A & B & ->).
  rewrite concat_app in Happ. simpl in Happ. rewrite <-!(assoc_L (++)) in Happ.
  assert (records_of c = seg) as ->.
  { unfold records_of. rewrite Ef, El. eapply segment_filter; [exact Happ|exact Hnm|].
    eapply seqZ_precedes. apply unsealed_seqs; [done|]. by subst n. }
  destruct Hnm as ((x & Hx & Ex) & _ & E & Hmin). simpl in E, Ex. split_and!.
  - by intros ->.
  - congruence.
  - lia.
  - done.
  - assert (x ∈ unsealed row) as Hxin.
    { rewrite Happ. destruct seg; [done|]. injection Hx as ->. apply elem_of_app. right. by left. }
    unfold unsealed in Hxin. apply list_elem_of_filter in Hxin as []. lia.
Qed.

(** A prepared chunk the pass took out of the raw context. *)
Definition taken (k : Z) (c : MemoryChunk) : Prop :=
  ps_chunks row !! k = Some c ∧ is_prepared true c = true ∧
  ∃ c', C' !! k = Some c' ∧ raw_status (mc_status c') = false.

Section applied.
Context (live' : Z) (a : list (Z * MemoryChunk)).
Hypothesis Ha : applied_first now (chunk_raw C1 + wk_est w) live'
  (chunks_where (is_prepared true) C1) C1 C2 a.

Lemma pass_live_raw : chunk_raw C' + wk_est w = live'.
Proof.
  rewrite (chunk_raw_live C'), pass_upper, <-chunk_raw_live, (af_raw _ _ _ _ _ _ _ Ha).
  rewrite (af_live _ _ _ _ _ _ _ Ha). lia.
Qed.

Lemma prepared_live c : is_prepared true c = true → is_live c = true.
Proof.
  unfold is_prepared, is_live. intros [Hl Hp]%andb_true_iff. apply bool_decide_eq_true in Hp.
  by rewrite Hl, Hp.
Qed.

Lemma applied_cand k c : (k, c) ∈ a → C1 !! k = Some c ∧ is_prepared true c = true.
Proof.
  intros H. apply chunks_where_elem. destruct (af_prefix _ _ _ _ _ _ _ Ha) as [z ->].
  apply elem_of_app. by left.
Qed.
Lemma candidate k c : ps_chunks row !! k = Some c → is_prepared true c = true →
  (k, c) ∈ chunks_where (is_prepared true) C1.
Proof.
  intros Hk Hp. apply chunks_where_elem. split; [|done].
  destruct Hpass as [_ _ _ _ _ _ _ (seq & C3 & Hs & _)].
  eapply seal_chunks_keeps; [apply max_chunk_below|exact Hs|done].
Qed.

Lemma taken_iff k c : ps_chunks row !! k = Some c → is_prepared true c = true →
  taken k c ↔ (k, c) ∈ a.
Proof.
  intros Hk Hp. pose proof (candidate k c Hk Hp) as Hcand. split.
  - intros (_ & _ & c' & Hc' & Hraw). destruct (decide (k ∈ a.*1)) as [Hin|Hout].
    + apply list_elem_of_fmap in Hin as ([j d] & -> & Hj). simpl in *.
      destruct (applied_cand _ _ Hj) as [Hd _]. apply chunks_where_elem in Hcand as [Hc _].
      rewrite Hd in Hc. by injection Hc as <-.
    + apply chunks_where_elem in Hcand as [Hc _]. rewrite <-(af_others _ _ _ _ _ _ _ Ha k Hout) in Hc.
      assert (live_of C' !! k = Some c) as [Hc'' Hl]%live_of_lookup.
      { rewrite pass_upper. apply live_of_lookup. split; [done|by apply prepared_live]. }
      rewrite Hc' in Hc''. injection Hc'' as ->. unfold is_live in Hl. by rewrite Hraw, andb_false_r in Hl.
  - intros Hin. split_and!; [done|done|].
    pose proof (af_rows _ _ _ _ _ _ _ Ha k c Hin) as H2.
    destruct Hpass as [_ _ _ _ _ Hup _ (seq & C3 & _ & Hok2 & _)].
    destruct (mem_steps _ _ _ _ Hup Hok2) as [_ Hh]. destruct (Hh k _ H2) as (c' & Hc' & Hch).
    exists c'. split; [done|]. by destruct (ch_applied _ _ Hch eq_refl) as [[->| ->] _].
Qed.

Lemma cands_sorted : StronglySorted key_le (chunks_where (is_prepared true) C1).
Proof.
  apply StronglySorted_merge_sort.
  - intros x y z. unfold key_le. lia.
  - intros x y. unfold key_le. lia.
Qed.

Lemma pass_enough :
  live' ≤ L0LiveLimitTokens ∨ ∀ k c, C' !! k = Some c → is_prepared true c = false.
Proof.
  destruct (af_enough _ _ _ _ _ _ _ Ha) as [?|Hall]; [by left|]. right. intros k c Hk.
  destruct (is_prepared true c) eqn:Hp; [|done]. exfalso.
  assert (live_of C2 !! k = Some c) as [H2 _]%live_of_lookup.
  { rewrite <-pass_upper. apply live_of_lookup. split; [done|by apply prepared_live]. }
  destruct (decide (k ∈ a.*1)) as [Hin|Hout].
  - apply list_elem_of_fmap in Hin as ([j d] & -> & Hj). simpl in *.
    rewrite (af_rows _ _ _ _ _ _ _ Ha _ _ Hj) in H2. injection H2 as <-.
    unfold is_prepared in Hp. simpl in Hp. by rewrite andb_false_r in Hp.
  - rewrite (af_others _ _ _ _ _ _ _ Ha k Hout) in H2. apply Hout.
    apply (list_elem_of_fmap_2 fst _ (k, c)). rewrite Hall. by apply chunks_where_elem.
Qed.

Lemma pass_oldest j k c d :
  taken k c → j ≤ k → ps_chunks row !! j = Some d → is_prepared true d = true → taken j d.
Proof.
  intros Ht Hle Hj Hd. pose proof Ht as (Hk & Hc & _). apply (taken_iff k c) in Ht; [|done|done].
  apply taken_iff; [done|done|]. pose proof (candidate j d Hj Hd) as Hcand.
  pose proof cands_sorted as Hs. destruct (af_prefix _ _ _ _ _ _ _ Ha) as [z Hz]. rewrite Hz in Hcand, Hs.
  apply elem_of_app in Hcand as [?|Hcand]; [done|].
  apply StronglySorted_app in Hs as (Hlt & _). specialize (Hlt _ _ Ht Hcand). unfold key_le in Hlt.
  simpl in Hlt. assert (j = k) as -> by lia. rewrite Hk in Hj. by injection Hj as <-.
Qed.

Lemma pass_needed k c :
  taken k c → (∀ j d, taken j d → j ≤ k) → L0LiveLimitTokens < live' + mc_est_tokens c.
Proof.
  intros Ht Hmax. pose proof Ht as (Hk & Hc & _). apply (taken_iff k c) in Ht; [|done|done].
  destruct (last a) as [[j d]|] eqn:Hlast; [|apply last_None in Hlast as ->; by apply not_elem_of_nil in Ht].
  pose proof (af_needed _ _ _ _ _ _ _ Ha _ Hlast) as Hneed.
  assert ((j, d) ∈ a) as Hj by (apply list_elem_of_lookup; rewrite last_lookup in Hlast; eauto).
  destruct (applied_cand j d Hj) as [Hjd Hpd].
  assert (ps_chunks row !! j = Some d) as Hjr.
  { destruct (pa_sealed _ _ _ _ _ _ _ _ _ Hpass j d Hjd) as [?|(f & t & e & _ & ->)]; [done|].
    unfold is_prepared in Hpd. by rewrite andb_false_r in Hpd. }
  assert (j ≤ k) as Hle by (apply (Hmax j d); by apply taken_iff).
  pose proof cands_sorted as Hs. destruct (af_prefix _ _ _ _ _ _ _ Ha) as [z Hz]. rewrite Hz in Hs.
  apply StronglySorted_app in Hs as (_ & Hs & _). apply last_Some in Hlast as [a0 ->].
  apply elem_of_app in Ht as [Ht|[= <- <-]%list_elem_of_singleton]; [|done].
  apply StronglySorted_app in Hs as (Hlt & _). specialize (Hlt _ (j, d) Ht ltac:(by left)).
  unfold key_le in Hlt. simpl in Hlt. assert (j = k) as -> by lia. rewrite Hk in Hjr.
  by injection Hjr as <-.
Qed.
End applied.
End pass.
End live.
