(* ===== verification/Inputs.v ===== *)
(** * Durable inputs

    [store.go]: admission of an input with replay of a lost response
    ([SubmitInput]), lookup ([GetInput]) and the derived receipt time of the
    message before ([previousReceiptCol]); the retry pacing [retryBackoff]
    and the list-size clamp [clampLimit]. *)

From Stdlib Require Import ZArith Lia.
From S2P Require Import Prelude Json State.
Local Open Scope string_scope.
Local Open Scope list_scope.
Local Open Scope Z_scope.

(** ** Admission *)

Definition schedInputPrefix : string := "sched:".
Definition jobInputPrefix : string := "job:".

(** The caller-supplied fields of an [Input]; a nil payload is [None]. *)
Record InputReq := mkInputReq {
  ir_id : string;
  ir_kind : string;
  ir_payload : option obj;
  ir_actor_kind : string;
  ir_actor_id : string;
  ir_source_surface : string;
  ir_thread_id : string;
  ir_occurred_at : option Z;
  ir_attention : string
}.

Definition req_attention (r : InputReq) : string :=
  if bool_decide (ir_attention r = "") then "reply" else ir_attention r.
Definition req_payload (r : InputReq) : obj := default ∅ (ir_payload r).

(** The row an admission inserts. *)
Definition new_input (now : Z) (r : InputReq) (seq : Z) : Input :=
  mkInput (ir_id r) (ir_kind r) (req_payload r) (ir_actor_kind r) (ir_actor_id r)
    (ir_source_surface r) (ir_thread_id r) (ir_occurred_at r) (req_attention r)
    Queued None None now None None None seq None 0.

(** Statement parameters PostgreSQL can bind: text and jsonb without NUL. *)
Definition params_ok (r : InputReq) : bool :=
  forallb (λ s, negb (contains_nul s))
    [ir_id r; ir_kind r; ir_actor_kind r; ir_actor_id r; ir_source_surface r;
     ir_thread_id r; req_attention r]
  && jsonb_ok (JObj (req_payload r)).
(** [core_inputs_attention_check] *)
Definition attention_ok (a : string) : bool :=
  bool_decide (a = "reply" ∨ a = "observe" ∨ a = "defer").

(** The replay comparison: every caller-supplied column. *)
Definition same_request (r : InputReq) (i : Input) : bool :=
  bool_decide (in_kind i = ir_kind r) && bool_decide (in_payload i = req_payload r)
  && bool_decide (in_actor_kind i = ir_actor_kind r)
  && bool_decide (in_actor_id i = ir_actor_id r)
  && bool_decide (in_source_surface i = ir_source_surface r)
  && bool_decide (in_thread_id i = ir_thread_id r)
  && bool_decide (in_occurred_at i = ir_occurred_at r)
  && bool_decide (in_attention i = req_attention r).

Definition submit_replay (r : InputReq) : ptx (Input * bool) := λ row,
  if negb (params_ok r) then Err (PgData "invalid byte sequence")
  else match ps_inputs row !! ir_id r with
  | None => Err (inactiveAuthorityError (authority_text (p_authority (ps_persona row))))
  | Some i => if same_request r i then Ok ((i, false), row) else Err ErrTurnConflict
  end.

Definition submit_tx (now : Z) (r : InputReq) : ptx (Input * bool) := λ row,
  if bool_decide (p_authority (ps_persona row) = Active) then
    if negb (params_ok r && attention_ok (req_attention r))
    then Err (dataErr (PgData "core_inputs"))
    else match insert_input (new_input now r) row with
    | Ok (true, row') => Ok ((new_input now r (ps_next_admission row), true), row')
    | Ok (false, _) => submit_replay r row
    | Err e => Err e
    end
  else submit_replay r row.

(** [%q] of a text with nothing to escape. *)
Definition dquoted (s : string) : string :=
  let q := String (Ascii.ascii_of_nat 34) EmptyString in q +:+ s +:+ q.

Definition reserved_input_id (i : string) : bool :=
  HasPrefix i schedInputPrefix || HasPrefix i jobInputPrefix.

(** The prefix named is the id up to its first colon. *)
Definition reserved_error (i : string) : err :=
  badreq ("input_id prefix "
          +:+ dquoted (if HasPrefix i schedInputPrefix then schedInputPrefix else jobInputPrefix)
          +:+ " is reserved").

Definition SubmitInput (now : Z) (p : string) (r : InputReq) : tx (Input * bool) :=
  if reserved_input_id (ir_id r) then throw (reserved_error (ir_id r))
  else with_persona p ErrPersonaNotFound (submit_tx now r).

Definition GetInput (i : string) (row : PersonaRow) : res err (Input * option Turn) :=
  match ps_inputs row !! i with
  | None => Err ErrInputNotFound
  | Some inp =>
      match in_turn_id inp with
      | None => Ok (inp, None)
      | Some t => Ok (inp, ps_turns row !! t)
      end
  end.

(** The receipt time of the incoming message admitted just before [i]. *)
Definition internal_actor (k : string) : bool :=
  bool_decide (k ∈ ["schedule"; "job"; "terminal"; "memory"]).
Definition previous_receipt (i : Input) (row : PersonaRow) : option Z :=
  let prev := filter (λ kv, in_admission_seq kv.2 < in_admission_seq i
                            ∧ internal_actor (in_actor_kind kv.2) = false)
                (map_to_list (ps_inputs row)) in
  in_created_at ∘ snd <$>
    foldr (λ kv best, match best with
                      | Some b => if in_admission_seq (snd b) <? in_admission_seq (snd kv)
                                  then Some kv else Some b
                      | None => Some kv
                      end) None prev.

(** ** Pacing *)

Definition clampLimit (v def max : Z) : Z :=
  if v <=? 0 then def else if max <? v then max else v.

(** Durations are int64 nanoseconds. *)
Definition Millisecond : Z := 1000000.
Definition Second : Z := 1000000000.
Definition Minute : Z := 60000000000.

Definition retryBackoff (attempt : Z) : Z :=
  let shift := attempt - 1 in
  let shift := if shift <? 0 then 0 else shift in
  let shift := if 8 <? shift then 8 else shift in
  let d := int64 (Z.shiftl (200 * Millisecond) shift) in
  if 30 * Second <? d then 30 * Second else d.

(** The requeue delay of a retryable failure: the backoff, or the provider's
    Retry-After when longer, capped at two minutes. *)
Definition retry_delay (attempt retryAfterMs : Z) : Z :=
  let delay := retryBackoff attempt in
  let after := int64 (retryAfterMs * Millisecond) in
  if delay <? after then (if 2 * Minute <? after then 2 * Minute else after) else delay.

Lemma shift_clamp (s : Z) :
  0 ≤ (let s := if s <? 0 then 0 else s in if 8 <? s then 8 else s) ≤ 8.
Proof. cbv zeta. repeat case_match; reflect_bools; lia. Qed.

Lemma retryBackoff_bounds attempt :
  200 * Millisecond ≤ retryBackoff attempt ≤ 30 * Second.
Proof.
  unfold retryBackoff. pose proof (shift_clamp (attempt - 1)) as Hk. cbv zeta in *.
  generalize dependent (if 8 <? (if attempt - 1 <? 0 then 0 else attempt - 1)
    then 8 else if attempt - 1 <? 0 then 0 else attempt - 1).
  intros k Hk. rewrite Z.shiftl_mul_pow2 by lia.
  assert (1 ≤ 2 ^ k ≤ 256).
  { split; [apply (Z.pow_le_mono_r 2 0 k); lia|apply (Z.pow_le_mono_r 2 k 8); lia]. }
  unfold Millisecond, Second.
  rewrite int64_id by (unfold is_int64, MinInt64, MaxInt64; lia).
  destruct (_ <? _) eqn:?; reflect_bools; lia.
Qed.

Lemma clampLimit_bounds v def max :
  1 ≤ def ≤ max → 1 ≤ clampLimit v def max ≤ max.
Proof.
  unfold clampLimit. intros.
  destruct (v <=? 0) eqn:?; reflect_bools; [lia|].
  destruct (max <? v) eqn:?; reflect_bools; lia.
Qed.

(** ** How a stored input may change

    The columns fixed at admission never change, a journaled receipt stays,
    a resolved input stays resolved and waiting time only accumulates. *)
Record input_hist (i i' : Input) : Prop := {
  ih_id : in_id i' = in_id i;
  ih_kind : in_kind i' = in_kind i;
  ih_payload : in_payload i' = in_payload i;
  ih_actor_kind : in_actor_kind i' = in_actor_kind i;
  ih_actor_id : in_actor_id i' = in_actor_id i;
  ih_source_surface : in_source_surface i' = in_source_surface i;
  ih_thread_id : in_thread_id i' = in_thread_id i;
  ih_occurred_at : in_occurred_at i' = in_occurred_at i;
  ih_attention : in_attention i' = in_attention i;
  ih_created_at : in_created_at i' = in_created_at i;
  ih_admission_seq : in_admission_seq i' = in_admission_seq i;
  ih_received : ∀ n, in_received_seq i = Some n → in_received_seq i' = Some n;
  ih_done : in_status i = InputDone → in_status i' = InputDone
}.

#[global] Instance input_hist_preorder : PreOrder input_hist.
Proof.
  split.
  - intros i. by split.
  - intros i1 i2 i3 [] []. split; try congruence; auto.
Qed.

Definition inputs_hist (row row' : PersonaRow) : Prop :=
  table_hist input_hist (ps_inputs row) (ps_inputs row').

#[global] Instance inputs_hist_preorder : PreOrder inputs_hist.
Proof.
  split; unfold inputs_hist.
  - intros row. reflexivity.
  - intros r1 r2 r3 H12 H23. by etrans.
Qed.

Lemma same_request_hist r i i' : input_hist i i' → same_request r i' = same_request r i.
Proof.
  intros H. unfold same_request.
  by rewrite (ih_kind _ _ H), (ih_payload _ _ H), (ih_actor_kind _ _ H),
    (ih_actor_id _ _ H), (ih_source_surface _ _ H), (ih_thread_id _ _ H),
    (ih_occurred_at _ _ H), (ih_attention _ _ H).
Qed.

(** A fresh admission always matches its own request. *)
Lemma same_request_new now r seq : same_request r (new_input now r seq) = true.
Proof. unfold same_request. simpl. by rewrite !bool_decide_eq_true_2 by done. Qed.
