(* ===== verification/Journal.v ===== *)
(** * The journal

    The persona's life log.  [store.go]: appending events
    ([appendEventsTx]), the one receipt per input ([ensureInputReceived],
    [withoutJournaledInput]).  [experience.go]: what a tool call did is
    journaled at the operation, each record once per input
    ([experienceKey], [withoutJournaledExperience] and the records of
    [callExperience]). *)

From Stdlib Require Import ZArith Lia.
From S2P Require Import Prelude Json State Inputs.
Local Open Scope string_scope.
Local Open Scope list_scope.
Local Open Scope Z_scope.

Definition jopt (o : option obj) : json :=
  match o with Some m => JObj m | None => JNull end.

(** ** Appending *)

Definition appendEventsTx (now : Z) (turnID : string) (events : list EventInput)
    : ptx unit := λ row,
  if existsb (λ e, bool_decide (ei_kind e = "")) events
  then Err (badreq "event kind required")
  else if forallb (λ e, jsonb_ok (JObj (ei_payload e)) && negb (contains_nul (ei_kind e)))
            events then
    let base := max_seq ev_seq (ps_events row) in
    let rows := number_from base
      (λ n e, mkEvent n turnID (ei_kind e) (ei_payload e) now) events in
    Ok (tt, row <| ps_events := ps_events row ++ rows |>)
  else Err nul_error.

(** ** The receipt of an input *)

Section receipt.
Context `{GL : !GoLib}.

Definition str_or_nil (s : string) : json :=
  if bool_decide (s = "") then JNull else JStr s.
Definition j_str (v : option json) : json :=
  match v with Some (JStr s) => JStr s | _ => JNull end.
Definition j_num (v : option json) : json :=
  match v with Some (JNum q) => JNum q | _ => JNull end.
Definition j_integer (v : option json) : json :=
  match v with
  | Some (JNum q) =>
      match num_int q with
      | Some z => if Z.abs z <=? 2 ^ 53 - 1 then JNum q else JNull
      | None => JNull
      end
  | _ => JNull
  end.
Definition j_list (v : option json) : json :=
  match v with Some (JArr l) => JArr l | _ => JNull end.
Definition j_time (t : option Z) : json :=
  match t with Some t => JStr (time_Marshal t) | None => JNull end.

(** The payload of the [input_received] event of the input whose
    [input_id] is [inputID]. *)
Definition receipt_payload (inputID : string) (i : Input) (prev : option Z) (attempt : Z) : obj :=
  let p := in_payload i in
  let actor := default ∅ (get_obj p "actor") in
  let place := default ∅ (get_obj p "place") in
  list_to_map [
    ("input_id", JStr inputID);
    ("kind", JStr (in_kind i));
    ("text", j_str (p !! "text"));
    ("actor_kind", JStr (in_actor_kind i));
    ("actor_id", str_or_nil (in_actor_id i));
    ("actor_display", j_str (actor !! "display_name"));
    ("source_surface", JStr (in_source_surface i));
    ("thread_id", str_or_nil (in_thread_id i));
    ("place_name", j_str (place !! "name"));
    ("place_kind", j_str (place !! "kind"));
    ("attention", JStr (in_attention i));
    ("occurred_at", j_time (in_occurred_at i));
    ("received_at", j_time (Some (in_created_at i)));
    ("previous_received_at", j_time prev);
    ("event_id", j_str (p !! "event_id"));
    ("message_id", j_str (p !! "message_id"));
    ("message_seq", j_num (p !! "message_seq"));
    ("workspace_id", j_str (p !! "workspace_id"));
    ("message_revision", j_integer (p !! "message_revision"));
    ("session_id", j_str (p !! "session_id"));
    ("status", j_str (p !! "status"));
    ("end_reason", j_str (p !! "end_reason"));
    ("exit_code", j_integer (p !! "exit_code"));
    ("exit_signal", j_str (p !! "exit_signal"));
    ("reason", j_str (p !! "reason"));
    ("message_change", j_str (p !! "message_change"));
    ("attachments", j_list (p !! "attachments"));
    ("attempt", jint attempt)].

Definition ensureInputReceived (now : Z) (inputID turnID : string) : ptx unit := λ row,
  match ps_inputs row !! inputID with
  | None => Err (PgError "no rows")
  | Some i =>
      match in_received_seq i with
      | Some _ => Ok (tt, row)
      | None =>
          match ps_turns row !! turnID with
          | None => Err (PgError "no rows")
          | Some t =>
              let payload := receipt_payload inputID i (previous_receipt i row) (tu_attempt t) in
              if jsonb_ok (JObj payload) then
                let seq := max_seq ev_seq (ps_events row) + 1 in
                Ok (tt, upd_input inputID (λ i, i <| in_received_seq := Some seq |>)
                  (row <| ps_events := ps_events row
                       ++ [mkEvent seq turnID "input_received" payload now] |>))
              else Err (dataErr nul_error)
          end
      end
  end.
End receipt.

#[global] Arguments receipt_payload : simpl never.

(** The input an event is the receipt of. *)
Definition receipt_of (kind : string) (payload : obj) : option string :=
  if bool_decide (kind = "input_received") then
    match payload !! "input_id" with Some (JStr i) => Some i | _ => None end
  else None.

(** Validation of the request's receipts: each names an input by a non-empty
    string id. *)
Definition receipt_named (e : EventInput) : res err (option string) :=
  if bool_decide (ei_kind e = "input_received") then
    match ei_payload e !! "input_id" with
    | Some (JStr i) =>
        if bool_decide (i = "")
        then Err (badreq "input_received payload.input_id must be a non-empty string")
        else Ok (Some i)
    | _ => Err (badreq "input_received payload.input_id must be a non-empty string")
    end
  else Ok None.

Fixpoint receipts_named (events : list EventInput) : res err (list string) :=
  match events with
  | [] => Ok []
  | e :: events =>
      match receipt_named e, receipts_named events with
      | Err x, _ => Err x
      | Ok _, Err x => Err x
      | Ok None, Ok l => Ok l
      | Ok (Some i), Ok l => Ok (i :: l)
      end
  end.

(** Keep the first receipt of every input that has none in the journal. *)
Fixpoint drop_receipts (journaled : string → bool) (emitted : gset string)
    (events : list EventInput) : list EventInput :=
  match events with
  | [] => []
  | e :: events =>
      match receipt_of (ei_kind e) (ei_payload e) with
      | None => e :: drop_receipts journaled emitted events
      | Some i =>
          if journaled i || bool_decide (i ∈ emitted)
          then drop_receipts journaled emitted events
          else e :: drop_receipts journaled ({[i]} ∪ emitted) events
      end
  end.

Definition input_journaled (row : PersonaRow) (i : string) : bool :=
  match ps_inputs row !! i with
  | Some inp => bool_decide (is_Some (in_received_seq inp))
  | None => false
  end.

Definition absent_input (row : PersonaRow) (i : string) : bool :=
  bool_decide (ps_inputs row !! i = None).

Definition withoutJournaledInput `{!GoLib} (events : list EventInput) (row : PersonaRow)
    : res err (list EventInput) :=
  match receipts_named events with
  | Err e => Err e
  | Ok named =>
      if existsb contains_nul named then Err (PgData "invalid byte sequence")
      else match List.find (absent_input row) named with
      | Some i => Err (badreq ("input_received names absent input " +:+ strconv_Quote i))
      | None => Ok (drop_receipts (input_journaled row) ∅ events)
      end
  end.

(** [UPDATE core_inputs SET received_seq]: link the receipts journaled behind
    [base] to their inputs' markers. *)
Definition first_receipt (base : Z) (i : string) (events : list Event) : option Z :=
  ev_seq <$> head (filter (λ e, base < ev_seq e ∧ receipt_of (ev_kind e) (ev_payload e) = Some i)
                     events).
Definition link_receipts (base : Z) (row : PersonaRow) : PersonaRow :=
  row <| ps_inputs := map_imap (λ k i,
    Some match in_received_seq i with
         | Some _ => i
         | None => match first_receipt base k (ps_events row) with
                   | Some n => i <| in_received_seq := Some n |>
                   | None => i
                   end
         end) (ps_inputs row) |>.

(** ** Experience records *)

(** The decimal text of a non-negative integral number. *)
Definition key_index (v : option json) : option string :=
  match v with
  | Some (JNum q) =>
      match num_int q with
      | Some z => if (0 <=? z) && (z <=? 2 ^ 53) then Some (itoa z) else None
      | None => None
      end
  | _ => None
  end.

Definition experienceKey (kind : string) (p : obj) : option string :=
  if bool_decide (kind = "assistant_message") then
    (λ k, kind +:+ ":" +:+ k) <$> key_index (p !! "round")
  else if bool_decide (kind = "tool_call" ∨ kind = "tool_result") then
    (λ k, kind +:+ ":" +:+ k) <$> key_index (p !! "call_index")
  else if bool_decide (kind = "approval_requested") then
    match p !! "approval_id" with
    | Some (JStr i) => if bool_decide (i = "") then None else Some (kind +:+ ":" +:+ i)
    | _ => None
    end
  else None.

(** The turns serving an input. *)
Definition in_lineage (row : PersonaRow) (inputID turnID : string) : bool :=
  match ps_turns row !! turnID with
  | Some t => bool_decide (tu_input_id t = inputID)
  | None => false
  end.

(** The receipt marker of an input. *)
Definition received (row : PersonaRow) (inputID : string) : option Z :=
  ps_inputs row !! inputID ≫= in_received_seq.

(** Keys journaled for the input's lineage at or behind its receipt. *)
Definition lineage_keys (row : PersonaRow) (inputID : string) (r : Z) (l : list Event)
    : list string :=
  omap (λ e, if (r <=? ev_seq e) && in_lineage row inputID (ev_turn_id e)
             then experienceKey (ev_kind e) (ev_payload e) else None) l.
Definition journaled_keys (row : PersonaRow) (inputID : string) : list string :=
  match received row inputID with
  | None => []
  | Some r => lineage_keys row inputID r (ps_events row)
  end.

Fixpoint drop_keys (journaled : list string) (events : list EventInput) : list EventInput :=
  match events with
  | [] => []
  | e :: events =>
      match experienceKey (ei_kind e) (ei_payload e) with
      | None => e :: drop_keys journaled events
      | Some k =>
          if bool_decide (k ∈ journaled) then drop_keys journaled events
          else e :: drop_keys (k :: journaled) events
      end
  end.

Definition withoutJournaledExperience (inputID : string) (events : list EventInput)
    (row : PersonaRow) : list EventInput :=
  if existsb (λ e, bool_decide (is_Some (experienceKey (ei_kind e) (ei_payload e)))) events
  then drop_keys (journaled_keys row inputID) events
  else events.

(** ** A planned call's records *)

Record callExperience := mkExperience {
  ce_round : Z;
  ce_text : string;
  ce_call : PlanCall;
  ce_index : Z
}.

Fixpoint plan_position_from (round : Z) (n : nat) (callIndex : Z) (plan : list Decision)
    : option callExperience :=
  match plan with
  | [] => None
  | d :: plan =>
      match d_calls d !! n with
      | Some c => Some (mkExperience round (d_text d) c callIndex)
      | None => plan_position_from (round + 1) (n - length (d_calls d)) callIndex plan
      end
  end.

Definition planPosition (plan : option TurnPlan) (callIndex : Z) : option callExperience :=
  match plan with
  | None => None
  | Some p =>
      if callIndex <? 0 then None
      else plan_position_from 0 (Z.to_nat callIndex) callIndex (tp_plan p)
  end.

Definition ce_message (c : callExperience) : list EventInput :=
  if bool_decide (ce_text c = "") then []
  else [mkEventInput "assistant_message"
          (list_to_map [("text", JStr (ce_text c)); ("round", jint (ce_round c))])].

Definition decided (c : callExperience) : list EventInput :=
  let pc := ce_call c in
  ce_message c ++
  [mkEventInput "tool_call" (list_to_map
     [("tool", JStr (pc_tool pc)); ("call_id", JStr (pc_call_id pc));
      ("request", JObj (pc_request pc)); ("route", JStr (pc_route pc));
      ("round", jint (ce_round c)); ("call_index", jint (ce_index c))])].

Section experience.
Context `{GL : !GoLib}.

Definition receiptError (resp : option obj) : json :=
  match default ∅ resp !! "error" with
  | None => JStr "operation failed"
  | Some (JStr s) => JStr s
  | Some v => JStr (fmt_Sprint v)
  end.

(** The outcome fed back to the model; none while the operation runs. *)
Definition result_event (c : callExperience) (op : Operation) (approval : option ToolApproval)
    : option EventInput :=
  let pc := ce_call c in
  let p : obj := list_to_map [("tool", JStr (pc_tool pc)); ("call_id", JStr (pc_call_id pc));
                        ("call_index", jint (ce_index c))] in
  match op_status op with
  | OpDone => Some (mkEventInput "tool_result" (<["response" := jopt (op_response op)]> p))
  | OpFailed =>
      let p := <["error" := receiptError (op_response op)]> p in
      let denied := match approval with
                    | Some a => bool_decide (ap_status a = Denied)
                    | None => false
                    end in
      Some (mkEventInput "tool_result" (if denied then <["denied" := JBool true]> p else p))
  | _ => None
  end.

Definition awaiting (c : callExperience) (a : ToolApproval) : list EventInput :=
  let pc := ce_call c in
  ce_message c ++
  [mkEventInput "approval_requested" (list_to_map
     [("tool", JStr (pc_tool pc)); ("call_id", JStr (pc_call_id pc));
      ("route", JStr (pc_route pc)); ("round", jint (ce_round c));
      ("call_index", jint (ce_index c)); ("approval_id", JStr (ap_id a));
      ("required_by", JStr (ap_required_by a)); ("request", JObj (pc_request pc))])].

Definition journalExperienceTx (now : Z) (turnID inputID : string)
    (events : list EventInput) : ptx unit :=
  ensureInputReceived now inputID turnID ;;
  events ← gets (withoutJournaledExperience inputID events);
  appendEventsTx now turnID events.

Definition journalOutcomeTx (now : Z) (turnID inputID : string) (pos : callExperience)
    (op : Operation) (approval : option ToolApproval) : ptx unit :=
  match result_event pos op approval with
  | None => mret tt
  | Some r => journalExperienceTx now turnID inputID (decided pos ++ [r])
  end.

(** [<input_id>:tool:<call_index>] *)
Definition idem_key (inputID : string) (callIndex : Z) : string :=
  inputID +:+ ":tool:" +:+ itoa callIndex.

Definition operationCallIndex (idemKey : string) : option Z :=
  match last_index ":tool:" idemKey with
  | None => None
  | Some i => atoi (str_drop (i + 6) idemKey)
  end.

Definition jobToolPrefix : string := "op:".

Definition EffectJobID (idemKey : string) : res err string :=
  match last_index ":tool:" idemKey with
  | None | Some O => Err (badreq "invalid tool effect identity")
  | Some i =>
      let index := str_drop (i + 6) idemKey in
      if bool_decide (index = "")
         || (Nat.ltb 1 (String.length index) && HasPrefix index "0")
         || negb (all_digits index)
      then Err (badreq "invalid tool effect call index")
      else Ok (jobToolPrefix +:+ str_take i idemKey +:+ ":" +:+ index)
  end.

Definition journalCompletedTx (now : Z) (op : Operation) : ptx unit := λ row,
  match operationCallIndex (op_idempotency_key op) with
  | None => Ok (tt, row)
  | Some callIndex =>
      match ps_turns row !! op_turn_id op with
      | None => Ok (tt, row)
      | Some t =>
          match planPosition (ps_plans row !! tu_input_id t) callIndex with
          | None => Ok (tt, row)
          | Some pos =>
              if bool_decide (pc_tool (ce_call pos) = op_tool op)
              then journalOutcomeTx now (op_turn_id op) (tu_input_id t) pos op None row
              else Ok (tt, row)
          end
      end
  end.

(** A pause marker for an interrupted turn that journaled experience. *)
Definition has_experience (turnID inputID : string) (row : PersonaRow) : bool :=
  match received row inputID with
  | None => false
  | Some r => existsb (λ e, (r <=? ev_seq e) && bool_decide (ev_turn_id e = turnID))
                (ps_events row)
  end.
Definition markInterruptedTx (now : Z) (turnID inputID : string) : ptx unit :=
  has ← gets (has_experience turnID inputID);
  if has : bool then
    appendEventsTx now turnID
      [mkEventInput "turn_paused" (list_to_map [("reason", JStr "interrupted")])]
  else mret tt.
End experience.

(** ** The journal invariant

    The journal is numbered without gaps; every event belongs to a recorded
    turn; an input's marker is exactly the sequence number of its one
    receipt; and from its receipt on, no experience record of an input's
    lineage repeats. *)
Record journal_inv (row : PersonaRow) : Prop := {
  ji_numbered : numbered ev_seq (ps_events row);
  ji_turns : ∀ e, e ∈ ps_events row → is_Some (ps_turns row !! ev_turn_id e);
  ji_receipts : ∀ k n, received row k = Some n ↔
    ∃ e, e ∈ ps_events row ∧ ev_seq e = n ∧ receipt_of (ev_kind e) (ev_payload e) = Some k;
  ji_keys : ∀ k, NoDup (journaled_keys row k)
}.

(** Two receipts of one input are the same event. *)
Lemma receipt_unique row k e1 e2 :
  journal_inv row → e1 ∈ ps_events row → e2 ∈ ps_events row →
  receipt_of (ev_kind e1) (ev_payload e1) = Some k →
  receipt_of (ev_kind e2) (ev_payload e2) = Some k → e1 = e2.
Proof.
  intros [Hn _ Hr _] H1 H2 Hk1 Hk2.
  assert (received row k = Some (ev_seq e1)) as Hr1 by (apply Hr; eauto).
  assert (received row k = Some (ev_seq e2)) as Hr2 by (apply Hr; eauto).
  eapply (numbered_inj ev_seq); eauto. congruence.
Qed.

(** Turns are never removed nor moved to another input. *)
Definition lineage_kept (row row' : PersonaRow) : Prop :=
  ∀ t x, ps_turns row !! t = Some x →
    ∃ x', ps_turns row' !! t = Some x' ∧ tu_input_id x' = tu_input_id x.

Lemma lineage_kept_in row row' k t :
  lineage_kept row row' → is_Some (ps_turns row !! t) →
  in_lineage row' k t = in_lineage row k t.
Proof.
  intros H [x Hx]. destruct (H t x Hx) as (x' & Hx' & Hi).
  unfold in_lineage. by rewrite Hx, Hx', Hi.
Qed.

Lemma lineage_keys_kept row row' k r l :
  lineage_kept row row' → (∀ e, e ∈ l → is_Some (ps_turns row !! ev_turn_id e)) →
  lineage_keys row' k r l = lineage_keys row k r l.
Proof.
  intros H Hl. apply list_omap_ext, Forall_Forall2_diag, Forall_forall. intros e He.
  simpl. by rewrite (lineage_kept_in row row' k (ev_turn_id e) H (Hl e He)).
Qed.

(** An operation that leaves the journal, the markers and the turns' inputs
    alone keeps the invariant. *)
Record journal_frame (row row' : PersonaRow) : Prop := {
  jf_events : ps_events row' = ps_events row;
  jf_received : ∀ k, received row' k = received row k;
  jf_lineage : lineage_kept row row'
}.

#[global] Instance journal_frame_preorder : PreOrder journal_frame.
Proof.
  split.
  - intros row. split; [done|done|]. intros t x Hx. eauto.
  - intros r1 r2 r3 [He1 Hr1 Hl1] [He2 Hr2 Hl2]. split; [congruence| |].
    + intros k. by rewrite Hr2, Hr1.
    + intros t x Hx. apply Hl1 in Hx as (x2 & Hx2 & <-).
      apply Hl2 in Hx2 as (x3 & Hx3 & <-). eauto.
Qed.

Lemma journal_inv_frame row row' : journal_frame row row' → journal_inv row → journal_inv row'.
Proof.
  intros [He Hr Hl] [Hn Ht Hc Hk]. split; rewrite ?He.
  - done.
  - intros e [x Hx]%Ht. apply Hl in Hx as (x' & Hx' & _). eauto.
  - intros k n. by rewrite Hr, Hc.
  - intros k. unfold journaled_keys. rewrite Hr, He.
    destruct (received row k) as [r|] eqn:Hrk; [|constructor].
    rewrite (lineage_keys_kept row) by auto.
    specialize (Hk k). unfold journaled_keys in Hk. by rewrite Hrk in Hk.
Qed.

(** *** Extending the journal *)

Definition mk_event (now : Z) (turnID : string) (n : Z) (e : EventInput) : Event :=
  mkEvent n turnID (ei_kind e) (ei_payload e) now.
Definition new_events (now : Z) (turnID : string) (es : list EventInput) (row : PersonaRow)
    : list Event :=
  number_from (max_seq ev_seq (ps_events row)) (mk_event now turnID) es.
Definition ekey (e : EventInput) : option string := experienceKey (ei_kind e) (ei_payload e).
Definition erec (e : EventInput) : option string := receipt_of (ei_kind e) (ei_payload e).

Lemma appendEventsTx_ok now t es row u row' :
  appendEventsTx now t es row = Ok (u, row') →
  row' = row <| ps_events := ps_events row ++ new_events now t es row |>.
Proof. unfold appendEventsTx. intros H. repeat case_match; by simplify_eq/=. Qed.

Lemma lineage_keys_app row k r l1 l2 :
  lineage_keys row k r (l1 ++ l2) = lineage_keys row k r l1 ++ lineage_keys row k r l2.
Proof. apply omap_app. Qed.

Lemma lineage_keys_cons row k r e l :
  lineage_keys row k r (e :: l) = lineage_keys row k r [e] ++ lineage_keys row k r l.
Proof. apply (lineage_keys_app row k r [e]). Qed.

Lemma lineage_keys_new row k r base now t es :
  lineage_keys row k r (number_from base (mk_event now t) es) `sublist_of` omap ekey es.
Proof.
  revert base. induction es as [|e es IH]; intros base; [done|].
  simpl number_from. rewrite lineage_keys_cons. unfold lineage_keys at 1. simpl.
  fold (ekey e). destruct (_ && _), (ekey e); simpl; try (by apply sublist_skip);
    try (apply sublist_cons); apply IH.
Qed.

Lemma lineage_keys_other row k r base now t es :
  in_lineage row k t = false →
  lineage_keys row k r (number_from base (mk_event now t) es) = [].
Proof.
  intros Ht. revert base. induction es as [|e es IH]; intros base; [done|].
  simpl number_from. rewrite lineage_keys_cons, IH. unfold lineage_keys. simpl.
  by rewrite Ht, andb_false_r.
Qed.

Lemma lineage_keys_before row k r l :
  (∀ e, e ∈ l → ev_seq e < r) → lineage_keys row k r l = [].
Proof.
  induction l as [|e l IH]; intros Hl; [done|].
  rewrite lineage_keys_cons, IH by (intros; apply Hl; by right).
  unfold lineage_keys. simpl.
  by replace (r <=? ev_seq e) with false by (symmetry; apply Z.leb_gt, Hl; left).
Qed.

(** The one way the journal grows: a turn's events are appended, and the
    markers of the receipts among them are set in the same transaction. *)
Lemma journal_inv_extend now t x es row row' :
  journal_inv row → ps_turns row !! t = Some x →
  ps_events row' = ps_events row ++ new_events now t es row →
  lineage_kept row row' →
  (∀ k n, received row' k = Some n ↔ received row k = Some n ∨
     ∃ e, e ∈ new_events now t es row ∧ ev_seq e = n
          ∧ receipt_of (ev_kind e) (ev_payload e) = Some k) →
  NoDup (omap ekey es) →
  (∀ y, y ∈ omap ekey es → y ∉ journaled_keys row (tu_input_id x)) →
  journal_inv row'.
Proof.
  intros [Hn Ht Hc Hk] Hx He Hl Hr Hnd Hdis.
  pose proof (numbered_max ev_seq _ Hn) as Hmax.
  assert (∀ e, e ∈ new_events now t es row →
    ev_turn_id e = t ∧ length (ps_events row) < ev_seq e) as Hnew.
  { intros e (n & y & _ & -> & ?)%elem_of_number_from. simpl. split; [done|lia]. }
  split; rewrite ?He.
  - apply numbered_number_from; auto.
  - intros e [Hin|Hin]%elem_of_app.
    + destruct (Ht e Hin) as [y Hy]. apply Hl in Hy as (y' & ? & _). eauto.
    + apply Hnew in Hin as [-> _]. apply Hl in Hx as (x' & ? & _). eauto.
  - intros k n. rewrite Hr, Hc. setoid_rewrite elem_of_app. naive_solver.
  - intros k. unfold journaled_keys. rewrite He.
    destruct (received row' k) as [r|] eqn:Hrk; [|constructor].
    rewrite lineage_keys_app, (lineage_keys_kept row row' k r (ps_events row)) by auto.
    pose proof (lineage_keys_new row' k r (max_seq ev_seq (ps_events row)) now t es) as Hsub.
    fold (new_events now t es row) in Hsub.
    apply Hr in Hrk as [Hrk|(e & Hin & <- & _)].
    + specialize (Hk k). unfold journaled_keys in Hk, Hdis. rewrite Hrk in Hk.
      destruct (decide (k = tu_input_id x)) as [->|Hne].
      * rewrite Hrk in Hdis. apply NoDup_app. split; [done|]. split.
        -- intros y Hy1 Hy2. eapply Hdis; [|done].
           by eapply elem_of_sublist.
        -- by eapply sublist_NoDup.
      * unfold new_events. rewrite lineage_keys_other; [by rewrite app_nil_r|].
        rewrite (lineage_kept_in row) by eauto. unfold in_lineage. rewrite Hx.
        by apply bool_decide_eq_false_2.
    + rewrite lineage_keys_before; [simpl; by eapply sublist_NoDup|].
      intros e' Hin'. apply Hnew in Hin as [_ ?].
      pose proof (numbered_elem ev_seq _ _ Hn Hin'). lia.
Qed.

(** *** What journaling leaves alone

    Journaling appends events and sets missing markers; it touches nothing
    else of the persona. *)
Definition input_marked (i i' : Input) : Prop :=
  i' = i <| in_received_seq := in_received_seq i' |>
  ∧ ∀ n, in_received_seq i = Some n → in_received_seq i' = Some n.

Record journals (row row' : PersonaRow) : Prop := {
  jo_events : ps_events row `prefix_of` ps_events row';
  jo_inputs : ∀ k, option_Forall2 input_marked (ps_inputs row !! k) (ps_inputs row' !! k);
  jo_rest : row' = row <| ps_events := ps_events row' |> <| ps_inputs := ps_inputs row' |>
}.

#[global] Instance input_marked_preorder : PreOrder input_marked.
Proof.
  split.
  - intros []. by split.
  - intros i1 i2 i3 [H1 Hr1] [H2 Hr2]. split; [|auto].
    rewrite H2 at 1. rewrite H1 at 1. by destruct i1, i3.
Qed.

#[global] Instance journals_preorder : PreOrder journals.
Proof.
  split.
  - intros row. split; [done| |by destruct row]. intros k. reflexivity.
  - intros r1 r2 r3 [He1 Hi1 Hr1] [He2 Hi2 Hr2]. split.
    + by etrans.
    + intros k. specialize (Hi1 k). specialize (Hi2 k).
      destruct (ps_inputs r1 !! k), (ps_inputs r2 !! k), (ps_inputs r3 !! k);
        inversion Hi1; inversion Hi2; constructor; by etrans.
    + rewrite Hr2 at 1. rewrite Hr1 at 1. by destruct r1, r3.
Qed.

Lemma appendEventsTx_journals now t es : steps journals (appendEventsTx now t es).
Proof.
  intros row u row' ->%appendEventsTx_ok. split; simpl; [by apply prefix_app_r| |done].
  intros k. reflexivity.
Qed.

#[export] Hint Resolve appendEventsTx_journals : tx.

Lemma journals_lineage row row' : journals row row' → lineage_kept row row'.
Proof. intros [_ _ ->] t x Hx. eauto. Qed.

Lemma journals_received row row' k n :
  journals row row' → received row k = Some n → received row' k = Some n.
Proof.
  intros [_ Hi _]. unfold received. specialize (Hi k).
  destruct Hi as [i i' [_ Hi]|]; simpl; auto.
Qed.

(** *** The receipt *)

Section receipt_facts.
Context `{GL : !GoLib}.

Lemma receipt_payload_of inputID i prev attempt :
  receipt_of "input_received" (receipt_payload inputID i prev attempt) = Some inputID.
Proof.
  unfold receipt_of. rewrite bool_decide_eq_true_2 by done.
  unfold receipt_payload. cbv zeta. by rewrite list_to_map_cons, lookup_insert_eq.
Qed.

Lemma ensureInputReceived_ok now i t row u row' :
  ensureInputReceived now i t row = Ok (u, row') →
  (is_Some (received row i) ∧ row' = row) ∨
  ∃ x payload, ps_turns row !! t = Some x ∧ received row i = None ∧
    is_Some (ps_inputs row !! i) ∧
    let es := [mkEventInput "input_received" payload] in
    receipt_of "input_received" payload = Some i ∧
    row' = upd_input i (λ j, j <| in_received_seq := Some (max_seq ev_seq (ps_events row) + 1) |>)
             (row <| ps_events := ps_events row ++ new_events now t es row |>).
Proof.
  unfold ensureInputReceived, received.
  destruct (ps_inputs row !! i) as [inp|]; [|done]. cbn [mbind option_bind].
  destruct (in_received_seq inp) as [n|] eqn:Hn.
  - intros [= _ ->]. left. eauto.
  - destruct (ps_turns row !! t) as [x|]; [|done].
    destruct (jsonb_ok _); [|done]. intros [= _ <-]. right.
    exists x, (receipt_payload i inp (previous_receipt inp row) (tu_attempt x)).
    split; [done|]. split; [done|]. split; [by eauto|].
    split; [apply receipt_payload_of|done].
Qed.

Lemma ensureInputReceived_journals now i t : steps journals (ensureInputReceived now i t).
Proof.
  intros row u row' [[_ ->]|(x & p & _ & Hr & _ & _ & ->)]%ensureInputReceived_ok; [done|].
  split; simpl; [by apply prefix_app_r| |done].
  intros k. destruct (decide (i = k)) as [<-|]; simpl.
  - rewrite lookup_alter_eq. unfold received in Hr.
    destruct (ps_inputs row !! i) as [inp|]; simpl in *; constructor.
    split; simpl; [by destruct inp|congruence].
  - rewrite lookup_alter_ne by done. reflexivity.
Qed.

(** After it, the input's receipt is in the journal. *)
Lemma ensureInputReceived_received now i t row u row' :
  ensureInputReceived now i t row = Ok (u, row') → is_Some (received row' i).
Proof.
  intros [[? ->]|(x & p & _ & _ & [inp Hi] & _ & ->)]%ensureInputReceived_ok; [done|].
  unfold received, upd_input. simpl. rewrite lookup_alter_eq, Hi. simpl. eauto.
Qed.

Lemma ensureInputReceived_inv now i t row u row' :
  ensureInputReceived now i t row = Ok (u, row') → journal_inv row → journal_inv row'.
Proof.
  intros H HJ. pose proof (ensureInputReceived_journals _ _ _ _ _ _ H) as Hjo.
  apply ensureInputReceived_ok in H
    as [[_ ->]|(x & p & Hx & Hr & [inp Hi] & Hp & ->)]; [done|].
  eapply journal_inv_extend with (es := [mkEventInput "input_received" p]); try done.
  - by apply journals_lineage.
  - intros k n. unfold new_events. simpl. setoid_rewrite list_elem_of_singleton.
    unfold received, upd_input. simpl. destruct (decide (k = i)) as [->|Hne].
    + unfold received in Hr. rewrite lookup_alter_eq, Hi in *. simpl in *. rewrite Hr.
      split; [intros [= <-]; right; eexists; naive_solver|].
      intros [?|(e & -> & <- & _)]; [done|]. done.
    + rewrite lookup_alter_ne by done. split; [by left|].
      intros [?|(e & -> & _ & Hk)]; [done|]. simpl in Hk. congruence.
  - simpl. constructor.
  - simpl. by intros y ?%not_elem_of_nil.
Qed.
End receipt_facts.
#[export] Hint Resolve ensureInputReceived_journals : tx.

(** *** Deduplication *)

Lemma erec_no_key e k : erec e = Some k → ekey e = None.
Proof.
  unfold erec, receipt_of, ekey, experienceKey. case_bool_decide as Hk; [|done].
  rewrite Hk. intros _. by rewrite !bool_decide_eq_false_2 by naive_solver.
Qed.

Lemma ekey_other kind p :
  kind ≠ "assistant_message" → kind ≠ "tool_call" → kind ≠ "tool_result" →
  kind ≠ "approval_requested" → ekey (mkEventInput kind p) = None.
Proof.
  intros H1 H2 H3 H4. unfold ekey, experienceKey. cbn [ei_kind].
  by rewrite !bool_decide_eq_false_2 by intuition.
Qed.

Lemma drop_keys_spec J es :
  NoDup (omap ekey (drop_keys J es)) ∧
  (∀ y, y ∈ omap ekey (drop_keys J es) → y ∉ J) ∧
  omap erec (drop_keys J es) = omap erec es ∧ drop_keys J es `sublist_of` es.
Proof.
  revert J. induction es as [|e es IH]; intros J; csimpl.
  - split; [constructor|]. split; [|done]. by intros y ?%not_elem_of_nil.
  - fold (ekey e). fold (erec e). destruct (ekey e) as [k|] eqn:Hk.
    + assert (erec e = None) as Her.
      { destruct (erec e) as [r|] eqn:Hr; [|done]. apply erec_no_key in Hr. congruence. }
      rewrite Her. case_bool_decide as HJ.
      * destruct (IH J) as (? & ? & ? & ?). split_and!; auto. by apply sublist_cons.
      * destruct (IH (k :: J)) as (H1 & H2 & H3 & H4). csimpl. rewrite Hk, Her.
        split_and!; [| |done|by apply sublist_skip].
        -- constructor; [|done]. intros Hin%H2. apply Hin. left.
        -- intros y [->|Hy]%elem_of_cons; [done|]. apply H2 in Hy. set_solver.
    + destruct (IH J) as (H1 & H2 & H3 & H4). csimpl. rewrite Hk.
      split_and!; [done|done| |by apply sublist_skip]. by rewrite H3.
Qed.

Lemma no_keys es :
  existsb (λ e, bool_decide (is_Some (ekey e))) es = false → omap ekey es = [].
Proof.
  induction es as [|e es IH]; csimpl; [done|]. intros [H1 H2]%orb_false_iff.
  reflect_bools. destruct (ekey e); [by destruct H1|auto].
Qed.

Lemma withoutJournaledExperience_spec i es row :
  let es' := withoutJournaledExperience i es row in
  NoDup (omap ekey es') ∧ (∀ y, y ∈ omap ekey es' → y ∉ journaled_keys row i) ∧
  omap erec es' = omap erec es ∧ es' `sublist_of` es.
Proof.
  unfold withoutJournaledExperience.
  destruct (existsb _ es) eqn:He; [apply drop_keys_spec|].
  simpl. rewrite (no_keys es He). split; [constructor|]. split; [|done].
  by intros y ?%not_elem_of_nil.
Qed.

Lemma drop_receipts_spec f em es :
  NoDup (omap erec (drop_receipts f em es)) ∧
  ∀ k, k ∈ omap erec (drop_receipts f em es) → (k ∉ em) ∧ f k = false ∧ k ∈ omap erec es.
Proof.
  revert em. induction es as [|e es IH]; intros em; csimpl.
  - split; [constructor|]. by intros k ?%not_elem_of_nil.
  - fold (erec e). destruct (erec e) as [i|] eqn:Hi.
    + destruct (f i || bool_decide (i ∈ em)) eqn:Hd.
      * destruct (IH em) as [H1 H2]. split; [done|]. intros k (?&?&?)%H2. set_solver.
      * apply orb_false_iff in Hd as [Hf Hem]. reflect_bools.
        destruct (IH ({[i]} ∪ em)) as [H1 H2]. csimpl. rewrite Hi. split.
        -- constructor; [|done]. intros (Hn & _)%H2. set_solver.
        -- intros k [->|(?&?&?)%H2]%elem_of_cons; set_solver.
    + destruct (IH em) as [H1 H2]. csimpl. rewrite Hi. auto.
Qed.

Lemma receipts_named_spec es named :
  receipts_named es = Ok named → named = omap erec es.
Proof.
  revert named. induction es as [|e es IH]; intros named; csimpl; [by intros [= <-]|].
  destruct (receipt_named e) as [o|] eqn:Ho; [|done].
  assert (erec e = o) as ->.
  { revert Ho. unfold receipt_named, erec, receipt_of.
    repeat case_match; intros; by simplify_eq/=. }
  destruct (receipts_named es) as [l|]; destruct o; intros H; try done;
    injection H as <-; by rewrite (IH l).
Qed.

(** A receipt that survives names an input that has none. *)
Lemma withoutJournaledInput_spec `{GL : !GoLib} es es' row :
  withoutJournaledInput es row = Ok es' →
  NoDup (omap erec es') ∧
  ∀ k, k ∈ omap erec es' → received row k = None ∧ is_Some (ps_inputs row !! k).
Proof.
  unfold withoutJournaledInput. destruct (receipts_named es) as [named|] eqn:Hn; [|done].
  apply receipts_named_spec in Hn as ->. destruct (existsb _ _); [done|].
  destruct (List.find _ _) as [|] eqn:Hf; [done|]. intros [= <-].
  destruct (drop_receipts_spec (input_journaled row) ∅ es) as [H1 H2].
  split; [done|]. intros k (_ & Hj & Hin)%H2.
  apply list_elem_of_In in Hin.
  pose proof (List.find_none _ _ Hf k Hin) as Ha. unfold absent_input in Ha. reflect_bools.
  unfold received, input_journaled in *. destruct (ps_inputs row !! k) as [i|]; [|done].
  simpl. split; [|by eauto]. reflect_bools. by apply eq_None_not_Some.
Qed.

(** *** Linking the receipts of a commit *)

Lemma erec_new now t es row e k :
  e ∈ new_events now t es row → receipt_of (ev_kind e) (ev_payload e) = Some k →
  k ∈ omap erec es.
Proof.
  intros (n & y & Hy & -> & _)%elem_of_number_from Hk.
  apply list_elem_of_omap. by exists y.
Qed.

(** With one receipt per input in a batch, the receipt of [k] is the event
    carrying it. *)
Lemma new_receipt_unique now t es row e1 e2 k :
  NoDup (omap erec es) → e1 ∈ new_events now t es row → e2 ∈ new_events now t es row →
  receipt_of (ev_kind e1) (ev_payload e1) = Some k →
  receipt_of (ev_kind e2) (ev_payload e2) = Some k → e1 = e2.
Proof.
  unfold new_events. generalize (max_seq ev_seq (ps_events row)) as base.
  induction es as [|x es IH]; intros base Hnd H1 H2 Hk1 Hk2; simpl in *.
  { by apply not_elem_of_nil in H1. }
  assert (∀ e, e ∈ number_from (base + 1) (mk_event now t) es →
    receipt_of (ev_kind e) (ev_payload e) = Some k → k ∈ omap erec es) as Hin.
  { intros e (n & y & Hy & -> & _)%elem_of_number_from Hk.
    apply list_elem_of_omap. by exists y. }
  fold (erec x) in *. csimpl in Hnd.
  apply elem_of_cons in H1 as [->|H1], H2 as [->|H2].
  - done.
  - simpl in Hk1. change (erec x = Some k) in Hk1. rewrite Hk1 in Hnd.
    apply NoDup_cons in Hnd as [[] _]. eauto.
  - simpl in Hk2. change (erec x = Some k) in Hk2. rewrite Hk2 in Hnd.
    apply NoDup_cons in Hnd as [[] _]. eauto.
  - apply (IH (base + 1)); auto. destruct (erec x); [by apply NoDup_cons in Hnd as [_ ?]|done].
Qed.

Lemma first_receipt_Some base k l n :
  first_receipt base k l = Some n →
  ∃ e, e ∈ l ∧ base < ev_seq e ∧ receipt_of (ev_kind e) (ev_payload e) = Some k ∧ ev_seq e = n.
Proof.
  unfold first_receipt. intros (e & He & ->)%fmap_Some.
  apply head_Some_elem_of, list_elem_of_filter in He as [[? ?] ?]. eauto.
Qed.

Lemma first_receipt_None base k l e :
  first_receipt base k l = None → e ∈ l → base < ev_seq e →
  receipt_of (ev_kind e) (ev_payload e) ≠ Some k.
Proof.
  unfold first_receipt. intros H%fmap_None%head_None He Hb Hk.
  assert (e ∈ filter (λ e, base < ev_seq e ∧
    receipt_of (ev_kind e) (ev_payload e) = Some k) l) as Hin.
  { by apply list_elem_of_filter. }
  rewrite H in Hin. by apply not_elem_of_nil in Hin.
Qed.

Lemma received_link base row k :
  received (link_receipts base row) k =
  match received row k with
  | Some n => Some n
  | None => if ps_inputs row !! k is Some _ then first_receipt base k (ps_events row) else None
  end.
Proof.
  unfold received, link_receipts. simpl. rewrite map_lookup_imap.
  destruct (ps_inputs row !! k) as [i|]; simpl; [|done].
  destruct (in_received_seq i) as [n|] eqn:Hr; simpl; [done|].
  by destruct (first_receipt base k (ps_events row)).
Qed.

Lemma link_receipts_journals base row : journals row (link_receipts base row).
Proof.
  split; [done| |done]. intros k. unfold link_receipts. simpl. rewrite map_lookup_imap.
  destruct (ps_inputs row !! k) as [i|]; simpl; constructor.
  destruct (in_received_seq i) eqn:Hr; [by destruct i|].
  destruct (first_receipt _ _ _); split; simpl; try congruence; by destruct i.
Qed.

(** What a commit does to the journal keeps the invariant. *)
Lemma commit_events_inv `{GL : !GoLib} now t x es0 es1 row u row1 :
  journal_inv row → ps_turns row !! t = Some x →
  withoutJournaledInput es0 row = Ok es1 →
  appendEventsTx now t (withoutJournaledExperience (tu_input_id x) es1 row) row = Ok (u, row1) →
  journal_inv (link_receipts (max_seq ev_seq (ps_events row)) row1).
Proof.
  intros HJ Hx [Hnd Hin]%withoutJournaledInput_spec Happ.
  destruct (withoutJournaledExperience_spec (tu_input_id x) es1 row) as (Hk1 & Hk2 & Her & _).
  set (es := withoutJournaledExperience _ _ _) in *. rewrite <-Her in Hnd, Hin.
  pose proof (appendEventsTx_journals _ _ _ _ _ _ Happ) as Hjo.
  apply appendEventsTx_ok in Happ. set (base := max_seq _ _).
  assert (∀ e, e ∈ ps_events row → ev_seq e ≤ base) as Hold.
  { intros e He. unfold base. rewrite numbered_max by apply HJ.
    apply (numbered_elem ev_seq) in He; [lia|apply HJ]. }
  assert (∀ e, e ∈ new_events now t es row → base < ev_seq e) as Hnew.
  { intros e (n & y & _ & -> & ?)%elem_of_number_from. simpl. unfold base. lia. }
  eapply (journal_inv_extend now t x es); [done|done|by subst row1| | |done|done].
  - apply journals_lineage. etrans; [done|apply link_receipts_journals].
  - intros k n. rewrite received_link.
    replace (received row1 k) with (received row k) by by subst row1.
    replace (ps_inputs row1) with (ps_inputs row) by by subst row1.
    replace (ps_events row1) with (ps_events row ++ new_events now t es row) by by subst row1.
    destruct (received row k) as [n'|] eqn:Hrk.
    { split; [by left|]. intros [?|(e & He & _ & Hek)]; [done|].
      apply (erec_new now t es row) in Hek; [|done]. apply Hin in Hek as [? _]. congruence. }
    split.
    + intros Hf. right. destruct (ps_inputs row !! k); [|done].
      apply first_receipt_Some in Hf as (e & He & Hb & Hek & <-). exists e.
      apply elem_of_app in He as [He|He]; [|done]. apply Hold in He. lia.
    + intros [?|(e & He & <- & Hek)]; [done|].
      pose proof (erec_new _ _ _ _ _ _ He Hek) as Hke. apply Hin in Hke as [_ [i ->]].
      destruct (first_receipt _ _ _) as [m|] eqn:Hf.
      * apply first_receipt_Some in Hf as (e' & He' & Hb & Hek' & <-).
        apply elem_of_app in He' as [He'|He']; [apply Hold in He'; lia|].
        by rewrite (new_receipt_unique now t es row e' e k).
      * exfalso. eapply first_receipt_None; [done| |by apply Hnew|done].
        apply elem_of_app. by right.
Qed.

(** *** Journaling outside a commit *)

(** Appending deduplicated records that carry no receipt. *)
Lemma append_plain_inv now t x es row u row' :
  journal_inv row → ps_turns row !! t = Some x → omap erec es = [] →
  NoDup (omap ekey es) →
  (∀ y, y ∈ omap ekey es → y ∉ journaled_keys row (tu_input_id x)) →
  appendEventsTx now t es row = Ok (u, row') → journal_inv row'.
Proof.
  intros HJ Hx Her Hnd Hdis H.
  pose proof (appendEventsTx_journals _ _ _ _ _ _ H) as Hjo%journals_lineage.
  apply appendEventsTx_ok in H as ->.
  eapply (journal_inv_extend now t x es); try done.
  intros k n. split; [by left|]. intros [?|(e & He & _ & Hek)]; [done|].
  apply (erec_new now t es row) in Hek; [|done]. rewrite Her in Hek.
  by apply not_elem_of_nil in Hek.
Qed.

(** Records that carry no key need no deduplication. *)
Lemma append_unkeyed_inv now t x es row u row' :
  journal_inv row → ps_turns row !! t = Some x → omap erec es = [] → omap ekey es = [] →
  appendEventsTx now t es row = Ok (u, row') → journal_inv row'.
Proof.
  intros HJ Hx Her Hk H. eapply append_plain_inv; try done; rewrite Hk.
  - constructor.
  - by intros y ?%not_elem_of_nil.
Qed.

Section experience_facts.
Context `{GL : !GoLib}.

Lemma journalExperienceTx_journals now t i es :
  steps journals (journalExperienceTx now t i es).
Proof.
  unfold journalExperienceTx. tx_steps.
Qed.
#[local] Hint Resolve journalExperienceTx_journals : tx.

Lemma journalExperienceTx_inv now t x es row u row' :
  ps_turns row !! t = Some x → omap erec es = [] →
  journalExperienceTx now t (tu_input_id x) es row = Ok (u, row') →
  journal_inv row → journal_inv row'.
Proof.
  intros Hx Her H HJ. unfold journalExperienceTx in H. inv_tx.
  pose proof (ensureInputReceived_journals _ _ _ _ _ _ H0) as Hjo.
  apply ensureInputReceived_inv in H0; [|done].
  destruct (journals_lineage _ _ Hjo _ _ Hx) as (x' & Hx' & Hi).
  destruct (withoutJournaledExperience_spec (tu_input_id x) es s0) as (? & ? & He & _).
  refine (append_plain_inv _ _ _ _ _ _ _ H0 Hx' _ _ _ H); [by rewrite He|done|by rewrite Hi].
Qed.

(** The experience of a call is in the journal afterwards, once. *)
Lemma journalExperienceTx_received now t i es row u row' :
  journalExperienceTx now t i es row = Ok (u, row') → is_Some (received row' i).
Proof.
  unfold journalExperienceTx. intros H. inv_tx.
  apply ensureInputReceived_received in H0 as [n Hn]. exists n.
  eapply journals_received; [|done]. by eapply appendEventsTx_journals.
Qed.

Lemma erec_decided c : omap erec (decided c) = [].
Proof. unfold decided, ce_message. case_bool_decide; reflexivity. Qed.
Lemma erec_awaiting c a : omap erec (awaiting c a) = [].
Proof. unfold awaiting, ce_message. case_bool_decide; reflexivity. Qed.
Lemma result_event_erec c op a e : result_event c op a = Some e → erec e = None.
Proof.
  unfold result_event. destruct (op_status op); intros H; try done;
    injection H as <-; reflexivity.
Qed.

Lemma journalOutcomeTx_journals now t i c op a :
  steps journals (journalOutcomeTx now t i c op a).
Proof.
  unfold journalOutcomeTx. tx_steps.
Qed.
#[local] Hint Resolve journalOutcomeTx_journals : tx.

Lemma journalOutcomeTx_inv now t x c op a row u row' :
  ps_turns row !! t = Some x →
  journalOutcomeTx now t (tu_input_id x) c op a row = Ok (u, row') →
  journal_inv row → journal_inv row'.
Proof.
  intros Hx H. unfold journalOutcomeTx in H.
  destruct (result_event c op a) as [e|] eqn:He; [|by inv_tx].
  eapply journalExperienceTx_inv; [done| |done].
  rewrite omap_app, erec_decided. csimpl. by rewrite (result_event_erec _ _ _ _ He).
Qed.

Lemma journalCompletedTx_journals now op : steps journals (journalCompletedTx now op).
Proof.
  intros row u row' H. unfold journalCompletedTx in H.
  repeat case_match; simplify_eq; try done. by eapply journalOutcomeTx_journals.
Qed.
#[local] Hint Resolve journalCompletedTx_journals : tx.

Lemma journalCompletedTx_inv now op row u row' :
  journalCompletedTx now op row = Ok (u, row') → journal_inv row → journal_inv row'.
Proof.
  unfold journalCompletedTx. intros H. repeat case_match; simplify_eq; auto.
  by eapply journalOutcomeTx_inv.
Qed.

Lemma markInterruptedTx_journals now t i : steps journals (markInterruptedTx now t i).
Proof. unfold markInterruptedTx. tx_steps. Qed.
#[local] Hint Resolve markInterruptedTx_journals : tx.

Lemma markInterruptedTx_inv now t x i row u row' :
  ps_turns row !! t = Some x →
  markInterruptedTx now t i row = Ok (u, row') → journal_inv row → journal_inv row'.
Proof.
  intros Hx H HJ. unfold markInterruptedTx in H. inv_tx; [|done].
  refine (append_unkeyed_inv _ _ _ _ _ _ _ HJ Hx _ _ H); [done|].
  unfold omap, list_omap. by rewrite ekey_other.
Qed.

(** *** Operation identities *)

Lemma idem_key_last i n : 0 ≤ n →
  last_index ":tool:" (idem_key i n) = Some (String.length i).
Proof.
  intros Hn. unfold idem_key.
  rewrite (last_index_app _ _ _ 0); [by rewrite Nat.add_0_r|].
  pose proof (itoa_digits n Hn) as Hd. generalize dependent (itoa n). intros d Hd.
  simpl. rewrite last_index_digits by done. unfold HasPrefix.
  simpl. rewrite prefix_digits by done. by destruct d.
Qed.

Lemma idem_key_suffix i n : str_drop (String.length i + 6) (idem_key i n) = itoa n.
Proof.
  unfold idem_key. replace (String.length i + 6)%nat with (String.length (i +:+ ":tool:")).
  - change (i +:+ ":tool:" +:+ itoa n) with (i +:+ (":tool:" +:+ itoa n)).
    rewrite str_app_assoc. apply str_drop_app.
  - induction i as [|c i IH]; simpl; [done|]. by rewrite IH.
Qed.

(** The plan position a key was derived from is read back from it,
    whatever the input id contains. *)
Lemma operationCallIndex_idem_key i n : 0 ≤ n →
  operationCallIndex (idem_key i n) = Some n.
Proof.
  intros Hn. unfold operationCallIndex. rewrite idem_key_last by done.
  rewrite idem_key_suffix. by apply atoi_itoa.
Qed.
End experience_facts.

#[export] Hint Resolve
  journalExperienceTx_journals journalOutcomeTx_journals journalCompletedTx_journals
  markInterruptedTx_journals : tx.
