(* ===== verification/Plans.v ===== *)
(** * Durable plans

    [store.go]: [SavePlan] records one round of the model's decisions before
    any of its effects run, [planForInput] reads the record.
    [experience.go]: [journalRejectedClaim] journals a claim that was
    refused. *)

From Stdlib Require Import ZArith Lia.
From S2P Require Import Prelude Json State Personas Inputs Journal.
Local Open Scope string_scope.
Local Open Scope list_scope.
Local Open Scope Z_scope.

(** ** The decision as submitted

    Slices, maps and the raw continuation may be nil; [normalise] is the
    head of [SavePlan]. *)
Record PlanCallReq := mkCallReq {
  pr_call_id : string; pr_tool : string; pr_route : string; pr_request : option obj
}.
Record DecisionReq := mkDecisionReq {
  dr_text : string;
  dr_calls : option (list PlanCallReq);
  dr_usage : option obj;
  dr_continuation : option json
}.

Definition normalise_call (i : Z) (c : PlanCallReq) : res err PlanCall :=
  if bool_decide (pr_tool c = "")
  then Err (badreq ("plan call " +:+ itoa i +:+ " missing tool"))
  else if negb (bool_decide (pr_route c = "normal" ∨ pr_route c = "elevated"))
  then Err (badreq ("plan call " +:+ itoa i +:+ " missing or unknown invocation route"))
  else Ok (mkCall (pr_call_id c) (pr_tool c) (pr_route c) (default ∅ (pr_request c))).

Fixpoint normalise_calls (i : Z) (l : list PlanCallReq) : res err (list PlanCall) :=
  match l with
  | [] => Ok []
  | c :: l =>
      match normalise_call i c with
      | Err e => Err e
      | Ok pc =>
          match normalise_calls (i + 1) l with
          | Err e => Err e
          | Ok pcs => Ok (pc :: pcs)
          end
      end
  end.

Definition normalise_continuation (c : option json) : res err (option json) :=
  match c with
  | None => Ok None
  | Some JNull => Ok None
  | Some (JObj m) => Ok (Some (JObj m))
  | Some _ => Err (badreq "continuation must be a JSON object")
  end.

Definition normalise (d : DecisionReq) : res err Decision :=
  match normalise_continuation (dr_continuation d) with
  | Err e => Err e
  | Ok cont =>
      match normalise_calls 0 (default [] (dr_calls d)) with
      | Err e => Err e
      | Ok calls => Ok (mkDecision (dr_text d) calls (default ∅ (dr_usage d)) cont)
      end
  end.

(** The marshalled decision: [call_id] and [continuation] are omitempty. *)
Definition call_json (c : PlanCall) : json :=
  JObj (list_to_map
    ((if bool_decide (pc_call_id c = "") then [] else [("call_id", JStr (pc_call_id c))]) ++
     [("tool", JStr (pc_tool c)); ("route", JStr (pc_route c));
      ("request", JObj (pc_request c))])).
Definition decision_json (d : Decision) : json :=
  JObj (list_to_map
    ([("text", JStr (d_text d)); ("calls", JArr (map call_json (d_calls d)));
      ("usage", JObj (d_usage d))] ++
     match d_continuation d with Some c => [("continuation", c)] | None => [] end)).

(** ** Saving a round *)

Definition planForInput (inputID : string) (row : PersonaRow) : option TurnPlan :=
  ps_plans row !! inputID.

(** The live attempt: the named turn runs under this generation. *)
Definition live_turn (generation : Z) (t : Turn) : bool :=
  (tu_generation t =? generation) && bool_decide (tu_status t = TurnRunning).

(** The first round creates the record. *)
Definition save_first (now : Z) (turnID inputID : string) (generation round : Z)
    (d : Decision) : ptx (TurnPlan * bool) := λ row,
  if negb (round =? 0) then Err ErrTurnConflict
  else if jsonb_ok (decision_json d) then
    let p := mkPlan turnID generation [d] now in
    Ok ((p, true), row <| ps_plans ::= <[inputID := p]> |>)
  else Err (dataErr nul_error).

(** A later one replays a recorded round or appends the next. *)
Definition save_next (inputID : string) (round : Z) (d : Decision) (p : TurnPlan)
    : ptx (TurnPlan * bool) := λ row,
  let storedRounds := Z.of_nat (length (tp_plan p)) in
  if round <? storedRounds then
    if jsonb_ok (decision_json d) then
      if bool_decide (tp_plan p !! Z.to_nat round = Some d) then Ok ((p, false), row)
      else Err ErrTurnConflict
    else Err nul_error
  else if round =? storedRounds then
    if jsonb_ok (decision_json d) then
      let p' := p <| tp_plan := tp_plan p ++ [d] |> in
      Ok ((p', true), row <| ps_plans ::= <[inputID := p']> |>)
    else Err (dataErr nul_error)
  else Err ErrTurnConflict.

Definition save_tx (now : Z) (turnID : string) (generation round : Z) (d : Decision)
    : ptx (TurnPlan * bool) := λ row,
  match ps_turns row !! turnID with
  | None => Err ErrTurnNotFound
  | Some t =>
      if negb (live_turn generation t) then Err ErrTurnConflict
      else match planForInput (tu_input_id t) row with
      | None => save_first now turnID (tu_input_id t) generation round d row
      | Some p => save_next (tu_input_id t) round d p row
      end
  end.

Definition SavePlan (now : Z) (p turnID : string) (generation round : Z)
    (req : DecisionReq) : tx (TurnPlan * bool) :=
  if round <? 0 then throw (badreq "round must be >= 0")
  else match normalise req with
  | Err e => throw e
  | Ok d =>
      if hasNUL (decision_json d)
      then throw (badreq "decision contains a NUL byte jsonb cannot store")
      else fenced p generation (save_tx now turnID generation round d)
  end.

(** ** A rejected claim *)

Definition claimRejected (e : err) : bool :=
  match e with
  | ErrUnknownTool _ => true
  | e => isBadRequest e || isDataError e
  end.

Section rejected.
Context `{GL : !GoLib}.

Definition journalRejectedClaim (now : Z) (turnID : string) (generation callIndex : Z)
    (tool : string) (request : option obj) (cause : err) : ptx unit := λ row,
  match ps_turns row !! turnID with
  | None => Ok (tt, row)
  | Some t =>
      if negb (live_turn generation t) then Ok (tt, row)
      else match planPosition (planForInput (tu_input_id t) row) callIndex with
      | None => Ok (tt, row)
      | Some pos =>
          if negb (bool_decide (pc_tool (ce_call pos) = tool))
             || negb (jsonbEqual (Some (pc_request (ce_call pos)))
                        (Some (default ∅ request)))
          then Ok (tt, row)
          else
            let rejection := mkEventInput "tool_result" (list_to_map
              [("tool", JStr tool); ("call_id", JStr (pc_call_id (ce_call pos)));
               ("call_index", jint callIndex); ("error", JStr (strip_nul (err_text cause)))]) in
            journalExperienceTx now turnID (tu_input_id t) (decided pos ++ [rejection]) row
      end
  end.

Lemma journalRejectedClaim_journals now t g n tool r e :
  steps journals (journalRejectedClaim now t g n tool r e).
Proof.
  intros row u row' H. unfold journalRejectedClaim in H.
  repeat case_match; simplify_eq; try done. by eapply journalExperienceTx_journals.
Qed.

Lemma journalRejectedClaim_inv now t g n tool r e row u row' :
  journalRejectedClaim now t g n tool r e row = Ok (u, row') →
  journal_inv row → journal_inv row'.
Proof.
  unfold journalRejectedClaim. intros H. repeat case_match; simplify_eq; auto.
  eapply journalExperienceTx_inv; [done| |done].
  by rewrite omap_app, erec_decided.
Qed.
End rejected.
#[export] Hint Resolve journalRejectedClaim_journals : tx.

(** ** Plans only grow *)

Definition plan_grows (p p' : TurnPlan) : Prop := tp_plan p `prefix_of` tp_plan p'.

#[global] Instance plan_grows_preorder : PreOrder plan_grows.
Proof. split; unfold plan_grows; [intros p; done|]. intros p1 p2 p3 ??. by etrans. Qed.

(** The shape of a successful save: the recorded plan of the turn's input
    has the decision at the named round, and everything before it is kept. *)
Lemma save_tx_ok now t g round d row p created row' :
  0 ≤ round → save_tx now t g round d row = Ok ((p, created), row') →
  ∃ x, ps_turns row !! t = Some x ∧ live_turn g x = true ∧
    row' = row <| ps_plans := ps_plans row' |> ∧
    ps_plans row' !! tu_input_id x = Some p ∧
    tp_plan p !! Z.to_nat round = Some d ∧
    (∀ i, i ≠ tu_input_id x → ps_plans row' !! i = ps_plans row !! i) ∧
    (∀ p0, ps_plans row !! tu_input_id x = Some p0 →
       tp_plan p = tp_plan p0 ++ (if created then [d] else [])) ∧
    (ps_plans row !! tu_input_id x = None → tp_plan p = [d]).
Proof.
  intros Hround. unfold save_tx. destruct (ps_turns row !! t) as [x|]; [|done].
  destruct (live_turn g x) eqn:Hlive; [|done]. simpl. unfold planForInput.
  destruct (ps_plans row !! tu_input_id x) as [p0|] eqn:Hp0.
  - unfold save_next. destruct (round <? _) eqn:Hlt.
    + destruct (jsonb_ok _); [|done]. case_bool_decide as Hsame; [|done].
      intros [= <- <- <-]. exists x. split_and!; auto; try done.
      * by destruct row.
      * intros p1 ?. simplify_eq. by rewrite app_nil_r.
      * congruence.
    + destruct (round =? _) eqn:Heq; [|done]. destruct (jsonb_ok _); [|done].
      intros [= <- <- <-]. reflect_bools. exists x. split_and!; auto.
      * simpl. by rewrite lookup_insert_eq.
      * simpl. rewrite lookup_app_r by lia.
        by replace (Z.to_nat round - length (tp_plan p0))%nat with 0%nat by lia.
      * intros i Hi. simpl. by rewrite lookup_insert_ne by done.
      * intros p1 ?. by simplify_eq.
      * congruence.
  - unfold save_first. destruct (round =? 0) eqn:H0; [|done]. simpl.
    destruct (jsonb_ok _); [|done]. intros [= <- <- <-]. reflect_bools. subst round.
    exists x. split_and!; auto; try done.
    + simpl. by rewrite lookup_insert_eq.
    + intros i Hi. simpl. by rewrite lookup_insert_ne by done.
    + congruence.
Qed.
