(* ===== verification/Pricing.v ===== *)
(** * Pricing

    [usage.go]: the integer arithmetic of the usage ledger.  Amounts are
    minor currency units, rates minor units per million tokens, everything
    int64.  [priceTokens], [addMinor], [priceEstimate] and [priceReported]
    check their arithmetic; [budgetAdmits] is the admission predicate. *)

From Stdlib Require Import ZArith Lia.
From S2P Require Import Prelude Json State.
Local Open Scope string_scope.
Local Open Scope list_scope.
Local Open Scope Z_scope.

Definition tokensPerMTok : Z := 1000000.

Record rateSnapshot := mkRates {
  r_currency : string;
  r_input : Z;
  r_output : Z;
  r_cached : option Z;
  r_revision : string
}.

Definition snapshot (b : UsageBudget) : rateSnapshot :=
  mkRates (b_currency b) (b_rate_input b) (b_rate_output b) (b_rate_cached b)
    (b_pricing_revision b).

(** Go's [/] on int64 truncates toward zero. *)
Definition priceTokens (tokens ratePerMTok : Z) : res err Z :=
  if (tokens <? 0) || (ratePerMTok <? 0)
  then Err (badreq "negative token quantity or rate")
  else if (tokens =? 0) || (ratePerMTok =? 0) then Ok 0
  else if Z.quot (MaxInt64 - (tokensPerMTok - 1)) ratePerMTok <? tokens
  then Err (badreq "token/rate product overflows minor units")
  else Ok (Z.quot (int64 (int64 (int64 (tokens * ratePerMTok) + tokensPerMTok) - 1))
             tokensPerMTok).

Definition addMinor (a b : Z) : res err Z :=
  if int64 (MaxInt64 - b) <? a then Err (badreq "cost sum overflows minor units")
  else Ok (int64 (a + b)).

Definition priceEstimate (est : UsageEstimate) (card : rateSnapshot) : res err (Z * bool) :=
  needed ← priceTokens (est_input_tokens est) (r_input card);
  match est_output_bound est with
  | None => Ok (needed, false)
  | Some b =>
      out ← priceTokens b (r_output card);
      needed ← addMinor needed out;
      Ok (needed, true)
  end.

(** A reported call's categories: input and output present, cached optional
    and billed at the cached rate when one is configured. *)
Definition priceReported (status : FactStatus) (input output cached : option Z)
    (card : rateSnapshot) : res err (option Z) :=
  match status, input, output with
  | Reported, Some i, Some o =>
      let c := default 0 cached in
      let cachedRate := default (r_input card) (r_cached card) in
      cost ← priceTokens i (r_input card);
      ccost ← priceTokens c cachedRate;
      cost ← addMinor cost ccost;
      ocost ← priceTokens o (r_output card);
      cost ← addMinor cost ocost;
      Ok (Some cost)
  | _, _, _ => Ok None
  end.

Definition budgetAdmits (limit spent held needed : Z) : bool :=
  (needed <=? limit) && (int64 (spent + held) <=? int64 (limit - needed)).

(** A funding source's cap with its live spend; no budget is no cap. *)
Record fundingHeadroom := mkHeadroom {
  h_budget : option UsageBudget; h_spent : Z; h_held : Z
}.

Definition fit (h : fundingHeadroom) (est : UsageEstimate) : res err (bool * Z) :=
  match h_budget h with
  | None => Ok (true, 0)
  | Some b =>
      nb ← priceEstimate est (snapshot b);
      Ok (budgetAdmits (b_limit_minor b) (h_spent h) (h_held h) nb.1, nb.1)
  end.

(** ** Reference: exact arithmetic *)

(** The smallest integer at least [tokens * rate / 10^6]. *)
Definition exact_cost (tokens rate : Z) : Z :=
  (tokens * rate + tokensPerMTok - 1) / tokensPerMTok.

Lemma exact_cost_bounds t r : 0 ≤ t → 0 ≤ r →
  t * r ≤ exact_cost t r * tokensPerMTok < t * r + tokensPerMTok.
Proof.
  intros. unfold exact_cost, tokensPerMTok.
  pose proof (Z.div_mod (t * r + 1000000 - 1) 1000000 ltac:(lia)).
  pose proof (Z.mod_pos_bound (t * r + 1000000 - 1) 1000000 ltac:(lia)). lia.
Qed.

Lemma exact_cost_zero t r : t = 0 ∨ r = 0 → exact_cost t r = 0.
Proof. intros [->| ->]; unfold exact_cost; by rewrite ?Z.mul_0_l, ?Z.mul_0_r. Qed.

(** Whether the product fits: the code's test is exactly this. *)
Lemma product_fits t r : 0 < t → 0 < r →
  (MaxInt64 - (tokensPerMTok - 1)) ÷ r < t ↔ MaxInt64 < t * r + tokensPerMTok - 1.
Proof.
  intros Ht Hr. unfold MaxInt64, tokensPerMTok.
  rewrite Z.quot_div_nonneg by lia.
  split; intros H.
  - apply Z.lt_nge. intros Hle. apply Z.lt_nge in H. apply H.
    apply Z.div_le_lower_bound; lia.
  - apply Z.div_lt_upper_bound; lia.
Qed.

Lemma priceTokens_spec t r c :
  priceTokens t r = Ok c ↔
  0 ≤ t ∧ 0 ≤ r ∧ c = exact_cost t r ∧ (0 < t → 0 < r → t * r + tokensPerMTok - 1 ≤ MaxInt64).
Proof.
  unfold priceTokens.
  destruct ((t <? 0) || (r <? 0)) eqn:Hneg.
  { split; [done|]. intros (? & ? & _). apply orb_true_iff in Hneg as [?|?]; reflect_bools; lia. }
  reflect_bools. destruct ((t =? 0) || (r =? 0)) eqn:Hz.
  { apply orb_true_iff in Hz. split.
    - intros [= <-]. split_and!; try done; [|destruct Hz; reflect_bools; lia].
      symmetry. apply exact_cost_zero. destruct Hz; reflect_bools; auto.
    - intros (_ & _ & -> & _). by rewrite exact_cost_zero by (destruct Hz; reflect_bools; auto). }
  reflect_bools. assert (0 < t) by lia. assert (0 < r) by lia.
  pose proof (product_fits t r ltac:(lia) ltac:(lia)) as Hfit.
  destruct (_ <? t) eqn:Hq; reflect_bools.
  { split; [done|]. intros (_ & _ & _ & Hle). specialize (Hle ltac:(lia) ltac:(lia)).
    apply Hfit in Hq. lia. }
  assert (t * r + tokensPerMTok - 1 ≤ MaxInt64) as Hle by lia.
  assert (0 < t * r) by nia. unfold tokensPerMTok, MaxInt64 in *.
  assert (Hsum : int64 (int64 (int64 (t * r) + 1000000) - 1) = t * r + 1000000 - 1).
  { rewrite (int64_id (t * r)) by (unfold is_int64, MaxInt64, MinInt64; lia).
    destruct (decide (t * r + 1000000 = 2 ^ 63)) as [He|He].
    - rewrite He. replace (t * r) with (2 ^ 63 - 1000000) by lia. done.
    - rewrite (int64_id (t * r + 1000000)) by (unfold is_int64, MaxInt64, MinInt64; lia).
      apply int64_id. unfold is_int64, MaxInt64, MinInt64. lia. }
  rewrite Hsum, Z.quot_div_nonneg by lia. unfold exact_cost, tokensPerMTok.
  split; [intros [= <-]; split_and!; try done; lia | by intros (_ & _ & -> & _)].
Qed.

Lemma exact_cost_range t r :
  0 ≤ t → 0 ≤ r → (0 < t → 0 < r → t * r + tokensPerMTok - 1 ≤ MaxInt64) →
  0 ≤ exact_cost t r ≤ MaxInt64.
Proof.
  intros Ht Hr H. destruct (decide (t = 0)) as [->|]; [by rewrite exact_cost_zero by auto|].
  destruct (decide (r = 0)) as [->|]; [by rewrite exact_cost_zero by auto|].
  specialize (H ltac:(lia) ltac:(lia)). pose proof (exact_cost_bounds t r Ht Hr).
  unfold tokensPerMTok in *. nia.
Qed.

Lemma addMinor_spec a b c : 0 ≤ a ≤ MaxInt64 → 0 ≤ b ≤ MaxInt64 →
  addMinor a b = Ok c ↔ c = a + b ∧ a + b ≤ MaxInt64.
Proof.
  intros Ha Hb. unfold addMinor.
  rewrite (int64_id (MaxInt64 - b)) by (unfold is_int64, MinInt64, MaxInt64 in *; lia).
  destruct (_ <? a) eqn:H; reflect_bools.
  - split; [done|]. lia.
  - rewrite int64_id by (unfold is_int64, MinInt64, MaxInt64 in *; lia).
    split; [intros [= <-]; lia|by intros [-> _]].
Qed.

(** ** Sums and the admission predicate *)

Lemma priceTokens_range t r c : priceTokens t r = Ok c → 0 ≤ c ≤ MaxInt64.
Proof. intros (Ht & Hr & -> & H)%priceTokens_spec. by apply exact_cost_range. Qed.

Lemma priceEstimate_range est card n b : priceEstimate est card = Ok (n, b) → 0 ≤ n ≤ MaxInt64.
Proof.
  unfold priceEstimate, mbind, res_bind. intros H.
  destruct (priceTokens (est_input_tokens est) _) as [c|] eqn:Hc; [|done].
  apply priceTokens_range in Hc. destruct (est_output_bound est) as [o|]; [|by simplify_eq].
  destruct (priceTokens o _) as [d|] eqn:Hd; [|done]. apply priceTokens_range in Hd.
  destruct (addMinor c d) as [s|] eqn:Ha; [|done]. simplify_eq.
  apply addMinor_spec in Ha as [-> ?]; lia.
Qed.

Lemma priceReported_range st i o c card n :
  priceReported st i o c card = Ok (Some n) → 0 ≤ n ≤ MaxInt64.
Proof.
  unfold priceReported, mbind, res_bind. intros H. destruct st, i as [i|], o as [o|]; try done.
  destruct (priceTokens i _) as [x|] eqn:Hx; [|done]. apply priceTokens_range in Hx.
  destruct (priceTokens (default 0 c) _) as [y|] eqn:Hy; [|done]. apply priceTokens_range in Hy.
  destruct (addMinor x y) as [s|] eqn:Hs; [|done]. apply addMinor_spec in Hs as [-> ?]; [|lia..].
  destruct (priceTokens o _) as [z|] eqn:Hz; [|done]. apply priceTokens_range in Hz.
  destruct (addMinor (x + y) z) as [s|] eqn:Ha; [|done]. apply addMinor_spec in Ha as [-> ?]; [|lia..].
  simplify_eq. lia.
Qed.

(** Without wrap-around, admission is exactly the cap. *)
Lemma budgetAdmits_exact limit spent held needed :
  0 ≤ needed → 0 ≤ spent → 0 ≤ held → spent + held ≤ MaxInt64 → limit ≤ MaxInt64 →
  budgetAdmits limit spent held needed = true ↔ spent + held + needed ≤ limit.
Proof.
  intros Hn Hs Hh Hsum Hl. unfold budgetAdmits.
  rewrite (int64_id (spent + held)) by (unfold is_int64, MinInt64, MaxInt64 in *; lia).
  rewrite andb_true_iff, !Z.leb_le. destruct (Z.le_gt_cases needed limit).
  - rewrite int64_id by (unfold is_int64, MinInt64, MaxInt64 in *; lia). lia.
  - lia.
Qed.
