(* ===== verification/Usage.v ===== *)
(** * The usage ledger

    [usage.go]: admission of provider calls against a funding source's
    budget ([AdmitUsage]), the recorded facts and their one-directional
    correction ([RecordUsage]), reconciliation of holds whose record never
    came ([reconcileHeldReservations]), budgets, and the inputs parked on an
    exhausted budget ([resumeFundingWaitsTx], [ResumeWaitsForHuman],
    [waitFundingStale]).  Spend is summed over every persona, so the
    operations here are transactions on the whole database. *)

From Stdlib Require Import ZArith Lia.
From S2P Require Import Prelude Json MemoryState State Personas Inputs Pricing.
Local Open Scope string_scope.
Local Open Scope list_scope.
Local Open Scope Z_scope.

(** ** Live spend *)

Definition fact_cost (kind id currency : string) (f : UsageFact) : Z :=
  if bool_decide (f_kind (uf_funding f) = kind ∧ f_id (uf_funding f) = id
                  ∧ uf_currency f = Some currency)
  then default 0 (uf_cost_minor f) else 0.
Definition reservation_hold (kind id currency : string) (r : Reservation) : Z :=
  if bool_decide (f_kind (rs_funding r) = kind ∧ f_id (rs_funding r) = id
                  ∧ rs_status r = Held ∧ rs_currency r = Some currency)
  then rs_reserved_minor r else 0.

Definition row_spent (kind id currency : string) (row : PersonaRow) : Z :=
  msum (fact_cost kind id currency) (ps_facts row).
Definition row_held (kind id currency : string) (row : PersonaRow) : Z :=
  msum (reservation_hold kind id currency) (ps_reservations row).
Definition total_spent (kind id currency : string) (db : DB) : Z :=
  msum (row_spent kind id currency) (db_personas db).
Definition total_held (kind id currency : string) (db : DB) : Z :=
  msum (row_held kind id currency) (db_personas db).

(** The sums come back as int64: a larger numeric does not scan. *)
Definition fundingSpend (kind id currency : string) (db : DB) : res err (Z * Z) :=
  let spent := total_spent kind id currency db in
  let held := total_held kind id currency db in
  if (MinInt64 <=? spent) && (spent <=? MaxInt64)
     && (MinInt64 <=? held) && (held <=? MaxInt64)
  then Ok (spent, held) else Err (PgError "cannot scan numeric").

Definition budgetForFunding (kind id : string) (db : DB) : option UsageBudget :=
  db_budgets db !! (kind, id).

(** The lock [fundingHeadroomLocked] takes changes nothing a transaction
    running alone can see. *)
Definition get_fundingHeadroom (kind id : string) (db : DB) : res err fundingHeadroom :=
  match budgetForFunding kind id db with
  | None => Ok (mkHeadroom None 0 0)
  | Some b =>
      sh ← fundingSpend kind id (b_currency b) db;
      Ok (mkHeadroom (Some b) sh.1 sh.2)
  end.

Section usage.
Context `{GL : !GoLib}.

(** ** Who may spend what *)

Definition human_of (p : string) (db : DB) : option string :=
  db_personas db !! p ≫= λ row, p_human_id (ps_persona row).

Definition live_grant (id h : string) (db : DB) : bool :=
  match db_grants db !! id with
  | Some g => bool_decide (g_human_id g = h ∧ g_revoked_at g = None)
  | None => false
  end.

Definition fundingAllowed (p : string) (f : FundingRef) (db : DB) : res err unit :=
  if bool_decide (f_kind f = "operator") then
    if bool_decide (f_id f = "env") then Ok tt
    else Err (badreq "operator funding id must be 'env'")
  else if bool_decide (f_kind f = "connection") then
    match pg_uuid (f_id f) with
    | None => Err (dataErr (PgData "invalid input syntax for type uuid"))
    | Some c =>
        match db_connections db !! c, human_of p db with
        | Some h, Some h' => if bool_decide (h = h') then Ok tt else Err ErrFundingNotFound
        | _, _ => Err ErrFundingNotFound
        end
    end
  else if bool_decide (f_kind f = "sumi") then
    if contains_nul (f_id f) then Err (PgData "invalid byte sequence") else
    match human_of p db with
    | Some h => if live_grant (f_id f) h db then Ok tt else Err ErrFundingNotFound
    | None => Err ErrFundingNotFound
    end
  else Err (badreq ("unknown funding kind " +:+ strconv_Quote (f_kind f))).

Definition ownsFunding (humanID kind id : string) (db : DB) : res err unit :=
  if bool_decide (kind = "connection") then
    match pg_uuid id with
    | None => Err (dataErr (PgData "invalid input syntax for type uuid"))
    | Some c =>
        match db_connections db !! c with
        | None => Err ErrFundingNotFound
        | Some h => if bool_decide (h = humanID) then Ok tt else Err ErrFundingForbidden
        end
    end
  else if bool_decide (kind = "sumi") then
    if live_grant id humanID db then Ok tt
    else match db_grants db !! id with
         | Some _ => Err ErrFundingForbidden
         | None => Err ErrFundingNotFound
         end
  else Err (badreq ("funding kind " +:+ strconv_Quote kind +:+ " is not user-managed")).

(** ** Admission *)

Record UsageAdmitRequest := mkAdmit {
  ua_generation : Z;
  ua_fact_id : string;
  ua_kind : string;
  ua_phase : string;
  ua_turn_id : string;
  ua_input_id : string;
  ua_round : Z;
  ua_funding : FundingRef;
  ua_estimate : UsageEstimate
}.
Record UsageReservation := mkUsageReservation {
  ur_fact_id : string; ur_reserved_minor : Z; ur_currency : string;
  ur_bounded : bool; ur_status : ReservationStatus
}.
Record BudgetWait := mkBudgetWait {
  wa_funding : FundingRef; wa_needed : Z; wa_limit : Z; wa_spent : Z; wa_held : Z;
  wa_remaining : Z; wa_currency : string; wa_revision : string; wa_bounded : bool;
  wa_estimate : UsageEstimate
}.
Inductive UsageAdmitResult := Admitted_ (r : UsageReservation) | Denied_ (w : BudgetWait).

Definition nullif_empty (s : string) : option string :=
  if bool_decide (s = "") then None else Some s.
Definition texts_ok (l : list string) : bool := forallb (λ s, negb (contains_nul s)) l.
Definition funding_texts (f : FundingRef) : list string :=
  [f_kind f; f_id f; f_version f; f_model f; f_provider f].

(** Replay of an admission whose response was lost. *)
Definition admit_replay (req : UsageAdmitRequest) (r : Reservation) : res err UsageAdmitResult :=
  if negb (bool_decide (f_kind (rs_funding r) = f_kind (ua_funding req)
                        ∧ f_id (rs_funding r) = f_id (ua_funding req)))
     || negb (bool_decide (rs_status r = Held))
  then Err ErrUsageFactConflict
  else Ok (Admitted_ (mkUsageReservation (ua_fact_id req) (rs_reserved_minor r)
             (default "" (rs_currency r)) (rs_bounded r) (rs_status r))).

Definition new_reservation (now : Z) (req : UsageAdmitRequest) (card : option rateSnapshot)
    (reserved : Z) (bounded : bool) : Reservation :=
  mkReservation (ua_kind req) (ua_phase req) (nullif_empty (ua_turn_id req))
    (nullif_empty (ua_input_id req)) (ua_round req) (ua_funding req) reserved
    (card ≫= nullif_empty ∘ r_currency) bounded
    (est_input_tokens (ua_estimate req)) (est_output_bound (ua_estimate req))
    (r_input <$> card) (r_output <$> card) (card ≫= r_cached)
    (card ≫= nullif_empty ∘ r_revision) (ua_generation req) Held now None.

(** The hold is inserted under the persona. *)
Definition admit_insert (now : Z) (req : UsageAdmitRequest) (card : option rateSnapshot)
    (reserved : Z) (bounded : bool) : ptx UsageAdmitResult := λ row,
  if texts_ok ([ua_fact_id req; ua_kind req; ua_phase req; ua_turn_id req; ua_input_id req]
               ++ funding_texts (ua_funding req))
  then Ok (Admitted_ (mkUsageReservation (ua_fact_id req) reserved
                        (default "" (r_currency <$> card)) bounded Held),
           row <| ps_reservations ::=
                  <[ua_fact_id req := new_reservation now req card reserved bounded]> |>)
  else Err (dataErr (PgData "invalid byte sequence")).

(** The priced verdict of a new admission: the amount to reserve, or the
    wait. *)
Definition admit_verdict (req : UsageAdmitRequest) (db : DB)
    : res err (BudgetWait + (option rateSnapshot * Z * bool)) :=
  let f := ua_funding req in
  match budgetForFunding (f_kind f) (f_id f) db with
  | None => Ok (inr (None, 0, bool_decide (is_Some (est_output_bound (ua_estimate req)))))
  | Some b =>
      nb ← priceEstimate (ua_estimate req) (snapshot b);
      sh ← fundingSpend (f_kind f) (f_id f) (b_currency b) db;
      if budgetAdmits (b_limit_minor b) sh.1 sh.2 nb.1
      then Ok (inr (Some (snapshot b), nb.1, nb.2))
      else Ok (inl (mkBudgetWait f nb.1 (b_limit_minor b) sh.1 sh.2
                 (int64 (int64 (b_limit_minor b - sh.1) - sh.2)) (b_currency b)
                 (b_pricing_revision b) nb.2 (ua_estimate req)))
  end.

Definition AdmitUsage (now : Z) (p : string) (req : UsageAdmitRequest)
    : tx UsageAdmitResult :=
  if bool_decide (ua_fact_id req = "") || bool_decide (ua_kind req = "")
     || bool_decide (ua_phase req = "")
  then throw (badreq "fact_id, kind and phase are required")
  else
    fenced p (ua_generation req) (mret tt) ;;
    allowed ← gets (fundingAllowed p (ua_funding req));
    lift allowed ;;
    guard_or (texts_ok [ua_fact_id req]) (PgData "invalid byte sequence") ;;
    existing ← gets (λ db, db_personas db !! p ≫= λ row,
                           ps_reservations row !! ua_fact_id req);
    match existing with
    | Some r => lift (admit_replay req r)
    | None =>
        verdict ← gets (admit_verdict req);
        verdict ← lift verdict;
        match verdict with
        | inl w => mret (Denied_ w)
        | inr (card, reserved, bounded) =>
            with_persona p ErrGenerationFence (admit_insert now req card reserved bounded)
        end
    end.

(** ** Parked inputs *)

Definition pending_approval (inputID : string) (row : PersonaRow) : bool :=
  existsb (λ ka, bool_decide (ka.1.1 = inputID ∧ ap_status ka.2 = Pending))
    (map_to_list (ps_approvals row)).

(** [(EXTRACT(EPOCH FROM d) * 1000)::bigint] of an interval in
    microseconds: rounded to the nearest millisecond, halves away from
    zero. *)
Definition us_to_ms (d : Z) : Z := Z.sgn d * ((Z.abs d + 500) / 1000).

Definition resumed (now : Z) (i : Input) : Input :=
  i <| in_status := Queued |> <| in_claimed_generation := None |> <| in_turn_id := None |>
    <| in_not_before := None |>
    <| in_waited_ms ::= Z.add (match in_waiting_since i with
                               | Some t => us_to_ms (now - t)
                               | None => 0
                               end) |>
    <| in_waiting_since := None |>.

(** Requeue an input still parked that no approval holds; reports whether
    a row changed. *)
Definition requeue_parked (now : Z) (inputID : string) : ptx bool := λ row,
  match ps_inputs row !! inputID with
  | Some i =>
      if bool_decide (in_status i = Waiting) && negb (pending_approval inputID row)
      then Ok (true, upd_input inputID (resumed now) row)
      else Ok (false, row)
  | None => Ok (false, row)
  end.

(** One wait against the headroom in force now. *)
Definition resume_wait (now : Z) (room : fundingHeadroom) (w : string * BudgetWaitRow)
    : ptx bool :=
  match fit room (bw_estimate w.2) with
  | Err _ => mret false
  | Ok (true, _) =>
      modify (λ row, row <| ps_waits ::= delete w.1 |>) ;;
      requeue_parked now w.1
  | Ok (false, needed) =>
      modify (λ row, row <| ps_waits ::= alter (λ b, b <| bw_needed_minor := needed |>
               <| bw_currency := default "" (b_currency <$> h_budget room) |>) w.1 |>) ;;
      mret false
  end.

Definition waits_on (kind id : string) (row : PersonaRow) : list (string * BudgetWaitRow) :=
  filter (λ kw, bw_funding_kind kw.2 = kind ∧ bw_funding_id kw.2 = id)
    (map_to_list (ps_waits row)).
Definition resume_row (now : Z) (room : fundingHeadroom) (kind id : string) : ptx Z :=
  ws ← gets (waits_on kind id); for_count ws (resume_wait now room).

(** Run a persona transaction on every persona, adding up the counts. *)
Fixpoint run_personas (m : ptx Z) (l : list string) : tx Z :=
  match l with
  | [] => mret 0
  | p :: l =>
      n ← with_persona p ErrPersonaNotFound m;
      n' ← run_personas m l;
      mret (n + n')
  end.
Definition for_personas (m : ptx Z) : tx Z := λ db,
  run_personas m (fst <$> map_to_list (db_personas db)) db.

Definition fundingOwnerHumans (kind id : string) (db : DB) : res err (list string) :=
  if bool_decide (kind = "connection") then
    match pg_uuid id with
    | None => Err (PgData "invalid input syntax for type uuid")
    | Some c => Ok (option_list (db_connections db !! c))
    end
  else if bool_decide (kind = "sumi") then
    match db_grants db !! id with
    | Some g => Ok (if bool_decide (g_revoked_at g = None) then [g_human_id g] else [])
    | None => Ok []
    end
  else Ok [].

(** Memory chunks shelved on a budget wait become eligible again. *)
Definition unpark_chunk (c : MemoryChunk) : MemoryChunk :=
  if bool_decide (mc_status c = ChSealed)
     && match mc_last_error c with Some e => HasPrefix e "budget-wait:" | None => false end
  then c <| mc_not_before := None |> else c.
Definition unpark_chunks (humans : list string) : ptx Z := λ row,
  if match p_human_id (ps_persona row) with
     | Some h => bool_decide (h ∈ humans)
     | None => false
     end
  then Ok (0, row <| ps_chunks ::= fmap unpark_chunk |>)
  else Ok (0, row).

Definition resumeFundingWaitsTx (now : Z) (kind id : string) : tx Z :=
  room ← gets (get_fundingHeadroom kind id);
  room ← lift room;
  n ← for_personas (resume_row now room kind id);
  humans ← gets (fundingOwnerHumans kind id);
  humans ← lift humans;
  _ ← for_personas (unpark_chunks humans);
  mret n.

Definition ResumeWaitsForFunding := resumeFundingWaitsTx.

(** [ResumeWaitsForHuman]: every wait of the human's personas goes. *)
Definition release_waits (now : Z) : ptx Z :=
  ws ← gets (λ row, fst <$> map_to_list (ps_waits row));
  modify (λ row, row <| ps_waits := ∅ |>) ;;
  for_count ws (requeue_parked now).
Definition release_human (now : Z) (humanID : string) : ptx Z := λ row,
  if bool_decide (p_human_id (ps_persona row) = Some humanID) then release_waits now row
  else Ok (0, row).

Definition ResumeWaitsForHuman (now : Z) (humanID : string) : tx Z :=
  n ← for_personas (release_human now humanID);
  _ ← for_personas (unpark_chunks [humanID]);
  mret n.

(** Whether the persona's next attempt would spend another source. *)
Definition intent_kind (intent : option json) : string :=
  match intent with Some (JObj m) => get_str m "kind" | _ => "" end.

Definition current_funding (h : string) (intent : option json) (db : DB)
    : res err (option (string * string)) :=
  let sel := db_selections db !! h in
  let k := intent_kind intent in
  if negb (bool_decide (k = ""))
     && negb (bool_decide (sel_kind <$> sel = Some k)) then Ok None
  else match sel with
  | None => Ok (Some ("operator", "env"))
  | Some s =>
      if bool_decide (sel_kind s = "api") then
        match pg_uuid (sel_connection_id s) with
        | None => Err (PgData "invalid input syntax for type uuid")
        | Some c =>
            if bool_decide (db_connections db !! c = Some h)
            then Ok (Some ("connection", sel_connection_id s)) else Ok None
        end
      else Ok None
  end.

Definition waitFundingStale (p : string) (f : FundingRef) (db : DB) : res err bool :=
  if negb (bool_decide (f_kind f = "connection" ∨ f_kind f = "operator")) then Ok false
  else match db_personas db !! p with
  | None => Err (PgError "no rows")
  | Some row =>
      match p_human_id (ps_persona row) with
      | None => Ok false
      | Some h =>
          cur ← current_funding h (p_model_intent (ps_persona row)) db;
          match cur with
          | None => Ok false
          | Some (k, i) => Ok (negb (bool_decide (k = f_kind f ∧ i = f_id f)))
          end
      end
  end.

(** ** Recorded facts *)

Record UsageRecordRequest := mkRecord {
  ud_fact_id : string;
  ud_kind : string;
  ud_phase : string;
  ud_turn_id : string;
  ud_input_id : string;
  ud_round : Z;
  ud_funding : FundingRef;
  ud_status : string;
  ud_input_tokens : option Z;
  ud_output_tokens : option Z;
  ud_cached_tokens : option Z;
  ud_quantities : option obj
}.

Definition record_status (s : string) : option FactStatus :=
  if bool_decide (s = "reported") then Some Reported
  else if bool_decide (s = "unknown") then Some Unknown
  else if bool_decide (s = "not_sent") then Some NotSent else None.

Definition negative (v : option Z) : bool :=
  match v with Some n => n <? 0 | None => false end.
Definition present (v : option Z) : bool := bool_decide (is_Some v).

Definition validateRecordTokens (req : UsageRecordRequest) (st : FactStatus) : res err unit :=
  if existsb negative [ud_input_tokens req; ud_output_tokens req; ud_cached_tokens req]
  then Err (badreq "token quantities cannot be negative")
  else match st with
  | Reported =>
      if present (ud_input_tokens req) && present (ud_output_tokens req) then Ok tt
      else Err (badreq "a 'reported' fact needs input_tokens and output_tokens; record an incomplete report as 'unknown'")
  | NotSent =>
      if present (ud_input_tokens req) || present (ud_output_tokens req)
         || present (ud_cached_tokens req)
      then Err (badreq "a 'not_sent' fact cannot carry token usage") else Ok tt
  | _ => Ok tt
  end.

(** The validation head of [RecordUsage]. *)
Definition validateRecord (req : UsageRecordRequest) : res err FactStatus :=
  if bool_decide (ud_fact_id req = "") || bool_decide (ud_kind req = "")
     || bool_decide (ud_phase req = "")
  then Err (badreq "fact_id, kind and phase are required")
  else match record_status (ud_status req) with
  | None => Err (badreq "status must be reported, unknown or not_sent")
  | Some st =>
      if hasNUL (JObj (default ∅ (ud_quantities req)))
      then Err (badreq "quantities cannot contain NUL")
      else match validateRecordTokens req st with
      | Err e => Err e
      | Ok _ => Ok st
      end
  end.

(** The admission's rate card, when the hold was priced. *)
Definition reservation_card (r : Reservation) : option rateSnapshot :=
  match rs_currency r, rs_rate_input r, rs_rate_output r with
  | Some c, Some i, Some o =>
      Some (mkRates c i o (rs_rate_cached r) (default "" (rs_pricing_revision r)))
  | _, _, _ => None
  end.

(** The four cost columns of a fact. *)
Record Cost := mkCost {
  c_minor : option Z; c_currency : option string; c_basis : option string;
  c_revision : option string
}.
Definition unpriced : Cost := mkCost None None None None.

Definition priceRecord (req : UsageRecordRequest) (st : FactStatus)
    (card snap : option rateSnapshot) (reserved : option Z) : res err Cost :=
  match st with
  | Reported =>
      match card with
      | None => Ok unpriced
      | Some card =>
          priced ← priceReported st (ud_input_tokens req) (ud_output_tokens req)
                     (ud_cached_tokens req) card;
          match priced with
          | None => Ok unpriced
          | Some c => Ok (mkCost (Some c) (Some (r_currency card)) (Some "configured_rates")
                            (Some (r_revision card)))
          end
      end
  | Unknown =>
      match reserved, snap with
      | Some r, Some snap =>
          if bool_decide (r_currency snap = "") then Ok unpriced
          else Ok (mkCost (Some r) (Some (r_currency snap)) (Some "admission_estimate")
                     (Some (r_revision snap)))
      | _, _ => Ok unpriced
      end
  | _ => Ok unpriced
  end.

Definition sameCallIdentity (f : UsageFact) (req : UsageRecordRequest) : bool :=
  bool_decide (uf_kind f = ud_kind req) && bool_decide (uf_phase f = ud_phase req)
  && bool_decide (default "" (uf_turn_id f) = ud_turn_id req)
  && bool_decide (default "" (uf_input_id f) = ud_input_id req)
  && bool_decide (default 0 (uf_round f) = ud_round req)
  && bool_decide (f_kind (uf_funding f) = f_kind (ud_funding req))
  && bool_decide (f_id (uf_funding f) = f_id (ud_funding req)).

Definition sameTokens (a b : option Z) : bool := bool_decide (a = b).
Definition factMatches (f : UsageFact) (req : UsageRecordRequest) (st : FactStatus) : bool :=
  sameCallIdentity f req && bool_decide (uf_status f = st)
  && sameTokens (uf_input_tokens f) (ud_input_tokens req)
  && sameTokens (uf_output_tokens f) (ud_output_tokens req)
  && sameTokens (uf_cached_tokens f) (ud_cached_tokens req).
Definition agree (stored supplied : option Z) : bool :=
  negb (present supplied) || sameTokens stored supplied.
Definition suppliedAgree (f : UsageFact) (req : UsageRecordRequest) : bool :=
  agree (uf_input_tokens f) (ud_input_tokens req)
  && agree (uf_output_tokens f) (ud_output_tokens req)
  && agree (uf_cached_tokens f) (ud_cached_tokens req).

(** The supersession lattice: replay, upgrade or conflict. *)
Definition redelivery (f : UsageFact) (req : UsageRecordRequest) (st : FactStatus)
    : res err bool :=
  if negb (sameCallIdentity f req) then Err ErrUsageFactConflict
  else if factMatches f req st then Ok false
  else if bool_decide (uf_status f = Reported) && bool_decide (st = Unknown)
          && suppliedAgree f req then Ok false
  else if bool_decide (uf_status f = Unrecorded) then Ok true
  else if bool_decide (uf_status f = Unknown) && bool_decide (st = Reported) then Ok true
  else Err ErrUsageFactConflict.

Definition new_fact (now : Z) (req : UsageRecordRequest) (st : FactStatus) (c : Cost)
    : UsageFact :=
  mkFact (ud_kind req) (ud_phase req) (nullif_empty (ud_turn_id req))
    (nullif_empty (ud_input_id req)) (Some (ud_round req)) (ud_funding req) st
    (ud_input_tokens req) (ud_output_tokens req) (ud_cached_tokens req)
    (default ∅ (ud_quantities req)) (c_minor c) (c_currency c) (c_basis c) (c_revision c) now.
Definition upgraded_fact (req : UsageRecordRequest) (st : FactStatus) (c : Cost)
    (f : UsageFact) : UsageFact :=
  f <| uf_status := st |> <| uf_input_tokens := ud_input_tokens req |>
    <| uf_output_tokens := ud_output_tokens req |>
    <| uf_cached_tokens := ud_cached_tokens req |>
    <| uf_quantities := default ∅ (ud_quantities req) |>
    <| uf_cost_minor := c_minor c |> <| uf_currency := c_currency c |>
    <| uf_cost_basis := c_basis c |> <| uf_pricing_revision := c_revision c |>.

Definition record_texts_ok (req : UsageRecordRequest) : bool :=
  texts_ok ([ud_fact_id req; ud_kind req; ud_phase req; ud_turn_id req; ud_input_id req]
            ++ funding_texts (ud_funding req))
  && jsonb_ok (JObj (default ∅ (ud_quantities req))).

Definition settle (now : Z) (st : ReservationStatus) (r : Reservation) : Reservation :=
  r <| rs_status := st |> <| rs_settled_at := Some now |>.
Definition settle_held (now : Z) (st : ReservationStatus) (r : Reservation) : Reservation :=
  if bool_decide (rs_status r = Held) then settle now st r else r.

(** The first record of a call: the fact lands and the hold settles, or is
    released when the request never left. *)
Definition record_new (now : Z) (req : UsageRecordRequest) (st : FactStatus) (c : Cost)
    : ptx UsageFact := λ row,
  if record_texts_ok req then
    let f := new_fact now req st c in
    let rst := if bool_decide (st = NotSent) then Released else Settled in
    Ok (f, row <| ps_facts ::= <[ud_fact_id req := f]> |>
               <| ps_reservations ::= alter (settle_held now rst) (ud_fact_id req) |>)
  else Err (dataErr (PgData "invalid byte sequence")).

Definition record_upgrade (now : Z) (req : UsageRecordRequest) (st : FactStatus) (c : Cost)
    (f : UsageFact) : ptx UsageFact := λ row,
  let f' := upgraded_fact req st c f in
  if jsonb_ok (JObj (default ∅ (ud_quantities req))) then
    let row := row <| ps_facts ::= <[ud_fact_id req := f']> |> in
    Ok (f', if bool_decide (st = NotSent)
            then row <| ps_reservations ::= alter (settle now Released) (ud_fact_id req) |>
            else row)
  else Err (PgData "unsupported Unicode escape sequence").

(** The payer of a record and the hold it was admitted under. *)
Definition record_payer (p : string) (req : UsageRecordRequest) (db : DB)
    : res err (option Reservation) :=
  match db_personas db !! p ≫= λ row, ps_reservations row !! ud_fact_id req with
  | Some r =>
      if bool_decide (f_kind (rs_funding r) = f_kind (ud_funding req)
                      ∧ f_id (rs_funding r) = f_id (ud_funding req))
      then Ok (Some r) else Err ErrUsageFactConflict
  | None =>
      match fundingAllowed p (ud_funding req) db with
      | Ok _ => Ok None
      | Err e => Err e
      end
  end.

Definition record_cost (req : UsageRecordRequest) (st : FactStatus)
    (r : option Reservation) (db : DB) : res err Cost :=
  let snap := r ≫= reservation_card in
  let card := match snap with
              | Some s => Some s
              | None => snapshot <$> budgetForFunding (f_kind (ud_funding req))
                                       (f_id (ud_funding req)) db
              end in
  priceRecord req st card snap (rs_reserved_minor <$> r).

Definition RecordUsage (now : Z) (p : string) (req : UsageRecordRequest)
    : tx (UsageFact * bool) :=
  st ← lift (validateRecord req);
  guard_or (texts_ok [ud_fact_id req]) (PgData "invalid byte sequence") ;;
  payer ← gets (record_payer p req);
  r ← lift payer;
  cost ← gets (record_cost req st r);
  c ← lift cost;
  existing ← gets (λ db, db_personas db !! p ≫= λ row, ps_facts row !! ud_fact_id req);
  match existing with
  | Some f =>
      guard_or (record_texts_ok req) (dataErr (PgData "invalid byte sequence")) ;;
      upgrade ← lift (redelivery f req st);
      if upgrade : bool then
        f' ← with_persona p ErrPersonaNotFound (record_upgrade now req st c f);
        _ ← resumeFundingWaitsTx now (f_kind (uf_funding f)) (f_id (uf_funding f));
        mret (f', false)
      else mret (f, false)
  | None =>
      f ← with_persona p (PgError "usage_facts_persona_id_fkey") (record_new now req st c);
      (match r with
       | Some r => _ ← resumeFundingWaitsTx now (f_kind (rs_funding r)) (f_id (rs_funding r));
                   mret tt
       | None => mret tt
       end) ;;
      mret (f, true)
  end.

(** ** Reconciliation *)

(** Which holds: all, those of a turn, those of older generations. *)
Definition reconciled (turnID : string) (below : option Z) (r : Reservation) : bool :=
  bool_decide (rs_status r = Held)
  && (bool_decide (turnID = "") || bool_decide (rs_turn_id r = Some turnID))
  && match below with Some g => rs_generation r <? g | None => true end.

Definition unrecorded_fact (now : Z) (r : Reservation) : UsageFact :=
  mkFact (rs_kind r) (rs_phase r) (rs_turn_id r) (rs_input_id r) (Some (rs_round r))
    (rs_funding r) Unrecorded None None None ∅
    (match rs_currency r with Some _ => Some (rs_reserved_minor r) | None => None end)
    (rs_currency r)
    (match rs_currency r with Some _ => Some "admission_estimate" | None => None end)
    (rs_pricing_revision r) now.

Definition reconcileHeldReservations (now : Z) (turnID : string) (below : option Z)
    : ptx unit := λ row,
  let hit := filter (λ kr, reconciled turnID below kr.2 = true) (ps_reservations row) in
  Ok (tt, row <| ps_facts := ps_facts row ∪ (unrecorded_fact now <$> hit) |>
              <| ps_reservations := (settle now Settled <$> hit) ∪ ps_reservations row |>).

Definition ReconcileRetiredReservations (now : Z) : ptx unit :=
  reconcileHeldReservations now "" None.

(** ** Budgets *)

Definition budget_ok (b : UsageBudget) : bool :=
  negb ((b_limit_minor b <? 0) || negb (Nat.eqb (String.length (b_currency b)) 3)
        || (b_rate_input b <? 0) || (b_rate_output b <? 0) || negative (b_rate_cached b)).

(** The upsert commits on its own; the resume pass is a second
    transaction. *)
Definition install_budget (now : Z) (kind id : string) (b : UsageBudget) : tx unit :=
  if budget_ok b then
    guard_or (texts_ok [kind; id; b_currency b; b_pricing_revision b])
      (dataErr (PgData "invalid byte sequence")) ;;
    modify (λ db, db <| db_budgets ::= <[(kind, id) :=
      mkBudget (b_limit_minor b) (b_currency b) (b_rate_input b) (b_rate_output b)
        (b_rate_cached b) (b_pricing_revision b) now]> |>)
  else throw (badreq "limit, 3-letter currency and non-negative rates are required").

Definition then_resume (now : Z) (kind id : string) (m : tx unit) : call err DB unit :=
  then_call (commit m) (λ _,
  then_call (commit (ResumeWaitsForFunding now kind id)) (λ _, ret_call (Ok tt))).

Definition SetBudget (now : Z) (humanID kind id : string) (b : UsageBudget)
    : call err DB unit :=
  then_call (λ db, (db, ownsFunding humanID kind id db)) (λ _,
  then_resume now kind id (install_budget now kind id b)).

Definition admin_kind (kind : string) : bool :=
  bool_decide (kind = "connection" ∨ kind = "sumi" ∨ kind = "operator").
Definition bad_admin_kind : err :=
  badreq "funding kind must be connection, sumi or operator".

Definition SetBudgetAdmin (now : Z) (kind id : string) (b : UsageBudget)
    : call err DB unit :=
  if admin_kind kind then then_resume now kind id (install_budget now kind id b)
  else ret_call (Err bad_admin_kind).

Definition clearBudget (now : Z) (kind id : string) : call err DB unit :=
  then_resume now kind id
    (b ← gets (budgetForFunding kind id);
     guard_or (bool_decide (is_Some b)) ErrFundingNotFound ;;
     modify (λ db, db <| db_budgets ::= delete (kind, id) |>)).

Definition ClearBudget (now : Z) (humanID kind id : string) : call err DB unit :=
  then_call (λ db, (db, ownsFunding humanID kind id db)) (λ _, clearBudget now kind id).
Definition ClearBudgetAdmin (now : Z) (kind id : string) : call err DB unit :=
  if admin_kind kind then clearBudget now kind id else ret_call (Err bad_admin_kind).

Definition BudgetView (kind id : string) (db : DB) : res err (option (UsageBudget * Z * Z * Z)) :=
  match budgetForFunding kind id db with
  | None => Ok None
  | Some b =>
      sh ← fundingSpend kind id (b_currency b) db;
      Ok (Some (b, sh.1, sh.2, int64 (int64 (b_limit_minor b - sh.1) - sh.2)))
  end.
End usage.
