(* ===== verification/Approvals.v ===== *)
(** * Tool authority and human approvals

    [approvals.go]: which tools are state-internal and under which authority
    they act ([toolAuthority]), the argument checks made before a human is
    asked ([validateToolRequest]), the identities of an action and of its
    approval, and the one-shot human decision ([ResolveApproval]). *)

From Stdlib Require Import Ascii ZArith QArith Qcanon Lia.
From stdpp Require Import sorting.
From S2P Require Import Prelude Json State Personas Inputs Journal Usage.
Local Open Scope string_scope.
Local Open Scope list_scope.
Local Open Scope Z_scope.
Set Warnings "-register-all".

(** ** The registry of internal tools *)

Record toolInfo := mkTool {
  ti_internal : bool; ti_requiresApproval : bool; ti_elevatedOnly : bool; ti_readOnly : bool
}.
Definition ordinary : toolInfo := mkTool true false false false.
Definition reading : toolInfo := mkTool true false false true.

Definition toolAuthority : list (string * toolInfo) :=
  [("schedule.set", ordinary); ("journal.note", ordinary); ("memory.resume", ordinary);
   ("conversation_history", reading);
   ("job.start", ordinary); ("job.status", reading); ("job.cancel", ordinary);
   ("script.start", ordinary);
   ("terminal.open", ordinary); ("terminal.list", reading); ("terminal.read", reading);
   ("terminal.inputs", reading); ("terminal.write", ordinary); ("terminal.resize", ordinary);
   ("terminal.signal", ordinary); ("terminal.eof", ordinary); ("terminal.close", ordinary);
   ("message.send", mkTool true false true false)].

Definition tool_info (tool : string) : option toolInfo :=
  snd <$> List.find (λ kv, bool_decide (kv.1 = tool)) toolAuthority.

Definition isInternalTool (tool : string) : bool :=
  match tool_info tool with Some i => ti_internal i | None => false end.
Definition elevatedOnlyTool (tool : string) : bool :=
  match tool_info tool with Some i => ti_elevatedOnly i | None => false end.

Definition approvalRequirement (tool route : string) : string :=
  if match tool_info tool with Some i => ti_requiresApproval i | None => false end
  then "intrinsic"
  else if bool_decide (route = "elevated") then "route" else "".

(** ** Argument checks *)

(** [uuidv7Re]: one character class per position. *)
Definition hex_lower (c : Ascii.ascii) : bool :=
  let n := Z.of_nat (Ascii.nat_of_ascii c) in
  ((48 <=? n) && (n <=? 57)) || ((97 <=? n) && (n <=? 102)).
Definition is_char (d c : Ascii.ascii) : bool := Ascii.eqb c d.
Definition variant_char (c : Ascii.ascii) : bool :=
  existsb (Ascii.eqb c) ["8"; "9"; "a"; "b"]%char.
Definition uuidv7_classes : list (Ascii.ascii → bool) :=
  repeat hex_lower 8 ++ [is_char "-"] ++ repeat hex_lower 4 ++ [is_char "-"; is_char "7"]
  ++ repeat hex_lower 3 ++ [is_char "-"; variant_char] ++ repeat hex_lower 3
  ++ [is_char "-"] ++ repeat hex_lower 12.
Fixpoint match_classes (l : list (Ascii.ascii → bool)) (s : string) : bool :=
  match l, s with
  | [], EmptyString => true
  | f :: l, String c s => f c && match_classes l s
  | _, _ => false
  end.
Definition uuidv7Re (s : string) : bool := match_classes uuidv7_classes s.

Definition terminalSignalAllowlist : list string :=
  ["INT"; "TERM"; "HUP"; "QUIT"; "KILL"; "TSTP"; "USR1"; "USR2"].

(** A decoded number field of [memory.resume]. *)
Definition resume_number (request : obj) (key : string) (max : Z) (required : bool)
    : res err Z :=
  match request !! key, required with
  | None, false => Ok 0
  | v, _ =>
      let n := match v with
               | None | Some JNull => Some 0
               | Some (JNum q) => num_int q
               | _ => None
               end in
      match n with
      | Some n =>
          if (n <? 0) || (max <? n) || (required && (n =? 0))
          then Err (badreq ("memory.resume invalid " +:+ key)) else Ok n
      | None => Err (badreq ("memory.resume invalid " +:+ key))
      end
  end.

Record memoryResumeRequest := mkResume {
  mr_chunk : Z; mr_mode : string; mr_rounds : Z; mr_tokens : Z
}.
Definition resume_keys : list string :=
  ["chunk_seq"; "mode"; "additional_rounds"; "additional_tokens"].

Definition parseMemoryResumeRequest (request : obj) : res err memoryResumeRequest :=
  chunk ← resume_number request "chunk_seq" (2 ^ 53 - 1) true;
  rounds ← resume_number request "additional_rounds" 128 true;
  tokens ← resume_number request "additional_tokens" 100000000 false;
  let mode := get_str request "mode" in
  if bool_decide (mode = "resume" ∨ mode = "rebranch") then
    match List.find (λ k, negb (bool_decide (k ∈ resume_keys)))
            (fst <$> map_to_list request) with
    | Some k => Err (badreq ("memory.resume unexpected field " +:+ k))
    | None => Ok (mkResume chunk mode rounds tokens)
    end
  else Err (badreq "memory.resume requires resume or rebranch").

Definition check (ok : bool) (text : string) : res err unit :=
  if ok then Ok tt else Err (badreq text).

Definition miss_policy (request : obj) : string :=
  let m := get_str request "miss_policy" in if bool_decide (m = "") then "fire_late" else m.

Definition num_between (lo hi : Z) (v : option json) : bool :=
  match v with
  | Some (JNum q) => Qle_bool (inject_Z lo) q && Qle_bool q (inject_Z hi)
  | _ => false
  end.

Section validate.
Context `{GL : !GoLib}.

Definition validate_schedule (request : obj) : res err unit :=
  match time_Parse (get_str request "wake_at") with
  | None => Err (badreq "schedule.set requires RFC3339 wake_at")
  | Some _ =>
      check (bool_decide (miss_policy request ∈
               ["fire_late"; "coalesce"; "expire"; "report_missed"]))
        "schedule.set miss_policy must be fire_late, coalesce, expire, or report_missed"
  end.

Definition terminal_tools : list string :=
  ["terminal.read"; "terminal.inputs"; "terminal.write"; "terminal.resize";
   "terminal.signal"; "terminal.eof"; "terminal.close"].

Definition validate_terminal (tool : string) (request : obj) : res err unit :=
  if negb (uuidv7Re (get_str request "session_id"))
  then Err (badreq (tool +:+ " requires a session_id"))
  else if bool_decide (tool = "terminal.write") then
    let data := get_str request "data" in
    if bool_decide (data = "") && negb (get_bool request "eof")
    then Err (badreq "terminal.write requires data or eof")
    else check (String.length data <=? 65536) "terminal.write data exceeds 64 KiB"
  else if bool_decide (tool = "terminal.resize") then
    check (num_between 2 1000 (request !! "cols") && num_between 2 500 (request !! "rows"))
      "terminal.resize requires cols 2..1000 and rows 2..500"
  else if bool_decide (tool = "terminal.signal") then
    check (bool_decide (get_str request "signal" ∈ terminalSignalAllowlist))
      "terminal.signal not permitted"
  else Ok tt.

Definition required (request : obj) (key text : string) : res err unit :=
  check (negb (bool_decide (get_str request key = ""))) text.

Definition validateToolRequest (tool : string) (request : obj) : res err unit :=
  if bool_decide (tool = "schedule.set") then validate_schedule request
  else if bool_decide (tool = "memory.resume") then
    match parseMemoryResumeRequest request with Ok _ => Ok tt | Err e => Err e end
  else if bool_decide (tool = "journal.note") then
    required request "text" "journal.note requires text"
  else if bool_decide (tool = "message.send") then
    required request "text" "message.send requires text"
  else if bool_decide (tool = "script.start") then
    required request "code"
      "script.start requires code (a JavaScript module exporting run(input, sumi))"
  else if bool_decide (tool = "terminal.open") then
    check (String.length (get_str request "name") <=? 80) "terminal.open name too long"
  else if bool_decide (tool ∈ terminal_tools) then validate_terminal tool request
  else if bool_decide (tool = "messaging.send") then
    required request "place_id" "messaging.send requires place_id" ≫= λ _,
    required request "content" "messaging.send requires content"
  else if bool_decide (tool = "workspace_invitation.list") then
    match request !! "cursor" with
    | None | Some JNull | Some (JStr _) => Ok tt
    | _ => Err (badreq "workspace_invitation.list cursor must be a string")
    end
  else if bool_decide (tool = "workspace_invitation.accept") then
    required request "invitation_id" "workspace_invitation.accept requires invitation_id"
  else Ok tt.

(** ** Identities *)

Definition nul : string := String Ascii.zero EmptyString.

Definition ActionDigest (tool route : string) (request : obj) : string :=
  sha256_hex ("sumi.core.tool-action.v1" +:+ nul +:+ tool +:+ nul +:+ route +:+ nul
              +:+ json_Marshal (JObj request)).

(** The first 16 bytes of the digest are 32 hex digits. *)
Definition approvalID (p inputID : string) (callIndex : Z) : string :=
  "appr-" +:+ str_take 32 (sha256_hex ("sumi.core.approval.v1" +:+ nul +:+ p +:+ nul
                                       +:+ inputID +:+ nul +:+ itoa callIndex)).
End validate.

Definition approvalForCall (inputID : string) (callIndex : Z) (row : PersonaRow)
    : option ToolApproval :=
  ps_approvals row !! (inputID, callIndex).

(** The approval with an id, with its key. *)
Definition approval_by_id (apprID : string) (row : PersonaRow)
    : option ((string * Z) * ToolApproval) :=
  List.find (λ ka, bool_decide (ap_id ka.2 = apprID)) (map_to_list (ps_approvals row)).

(** A transfer across authority: a grant decided for another human and not
    yet spent is pending again, the decision kept as its provenance. *)
Definition repend (a : ToolApproval) : ToolApproval :=
  if bool_decide (ap_status a = Approved) && bool_decide (ap_consumed_at a = None) then
    a <| ap_prior_decision := ap_decision a |>
      <| ap_prior_decided_by_kind := ap_decided_by_kind a |>
      <| ap_prior_decided_by_id := ap_decided_by_id a |>
      <| ap_prior_decided_at := ap_decided_at a |>
      <| ap_status := Pending |> <| ap_decision := None |> <| ap_decision_id := None |>
      <| ap_decided_by_kind := None |> <| ap_decided_by_id := None |>
      <| ap_decided_at := None |> <| ap_provenance := None |>
  else a.
Definition repend_grants (row : PersonaRow) : PersonaRow :=
  row <| ps_approvals ::= fmap repend |>.

(** ** The human's decision *)

Record ApprovalDecision := mkApprovalDecision {
  ad_decision : string; ad_decision_id : string;
  ad_decided_by_kind : string; ad_decided_by_id : string
}.

Definition decision_ok (req : ApprovalDecision) : res err unit :=
  if negb (bool_decide (ad_decision req = "approve_once" ∨ ad_decision req = "deny_once"))
  then Err (badreq "decision must be approve_once or deny_once")
  else if bool_decide (ad_decision_id req = "") then Err (badreq "decision_id required")
  else if negb (bool_decide (ad_decided_by_kind req = "human"))
          || bool_decide (ad_decided_by_id req = "")
  then Err ErrApprovalDecidedBy
  else Ok tt.

Definition decider_ok (req : ApprovalDecision) (p : Persona) : res err unit :=
  if negb (bool_decide (p_authority p = Active))
  then Err (inactiveAuthorityError (authority_text (p_authority p)))
  else match p_human_id p with
  | None => Err ErrApprovalForbidden
  | Some h => if bool_decide (h = ad_decided_by_id req) then Ok tt else Err ErrApprovalForbidden
  end.

Definition same_decision (req : ApprovalDecision) (a : ToolApproval) : bool :=
  bool_decide (ap_decision a = Some (ad_decision req))
  && bool_decide (ap_decision_id a = Some (ad_decision_id req))
  && bool_decide (ap_decided_by_kind a = Some (ad_decided_by_kind req))
  && bool_decide (ap_decided_by_id a = Some (ad_decided_by_id req)).

Definition decide_approval (now : Z) (req : ApprovalDecision) (a : ToolApproval) : ToolApproval :=
  let approve := bool_decide (ad_decision req = "approve_once") in
  a <| ap_status := if approve then Approved else Denied |>
    <| ap_decision := Some (ad_decision req) |>
    <| ap_decision_id := Some (ad_decision_id req) |>
    <| ap_decided_by_kind := Some (ad_decided_by_kind req) |>
    <| ap_decided_by_id := Some (ad_decided_by_id req) |>
    <| ap_decided_at := Some now |>
    <| ap_provenance := if approve then Some "agent_own_with_human_consent" else None |>.

Definition denied_response (req : ApprovalDecision) (a : ToolApproval) : obj :=
  list_to_map
    [("error", JStr "denied");
     ("denial", JObj (list_to_map
        [("approval_id", JStr (ap_id a)); ("decision", JStr (ad_decision req));
         ("decided_by_kind", JStr (ad_decided_by_kind req));
         ("decided_by_id", JStr (ad_decided_by_id req))]))].

(** A denial finalizes the parked operation. *)
Definition deny_op (now : Z) (resp : obj) (o : Operation) : Operation :=
  if bool_decide (op_status o = OpAwaitingApproval)
  then o <| op_status := OpFailed |> <| op_completed_at := Some now |>
         <| op_response := Some resp |>
  else o.

Definition decided_event (req : ApprovalDecision) (a : ToolApproval) : EventInput :=
  mkEventInput "approval_decided" (list_to_map
    [("approval_id", JStr (ap_id a)); ("input_id", JStr (ap_input_id a));
     ("call_index", jint (ap_call_index a)); ("tool", JStr (ap_tool a));
     ("route", JStr (ap_route a)); ("decision", JStr (ad_decision req));
     ("decided_by_kind", JStr (ad_decided_by_kind req));
     ("decided_by_id", JStr (ad_decided_by_id req))]).

Definition requeue_waiting (now : Z) (i : Input) : Input :=
  if bool_decide (in_status i = Waiting) then resumed now i else i.

Definition resolve_pending (now : Z) (req : ApprovalDecision) (k : string * Z)
    (a : ToolApproval) : ptx ToolApproval :=
  let a' := decide_approval now req a in
  guard_or (texts_ok [ad_decision_id req; ad_decided_by_id req])
    (PgData "invalid byte sequence") ;;
  modify (λ row, row <| ps_approvals ::= <[k := a']> |>) ;;
  (if bool_decide (ad_decision req = "deny_once")
   then modify (upd_op (ap_operation_id a) (deny_op now (denied_response req a)))
   else mret tt) ;;
  appendEventsTx now (ap_turn_id a) [decided_event req a'] ;;
  modify (upd_input (ap_input_id a) (requeue_waiting now)) ;;
  mret a'.

Definition resolve_tx (now : Z) (apprID : string) (req : ApprovalDecision)
    : ptx ToolApproval :=
  per ← gets ps_persona;
  lift (decider_ok req per) ;;
  guard_or (texts_ok [apprID]) (PgData "invalid byte sequence") ;;
  found ← gets (approval_by_id apprID);
  match found with
  | None => throw ErrApprovalNotFound
  | Some (k, a) =>
      if bool_decide (ap_status a = Pending) then resolve_pending now req k a
      else if same_decision req a then mret a else throw ErrApprovalConflict
  end.

Definition ResolveApproval (now : Z) (p apprID : string) (req : ApprovalDecision)
    : tx ToolApproval :=
  lift (decision_ok req) ;;
  with_persona p ErrPersonaNotFound (resolve_tx now apprID req).

(** ** Reading approvals *)

(** The lowest call index among the input's approvals satisfying [f]. *)
Fixpoint lowest_call (f : (string * Z) * ToolApproval → bool)
    (l : list ((string * Z) * ToolApproval)) : option ((string * Z) * ToolApproval) :=
  match l with
  | [] => None
  | ka :: l =>
      match lowest_call f l with
      | Some kb => if f ka && (ka.1.2 <=? kb.1.2) then Some ka else Some kb
      | None => if f ka then Some ka else None
      end
  end.

Definition deniedIdenticalCall (inputID tool : string) (request : obj) (row : PersonaRow)
    : option ToolApproval :=
  snd <$> lowest_call (λ ka, bool_decide (ka.1.1 = inputID) && bool_decide (ap_tool ka.2 = tool)
                        && bool_decide (ap_request ka.2 = request)
                        && bool_decide (ap_status ka.2 = Denied))
            (map_to_list (ps_approvals row)).

Definition opt_str (k : string) (v : option string) : list (string * json) :=
  match v with Some s => [(k, JStr s)] | None => [] end.
Definition denialResponse (a : ToolApproval) : obj :=
  list_to_map
    [("error", JStr "denied");
     ("denial", JObj (list_to_map
        ([("approval_id", JStr (ap_id a))] ++ opt_str "decision" (ap_decision a)
         ++ opt_str "decided_by_kind" (ap_decided_by_kind a)
         ++ opt_str "decided_by_id" (ap_decided_by_id a))))].

(** In call order. *)
Definition call_le (a b : (string * Z) * ToolApproval) : Prop := a.1.2 ≤ b.1.2.
#[global] Instance call_le_dec : RelDecision call_le.
Proof. intros a b. unfold call_le. apply _. Defined.

Definition pendingApprovalsForInput (inputID : string) (row : PersonaRow) : list ToolApproval :=
  snd <$> merge_sort call_le
    (filter (λ ka, ka.1.1 = inputID ∧ ap_status ka.2 = Pending) (map_to_list (ps_approvals row))).
