(* ===== verification/MemoryBranch.v ===== *)
(** * Memory branches

    [memory_branch.go] and [memory_recovery.go]: the private branch that
    prepares one chunk's replacement.  [ClaimMemoryBranch] takes or resumes
    it over a frozen snapshot of the live context, [SaveMemoryBranch]
    checkpoints a round of it and settles it on a confirmed verdict,
    [resumeMemory] is the secretary's way out of a pause.

    A [json.RawMessage] is the value it denotes; numbers are taken to be
    written as [encoding/json] writes them.  [branches.state] is a text
    column: a cast to [jsonb] fails on a document with NUL in a string. *)

From Stdlib Require Import Ascii ZArith QArith Qcanon Lia.
From stdpp Require Import sorting.
From S2P Require Import Prelude Json MemoryState MemoryShape State Personas Memory Inputs Journal.
From S2P Require Import Usage Approvals.
Local Open Scope string_scope.
Local Open Scope list_scope.
Local Open Scope Z_scope.

(** ** Decoding a document into a struct *)

Definition lower (c : ascii) : ascii :=
  let n := Ascii.nat_of_ascii c in
  if ((65 <=? n) && (n <=? 90))%nat then Ascii.ascii_of_nat (n + 32) else c.
Fixpoint fold_name (s : string) : string :=
  match s with EmptyString => EmptyString | String c s => String (lower c) (fold_name s) end.

(** The value of a field: its exact name, or one that differs in case. *)
Definition struct_field (m : obj) (k : string) : option json :=
  match m !! k with
  | Some v => Some v
  | None => snd <$> List.find (λ kv, bool_decide (fold_name kv.1 = k)) (map_to_list m)
  end.
(** An absent or null field keeps its zero value; a value of another type is
    an error. *)
Definition dec_field {A} (d : json → option A) (zero : A) (m : obj) (k : string) : option A :=
  match struct_field m k with
  | None | Some JNull => Some zero
  | Some v => d v
  end.
Definition dec_ptr {A} (d : json → option A) (m : obj) (k : string) : option (option A) :=
  dec_field (λ v, Some <$> d v) None m k.
Definition dec_str (v : json) : option string := match v with JStr s => Some s | _ => None end.
Definition dec_int64 (v : json) : option Z :=
  match v with
  | JNum q => n ← num_int q; if (MinInt64 <=? n) && (n <=? MaxInt64) then Some n else None
  | _ => None
  end.
Definition dec_raws (v : json) : option (list json) := match v with JArr l => Some l | _ => None end.
(** A struct: null leaves it zero. *)
Definition dec_struct {A} (d : obj → option A) (v : json) : option A :=
  match v with JObj m => d m | JNull => d ∅ | _ => None end.

Record branchCandidate := mkCandidate { cd_text : string; cd_version : Z; cd_sha256 : string }.
Record branchReview := mkReview {
  rv_kind : string; rv_version : Z; rv_sha256 : string; rv_token : string; rv_opened_round : Z
}.
Record branchCheckpoint := mkCheckpoint {
  ck_status : string;
  ck_messages : list json;
  ck_candidate : option branchCandidate;
  ck_review : option branchReview;
  ck_final : option branchReview;
  ck_rounds : Z;
  ck_model_calls : Z;
  ck_tokens : Z;
  ck_retry_at : option Z;
  ck_pause_reason : option string;
  ck_issue : option branchIssue
}.
#[global] Instance candidate_dec : EqDecision branchCandidate.
Proof. solve_decision. Defined.
#[global] Instance review_dec : EqDecision branchReview.
Proof. solve_decision. Defined.

Definition no_checkpoint : branchCheckpoint := mkCheckpoint "" [] None None None 0 0 0 None None None.

Section branches.
Context `{GL : !GoLib}.

Definition dec_candidate : json → option branchCandidate := dec_struct (λ m,
  text ← dec_field dec_str "" m "text"; version ← dec_field dec_int64 0 m "version";
  sha ← dec_field dec_str "" m "sha256"; Some (mkCandidate text version sha)).
Definition dec_review : json → option branchReview := dec_struct (λ m,
  kind ← dec_field dec_str "" m "kind"; version ← dec_field dec_int64 0 m "version";
  sha ← dec_field dec_str "" m "sha256"; token ← dec_field dec_str "" m "token";
  opened ← dec_field dec_int64 0 m "opened_round"; Some (mkReview kind version sha token opened)).
Definition dec_issue : json → option branchIssue := dec_struct (λ m,
  code ← dec_field dec_str "" m "code"; message ← dec_field dec_str "" m "message";
  Some (mkIssue code message)).
Definition dec_time (v : json) : option Z := match v with JStr s => time_Parse s | _ => None end.
Definition dec_checkpoint : json → option branchCheckpoint := dec_struct (λ m,
  status ← dec_field dec_str "" m "status"; messages ← dec_field dec_raws [] m "messages";
  candidate ← dec_ptr dec_candidate m "candidate"; review ← dec_ptr dec_review m "review";
  final ← dec_ptr dec_review m "final"; rounds ← dec_field dec_int64 0 m "rounds";
  calls ← dec_field dec_int64 0 m "model_calls"; tokens ← dec_field dec_int64 0 m "tokens";
  retry ← dec_ptr dec_time m "retry_at"; pause ← dec_ptr dec_str m "pause_reason";
  issue ← dec_ptr dec_issue m "issue";
  Some (mkCheckpoint status messages candidate review final rounds calls tokens retry pause issue)).

(** ** The fence *)

(** A memory writer's lease must be live as well. *)
Definition lease_live (now : Z) : ptx unit := λ row,
  match ps_lease row with
  | Some l => if now <? l_expires_at l then Ok (tt, row) else Err ErrGenerationFence
  | None => Err (PgError "no rows in result set")
  end.
Definition requireMemoryGeneration (now generation : Z) : ptx unit :=
  requireGeneration generation ;; lease_live now.

(** ** Snapshots *)

Definition snapshot_role (r : string) : bool :=
  bool_decide (r ∈ ["system"; "user"; "assistant"; "tool"]).
Definition message_ok (raw : RawMessage) : bool :=
  match dec_struct (λ m, role ← dec_field dec_str "" m "role"; content ← dec_ptr dec_str m "content";
                         Some (role, content)) (raw_value raw) with
  | Some (role, Some _) => snapshot_role role
  | _ => false
  end.
Definition range_ok (n : Z) (r : BranchSourceRange) : bool :=
  (1 <=? rg_first_seq r) && (rg_first_seq r <=? rg_last_seq r)
  && match rg_message_index r with Some i => (0 <=? i) && (i <? n) | None => true end.
Definition validateBranchSnapshot (s : BranchSnapshot) : res err unit :=
  if bool_decide (sn_messages s = []) || bool_decide (sn_ranges s = [])
  then Err (badreq "a live context snapshot is required")
  else if negb (forallb (range_ok (length (sn_messages s))) (sn_ranges s))
  then Err (badreq "invalid snapshot source range")
  else if negb (forallb message_ok (sn_messages s)) then Err (badreq "invalid snapshot message")
  else Ok tt.

Definition within (first last : Z) (r : BranchSourceRange) : bool :=
  (first <=? rg_first_seq r) && (rg_last_seq r <=? last).
(** The messages with a range inside the target. *)
Definition selected (s : BranchSnapshot) (first last : Z) : list Z :=
  omap (λ r, if within first last r then rg_message_index r else None) (sn_ranges s).

Definition range_le (a b : BranchSourceRange) : Prop := rg_first_seq a ≤ rg_first_seq b.
#[global] Instance range_le_dec : RelDecision range_le.
Proof. intros a b. unfold range_le. apply _. Defined.

(** The next position the sorted ranges leave to cover; none when one
    sticks out of the target or leaves a gap. *)
Fixpoint cover_walk (first last next : Z) (l : list BranchSourceRange) : option Z :=
  match l with
  | [] => Some next
  | r :: l =>
      if (rg_last_seq r <? first) || (last <? rg_first_seq r) then cover_walk first last next l
      else if (rg_first_seq r <? first) || (last <? rg_last_seq r) || (next <? rg_first_seq r)
      then None
      else cover_walk first last (if next <=? rg_last_seq r then rg_last_seq r + 1 else next) l
  end.
Definition snapshotCovers (s : BranchSnapshot) (first last : Z) : bool :=
  forallb (λ r, match rg_message_index r with
                | Some i => negb (bool_decide (i ∈ selected s first last)) || within first last r
                | None => true
                end) (sn_ranges s)
  && bool_decide (cover_walk first last first (merge_sort range_le (sn_ranges s)) = Some (last + 1)).

Definition chunk (seq : Z) (row : PersonaRow) : res err MemoryChunk :=
  match ps_chunks row !! seq with Some c => Ok c | None => Err ErrChunkNotFound end.

(** The snapshot shows the fragment [source] itself. *)
Definition shows_fragment (s : BranchSnapshot) (seq : Z) (source : MemoryChunk) : bool :=
  existsb (λ r, bool_decide (is_Some (rg_message_index r)) && bool_decide (rg_chunk_seq r = Some seq)
                && bool_decide (rg_layer r = Some (mc_layer source))
                && (rg_first_seq r =? mc_first_seq source) && (rg_last_seq r =? mc_last_seq source))
    (sn_ranges s).
Fixpoint fragments_shown (s : BranchSnapshot) (l : list Z) (row : PersonaRow) : res err bool :=
  match l with
  | [] => Ok true
  | seq :: l =>
      source ← chunk seq row;
      if negb (bool_decide (mc_status source = ChApplied)) then Ok false
      else if shows_fragment s seq source then fragments_shown s l row else Ok false
  end.
Definition snapshotMatchesChunk (c : MemoryChunk) (s : BranchSnapshot) (row : PersonaRow)
    : res err bool :=
  if negb (snapshotCovers s (mc_first_seq c) (mc_last_seq c)) then Ok false
  else if mc_layer c =? 1 then
    Ok (forallb (λ r, negb (within (mc_first_seq c) (mc_last_seq c) r)
                      || bool_decide (rg_layer r = None ∧ rg_chunk_seq r = None)) (sn_ranges s))
  else fragments_shown s (default [] (mc_sources c)) row.

(** ** Reading branches *)

Definition no_row : err := PgError "no rows in result set".
(** A new attempt sees the state its predecessor ended in. *)
Definition readMemoryBranch (seq : Z) (row : PersonaRow) : res err MemoryBranch :=
  match ps_branches row !! seq with
  | None => Err no_row
  | Some b =>
      c ← chunk seq row;
      Ok (mkBranch c (br_snapshot b) (br_state b) (br_revision b)
            match br_state b with
            | Some _ => None
            | None => (λ a, default JNull (bn_state a)) <$> last (br_previous_attempts b)
            end)
  end.

(** The branches of chunks in preparation, [ORDER BY chunk_seq]. *)
Definition preparing_branches (row : PersonaRow) : list (Z * BranchRow) :=
  omap (λ kc, (λ b, (kc.1, b)) <$> ps_branches row !! kc.1)
    (chunks_where (λ c, bool_decide (mc_status c = ChPreparing)) (ps_chunks row)).
Fixpoint find_row (P : BranchRow → res err bool) (l : list (Z * BranchRow)) : res err (option Z) :=
  match l with
  | [] => Ok None
  | (k, b) :: l => found ← P b; if (found : bool) then Ok (Some k) else find_row P l
  end.

Definition upd_branch (seq : Z) (f : BranchRow → BranchRow) (row : PersonaRow) : PersonaRow :=
  row <| ps_branches ::= alter f seq |>.
Definition upd_chunk (seq : Z) (f : MemoryChunk → MemoryChunk) (row : PersonaRow) : PersonaRow :=
  row <| ps_chunks ::= alter f seq |>.

(** ** A requested new attempt *)

Definition snapshotHasMemoryTools (s : BranchSnapshot) : bool :=
  let found := omap (λ raw, dec_struct (λ m, dec_field dec_str "" m "name") (raw_value raw)) (sn_tools s) in
  bool_decide ("file.read" ∈ found) && bool_decide ("file.write" ∈ found).

Definition archiveMemoryAttempt (seq : Z) (b : MemoryBranch) : PersonaRow → PersonaRow :=
  upd_branch seq (λ r, r <| br_previous_attempts ::= λ l, l ++ [b] |>).
Definition without_previous (b : MemoryBranch) : MemoryBranch :=
  mkBranch (bn_chunk b) (bn_snapshot b) (bn_state b) (bn_revision b) None.

Definition rebranch_requested (b : BranchRow) : res err bool :=
  if castable (br_state b)
  then Ok (bool_decide (text_field "rebranch_requested" (br_state b) = Some "true"))
  else Err nul_error.

Definition restart_branch (now : Z) (s : BranchSnapshot) (b : BranchRow) : BranchRow :=
  b <| br_snapshot := s |> <| br_state := None |> <| br_revision ::= Z.succ |>
    <| br_checkpoint_hash := "" |> <| br_status := BrRunning |> <| br_retry_at := None |>
    <| br_updated_at := now |>.

Definition restartRequestedMemory (now : Z) (snap : option BranchSnapshot) (row : PersonaRow)
    : res err PersonaRow :=
  match snap with
  | None => Ok row
  | Some s =>
      if negb (snapshotHasMemoryTools s) then Ok row
      else
        found ← find_row rebranch_requested (preparing_branches row);
        match found with
        | None => Ok row
        | Some seq =>
            _ ← validateBranchSnapshot s;
            b ← readMemoryBranch seq row;
            matches ← snapshotMatchesChunk (bn_chunk b) s row;
            if (matches : bool)
            then Ok (upd_branch seq (restart_branch now s)
                       (archiveMemoryAttempt seq (without_previous b) row))
            else Ok row
        end
  end.

(** ** Reconsidering a kept verdict *)

(** The ranges of messages not seen before, with the message. *)
Fixpoint once (seen : list Z) (l : list BranchSourceRange) : list (Z * BranchSourceRange) :=
  match l with
  | [] => []
  | r :: l =>
      match rg_message_index r with
      | Some i => if bool_decide (i ∈ seen) then once seen l else (i, r) :: once (i :: seen) l
      | None => once seen l
      end
  end.
Definition est_message (s : BranchSnapshot) (i : Z) : Z :=
  match sn_messages s !! Z.to_nat i with Some m => Z.quot (raw_len m + 3) 4 | None => 0 end.
Definition est_messages (s : BranchSnapshot) (l : list (Z * BranchSourceRange)) : Z :=
  foldr (λ ir n, est_message s ir.1 + n) 0 l.
Definition pressure (s : BranchSnapshot) (layer : Z) : Z :=
  est_messages s (filter (λ ir, default 0 (rg_layer ir.2) = layer) (once [] (sn_ranges s))).

Definition last_shown (s : BranchSnapshot) : Z :=
  foldl (λ m r, Z.max m (rg_last_seq r)) 0 (sn_ranges s).
(** What [s] shows beyond position [last]. *)
Definition added (s : BranchSnapshot) (last : Z) : Z :=
  est_messages s (once [] (filter (λ r, last < rg_first_seq r) (sn_ranges s))).

Definition kept_branches (row : PersonaRow) : list Z :=
  fst <$> filter (λ kc, br_status <$> ps_branches row !! kc.1 = Some BrKept)
            (chunks_where (λ c, bool_decide (mc_status c = ChKept)) (ps_chunks row)).
Definition reopen (c : MemoryChunk) : MemoryChunk :=
  c <| mc_status := ChSealed |> <| mc_prepared_at := None |>.

Fixpoint reconsider_walk (s : BranchSnapshot) (l : list Z) (row : PersonaRow) : res err PersonaRow :=
  match l with
  | [] => Ok row
  | seq :: l =>
      b ← readMemoryBranch seq row;
      matches ← snapshotMatchesChunk (bn_chunk b) s row;
      if negb matches || (added s (last_shown (bn_snapshot b)) <? L0ChunkMinTokens)
      then reconsider_walk s l row
      else Ok (upd_chunk seq reopen (archiveMemoryAttempt seq b row))
  end.
Definition reconsiderKeptMemory (s : BranchSnapshot) (row : PersonaRow) : res err PersonaRow :=
  if (pressure s 0 <=? L0LiveLimitTokens) && (pressure s 1 <=? L1LimitTokens)
     && (pressure s 2 <=? L2LimitTokens) then Ok row
  else reconsider_walk s (kept_branches row) row.

(** ** Claiming *)

(** The pinned binding of a snapshot, when it names one. *)
Definition selected_fingerprint (snap : option BranchSnapshot) : option string :=
  v ← snap ≫= sn_binding;
  f ← dec_struct (λ m, dec_field dec_str "" m "fingerprint") v;
  if bool_decide (f = "") then None else Some f.

Definition snapshot_castable (s : BranchSnapshot) : bool :=
  forallb (λ raw, jsonb_ok (raw_value raw)) (sn_messages s)
  && forallb (λ raw, jsonb_ok (raw_value raw)) (sn_tools s) && castable (sn_binding s).

(** Whether a branch in preparation is due: running, past its retry time,
    paused for a budget policy that has changed, or bound otherwise than the
    live context. *)
Definition branch_due (now : Z) (policy : option json) (fp : option string) (b : BranchRow)
    : res err bool :=
  let st := br_state b in
  if negb (castable st) then Err nul_error
  else if bool_decide (default "false" (text_field "rebranch_requested" st) = "true") then Ok false
  else if bool_decide (br_status b = BrRunning)
       || match br_retry_at b with Some t => t <=? now | None => false end
       || match policy, json_field "policy" st with
          | Some v, Some w => negb (bool_decide (w = v))
                              && bool_decide (text_field "pause_reason" st = Some "configured_budget")
          | _, _ => false
          end
  then Ok true
  else match fp with
  | None => Ok false
  | Some f =>
      match text_field "fingerprint" (json_field "effective_binding" st) with
      | Some g => Ok (negb (bool_decide (f = g)))
      | None =>
          if negb (snapshot_castable (br_snapshot b)) then Err nul_error
          else match text_field "fingerprint" (sn_binding (br_snapshot b)) with
          | Some g => Ok (negb (bool_decide (f = g)))
          | None => Ok false
          end
      end
  end.

(** Sealed chunks past their backoff whose sources are all applied. *)
Definition prep_ready (now : Z) (C : gmap Z MemoryChunk) (c : MemoryChunk) : bool :=
  bool_decide (mc_status c = ChSealed)
  && forallb (λ kd, negb (bool_decide (kd.1 ∈ default [] (mc_sources c)))
                    || bool_decide (mc_status kd.2 = ChApplied)) (map_to_list C)
  && match mc_not_before c with Some t => t <=? now | None => true end.
Definition candidates (now : Z) (s : BranchSnapshot) (row : PersonaRow) : list Z :=
  fst <$> filter (λ kc, snapshotCovers s (mc_first_seq kc.2) (mc_last_seq kc.2) = true)
            (chunks_where (prep_ready now (ps_chunks row)) (ps_chunks row)).
Fixpoint first_match (s : BranchSnapshot) (l : list Z) (row : PersonaRow) : res err Z :=
  match l with
  | [] => Ok 0
  | n :: l =>
      c ← chunk n row;
      matches ← snapshotMatchesChunk c s row;
      if (matches : bool) then Ok n else first_match s l row
  end.

Definition open_branch (now seq : Z) (s : BranchSnapshot) : PersonaRow → PersonaRow :=
  λ row, row <| ps_branches := <[seq :=
    match ps_branches row !! seq with
    | None => mkBranchRow s [] None 0 "" BrRunning None None now
    | Some b => b <| br_snapshot := s |> <| br_state := None |> <| br_revision ::= Z.succ |>
                  <| br_checkpoint_hash := "" |> <| br_status := BrRunning |> <| br_retry_at := None |>
                  <| br_issue := None |>
    end]> (ps_branches row) |>.

Definition take_chunk (now generation : Z) (c : MemoryChunk) : MemoryChunk :=
  c <| mc_status := ChPreparing |> <| mc_claimed_generation := Some generation |>
    <| mc_claimed_at := Some now |> <| mc_not_before := None |>.
Definition take_branch (now generation seq : Z) (row : PersonaRow) : res err (option MemoryBranch * PersonaRow) :=
  let row := upd_chunk seq (take_chunk now generation) row in
  b ← readMemoryBranch seq row;
  Ok (Some b, row).

(** A claim that answers nothing has rolled back. *)
Definition claim_new_branch (now generation : Z) (snap : option BranchSnapshot) (row0 row : PersonaRow)
    : res err (option MemoryBranch * PersonaRow) :=
  if existsb (λ kc, bool_decide (mc_status kc.2 = ChPreparing)) (map_to_list (ps_chunks row))
  then Ok (None, row0)
  else match snap with
  | None => Ok (None, row0)
  | Some s =>
      _ ← validateBranchSnapshot s;
      row ← reconsiderKeptMemory s row;
      seq ← first_match s (candidates now s row) row;
      if seq =? 0 then Ok (None, row0) else take_branch now generation seq (open_branch now seq s row)
  end.

Definition claim_branch_tx (now generation : Z) (snap : option BranchSnapshot) (policy : option json)
    : ptx (option MemoryBranch) := λ row,
  match requireMemoryGeneration now generation row with
  | Err e => Err e
  | Ok _ =>
      row1 ← restartRequestedMemory now snap row;
      let fp := selected_fingerprint snap in
      if negb (castable policy) then Err nul_error
      else if match fp with Some f => contains_nul f | None => false end
      then Err (PgData "invalid byte sequence")
      else
        found ← find_row (branch_due now policy fp) (preparing_branches row1);
        match found with
        | Some seq => take_branch now generation seq row1
        | None => claim_new_branch now generation snap row row1
        end
  end.
Definition ClaimMemoryBranch (now : Z) (p : string) (generation : Z) (snap : option BranchSnapshot)
    (policy : option json) : tx (option MemoryBranch) :=
  with_persona p ErrGenerationFence (claim_branch_tx now generation snap policy).

(** ** Checkpoints *)

Definition branch_status (s : string) : option BranchStatus :=
  if bool_decide (s = "running") then Some BrRunning
  else if bool_decide (s = "paused") then Some BrPaused
  else if bool_decide (s = "prepared") then Some BrPrepared
  else if bool_decide (s = "kept") then Some BrKept
  else None.

Definition branchHash (raw : string) : string := sha256_hex raw.
Definition candidate_ok (c : branchCandidate) : bool :=
  (1 <=? cd_version c) && bool_decide (cd_sha256 c = branchHash (cd_text c)).

(** The checks a checkpoint passes before it meets the branch. *)
Definition parse_checkpoint (raw : option json) : res err (json * branchCheckpoint * BranchStatus) :=
  match raw with
  | None => Err (badreq "checkpoint must be JSON")
  | Some v =>
      match dec_checkpoint v with
      | None => Err (badreq "malformed checkpoint")
      | Some next =>
          match branch_status (ck_status next) with
          | None => Err (badreq "invalid branch status")
          | Some st =>
              if bool_decide (ck_messages next = []) || (ck_rounds next <? 0)
                 || (ck_model_calls next <? 0) || (ck_tokens next <? 0)
              then Err (badreq "invalid branch progress")
              else if match ck_candidate next with Some c => negb (candidate_ok c) | None => false end
              then Err (badreq "candidate hash mismatch")
              else Ok (v, next, st)
          end
      end
  end.

Definition conflict (b : bool) (text : string) : res err unit :=
  if b then Err (ErrMemoryConflict text) else Ok tt.

(** Progress only grows and the transcript is only appended to. *)
Definition check_progress (old next : branchCheckpoint) : res err unit :=
  _ ← conflict ((ck_rounds next <? ck_rounds old) || (ck_model_calls next <? ck_model_calls old)
                || (ck_tokens next <? ck_tokens old)
                || (length (ck_messages next) <? length (ck_messages old)))
        "progress cannot move backwards";
  _ ← conflict (negb (bool_decide (ck_messages old `prefix_of` ck_messages next)))
        "branch transcript is append-only";
  match ck_candidate next, ck_candidate old with
  | Some n, Some o =>
      conflict ((cd_version n <? cd_version o)
                || ((cd_version n =? cd_version o) && negb (bool_decide (cd_sha256 n = cd_sha256 o))))
        "stale candidate version"
  | _, _ => Ok tt
  end.

(** The review a verdict confirms is the one the checkpoint before opened. *)
Definition confirmed (old next : branchCheckpoint) : option branchReview :=
  match ck_final next, ck_review old with
  | Some f, Some r => if bool_decide (f = r) && (rv_opened_round r <? ck_rounds next) then Some f else None
  | _, _ => None
  end.
(** The candidate a replacement verdict is about: the one under review, not
    changed since. *)
Definition confirmed_candidate (old next : branchCheckpoint) (f : branchReview)
    : option branchCandidate :=
  match ck_candidate next, ck_candidate old with
  | Some c, Some o =>
      if bool_decide (rv_kind f = "replace") && (cd_version c =? rv_version f)
         && bool_decide (cd_sha256 c = rv_sha256 f) && bool_decide (o = c) then Some c else None
  | _, _ => None
  end.

Definition release_chunk (now : Z) (st : ChunkStatus) (c : MemoryChunk) : MemoryChunk :=
  c <| mc_status := st |> <| mc_prepared_at := Some now |> <| mc_claimed_generation := None |>
    <| mc_claimed_at := None |> <| mc_last_error := None |>.

(** The chunk after the checkpoint. *)
Definition settle_chunk (now : Z) (old next : branchCheckpoint) (st : BranchStatus) (c : MemoryChunk)
    : res err MemoryChunk :=
  match st with
  | BrRunning | BrPaused => Ok c
  | BrPrepared | BrKept =>
      match confirmed old next with
      | None => Err (ErrMemoryConflict "completion requires the previously opened confirmation")
      | Some f =>
          if bool_decide (st = BrPrepared) then
            match confirmed_candidate old next f with
            | None => Err (ErrMemoryConflict "confirmed candidate changed")
            | Some cand =>
                if mc_est_tokens c <=? estTextTokens (cd_text cand)
                then Err (badreq "candidate does not reduce the target")
                else if contains_nul (cd_text cand) then Err (PgData "invalid byte sequence")
                else Ok (release_chunk now ChPrepared c <| mc_replacement := Some (cd_text cand) |>
                           <| mc_replacement_est_tokens := Some (estTextTokens (cd_text cand)) |>)
            end
          else if negb (bool_decide (rv_kind f = "keep"))
          then Err (ErrMemoryConflict "keep confirmation required")
          else Ok (release_chunk now ChKept c)
      end
  end.

Definition notice_text (transition : string) (i : branchIssue) : string :=
  "[Memory mechanism " +:+ transition +:+ "] " +:+ is_message i
  +:+ " Draft and branch progress are saved. This is an operational event, not a message from another "
  +:+ "person and not an instruction to post into Messaging.".
Definition notice_input (now seq revision : Z) (transition : string) (i : branchIssue) (n : Z) : Input :=
  mkInput ("memory:" +:+ itoa seq +:+ ":" +:+ itoa revision +:+ ":" +:+ transition) "memory_status"
    (list_to_map [("text", JStr (notice_text transition i)); ("chunk_seq", jint seq);
                  ("transition", JStr transition); ("code", JStr (is_code i))])
    "memory" "" "core_memory" "" None "observe" Queued None None now None None None n None 0.
Definition memoryBranchNotice (now seq revision : Z) (transition : string) (i : branchIssue)
    (row : PersonaRow) : res err PersonaRow :=
  if contains_nul (is_message i) || contains_nul (is_code i) then Err nul_error
  else match insert_input (notice_input now seq revision transition i) row with
  | Ok (_, row) => Ok row
  | Err e => Err e
  end.

(** The issue the branch was last known to have. *)
Definition known_issue (b : MemoryBranch) (old : branchCheckpoint) : option branchIssue :=
  match bn_state b, bn_previous b with
  | None, Some v => match dec_checkpoint v with Some prior => ck_issue prior | None => ck_issue old end
  | _, _ => ck_issue old
  end.
Definition notify_issue (now seq revision : Z) (was is_ : option branchIssue) (row : PersonaRow)
    : res err PersonaRow :=
  if bool_decide (was = is_) then Ok row
  else match is_, was with
  | Some i, _ => memoryBranchNotice now seq revision "occurred" i row
  | None, Some i => memoryBranchNotice now seq revision "recovered" i row
  | None, None => Ok row
  end.

Definition issue_castable (i : option branchIssue) : bool :=
  match i with
  | Some i => negb (contains_nul (is_code i) || contains_nul (is_message i))
  | None => true
  end.

Definition checkpoint_branch (now : Z) (v : json) (digest : string) (next : branchCheckpoint)
    (st : BranchStatus) (b : BranchRow) : BranchRow :=
  b <| br_state := Some v |> <| br_revision ::= Z.succ |> <| br_checkpoint_hash := digest |>
    <| br_status := st |> <| br_retry_at := ck_retry_at next |> <| br_issue := ck_issue next |>
    <| br_updated_at := now |>.

(** The checkpoint the branch holds. *)
Definition stored_checkpoint (state : option json) : res err branchCheckpoint :=
  match state with
  | None => Ok no_checkpoint
  | Some v => match dec_checkpoint v with
              | Some old => Ok old
              | None => Err (PgError "json: cannot unmarshal")
              end
  end.

Definition save_branch_tx (now generation seq expected : Z)
    (doc : json * branchCheckpoint * BranchStatus) : ptx MemoryBranch := λ row,
  let '(v, next, st) := doc in
  match requireMemoryGeneration now generation row with
  | Err e => Err e
  | Ok _ =>
      b ← readMemoryBranch seq row;
      let digest := branchHash (json_Marshal v) in
      if bool_decide (bn_revision b = int64 (expected + 1))
         && bool_decide (br_checkpoint_hash <$> ps_branches row !! seq = Some digest)
      then Ok (b, row)
      else if negb (bn_revision b =? expected) then Err (ErrMemoryConflict "stale branch revision")
      else if negb (bool_decide (mc_status (bn_chunk b) = ChPreparing))
      then Err (ErrMemoryConflict "branch already settled")
      else
        old ← stored_checkpoint (bn_state b);
        _ ← check_progress old next;
        c ← settle_chunk now old next st (bn_chunk b);
        row ← notify_issue now seq (int64 (expected + 1)) (known_issue b old) (ck_issue next)
                (row <| ps_chunks ::= <[seq := c]> |>);
        if negb (issue_castable (ck_issue next)) then Err nul_error
        else
          let row := upd_branch seq (checkpoint_branch now v digest next st) row in
          b ← readMemoryBranch seq row;
          Ok (b, row)
  end.
Definition SaveMemoryBranch (now : Z) (p : string) (generation seq expected : Z) (raw : option json)
    : tx MemoryBranch :=
  match parse_checkpoint raw with
  | Err e => throw e
  | Ok doc => with_persona p ErrGenerationFence (save_branch_tx now generation seq expected doc)
  end.

(** ** The secretary's way out of a pause *)

(** [json.Unmarshal] of a field of the state, its error ignored. *)
Definition state_int (st : obj) (k : string) : Z :=
  match st !! k with Some v => default 0 (dec_int64 v) | None => 0 end.
Definition state_part (st : obj) (k f : string) : Z :=
  match st !! k with
  | Some (JObj m) => default 0 (dec_field dec_int64 0 m f)
  | _ => 0
  end.
(** The token cap in force: the execution budget when there is one. *)
Definition token_limit (st : obj) : Z :=
  match st !! "execution_budget" with
  | None | Some JNull => state_part st "policy" "maxTokens"
  | Some _ => state_part st "execution_budget" "tokens"
  end.

Definition budget (rounds tokens : Z) : json :=
  JObj (list_to_map [("rounds", jint rounds); ("tokens", jint tokens)]).
Definition exhausted : err := badreq "exhausted token cap requires additional_tokens".

(** What both modes clear: nothing confirmed before counts any more. *)
Definition cleared (st : obj) : obj :=
  <["interruptions" := jint 0]> (<["failures" := jint 0]> (<["in_flight" := JNull]>
  (<["candidate_read" := JArr []]> (<["source_read" := JArr []]> (<["final" := JNull]>
  (<["review" := JNull]> st)))))).

Definition rebranch_state (r : memoryResumeRequest) (st : obj) : res err obj :=
  let limit := token_limit st in
  let remaining := int64 (limit + state_part st "budget_extension" "tokens" - state_int st "tokens") in
  let tokens := if 0 <? limit
                then if 0 <? remaining then int64 (mr_tokens r + remaining) else mr_tokens r
                else mr_tokens r in
  if (0 <? limit) && (tokens =? 0) then Err exhausted
  else Ok (<["retry_at" := JNull]> (<["pause_reason" := JStr "rebranch_requested"]>
          (<["restart_budget" := budget (mr_rounds r) tokens]> (<["rebranch_requested" := JBool true]> st)))).

Definition resume_state (now : Z) (r : memoryResumeRequest) (st : obj) : res err obj :=
  let limit := token_limit st in
  let rounds := state_part st "budget_extension" "rounds" in
  let tokens := state_part st "budget_extension" "tokens" in
  if bool_decide (st !! "pause_reason" = Some (JStr "private_tools_missing"))
  then Err (badreq "frozen tools cannot change; use rebranch")
  else if (0 <? limit) && (int64 (limit + tokens + mr_tokens r) <=? state_int st "tokens") then Err exhausted
  else Ok (<["retry_at" := JStr (time_Marshal now)]> (<["pause_reason" := JStr "resume_requested"]>
          (<["rebranch_requested" := JBool false]>
          (<["budget_extension" := budget (int64 (rounds + mr_rounds r)) (int64 (tokens + mr_tokens r))]> st)))).

Definition recovery_note (r : memoryResumeRequest) : json :=
  JObj (list_to_map [("role", JStr "user");
    ("content", JStr ("[Memory recovery selected by the main secretary] mode=" +:+ mr_mode r
       +:+ ", additional_rounds=" +:+ itoa (mr_rounds r) +:+ ", additional_tokens=" +:+ itoa (mr_tokens r)
       +:+ ". This is a finite execution grant, not a change to your draft. Read source and candidate "
       +:+ "again and open a new confirmation."))]).
Definition add_note (r : memoryResumeRequest) (st : obj) : obj :=
  <["messages" := JArr (match st !! "messages" with Some (JArr l) => l | _ => [] end
                        ++ [recovery_note r])]> st.

Definition resumeMemory (now : Z) (request : obj) : ptx obj := λ row,
  r ← parseMemoryResumeRequest request;
  match readMemoryBranch (mr_chunk r) row with
  | Err _ => Err (badreq "memory branch not found")
  | Ok b =>
      match bn_state b with
      | Some (JObj st) =>
          if negb (bool_decide (st !! "status" = Some (JStr "paused"))
                   && bool_decide (mc_status (bn_chunk b) = ChPreparing))
          then Err (badreq "memory.resume requires a paused unfinished branch")
          else
            let rebranch := bool_decide (mr_mode r = "rebranch") in
            st ← (if rebranch then rebranch_state r (cleared st) else resume_state now r (cleared st));
            Ok (list_to_map [("chunk_seq", jint (mr_chunk r)); ("mode", JStr (mr_mode r));
                             ("additional_rounds", jint (mr_rounds r));
                             ("additional_tokens", jint (mr_tokens r));
                             ("waiting_for_parent_snapshot", JBool rebranch)],
                upd_branch (mr_chunk r) (λ x, x <| br_state := Some (JObj (add_note r st)) |>
                  <| br_revision ::= Z.succ |> <| br_checkpoint_hash := "" |>
                  <| br_retry_at := if rebranch then None else Some now |> <| br_updated_at := now |>) row)
      | _ => Err (badreq "memory.resume requires a paused unfinished branch")
      end
  end.
End branches.
