(* ===== verification/Jobs.v ===== *)
(** * Durable jobs

    [jobs.go]: submission with replay, the claim and heartbeat of a runner,
    the sweep of expired claims, completion, cancellation, and the one
    notification input each job's end enqueues.  [StoreConfig] is the wiring
    of the store that routes jobs. *)

From Stdlib Require Import Ascii ZArith QArith Qcanon Lia.
From stdpp Require Import sorting.
From S2P Require Import Prelude Json State Personas Inputs Journal Usage Approvals.
Local Open Scope string_scope.
Local Open Scope list_scope.
Local Open Scope Z_scope.
Set Warnings "-register-all".

Record StoreConfig := mkConfig {
  cfg_defaultJobBackend : string;
  cfg_jobBackendAvailable : string → bool
}.

Definition jobTerminal (s : JobStatus) : bool :=
  match s with JobDone | JobFailed | JobCancelled | JobLost => true | _ => false end.

Section jobs.
Context `{GL : !GoLib}.

Definition sprint (v : json) : string := match v with JStr s => s | v => fmt_Sprint v end.

(** [m->>'k']: the text of a field, NULL for an absent one or null. *)
Definition json_text (m : obj) (k : string) : option string :=
  match m !! k with
  | None | Some JNull => None
  | Some (JStr s) => Some s
  | Some v => Some (json_Marshal v)
  end.

(** ** The request of a job *)

Definition scriptCodeMaxBytes : Z := 65536.
Definition scriptInputMaxBytes : Z := 32768.

Definition scriptLimitMaxes : string :=
  "cpu_seconds<=600 wall_ms<=3600000 memory_mib<=1024 output_bytes<=65536 log_bytes<=65536 file_calls<=256 file_bytes<=16777216".

Definition script_bound (key : string) : option (Z * Z) :=
  if bool_decide (key = "cpu_seconds") then Some (1, 600)
  else if bool_decide (key = "wall_ms") then Some (100, 3600000)
  else if bool_decide (key = "memory_mib") then Some (32, 1024)
  else if bool_decide (key = "output_bytes") then Some (1, 65536)
  else if bool_decide (key = "log_bytes") then Some (0, 65536)
  else if bool_decide (key = "file_calls") then Some (0, 256)
  else if bool_decide (key = "file_bytes") then Some (0, 16777216)
  else None.

Definition integer_between (lo hi : Z) (v : json) : bool :=
  match v with
  | JNum q => match num_int q with Some n => (lo <=? n) && (n <=? hi) | None => false end
  | _ => false
  end.

(** The first failing check of a list. *)
Fixpoint first_err {A} (f : A → res err unit) (l : list A) : res err unit :=
  match l with
  | [] => Ok tt
  | x :: l => f x ≫= λ _, first_err f l
  end.

Definition validateScriptLimits (raw : json) : res err unit :=
  match raw with
  | JObj limits =>
      first_err (λ kv, match script_bound kv.1 with
        | None => Err (badreq ("unknown script limit " +:+ strconv_Quote kv.1
                              +:+ " (" +:+ scriptLimitMaxes +:+ ")"))
        | Some (lo, hi) =>
            check (integer_between lo hi kv.2)
              ("script limit " +:+ strconv_Quote kv.1 +:+ " must be an integer in ["
               +:+ itoa lo +:+ ", " +:+ itoa hi +:+ "]")
        end) (map_to_list limits)
  | _ => Err (badreq "script limits must be an object")
  end.

Definition validate_script (request : obj) : res err unit :=
  check (match request !! "backend" with
         | None | Some (JStr "local") => true
         | _ => false
         end) ("script jobs route only to the local backend (got "
               +:+ sprint (default JNull (request !! "backend")) +:+ ")") ≫= λ _,
  let code := get_str request "code" in
  check (negb (bool_decide (code = "")))
    "script job requires non-empty code (a JavaScript module exporting run(input, sumi))" ≫= λ _,
  check (String.length code <=? scriptCodeMaxBytes) "script code exceeds 65536 bytes" ≫= λ _,
  check (match request !! "input" with
         | Some v => String.length (json_Marshal v) <=? scriptInputMaxBytes
         | None => true
         end) "script input exceeds 32768 bytes serialized" ≫= λ _,
  match request !! "limits" with Some l => validateScriptLimits l | None => Ok tt end.

Definition check_arg (iv : Z * json) : res err unit :=
  let cmd := "subprocess command[" +:+ itoa iv.1 +:+ "] " in
  match iv.2 with
  | JStr s =>
      check (negb (bool_decide (s = ""))) (cmd +:+ "must be a non-empty string") ≫= λ _,
      check (negb (contains_nul s)) (cmd +:+ "contains NUL") ≫= λ _,
      check (negb ((iv.1 =? 0) && (1024 <? String.length s)))
        "subprocess executable exceeds 1024 characters"
  | _ => Err (badreq (cmd +:+ "must be a non-empty string"))
  end.
Definition json_len (v : json) : Z := match v with JStr s => String.length s | _ => 0 end.

Definition validate_command (request : obj) : res err unit :=
  match request !! "command" with
  | Some (JArr ((_ :: _) as cmd)) =>
      check (length cmd <=? 129) "subprocess command may have at most 129 entries" ≫= λ _,
      first_err check_arg (zip (seqZ 0 (length cmd)) cmd) ≫= λ _,
      check (foldr Z.add 0 (map json_len cmd) <=? 32768) "subprocess command exceeds 32 KiB"
  | _ => Err (badreq "subprocess job requires a non-empty command array")
  end.

Definition validate_cwd (request : obj) : res err unit :=
  match request !! "cwd" with
  | None => Ok tt
  | Some (JStr c) =>
      check (negb ((1024 <? String.length c) || contains_nul c || HasPrefix c "/"
                   || (negb (bool_decide (c = "")) && negb (path_is_clean c))))
        "subprocess cwd must be clean and relative" ≫= λ _,
      check (negb (bool_decide (".." ∈ split_slash c))) "subprocess cwd escapes the workspace"
  | Some _ => Err (badreq "subprocess cwd must be a string")
  end.

(** [jobEnvName] *)
Definition env_start (c : ascii) : bool :=
  byte_in 65 90 c || byte_in 97 122 c || byte_in 95 95 c.
Fixpoint env_rest (s : string) : bool :=
  match s with
  | EmptyString => true
  | String c s => (env_start c || byte_in 48 57 c) && env_rest s
  end.
Definition jobEnvName (s : string) : bool :=
  match s with EmptyString => false | String c s => env_start c && env_rest s end.

Definition check_env (kv : string * json) : res err unit :=
  let name := "subprocess env name " +:+ strconv_Quote kv.1 in
  let entry := "subprocess env[" +:+ strconv_Quote kv.1 +:+ "] " in
  check ((String.length kv.1 <=? 64) && jobEnvName kv.1) (name +:+ " is invalid") ≫= λ _,
  check (negb (bool_decide (kv.1 ∈ ["PATH"; "HOME"; "LANG"])))
    (name +:+ " is backend-owned") ≫= λ _,
  match kv.2 with
  | JStr s => check ((String.length s <=? 4096) && negb (contains_nul s))
                (entry +:+ "value is invalid")
  | _ => Err (badreq (entry +:+ "must be a string"))
  end.

Definition validate_env (request : obj) : res err unit :=
  match request !! "env" with
  | None => Ok tt
  | Some (JObj env) =>
      check (size env <=? 32) "subprocess env may have at most 32 entries" ≫= λ _,
      first_err check_env (map_to_list env) ≫= λ _,
      check (foldr (λ kv n, String.length kv.1 + json_len kv.2 + n) 0 (map_to_list env) <=? 8192)
        "subprocess env payload exceeds 8 KiB"
  | Some _ => Err (badreq "subprocess env must be an object of strings")
  end.

Definition validate_subprocess (request : obj) : res err unit :=
  validate_command request ≫= λ _,
  validate_cwd request ≫= λ _,
  check (match request !! "timeout_ms" with
         | Some v => integer_between 1 3600000 v
         | None => true
         end) "subprocess timeout_ms must be an integer in (0, 3600000]" ≫= λ _,
  validate_env request ≫= λ _,
  check (match request !! "backend" with
         | None | Some (JStr "local") | Some (JStr "cloud") => true
         | _ => false
         end) ("subprocess backend must be " +:+ dquoted "local" +:+ " or " +:+ dquoted "cloud").

Definition validateJobRequest (kind : string) (request : obj) : res err unit :=
  if bool_decide (kind = "script") then validate_script request
  else if bool_decide (kind = "subprocess") then validate_subprocess request
  else Err (badreq ("unknown job kind " +:+ strconv_Quote kind)).

Definition validJobID (jobID : string) : res err unit :=
  check (negb (bool_decide (jobID = "") || (256 <? String.length jobID)))
    "job_id must be 1-256 characters" ≫= λ _,
  check (negb (contains_nul jobID)) "job_id contains a NUL byte text cannot store" ≫= λ _,
  check (negb (HasPrefix jobID jobToolPrefix)) ("job_id prefix " +:+ strconv_Quote jobToolPrefix +:+ " is reserved") ≫= λ _,
  check (negb (bool_decide (jobID = "claim"))) ("job_id " +:+ strconv_Quote "claim" +:+ " is reserved").

(** ** Submission *)

Definition stamp_backend (cfg : StoreConfig) (kind : string) (request : obj) : obj :=
  if bool_decide (request !! "backend" = None)
     && negb (bool_decide (cfg_defaultJobBackend cfg = ""))
     && bool_decide (kind = "subprocess")
  then <["backend" := JStr (cfg_defaultJobBackend cfg)]> request
  else request.

Definition new_job (now : Z) (jobID kind : string) (request : obj) (createdBy : string) : Job :=
  mkJob jobID kind request JobQueued None None createdBy now None None None None None None.

Definition job_replay (jobID kind : string) (request : obj) : ptx (Job * bool) := λ row,
  match ps_jobs row !! jobID with
  | Some j =>
      if bool_decide (j_kind j = kind) && bool_decide (j_request j = request)
      then Ok ((j, false), row) else Err ErrJobConflict
  | None => Err (inactiveAuthorityError (authority_text (p_authority (ps_persona row))))
  end.

Definition submitJobTx (cfg : StoreConfig) (now : Z) (jobID kind : string) (request : obj)
    (createdBy : string) : ptx (Job * bool) := λ row,
  let request := stamp_backend cfg kind request in
  if bool_decide (get_str request "backend" = "cloud")
     && negb (cfg_jobBackendAvailable cfg "cloud")
  then Err (badreq "cloud job backend is not running in this deployment")
  else if bool_decide (p_authority (ps_persona row) = Active) then
    if negb (texts_ok [jobID; kind; createdBy] && jsonb_ok (JObj request))
    then Err (dataErr nul_error)
    else match ps_jobs row !! jobID with
    | None =>
        let j := new_job now jobID kind request createdBy in
        Ok ((j, true), row <| ps_jobs ::= <[jobID := j]> |>)
    | Some _ => job_replay jobID kind request row
    end
  else job_replay jobID kind request row.

Definition SubmitJob (cfg : StoreConfig) (now : Z) (p jobID kind : string)
    (request : option obj) (createdBy : string) : tx (Job * bool) :=
  let request := default ∅ request in
  lift (validJobID jobID) ;;
  lift (validateJobRequest kind request) ;;
  guard_or (negb (hasNUL (JObj request)))
    (badreq "job request contains a NUL byte jsonb cannot store") ;;
  with_persona p ErrPersonaNotFound
    (submitJobTx cfg now jobID kind request
       (if bool_decide (createdBy = "") then "api" else createdBy)).

(** ** The notification of a job's end *)

Definition jobNoteCommandRunes : nat := 120.
Definition jobNoteRequestRunes : nat := 200.

Definition boundRunes (s : string) (n : nat) : string :=
  match rune_offset n s with
  | Some pos => str_take pos s +:+ "…"
  | None => s
  end.

Definition jobCommandSummary (j : Job) : string :=
  match j_request j !! "command" with
  | Some (JArr cmd) => boundRunes (join_space (map sprint cmd)) jobNoteCommandRunes
  | _ => ""
  end.

Record jobOrigin := mkOrigin {
  jo_input_id : string; jo_request : string; jo_in_progress : bool
}.
Definition no_origin : jobOrigin := mkOrigin "" "" false.

Definition cut_prefix (s p : string) : string :=
  if HasPrefix s p then str_drop (String.length p) s else s.

Definition jobOriginTx (j : Job) (row : PersonaRow) : jobOrigin :=
  if negb (HasPrefix (j_created_by j) "tool:") then no_origin
  else
    let rest := cut_prefix (j_id j) jobToolPrefix in
    match last_index ":" rest with
    | None | Some O => no_origin
    | Some i =>
        let inputID := str_take i rest in
        match ps_inputs row !! inputID with
        | None => no_origin
        | Some inp =>
            mkOrigin inputID
              (boundRunes (default "" (json_text (in_payload inp) "text")) jobNoteRequestRunes)
              (negb (bool_decide (in_status inp = InputDone)))
        end
    end.

Definition exit_code (j : Job) : option json := j_result j ≫= λ r, r !! "exit_code".
Definition job_error (j : Job) : string := default "" (j_error j).

Definition jobNotificationText (j : Job) (o : jobOrigin) : string :=
  "job " +:+ j_id j +:+ " (" +:+ j_kind j +:+ ") " +:+ job_status_text (j_status j)
  +:+ (match exit_code j with Some c => ", exit " +:+ sprint c | None => "" end)
  +:+ (if bool_decide (job_error j = "") then "" else ": " +:+ job_error j)
  +:+ (if bool_decide (jobCommandSummary j = "") then ""
       else " — command: " +:+ jobCommandSummary j)
  +:+ (if bool_decide (jo_input_id o = "") then ""
       else " — started by you for request " +:+ jo_input_id o
            +:+ (if bool_decide (jo_request o = "") then ""
                 else ": " +:+ strconv_Quote (jo_request o))
            +:+ (if jo_in_progress o
                 then " (that request was not finished yet when this job ended)" else "")).

Definition notification_payload (j : Job) (o : jobOrigin) : obj :=
  list_to_map
    ([("job_id", JStr (j_id j)); ("kind", JStr (j_kind j));
      ("status", JStr (job_status_text (j_status j)));
      ("text", JStr (jobNotificationText j o))]
     ++ (if bool_decide (jobCommandSummary j = "") then []
         else [("command", JStr (jobCommandSummary j))])
     ++ (if bool_decide (jo_input_id o = "") then []
         else [("origin_input_id", JStr (jo_input_id o));
               ("origin_request", JStr (jo_request o));
               ("origin_in_progress", JBool (jo_in_progress o))])
     ++ (if bool_decide (job_error j = "") then [] else [("error", JStr (job_error j))])
     ++ match exit_code j with Some c => [("exit_code", c)] | None => [] end).

Definition notification_input (now : Z) (j : Job) (o : jobOrigin) (seq : Z) : Input :=
  mkInput (jobInputPrefix +:+ j_id j) "job_completed" (notification_payload j o) "job" (j_id j)
    "core_jobs" "" None "reply" Queued None None now None None None seq None 0.

Definition notifyJobTerminalTx (now : Z) (j : Job) : ptx Job := λ row,
  let o := jobOriginTx j row in
  if jsonb_ok (JObj (notification_payload j o)) then
    match insert_input (notification_input now j o) row with
    | Ok (_, row) =>
        Ok (j <| j_notified_at := Some now |>,
            upd_job (j_id j) (λ j, j <| j_notified_at := Some now |>) row)
    | Err e => Err e
    end
  else Err (dataErr nul_error).

(** ** Cancellation *)

Definition cancel (now : Z) (j : Job) : Job :=
  j <| j_status := JobCancelled |> <| j_cancel_requested_at := Some now |>
    <| j_finished_at := Some now |>.
Definition request_cancel (now : Z) (j : Job) : Job :=
  j <| j_status := JobCancelRequested |> <| j_cancel_requested_at := Some now |>.

Definition cancelJobTx (now : Z) (jobID : string) : ptx Job :=
  found ← gets (λ row, ps_jobs row !! jobID);
  match found with
  | None => throw ErrJobNotFound
  | Some j =>
      match j_status j with
      | JobQueued =>
          modify (upd_job jobID (cancel now)) ;; notifyJobTerminalTx now (cancel now j)
      | JobRunning =>
          modify (upd_job jobID (request_cancel now)) ;; mret (request_cancel now j)
      | _ => mret j
      end
  end.

Definition CancelJob (now : Z) (p jobID : string) : tx Job :=
  guard_or (texts_ok [jobID]) (PgData "invalid byte sequence") ;;
  with_persona p ErrJobNotFound (cancelJobTx now jobID).

(** ** The runner's side *)

Definition live_status (s : JobStatus) : bool :=
  match s with JobRunning | JobCancelRequested => true | _ => false end.

(** Claims that expired: the outcome is indeterminate, the job is lost. *)
Definition claim_expired (now : Z) (j : Job) : bool :=
  live_status (j_status j)
  && match j_claim_expires_at j with Some t => t <? now | None => false end.
Definition lose (now : Z) (j : Job) : Job :=
  j <| j_status := JobLost |> <| j_finished_at := Some now |>
    <| j_error := Some "runner claim expired; outcome is indeterminate" |>
    <| j_result := Some (<["reason" := JStr "claim_expired"]> (default ∅ (j_result j))) |>.
Definition expired_jobs (now : Z) (row : PersonaRow) : list (string * Job) :=
  filter (λ kj, claim_expired now kj.2 = true) (map_to_list (ps_jobs row)).

(** One swept job; the statement that marks them all reads nothing the
    notifications write, so each job is marked and notified in turn. *)
Definition sweep_job (now : Z) (kj : string * Job) : ptx unit :=
  modify (upd_job kj.1 (lose now)) ;; notifyJobTerminalTx now (lose now kj.2) ;; mret tt.

(** The routing split. *)
Definition backend_claims (backend : string) (request : obj) : bool :=
  if bool_decide (backend = "*") then true
  else if bool_decide (backend = "cloud") then
    bool_decide (json_text request "backend" = Some "cloud")
  else bool_decide (default "local" (json_text request "backend") = "local").
Definition claimable (kinds : list string) (backend : string) (j : Job) : bool :=
  bool_decide (j_status j = JobQueued) && bool_decide (j_kind j ∈ kinds)
  && negb (bool_decide (j_kind j = "browser")) && backend_claims backend (j_request j).

(** [ORDER BY created_at, job_id] *)
Definition job_le (a b : string * Job) : Prop :=
  j_created_at a.2 < j_created_at b.2
  ∨ (j_created_at a.2 = j_created_at b.2 ∧ String.leb a.1 b.1 = true).
#[global] Instance job_le_dec : RelDecision job_le.
Proof. intros a b. unfold job_le. apply _. Defined.

Definition claim_batch (kinds : list string) (backend : string) (limit : Z) (row : PersonaRow)
    : list (string * Job) :=
  if bool_decide (p_authority (ps_persona row) = Active) then
    take (Z.to_nat limit) (merge_sort job_le
      (filter (λ kj, claimable kinds backend kj.2 = true) (map_to_list (ps_jobs row))))
  else [].
Definition start_job (now : Z) (runnerID : string) (lease : Z) (j : Job) : Job :=
  j <| j_status := JobRunning |> <| j_claimed_by := Some runnerID |>
    <| j_claim_expires_at := Some (now + lease) |>
    <| j_started_at := Some (default now (j_started_at j)) |>.

Definition claim_tx (now : Z) (runnerID : string) (kinds : list string) (lease limit : Z)
    (backend : string) : ptx (list Job * list Job) :=
  swept ← gets (expired_jobs now);
  for_each swept (sweep_job now) ;;
  batch ← gets (claim_batch kinds backend limit);
  for_each batch (λ kj, modify (upd_job kj.1 (start_job now runnerID lease))) ;;
  mret (map (λ kj, start_job now runnerID lease kj.2) batch,
        map (λ kj, lose now kj.2 <| j_notified_at := Some now |>) swept).

Definition ClaimJobs (now : Z) (p runnerID : string) (kinds : list string) (lease limit : Z)
    (backend : string) : tx (list Job * list Job) :=
  lift (check (negb (bool_decide (runnerID = "") || (256 <? String.length runnerID)))
          "runner_id must be 1-256 characters") ;;
  lift (check (negb (contains_nul runnerID))
          "runner_id contains a NUL byte text cannot store") ;;
  lift (check (negb (bool_decide (kinds = []))) "kinds required") ;;
  lift (check (0 <? lease) "positive lease_ms required") ;;
  guard_or (texts_ok (backend :: kinds)) (PgData "invalid byte sequence") ;;
  with_persona_or p ([], []) (claim_tx now runnerID kinds lease (clampLimit limit 1 32) backend).

Definition claimed_by (runnerID : string) (j : Job) : bool :=
  bool_decide (j_claimed_by j = Some runnerID).

Definition heartbeat_tx (now : Z) (jobID runnerID : string) (lease : Z) : ptx Job :=
  found ← gets (λ row, ps_jobs row !! jobID);
  match found with
  | None => throw ErrJobNotFound
  | Some j =>
      if negb (claimed_by runnerID j) || jobTerminal (j_status j) then throw ErrJobNotClaimed
      else modify (upd_job jobID (λ j, j <| j_claim_expires_at := Some (now + lease) |>)) ;;
           mret j
  end.
Definition HeartbeatJob (now : Z) (p jobID runnerID : string) (lease : Z) : tx Job :=
  lift (check (0 <? lease) "positive lease_ms required") ;;
  guard_or (texts_ok [jobID]) (PgData "invalid byte sequence") ;;
  with_persona p ErrJobNotFound (heartbeat_tx now jobID runnerID lease).

Definition runnerWaitKey : string := "runner_wait".
Definition wait_cause (result : option obj) : option string :=
  result ≫= λ r, get_obj r runnerWaitKey ≫= λ w, json_text w "cause".

Definition note_wait (now lease : Z) (cause : string) (j : Job) : Job :=
  j <| j_claim_expires_at := Some (now + lease) |>
    <| j_result := if bool_decide (wait_cause (j_result j) = Some cause) then j_result j
         else Some (<[runnerWaitKey := JObj (list_to_map
                 [("cause", JStr cause); ("since", JStr (time_Marshal now))])]>
               (default ∅ (j_result j))) |>.
Definition note_tx (now : Z) (jobID runnerID : string) (lease : Z) (cause : string) : ptx Job :=
  found ← gets (λ row, ps_jobs row !! jobID);
  match found with
  | None => throw ErrJobNotClaimed
  | Some j =>
      if claimed_by runnerID j && live_status (j_status j)
      then modify (upd_job jobID (note_wait now lease cause)) ;; mret (note_wait now lease cause j)
      else throw ErrJobNotClaimed
  end.
Definition NoteWait (now : Z) (p jobID runnerID : string) (lease : Z) (cause : string) : tx Job :=
  lift (check ((0 <? lease) && negb (bool_decide (cause = "")))
          "positive lease_ms and wait cause required") ;;
  guard_or (texts_ok [jobID; runnerID; cause]) (PgData "invalid byte sequence") ;;
  with_persona p ErrJobNotClaimed (note_tx now jobID runnerID lease cause).

Definition clear_wait (runnerID : string) (j : Job) : Job :=
  if claimed_by runnerID j
     && (live_status (j_status j) || bool_decide (j_status j = JobLost))
  then j <| j_result ::= fmap (delete runnerWaitKey) |> else j.
Definition ClearWait (p jobID runnerID : string) : tx unit :=
  guard_or (texts_ok [jobID; runnerID]) (dataErr (PgData "invalid byte sequence")) ;;
  with_persona_or p tt (modify (upd_job jobID (clear_wait runnerID))).

Definition JobWait (j : Job) : option (string * Z) :=
  match j_result j ≫= λ r, get_obj r runnerWaitKey with
  | None => None
  | Some w =>
      match time_Parse (get_str w "since") with
      | Some t => if bool_decide (get_str w "cause" = "") then None
                  else Some (get_str w "cause", t)
      | None => None
      end
  end.

(** ** Completion *)

Definition complete_status (s : string) : option JobStatus :=
  if bool_decide (s = "done") then Some JobDone
  else if bool_decide (s = "failed") then Some JobFailed
  else if bool_decide (s = "cancelled") then Some JobCancelled else None.

Definition complete (now : Z) (st : JobStatus) (result : obj) (jobError : string) (j : Job)
    : Job :=
  j <| j_status := st |> <| j_result := Some result |>
    <| j_error := nullif_empty jobError |> <| j_finished_at := Some now |>.

Definition complete_tx (now : Z) (jobID runnerID : string) (st : JobStatus) (result : obj)
    (jobError : string) : ptx Job :=
  found ← gets (λ row, ps_jobs row !! jobID);
  match found with
  | None => throw ErrJobNotFound
  | Some j =>
      if jobTerminal (j_status j) then
        if bool_decide (j_status j = st) && jsonbEqual (j_result j) (Some result)
           && bool_decide (job_error j = jobError)
        then mret j else throw ErrJobConflict
      else if negb (claimed_by runnerID j) then throw ErrJobNotClaimed
      else
        guard_or (jsonb_ok (JObj result)) (dataErr nul_error) ;;
        modify (upd_job jobID (complete now st result jobError)) ;;
        notifyJobTerminalTx now (complete now st result jobError j)
  end.

Definition CompleteJob (now : Z) (p jobID runnerID status : string) (result : option obj)
    (jobError : string) : tx Job :=
  let result := default ∅ result in
  match complete_status status with
  | None => throw (badreq "complete status must be done, failed, or cancelled")
  | Some st =>
      guard_or (negb (hasNUL (JObj result)))
        (badreq "job result contains a NUL byte jsonb cannot store") ;;
      guard_or (negb (contains_nul jobError))
        (badreq "job error contains a NUL byte text cannot store") ;;
      guard_or (texts_ok [jobID]) (PgData "invalid byte sequence") ;;
      with_persona p ErrJobNotFound (complete_tx now jobID runnerID st result jobError)
  end.

(** What really happened to a lost job is recorded beside the verdict. *)
Definition attach (outcome : obj) (j : Job) : Job :=
  j <| j_result := Some (<["observed_outcome" := JObj outcome]>
                           (delete runnerWaitKey (default ∅ (j_result j)))) |>.

Definition attach_tx (jobID runnerID : string) (outcome : obj) : ptx Job :=
  found ← gets (λ row, ps_jobs row !! jobID);
  match found with
  | None => throw ErrJobNotFound
  | Some j =>
      if negb (bool_decide (j_status j = JobLost)) then throw ErrJobConflict
      else if negb (claimed_by runnerID j) then throw ErrJobNotClaimed
      else match j_result j ≫= λ r, r !! "observed_outcome" with
      | Some (JObj existing) =>
          if jsonbEqual (Some existing) (Some outcome) then mret j else throw ErrJobConflict
      | Some _ => throw ErrJobConflict
      | None =>
          guard_or (jsonb_ok (JObj outcome)) nul_error ;;
          modify (upd_job jobID (attach outcome)) ;; mret (attach outcome j)
      end
  end.

Definition AttachLostOutcome (p jobID runnerID : string) (outcome : option obj) : tx Job :=
  let p := strings_TrimSpace p in
  let jobID := strings_TrimSpace jobID in
  let runnerID := strings_TrimSpace runnerID in
  match outcome with
  | None => throw (badreq "persona_id, job_id, runner_id, and outcome required")
  | Some outcome =>
      lift (check (negb (bool_decide (p = "") || bool_decide (jobID = "")
                         || bool_decide (runnerID = "")))
              "persona_id, job_id, runner_id, and outcome required") ;;
      lift (check (negb (hasNUL (JObj outcome))) "outcome must not contain NUL bytes") ;;
      lift (check (String.length (json_Marshal (JObj outcome)) <=? 65536)
              "outcome too large") ;;
      guard_or (texts_ok [jobID]) (PgData "invalid byte sequence") ;;
      with_persona p ErrJobNotFound (attach_tx jobID runnerID outcome)
  end.

(** ** The job tools *)

Definition j_ostr (o : option string) : json :=
  match o with Some s => JStr s | None => JNull end.

Definition job_json (p : string) (j : Job) : json :=
  JObj (list_to_map
    [("persona_id", JStr p); ("job_id", JStr (j_id j)); ("kind", JStr (j_kind j));
     ("request", JObj (j_request j)); ("status", JStr (job_status_text (j_status j)));
     ("claimed_by", j_ostr (j_claimed_by j)); ("claim_expires_at", j_time (j_claim_expires_at j));
     ("created_by", JStr (j_created_by j)); ("created_at", j_time (Some (j_created_at j)));
     ("started_at", j_time (j_started_at j)); ("finished_at", j_time (j_finished_at j));
     ("cancel_requested_at", j_time (j_cancel_requested_at j));
     ("result", jopt (j_result j)); ("error", j_ostr (j_error j));
     ("notified_at", j_time (j_notified_at j))]).

Definition jobToolErr (e : err) : err :=
  match e with
  | ErrJobNotFound => badreq "job not found"
  | e => dataErr e
  end.
Definition map_err {A} (f : err → err) (m : ptx A) : ptx A := λ row,
  match m row with Ok r => Ok r | Err e => Err (f e) end.

(** [op:<input_id>:<call_index>] *)
Definition tool_job_id (inputID : string) (callIndex : Z) : string :=
  jobToolPrefix +:+ inputID +:+ ":" +:+ itoa callIndex.

Definition start_tool (cfg : StoreConfig) (now : Z) (p turnID inputID tool : string)
    (callIndex : Z) (request : obj) : ptx obj :=
  let kind := if bool_decide (tool = "script.start") then "script" else "subprocess" in
  lift (validateJobRequest kind request) ;;
  guard_or (negb (hasNUL (JObj request)))
    (badreq (tool +:+ " request contains a NUL byte jsonb cannot store")) ;;
  jc ← submitJobTx cfg now (tool_job_id inputID callIndex) kind request
         ("tool:" +:+ turnID +:+ ":" +:+ itoa callIndex);
  mret (list_to_map [("job", job_json p jc.1)]).

Definition named_job (tool : string) (request : obj) : res err string :=
  let jobID := get_str request "job_id" in
  check (negb (bool_decide (jobID = ""))) (tool +:+ " requires job_id") ≫= λ _,
  check (negb (contains_nul jobID)) "job_id contains a NUL byte" ≫= λ _,
  Ok jobID.

Definition internalJobTool (cfg : StoreConfig) (now : Z) (p turnID inputID tool : string)
    (callIndex : Z) (request : obj) : ptx obj :=
  if bool_decide (tool = "job.start" ∨ tool = "script.start") then
    start_tool cfg now p turnID inputID tool callIndex request
  else if bool_decide (tool = "job.status") then
    jobID ← lift (named_job tool request);
    found ← gets (λ row, ps_jobs row !! jobID);
    match found with
    | None => throw (jobToolErr ErrJobNotFound)
    | Some j => mret (list_to_map [("job", job_json p j)])
    end
  else
    jobID ← lift (named_job tool request);
    j ← map_err jobToolErr (cancelJobTx now jobID);
    mret (list_to_map [("job", job_json p j)]).

(** A replayed receipt with the job's state now beside it. *)
Definition current_job (j : Job) : obj :=
  list_to_map
    ([("status", JStr (job_status_text (j_status j)))]
     ++ match exit_code j with Some c => [("exit_code", c)] | None => [] end
     ++ (if bool_decide (job_error j = "") then [] else [("error", JStr (job_error j))])
     ++ match j_finished_at j with
        | Some t => [("finished_at", j_time (Some t))]
        | None => []
        end).
Definition withCurrentJobTx (receipt : option obj) (row : PersonaRow) : option obj :=
  match receipt with
  | None => None
  | Some r =>
      match get_obj r "job" with
      | None => Some r
      | Some jm =>
          match ps_jobs row !! get_str jm "job_id" with
          | None => Some r
          | Some j =>
              if bool_decide (get_str jm "job_id" = "") then Some r
              else Some (<["receipt_note" := JStr "job is this call's original result; current_job is the job's state when this turn resumed"]>
                     (<["current_job" := JObj (current_job j)]> r))
          end
      end
  end.
End jobs.
