(* ===== verification/JobDiscovery.v ===== *)
(** * Job discovery

    [job_discovery.go]: which personas and which jobs a backend should look
    at, page by page behind a cursor, and the sweep of expired claims over all
    personas. *)

From Stdlib Require Import Ascii ZArith Lia.
From stdpp Require Import sorting.
From S2P Require Import Prelude Json State Personas Inputs Journal Usage Approvals Jobs.
Local Open Scope string_scope.
Local Open Scope list_scope.
Local Open Scope Z_scope.

(** ** Keys in order *)

Definition key_cmp (a b : string * string) : comparison :=
  match String.compare a.1 b.1 with Eq => String.compare a.2 b.2 | c => c end.
(** [(persona_id, job_id) > (p, j)] *)
Definition key_lt (a b : string * string) : Prop := key_cmp a b = Lt.
#[global] Instance key_lt_dec : RelDecision key_lt.
Proof. intros a b. unfold key_lt. apply _. Defined.

Abbreviation JobRow := ((string * string) * Job)%type.
Definition row_le (a b : JobRow) : Prop := ¬ key_lt b.1 a.1.
#[global] Instance row_le_dec : RelDecision row_le.
Proof. intros a b. unfold row_le. apply _. Defined.

(** The table [core_jobs]. *)
Definition persona_jobs (pr : string * PersonaRow) : list JobRow :=
  (λ kj, ((pr.1, kj.1), kj.2)) <$> map_to_list (ps_jobs pr.2).
Definition all_jobs (db : DB) : list JobRow := map_to_list (db_personas db) ≫= persona_jobs.
Definition persona_active (db : DB) (p : string) : bool :=
  match db_personas db !! p with
  | Some row => bool_decide (p_authority (ps_persona row) = Active)
  | None => false
  end.

Definition page_limit (limit default : Z) : Z :=
  if (limit <=? 0) || (500 <? limit) then default else limit.
(** A page of rows after the cursor, [ORDER BY persona_id, job_id]. *)
Definition page (P : JobRow → bool) (after : string * string) (n : Z) (rows : list JobRow) : list JobRow :=
  take (Z.to_nat n) (merge_sort row_le (filter (λ r, P r = true ∧ key_lt after r.1) rows)).

Definition need_kinds (kinds : list string) : res err unit :=
  check (negb (bool_decide (kinds = []))) "kinds required".
Definition need_runner (runnerID : string) : res err unit :=
  check (negb (bool_decide (runnerID = ""))) "runner_id required".
Definition texts (l : list string) : res err unit :=
  if texts_ok l then Ok tt else Err (PgData "invalid byte sequence").

(** ** Jobs *)

(** A job of the runner it still has to answer for. *)
Definition observed (j : Job) : bool := bool_decide (is_Some (default ∅ (j_result j) !! "observed_outcome")).
Definition unresolved (runnerID : string) (kinds : list string) (r : JobRow) : bool :=
  bool_decide (j_claimed_by r.2 = Some runnerID) && bool_decide (j_kind r.2 ∈ kinds)
  && (live_status (j_status r.2) || bool_decide (j_status r.2 = JobLost) && negb (observed r.2)).
Definition ClaimJobsNeedingAttention (runnerID : string) (kinds : list string) (limit : Z)
    (after : string * string) (db : DB) : res err (list Job) :=
  _ ← need_runner runnerID; _ ← need_kinds kinds; _ ← texts (runnerID :: after.1 :: after.2 :: kinds);
  Ok (snd <$> page (unresolved runnerID kinds) after (page_limit limit 64) (all_jobs db)).

Definition runnable (kinds : list string) (db : DB) (r : JobRow) : bool :=
  persona_active db r.1.1 && bool_decide (j_status r.2 = JobQueued) && bool_decide (j_kind r.2 ∈ kinds).
Definition RunnableJobs (kinds : list string) (limit : Z) (after : string * string) (db : DB)
    : res err (list Job) :=
  _ ← need_kinds kinds; _ ← texts (after.1 :: after.2 :: kinds);
  Ok (snd <$> page (runnable kinds db) after (page_limit limit 64) (all_jobs db)).

(** ** Personas *)

Definition persona_le (after a b : string) : Prop :=
  (String.ltb after b = true → String.ltb after a = true) ∧
  (String.ltb after a = String.ltb after b → String.leb a b = true).
#[global] Instance persona_le_dec after : RelDecision (persona_le after).
Proof. intros a b. unfold persona_le. apply _. Defined.
(** [ORDER BY (persona_id > after) DESC, persona_id] over distinct ids. *)
Definition rotation (after : string) (ids : list string) : list string :=
  merge_sort (persona_le after) (remove_dups ids).

Definition PersonasWithRunnableJobs (kinds : list string) (limit : Z) (after : string) (db : DB)
    : res err (list string) :=
  _ ← need_kinds kinds; _ ← texts (after :: kinds);
  Ok (take (Z.to_nat (page_limit limit 200))
        (rotation after ((λ r, r.1.1) <$> filter (λ r, runnable kinds db r = true) (all_jobs db)))).

Definition claims_open (runnerID : string) (kinds : list string) (r : JobRow) : bool :=
  bool_decide (j_claimed_by r.2 = Some runnerID) && bool_decide (j_kind r.2 ∈ kinds)
  && (live_status (j_status r.2) || bool_decide (j_status r.2 = JobLost)).
Definition PersonasWithClaimedJobs (runnerID : string) (kinds : list string) (limit : Z)
    (after : string) (db : DB) : res err (list string) :=
  _ ← need_runner runnerID; _ ← need_kinds kinds; _ ← texts (runnerID :: after :: kinds);
  Ok (take (Z.to_nat (page_limit limit 200))
        (rotation after ((λ r, r.1.1) <$> filter (λ r, claims_open runnerID kinds r = true) (all_jobs db)))).

(** ** The global sweep *)

(** [ORDER BY claim_expires_at, persona_id, job_id] *)
Definition expiry (j : Job) : Z := default 0 (j_claim_expires_at j).
Definition expiry_le (a b : JobRow) : Prop :=
  expiry a.2 < expiry b.2 ∨ expiry a.2 = expiry b.2 ∧ row_le a b.
#[global] Instance expiry_le_dec : RelDecision expiry_le.
Proof. intros a b. unfold expiry_le. apply _. Defined.

Section sweep.
Context `{GL : !GoLib}.

Definition expired_page (now : Z) (kinds : list string) (n : Z) (db : DB) : list JobRow :=
  take (Z.to_nat n) (merge_sort expiry_le
    (filter (λ r, claim_expired now r.2 = true ∧ j_kind r.2 ∈ kinds) (all_jobs db))).
Definition sweep_row (now : Z) (r : JobRow) : tx unit :=
  with_persona r.1.1 ErrPersonaNotFound (sweep_job now (r.1.2, r.2)).
Definition SweepExpiredJobs (now : Z) (kinds : list string) (limit : Z) : tx (list Job) :=
  lift (need_kinds kinds) ;;
  lift (texts kinds) ;;
  swept ← gets (expired_page now kinds (page_limit limit 64));
  for_each swept (sweep_row now) ;;
  mret (map (λ r, lose now r.2 <| j_notified_at := Some now |>) swept).
End sweep.
