(* ===== verification/Terminals.v ===== *)
(** * Terminal sessions

    [terminal.go]: a session is requested, claimed by a runner under an
    epoch, active, closing and ended; its inputs are accepted into a ledger
    before they are delivered, its output is kept in a bounded window of
    absolute offsets.  Every runner-side operation runs behind the fence
    [terminalClaimTx].  [internalTerminalTool] is the tool surface. *)

From Stdlib Require Import Ascii ZArith QArith Qcanon Lia.
From Stdlib Require Import Strings.Byte.
From stdpp Require Import sorting.
From S2P Require Import Prelude Json TerminalState State Personas Inputs Journal Usage Approvals.
Local Open Scope string_scope.
Local Open Scope list_scope.
Local Open Scope Z_scope.

Definition terminalMaxSessions : Z := 4.
Definition terminalScrollbackCap : Z := 4194304.
Definition terminalScrollbackKeep : Z := 3145728.
Definition terminalMaxInputBytes : Z := 65536.
Definition terminalMaxControlSecs : Z := 300.
Definition terminalMaxName : Z := 80.
Definition terminalInputListMax : Z := 200.

(** The backends of the deployment. *)
Record TerminalConfig := mkTermConfig {
  cfg_defaultTerminalBackend : string;
  cfg_terminalBackendAvailable : string → bool
}.
Definition terminalBackendDefault (cfg : TerminalConfig) : string :=
  if bool_decide (cfg_defaultTerminalBackend cfg = "") then "local"
  else cfg_defaultTerminalBackend cfg.

Definition terminalLive (s : TermStatus) : bool :=
  match s with TsRequested | TsClaimed | TsActive | TsEnding | TsInterrupted => true | _ => false end.
Definition terminalClaimed (s : TermStatus) : bool :=
  match s with TsClaimed | TsActive | TsEnding => true | _ => false end.

(** [now() + '... milliseconds'] of a lease in nanoseconds. *)
Definition lease_end (now lease : Z) : Z := now + Z.quot lease 1000000 * 1000.

(** [t.ClaimExpiresAt != nil && t.ClaimExpiresAt.After(now)] *)
Definition after_opt (t : option Z) (now : Z) : bool :=
  match t with Some t => now <? t | None => false end.

(** ** Opening a session *)

Definition new_session (now : Z) (sessionID name backend requestedBy createdBy : string)
    : TerminalSession :=
  mkSession sessionID name "pty" backend None TsRequested 0 None None None None requestedBy
    createdBy None None None 0 0 now now None.

Definition live_sessions (row : PersonaRow) : list (string * Term) :=
  filter (λ kt, terminalLive (ts_status (tm_session kt.2)) = true) (map_to_list (ps_terms row)).

(** [core_terminal_sessions_backend_check], [.._requested_by_check] and text
    without NUL; the name's length is checked in bytes before. *)
Definition session_row_ok (name backend requestedBy createdBy : string) : bool :=
  texts_ok [name; backend; requestedBy; createdBy]
  && bool_decide (backend ∈ ["local"; "cloud"])
  && bool_decide (requestedBy ∈ ["agent"; "human"]).

(** What is refused before the persona is looked at. *)
Definition create_refused (cfg : TerminalConfig) (name : string) : option err :=
  if terminalMaxName <? String.length name then Some (badreq "terminal name too long")
  else if negb (cfg_terminalBackendAvailable cfg (terminalBackendDefault cfg))
  then Some (ErrTerminalBackend (terminalBackendDefault cfg))
  else None.

(** [newID] is the [uuid.NewV7] of the call. *)
Definition createTerminalSessionTx (cfg : TerminalConfig) (now : Z) (newID name requestedBy
    createdBy : string) : ptx TerminalSession := λ row,
  let backend := terminalBackendDefault cfg in
  match create_refused cfg name with
  | Some e => Err e
  | None =>
      if negb (bool_decide (p_authority (ps_persona row) = Active))
      then Err (inactiveAuthorityError (authority_text (p_authority (ps_persona row))))
      else if terminalMaxSessions <=? length (live_sessions row) then Err ErrTerminalCapacity
      else if negb (session_row_ok name backend requestedBy createdBy)
      then Err (PgData "core_terminal_sessions")
      else match ps_terms row !! newID with
      | Some _ => Err (PgError "core_terminal_sessions_pkey")
      | None =>
          let s := new_session now newID name backend requestedBy createdBy in
          Ok (s, row <| ps_terms ::= <[newID := mkTerm s [] []]> |>)
      end
  end.

Definition CreateTerminalSession (cfg : TerminalConfig) (now : Z) (newID p name requestedBy
    createdBy : string) : tx TerminalSession :=
  with_persona p (default ErrPersonaNotFound (create_refused cfg name))
    (createTerminalSessionTx cfg now newID name requestedBy createdBy).

(** ** Reading and locking *)

(** No such session: an id that is no [uuidv7] fails the cast. *)
Definition no_session (sessionID : string) : err :=
  if uuidv7Re sessionID then ErrTerminalNotFound else dataErr (PgData "uuidv7_check").

Definition lockTerminalSessionTx (sessionID : string) : ptx Term := λ row,
  if negb (uuidv7Re sessionID) then Err (no_session sessionID)
  else match ps_terms row !! sessionID with
  | None => Err ErrTerminalNotFound
  | Some t => Ok (t, row)
  end.

Definition GetTerminalSession (sessionID : string) (row : PersonaRow) : res err Term :=
  if negb (uuidv7Re sessionID) then Err (PgData "uuidv7_check")
  else match ps_terms row !! sessionID with
  | None => Err ErrTerminalNotFound
  | Some t => Ok t
  end.

(** [ORDER BY created_at]; the order of equal times is the id's. *)
Definition session_le (a b : string * Term) : Prop :=
  ts_created_at (tm_session a.2) < ts_created_at (tm_session b.2)
  ∨ (ts_created_at (tm_session a.2) = ts_created_at (tm_session b.2) ∧ String.leb a.1 b.1 = true).
#[global] Instance session_le_dec : RelDecision session_le.
Proof. intros a b. unfold session_le. apply _. Defined.

Definition ListTerminalSessions (row : PersonaRow) : list TerminalSession :=
  (tm_session ∘ snd) <$> merge_sort session_le (map_to_list (ps_terms row)).

Definition put_term (sessionID : string) (t : Term) (row : PersonaRow) : PersonaRow :=
  row <| ps_terms ::= <[sessionID := t]> |>.
Definition set_session (f : TerminalSession → TerminalSession) (t : Term) : Term :=
  t <| tm_session ::= f |>.

(** ** Accepting input *)

Definition control_held (now : Z) (s : TerminalSession) : bool :=
  bool_decide (ts_control_holder s = Some "human") && after_opt (ts_control_until s) now.

Definition validateTerminalInput (kind : string) (payload : obj) : res err unit :=
  if bool_decide (kind = "stdin") then
    let data := get_str payload "data" in
    if bool_decide (data = "") then Err (badreq "stdin input requires data")
    else check (String.length data <=? terminalMaxInputBytes)
           ("stdin input exceeds " +:+ itoa terminalMaxInputBytes +:+ " bytes")
  else if bool_decide (kind = "resize") then
    check (num_between 2 1000 (payload !! "cols") && num_between 2 500 (payload !! "rows"))
      "resize requires cols 2..1000 and rows 2..500"
  else if bool_decide (kind = "signal") then
    check (bool_decide (get_str payload "signal" ∈ terminalSignalAllowlist)) "signal not permitted"
  else check (bool_decide (kind = "eof")) "unknown input kind".

Definition new_tinput (now : Z) (newID : string) (epoch seq : Z) (kind : string) (payload : obj)
    (source : string) : TerminalInput :=
  mkTInput newID epoch seq kind payload source TiIntended None now now.

(** Whether a session in this status still takes input. *)
Definition input_refused (s : TermStatus) : option err :=
  match s with
  | TsEnded | TsLost => Some ErrTerminalEnded
  | TsRequested | TsClaimed | TsActive | TsInterrupted => None
  | TsEnding => Some ErrTerminalNotLive
  end.

Definition submitTerminalInputTx (now : Z) (newID sessionID source kind : string) (payload : obj)
    : ptx TerminalInput :=
  t ← lockTerminalSessionTx sessionID;
  match input_refused (ts_status (tm_session t)) with
  | Some e => throw e
  | None =>
      if bool_decide (source = "agent") && control_held now (tm_session t)
      then throw ErrTerminalControl
      else
        lift (validateTerminalInput kind payload) ;;
        guard_or (jsonb_ok (JObj payload)) (dataErr nul_error) ;;
        let i := new_tinput now newID (ts_epoch (tm_session t)) (max_seq ti_seq (tm_inputs t) + 1)
                   kind payload source in
        modify (put_term sessionID (t <| tm_inputs ::= λ l, l ++ [i] |>)) ;;
        mret i
  end.

Definition SubmitTerminalInput (now : Z) (newID p sessionID source kind : string) (payload : obj)
    : tx TerminalInput :=
  guard_or (bool_decide (source = "agent" ∨ source = "human")) (badreq "invalid input source") ;;
  with_persona p (no_session sessionID)
    (submitTerminalInputTx now newID sessionID source kind payload).

(** ** Exclusive human control *)

(** The lease in nanoseconds, and the whole seconds of it that are kept. *)
Definition control_lease (lease : Z) : Z :=
  let max := terminalMaxControlSecs * 1000000000 in
  if (lease <=? 0) || (max <? lease) then max else lease.

Definition SetTerminalControl_tx (now : Z) (sessionID : string) (hold : bool) (lease : Z)
    : ptx TerminalSession :=
  t ← lockTerminalSessionTx sessionID;
  if term_over (ts_status (tm_session t)) then throw ErrTerminalEnded
  else
    let t := set_session (λ s, (if hold
      then s <| ts_control_holder := Some "human" |>
             <| ts_control_until := Some (now + Z.quot (control_lease lease) 1000000000 * 1000000) |>
      else s <| ts_control_holder := None |> <| ts_control_until := None |>)
      <| ts_updated_at := now |>) t in
    modify (put_term sessionID t) ;; mret (tm_session t).

Definition SetTerminalControl (now : Z) (p sessionID : string) (hold : bool) (lease : Z)
    : tx TerminalSession :=
  with_persona p (no_session sessionID) (SetTerminalControl_tx now sessionID hold lease).

(** ** Closing and ending *)

Section ending.
Context `{GL : !GoLib}.

Definition terminal_ended_payload (s : TerminalSession) : obj :=
  list_to_map
    ([("session_id", JStr (ts_id s)); ("status", JStr (term_status_text (ts_status s)));
      ("end_reason", JStr (default "" (ts_end_reason s)));
      ("text", JStr ("Terminal session " +:+ strconv_Quote (ts_name s) +:+ " ended ("
                     +:+ default "" (ts_end_reason s) +:+ ")."))]
     ++ (match ts_exit_code s with Some c => [("exit_code", jint c)] | None => [] end)
     ++ (if bool_decide (default "" (ts_exit_signal s) = "") then []
         else [("exit_signal", JStr (default "" (ts_exit_signal s)))])).

Definition terminal_ended_input (now : Z) (s : TerminalSession) (seq : Z) : Input :=
  mkInput (terminalInputPrefix +:+ ts_id s) "terminal_ended" (terminal_ended_payload s) "terminal"
    (ts_id s) "core_terminal_sessions" "" None "reply" Queued None None now None None None seq
    None 0.

Definition notifyTerminalEndedTx (now : Z) (s : TerminalSession) : ptx unit := λ row,
  if jsonb_ok (JObj (terminal_ended_payload s)) then
    match insert_input (terminal_ended_input now s) row with
    | Ok (_, row') => Ok (tt, row')
    | Err e => Err e
    end
  else Err (dataErr nul_error).

(** The session and its ledger when it ends: rows never taken expire, rows
    taken and not reported are unknown. *)
Definition end_session (now : Z) (st : TermStatus) (reason : string) (exitCode : option Z)
    (exitSignal : string) (s : TerminalSession) : TerminalSession :=
  mkSession (ts_id s) (ts_name s) (ts_mode s) (ts_backend s) (ts_operation_id s) st (ts_epoch s)
    None None (ts_control_holder s) (ts_control_until s) (ts_requested_by s) (ts_created_by s)
    exitCode (Some exitSignal) (Some reason) (ts_output_bytes s) (ts_output_base s)
    (ts_created_at s) now (Some now).
Definition end_input (now : Z) (i : TerminalInput) : TerminalInput :=
  match ti_status i with
  | TiIntended => i <| ti_status := TiExpired |> <| ti_updated_at := now |>
  | TiDequeued => i <| ti_status := TiUnknown |> <| ti_updated_at := now |>
  | _ => i
  end.
Definition end_term (now : Z) (st : TermStatus) (reason : string) (exitCode : option Z)
    (exitSignal : string) (t : Term) : Term :=
  t <| tm_session ::= end_session now st reason exitCode exitSignal |>
    <| tm_inputs ::= map (end_input now) |>.

(** [exit_code] is an [integer] column. *)
Definition int4_ok (n : option Z) : bool :=
  match n with Some n => (-2147483648 <=? n) && (n <=? 2147483647) | None => true end.

Definition endTerminalSessionTx (now : Z) (sessionID : string) (st : TermStatus) (reason : string)
    (exitCode : option Z) (exitSignal : string) (t : Term) : ptx TerminalSession :=
  guard_or (texts_ok [reason; exitSignal]) (dataErr nul_error) ;;
  guard_or (int4_ok exitCode) (PgError "unable to encode int4") ;;
  let t' := end_term now st reason exitCode exitSignal t in
  modify (put_term sessionID t') ;;
  notifyTerminalEndedTx now (tm_session t') ;;
  mret (tm_session t').

Definition live_claim (now : Z) (s : TerminalSession) : bool :=
  terminalClaimed (ts_status s) && after_opt (ts_claim_expires_at s) now.

(** The close both the person's route and the tool request. *)
Definition close_tx (now : Z) (sessionID reason : string) : ptx TerminalSession :=
  t ← lockTerminalSessionTx sessionID;
  let s := tm_session t in
  if term_over (ts_status s) then mret s
  else if live_claim now s then
    modify (put_term sessionID (set_session (λ s, s <| ts_status := TsEnding |>
      <| ts_updated_at := now |>) t)) ;;
    mret (s <| ts_status := TsEnding |>)
  else if bool_decide (ts_status s = TsRequested) then
    endTerminalSessionTx now sessionID TsEnded reason None "" t
  else
    modify (put_term sessionID (set_session (λ s, s <| ts_status := TsEnding |>
      <| ts_claimed_by := None |> <| ts_claim_expires_at := None |>
      <| ts_updated_at := now |>) t)) ;;
    mret (s <| ts_status := TsEnding |> <| ts_claimed_by := None |>
            <| ts_claim_expires_at := None |>).

Definition CloseTerminalSession (now : Z) (p sessionID reason : string) : tx TerminalSession :=
  with_persona p (no_session sessionID)
    (close_tx now sessionID (if bool_decide (reason = "") then "closed" else reason)).
End ending.

(** ** Claiming *)

Definition claimLogicalRunner (runnerID : string) : string :=
  match String.index 0 "#" runnerID with
  | Some i => str_take i runnerID
  | None => runnerID
  end.

(** The claims of any incarnation of a logical runner. *)
Definition of_runner (logical claimant : string) : bool :=
  bool_decide (claimant = logical) || HasPrefix claimant (logical +:+ "#").

(** The sessions a claim takes: nobody's, or a stale incarnation's of the
    same logical runner. *)
Definition session_claimable (runnerID : string) (s : TerminalSession) : bool :=
  bool_decide (ts_status s = TsRequested ∨ ts_status s = TsInterrupted)
  || (bool_decide (ts_status s = TsEnding) && bool_decide (ts_claimed_by s = None))
  || match ts_claimed_by s with
     | Some c => negb (bool_decide (c = runnerID)) && terminalClaimed (ts_status s)
                 && of_runner (claimLogicalRunner runnerID) c
     | None => false
     end.

(** Expired claims of one backend, or of any when none is named. *)
Definition claim_lapsed (now : Z) (backend : string) (s : TerminalSession) : bool :=
  terminalClaimed (ts_status s)
  && (bool_decide (backend = "") || bool_decide (ts_backend s = backend))
  && match ts_claim_expires_at s with Some t => t <=? now | None => false end.
Definition sweep_session (now : Z) (s : TerminalSession) : TerminalSession :=
  s <| ts_status := if bool_decide (ts_status s = TsEnding) then TsEnding else TsInterrupted |>
    <| ts_claimed_by := None |> <| ts_claim_expires_at := None |> <| ts_updated_at := now |>.
Definition sweep_term (now : Z) (backend : string) (t : Term) : Term :=
  if claim_lapsed now backend (tm_session t) then set_session (sweep_session now) t else t.

(** The interrupted sessions come first, then the closing ones. *)
Definition sweepTerminalExpiredTx (now : Z) (backend : string) : ptx (list TerminalSession) := λ row,
  let lapsed st := filter (λ kt, claim_lapsed now backend (tm_session kt.2) = true
                                 ∧ bool_decide (ts_status (tm_session kt.2) = TsEnding) = st)
                     (map_to_list (ps_terms row)) in
  let swept := lapsed false ++ lapsed true in
  Ok ((λ kt, sweep_session now (tm_session kt.2)) <$> swept,
      row <| ps_terms ::= fmap (sweep_term now backend) |>).

Definition SweepExpiredTerminalClaims (now : Z) (p : string) : tx (list TerminalSession) :=
  with_persona_or p [] (sweepTerminalExpiredTx now "").

(** A claim: the epoch rises, what was taken and not reported becomes
    unknown, what is still intended is restamped. *)
Definition claim_session (now : Z) (runnerID : string) (lease : Z) (s : TerminalSession)
    : TerminalSession :=
  s <| ts_status := if bool_decide (ts_status s = TsEnding) then TsEnding else TsClaimed |>
    <| ts_epoch := ts_epoch s + 1 |> <| ts_claimed_by := Some runnerID |>
    <| ts_claim_expires_at := Some (lease_end now lease) |> <| ts_updated_at := now |>.
Definition claim_tinput (now epoch : Z) (i : TerminalInput) : TerminalInput :=
  if ti_epoch i <? epoch then
    match ti_status i with
    | TiDequeued => i <| ti_status := TiUnknown |> <| ti_updated_at := now |>
    | TiIntended => i <| ti_epoch := epoch |> <| ti_updated_at := now |>
    | _ => i
    end
  else i.
Definition claim_term (now : Z) (runnerID : string) (lease : Z) (t : Term) : Term :=
  t <| tm_session ::= claim_session now runnerID lease |>
    <| tm_inputs ::= map (claim_tinput now (ts_epoch (tm_session t) + 1)) |>.

Definition session_candidates (runnerID backend : string) (limit : Z) (row : PersonaRow)
    : list (string * Term) :=
  take (Z.to_nat limit) (merge_sort session_le
    (filter (λ kt, bool_decide (ts_backend (tm_session kt.2) = backend)
                   && session_claimable runnerID (tm_session kt.2) = true)
       (map_to_list (ps_terms row)))).

(** The candidates in turn; a row that no longer qualifies is passed over.
    The epoch stays within its column ([epoch >= 0] on a 64-bit integer). *)
Fixpoint claim_candidates (now : Z) (runnerID : string) (lease : Z) (cands : list (string * Term))
    : ptx (list TerminalSession) :=
  match cands with
  | [] => mret []
  | (sessionID, _) :: cands =>
      found ← gets (λ row, ps_terms row !! sessionID);
      match found with
      | Some t =>
          if session_claimable runnerID (tm_session t) then
            guard_or (ts_epoch (tm_session t) <? MaxInt64)
              (dataErr (PgData "core_terminal_sessions_epoch_check")) ;;
            modify (put_term sessionID (claim_term now runnerID lease t)) ;;
            claimed ← claim_candidates now runnerID lease cands;
            mret (tm_session (claim_term now runnerID lease t) :: claimed)
          else claim_candidates now runnerID lease cands
      | None => claim_candidates now runnerID lease cands
      end
  end.

Definition claim_terms_tx (now : Z) (runnerID backend : string) (lease limit : Z)
    : ptx (list TerminalSession * list TerminalSession) :=
  a ← gets (λ row, p_authority (ps_persona row));
  if negb (bool_decide (a = Active)) then mret ([], [])
  else
    guard_or (texts_ok [runnerID; backend]) (dataErr nul_error) ;;
    interrupted ← sweepTerminalExpiredTx now backend;
    let limit := if limit <=? 0 then 1 else limit in
    cands ← gets (session_candidates runnerID backend limit);
    claimed ← claim_candidates now runnerID lease cands;
    mret (claimed, interrupted).

Definition ClaimTerminalSessions (now : Z) (p runnerID backend : string) (lease limit : Z)
    : tx (list TerminalSession * list TerminalSession) :=
  with_persona p (PgError "no rows in result set") (claim_terms_tx now runnerID backend lease limit).

Definition id_le (a b : string) : Prop := String.leb a b = true.
#[global] Instance id_le_dec : RelDecision id_le.
Proof. intros a b. unfold id_le. apply _. Defined.

Definition RunnableTerminalPersonas (now : Z) (runnerID backend : string) (limit : Z) (db : DB)
    : list string :=
  let runnable s :=
    bool_decide (ts_backend s = backend)
    && (bool_decide (ts_status s = TsRequested ∨ ts_status s = TsInterrupted)
        || (bool_decide (ts_status s = TsEnding) && bool_decide (ts_claimed_by s = None))
        || (match ts_claimed_by s with Some c => of_runner runnerID c | None => false end
            && terminalClaimed (ts_status s))
        || (terminalClaimed (ts_status s)
            && match ts_claim_expires_at s with Some t => t <=? now | None => false end)) in
  let holds row := bool_decide (p_authority (ps_persona row) = Active)
    && existsb (λ kt, runnable (tm_session kt.2)) (map_to_list (ps_terms row)) in
  take (Z.to_nat (if limit <=? 0 then 64 else limit))
    (merge_sort id_le
       ((filter (λ kr, holds kr.2 = true) (map_to_list (db_personas db))).*1)).

Definition OwnedTerminalSessions (runnerID : string) (row : PersonaRow) : list TerminalSession :=
  (tm_session ∘ snd) <$> merge_sort session_le
    (filter (λ kt, bool_decide (ts_claimed_by (tm_session kt.2) = Some runnerID)
                   && terminalClaimed (ts_status (tm_session kt.2)) = true)
       (map_to_list (ps_terms row))).

(** ** The runner's fence *)

Definition holds_claim (now : Z) (runnerID : string) (epoch : Z) (s : TerminalSession) : bool :=
  (ts_epoch s =? epoch) && bool_decide (default "" (ts_claimed_by s) = runnerID)
  && terminalClaimed (ts_status s) && after_opt (ts_claim_expires_at s) now.

Definition terminalClaimTx {A} (now : Z) (sessionID runnerID : string) (epoch : Z)
    (fn : Term → ptx A) : ptx (A * TerminalSession) :=
  t ← lockTerminalSessionTx sessionID;
  if negb (holds_claim now runnerID epoch (tm_session t)) then throw ErrTerminalNotClaimed
  else
    a ← fn t;
    fresh ← lockTerminalSessionTx sessionID;
    mret (a, tm_session fresh).

(** A launch is admitted for an active persona and the claim that holds the
    session; [fn] is the call that starts the process. *)
Definition WithTerminalLaunchFence (now : Z) (sessionID runnerID : string) (epoch : Z)
    (fn : res err unit) : ptx unit :=
  a ← gets (λ row, p_authority (ps_persona row));
  if negb (bool_decide (a = Active)) then throw ErrTerminalLaunchFenced
  else
    t ← lockTerminalSessionTx sessionID;
    let s := tm_session t in
    if bool_decide (ts_status s = TsClaimed ∨ ts_status s = TsActive)
       && bool_decide (default "" (ts_claimed_by s) = runnerID) && (ts_epoch s =? epoch)
       && after_opt (ts_claim_expires_at s) now
    then lift fn else throw ErrTerminalLaunchFenced.

Definition HeartbeatTerminalSession_tx (now : Z) (sessionID runnerID : string) (epoch lease : Z)
    : ptx TerminalSession :=
  '(_, s) ← terminalClaimTx now sessionID runnerID epoch (λ t,
    if bool_decide (ts_claimed_by (tm_session t) = Some runnerID) then
      modify (put_term sessionID (set_session (λ s, s
        <| ts_claim_expires_at := Some (lease_end now lease) |> <| ts_updated_at := now |>) t))
    else throw ErrTerminalNotClaimed);
  mret s.

(** ** The ledger behind the fence *)

Definition ListTerminalInputs (sessionID : string) (afterSeq limit : Z) (row : PersonaRow)
    : res err (list TerminalInput) :=
  match GetTerminalSession sessionID row with
  | Err e => Err e
  | Ok t =>
      let limit := if (limit <=? 0) || (terminalInputListMax <? limit)
                   then terminalInputListMax else limit in
      Ok (take (Z.to_nat limit) (filter (λ i, afterSeq < ti_seq i) (tm_inputs t)))
  end.

Definition pending_inputs (epoch : Z) (t : Term) : list TerminalInput :=
  filter (λ i, ti_epoch i = epoch ∧ ti_status i = TiIntended) (tm_inputs t).
Definition PendingTerminalInputs_tx (now : Z) (sessionID runnerID : string) (epoch : Z)
    : ptx (list TerminalInput) :=
  '(l, _) ← terminalClaimTx now sessionID runnerID epoch (λ t, mret (pending_inputs epoch t));
  mret l.

Definition resolve_dequeued (now epoch : Z) (i : TerminalInput) : TerminalInput :=
  if bool_decide (ti_epoch i = epoch ∧ ti_status i = TiDequeued)
  then i <| ti_status := TiUnknown |> <| ti_updated_at := now |> else i.
Definition ResolveDequeuedTerminalInputs_tx (now : Z) (sessionID runnerID : string) (epoch : Z)
    : ptx Z :=
  '(n, _) ← terminalClaimTx now sessionID runnerID epoch (λ t,
    modify (put_term sessionID (t <| tm_inputs ::= map (resolve_dequeued now epoch) |>)) ;;
    mret (Z.of_nat (length (filter (λ i, ti_epoch i = epoch ∧ ti_status i = TiDequeued)
                              (tm_inputs t)))));
  mret n.

Definition disposition (status : string) : option TInputStatus :=
  if bool_decide (status = "dequeued") then Some TiDequeued
  else if bool_decide (status = "written") then Some TiWritten
  else if bool_decide (status = "failed") then Some TiFailed
  else if bool_decide (status = "unknown") then Some TiUnknown
  else None.

Definition dispose (now : Z) (inputID : string) (epoch : Z) (st : TInputStatus)
    (detail : option obj) (i : TerminalInput) : TerminalInput :=
  if bool_decide (ti_id i = inputID ∧ ti_epoch i = epoch) && tinput_open (ti_status i)
  then i <| ti_status := st |> <| ti_detail := detail |> <| ti_updated_at := now |> else i.

(** The update's RETURNING row; [input_id] is the primary key. *)
Definition ReportTerminalInputDisposition_tx (now : Z) (sessionID inputID runnerID : string)
    (epoch : Z) (status : string) (detail : option obj) : ptx TerminalInput :=
  match disposition status with
  | None => throw (badreq "invalid input disposition")
  | Some st =>
      '(i, _) ← terminalClaimTx now sessionID runnerID epoch (λ t,
        guard_or (texts_ok [inputID] && jsonb_ok (JObj (default ∅ detail))) nul_error ;;
        match List.find (λ i, bool_decide (ti_id i = inputID ∧ ti_epoch i = epoch)
                              && tinput_open (ti_status i)) (tm_inputs t) with
        | None => throw ErrTerminalNotClaimed
        | Some i =>
            modify (put_term sessionID
                      (t <| tm_inputs ::= map (dispose now inputID epoch st detail) |>)) ;;
            mret (dispose now inputID epoch st detail i)
        end);
      mret i
  end.

(** ** Output *)

(** A chunk as a runner reports it; any kind but [gap] is data. *)
Record OutputReq := mkOutReq {
  or_kind : string;
  or_base : Z;
  or_gap_to : option Z;
  or_data : list byte
}.

(** [INSERT ... ON CONFLICT (session_id, base, kind) DO NOTHING], with the
    CHECK constraints of [core_terminal_output]. *)
Definition insert_chunk (c : TerminalOutputChunk) (out : list TerminalOutputChunk)
    : res err (list TerminalOutputChunk) :=
  if (oc_base c <? 0) || match oc_gap_to c with Some g => g <? oc_base c | None => false end
  then Err (dataErr (PgData "core_terminal_output_check"))
  else if existsb (λ d, bool_decide (oc_base d = oc_base c ∧ oc_kind d = oc_kind c)) out
  then Ok out
  else Ok (out ++ [c]).

(** The loop of [AppendTerminalOutput]: the last sequence number, the
    stream's high-water mark and the rows. *)
Fixpoint append_chunks (now seq high : Z) (out : list TerminalOutputChunk)
    (chunks : list OutputReq) : res err (Z * list TerminalOutputChunk) :=
  match chunks with
  | [] => Ok (high, out)
  | c :: chunks =>
      let seq := seq + 1 in
      if bool_decide (or_kind c = "gap") then
        let gapTo := default (or_base c) (or_gap_to c) in
        match insert_chunk (mkOut seq CkGap (or_base c) (Some gapTo) [] now) out with
        | Ok out => append_chunks now seq (Z.max high gapTo) out chunks
        | Err e => Err e
        end
      else
        let skip := if or_base c <? high then int64 (high - or_base c) else 0 in
        if length (or_data c) <=? skip then append_chunks now seq high out chunks
        else if skip <? 0 then Err (PgError "panic: slice bounds out of range")
        else
          let data := drop (Z.to_nat skip) (or_data c) in
          let base := if or_base c <? high then high else or_base c in
          match insert_chunk (mkOut seq CkData base None data now) out with
          | Ok out => append_chunks now seq (Z.max high (int64 (base + length data))) out chunks
          | Err e => Err e
          end
  end.

Definition is_data (c : TerminalOutputChunk) : bool := bool_decide (oc_kind c = CkData).
Definition oc_size (c : TerminalOutputChunk) : Z := length (oc_data c).
Definition retained (out : list TerminalOutputChunk) : Z :=
  foldr (λ c n, oc_size c + n) 0 (filter (λ c, is_data c = true) out).

Definition base_le (a b : TerminalOutputChunk) : Prop := oc_base a ≤ oc_base b.
#[global] Instance base_le_dec : RelDecision base_le.
Proof. intros a b. unfold base_le. apply _. Defined.

Definition trim_chunk (trim : Z) (c : TerminalOutputChunk) : TerminalOutputChunk :=
  c <| oc_base := oc_base c + trim |> <| oc_data := drop (Z.to_nat trim) (oc_data c) |>.

(** The loop of [pruneTerminalOutputTx] over the data chunks in base order:
    whole chunks are deleted, the straddling one loses its head (data chunks
    are disjoint, so its new base is free). *)
Fixpoint prune_chunks (target removed newBase : Z) (out ordered : list TerminalOutputChunk)
    : Z * list TerminalOutputChunk :=
  match ordered with
  | [] => (newBase, out)
  | c :: ordered =>
      if target <=? removed then (newBase, out)
      else if removed + oc_size c <=? target then
        prune_chunks target (removed + oc_size c) (oc_base c + oc_size c)
          (filter (λ d, oc_seq d ≠ oc_seq c) out) ordered
      else
        let trim := target - removed in
        prune_chunks target (removed + trim) (oc_base c + trim)
          (map (λ d, if bool_decide (oc_seq d = oc_seq c) then trim_chunk trim d else d) out) ordered
  end.

Definition pruneTerminalOutputTx (t : Term) : Term :=
  let out := tm_output t in
  if retained out <=? terminalScrollbackCap then t
  else
    let ordered := merge_sort base_le (filter (λ c, is_data c = true) out) in
    let '(newBase, out) :=
      prune_chunks (retained out - terminalScrollbackKeep) 0 (ts_output_base (tm_session t))
        out ordered in
    t <| tm_session ::= λ s, s <| ts_output_base ::= Z.max newBase |> |> <| tm_output := out |>.

(** The append on a session that holds the claim. *)
Definition append_output (now : Z) (chunks : list OutputReq) (t : Term) : res err Term :=
  match append_chunks now (max_seq oc_seq (tm_output t)) (ts_output_bytes (tm_session t))
          (tm_output t) chunks with
  | Err e => Err e
  | Ok (high, out) =>
      Ok (pruneTerminalOutputTx
        (t <| tm_session ::= λ s, s <| ts_output_bytes ::= Z.max high |> <| ts_updated_at := now |> |>
           <| tm_output := out |>))
  end.

Definition AppendTerminalOutput_tx (now : Z) (sessionID runnerID : string) (epoch : Z)
    (chunks : list OutputReq) : ptx TerminalSession :=
  '(_, s) ← terminalClaimTx now sessionID runnerID epoch (λ t,
    t' ← lift (append_output now chunks t);
    modify (put_term sessionID t'));
  mret s.

(** *** Reading *)

Record TerminalOutputRead := mkRead {
  rd_base : Z;
  rd_cursor : Z;
  rd_next_cursor : Z;
  rd_event_cursor : Z;
  rd_chunks : list TerminalOutputChunk;
  rd_gap : bool;
  rd_eof : bool
}.

(** What the read's WHERE selects: bytes above the cursor, and loss markers
    not yet consumed. *)
Definition chunk_wanted (cursor eventCursor : Z) (c : TerminalOutputChunk) : bool :=
  (cursor <? Z.max (oc_base c + oc_size c) (default 0 (oc_gap_to c)))
  || (bool_decide (oc_kind c = CkGap) && bool_decide (oc_gap_to c = Some (oc_base c))
      && (eventCursor <? oc_seq c)).

Definition page (cursor eventCursor limit : Z) (out : list TerminalOutputChunk)
    : list TerminalOutputChunk :=
  take (Z.to_nat (limit + 1)) (filter (λ c, chunk_wanted cursor eventCursor c = true) out).

Definition chunk_end (c : TerminalOutputChunk) : Z :=
  match oc_kind c, oc_gap_to c with
  | CkGap, Some g => g
  | _, _ => oc_base c + oc_size c
  end.
Definition next_cursor (cursor : Z) (l : list TerminalOutputChunk) : Z :=
  foldl (λ n c, Z.max n (chunk_end c)) cursor l.
Definition next_event (eventCursor : Z) (l : list TerminalOutputChunk) : Z :=
  foldl (λ n c, Z.max n (oc_seq c)) eventCursor l.

Definition read_term (cursor eventCursor limit : Z) (t : Term) : TerminalOutputRead :=
  let s := tm_session t in
  let cursor := if cursor <? 0 then 0 else cursor in
  let eventCursor := if eventCursor <? 0 then 0 else eventCursor in
  let limit := if (limit <=? 0) || (64 <? limit) then 32 else limit in
  let cursor := if cursor =? 0 then ts_output_base s else cursor in
  let l := page cursor eventCursor limit (tm_output t) in
  mkRead (ts_output_base s) cursor (next_cursor cursor l) (next_event eventCursor l) l
    (cursor <? ts_output_base s)
    (negb (terminalLive (ts_status s)) && (ts_output_bytes s <=? next_cursor cursor l)).

Definition ReadTerminalOutput (sessionID : string) (cursor eventCursor limit : Z) (row : PersonaRow)
    : res err TerminalOutputRead :=
  match GetTerminalSession sessionID row with
  | Err e => Err e
  | Ok t => Ok (read_term cursor eventCursor limit t)
  end.

(** ** Reporting the session's course *)

Definition report_status (status : string) : option TermStatus :=
  if bool_decide (status = "active") then Some TsActive
  else if bool_decide (status = "ended") then Some TsEnded
  else if bool_decide (status = "lost") then Some TsLost
  else None.

Section tool.
Context `{GL : !GoLib}.

Definition ReportTerminalStatus_tx (now : Z) (sessionID runnerID : string) (epoch : Z)
    (status reason : string) (exitCode : option Z) (exitSignal operationID : string)
    : ptx TerminalSession :=
  match report_status status with
  | None => throw (badreq "invalid session status report")
  | Some st =>
      '(_, s) ← terminalClaimTx now sessionID runnerID epoch (λ t,
        if bool_decide (st = TsActive) then
          guard_or (texts_ok [operationID]) (dataErr nul_error) ;;
          modify (put_term sessionID (set_session (λ s, s
            <| ts_status := if bool_decide (ts_status s = TsEnding) then TsEnding else TsActive |>
            <| ts_operation_id := Some operationID |> <| ts_updated_at := now |>) t))
        else endTerminalSessionTx now sessionID st reason exitCode exitSignal t ;; mret tt);
      mret s
  end.

(** ** The tool surface *)

(** [base64.StdEncoding.EncodeToString] *)
Definition b64_char (n : Z) : ascii :=
  Ascii.ascii_of_nat (Z.to_nat
    (if n <? 26 then 65 + n else if n <? 52 then 71 + n else if n <? 62 then n - 4
     else if n =? 62 then 43 else 47)).
Fixpoint base64 (l : list ascii) : string :=
  let v c := Z.of_nat (Ascii.nat_of_ascii c) in
  match l with
  | a :: b :: c :: l =>
      let n := Z.lor (Z.shiftl (v a) 16) (Z.lor (Z.shiftl (v b) 8) (v c)) in
      String (b64_char (Z.shiftr n 18)) (String (b64_char (Z.land (Z.shiftr n 12) 63))
        (String (b64_char (Z.land (Z.shiftr n 6) 63)) (String (b64_char (Z.land n 63)) (base64 l))))
  | [a; b] =>
      let n := Z.lor (Z.shiftl (v a) 16) (Z.shiftl (v b) 8) in
      String (b64_char (Z.shiftr n 18)) (String (b64_char (Z.land (Z.shiftr n 12) 63))
        (String (b64_char (Z.land (Z.shiftr n 6) 63)) "="))
  | [a] =>
      let n := Z.shiftl (v a) 16 in
      String (b64_char (Z.shiftr n 18)) (String (b64_char (Z.land (Z.shiftr n 12) 63)) "==")
  | [] => ""
  end.

(** [int64(f)] of a [float64]: truncation; out of range it is the least
    integer, as on amd64. *)
Definition float_int (q : Qc) : Z :=
  let n := Z.quot (Qnum (this q)) (Zpos (Qden (this q))) in
  if (MinInt64 <=? n) && (n <=? MaxInt64) then n else MinInt64.
Definition get_int (m : obj) (k : string) (d : Z) : Z :=
  match m !! k with Some (JNum q) => float_int q | _ => d end.

(** [omitempty] *)
Definition opt_str (k : string) (v : option string) : list (string * json) :=
  if bool_decide (default "" v = "") then [] else [(k, JStr (default "" v))].
Definition opt_time (k : string) (v : option Z) : list (string * json) :=
  match v with Some t => [(k, JStr (time_Marshal t))] | None => [] end.

Definition session_json (p : string) (s : TerminalSession) : json :=
  JObj (list_to_map
    ([("session_id", JStr (ts_id s)); ("persona_id", JStr p); ("name", JStr (ts_name s));
      ("mode", JStr (ts_mode s)); ("backend", JStr (ts_backend s))]
     ++ opt_str "operation_id" (ts_operation_id s)
     ++ [("status", JStr (term_status_text (ts_status s))); ("epoch", jint (ts_epoch s))]
     ++ opt_str "claimed_by" (ts_claimed_by s)
     ++ opt_time "claim_expires_at" (ts_claim_expires_at s)
     ++ opt_str "control_holder" (ts_control_holder s)
     ++ opt_time "control_until" (ts_control_until s)
     ++ [("requested_by", JStr (ts_requested_by s)); ("created_by", JStr (ts_created_by s))]
     ++ (match ts_exit_code s with Some c => [("exit_code", jint c)] | None => [] end)
     ++ opt_str "exit_signal" (ts_exit_signal s) ++ opt_str "end_reason" (ts_end_reason s)
     ++ [("output_bytes", jint (ts_output_bytes s)); ("output_base", jint (ts_output_base s));
         ("created_at", JStr (time_Marshal (ts_created_at s)));
         ("updated_at", JStr (time_Marshal (ts_updated_at s)))]
     ++ opt_time "ended_at" (ts_ended_at s))).

Definition tinput_json (sessionID : string) (i : TerminalInput) : json :=
  JObj (list_to_map
    ([("input_id", JStr (ti_id i)); ("session_id", JStr sessionID);
      ("session_epoch", jint (ti_epoch i)); ("seq", jint (ti_seq i)); ("kind", JStr (ti_kind i));
      ("payload", JObj (ti_payload i)); ("source", JStr (ti_source i));
      ("status", JStr (tinput_status_text (ti_status i)))]
     ++ (match ti_detail i with
         | Some d => if bool_decide (d = ∅) then [] else [("detail", JObj d)]
         | None => [] end)
     ++ [("created_at", JStr (time_Marshal (ti_created_at i)));
         ("updated_at", JStr (time_Marshal (ti_updated_at i)))])).

(** A nil slice is [null]. *)
Definition json_list (l : list json) : json := match l with [] => JNull | l => JArr l end.

(** Definite refusals are bad requests; a data error still aborts the
    transaction. *)
Definition terminalToolErr (e : err) : err :=
  match e with
  | ErrTerminalNotFound | ErrTerminalEnded | ErrTerminalNotLive | ErrTerminalControl
  | ErrTerminalCapacity | ErrBadRequest _ => badreq (err_text e)
  | ErrBadData m => ErrBadData ("bad request: " +:+ m)
  | e => e
  end.
Definition tool_err {A} (m : ptx A) : ptx A := λ row,
  match m row with Ok a => Ok a | Err e => Err (terminalToolErr e) end.

Definition chunk_text (c : TerminalOutputChunk) : string :=
  match oc_kind c with
  | CkGap =>
      let to := default (oc_base c) (oc_gap_to c) in
      let nl := String (Ascii.ascii_of_nat 10) "" in
      if to =? oc_base c
      then nl +:+ "[output may be missing at byte " +:+ itoa (oc_base c)
              +:+ " — journal loss boundary]" +:+ nl
      else nl +:+ "[output lost: bytes " +:+ itoa (oc_base c) +:+ "–" +:+ itoa to
              +:+ " were compacted away]" +:+ nl
  | CkData => String.string_of_list_byte (oc_data c)
  end.
Definition tool_chunk_end (c : TerminalOutputChunk) : Z :=
  match oc_kind c with
  | CkGap => default (oc_base c) (oc_gap_to c)
  | CkData => oc_base c + oc_size c
  end.

Definition tool_read (p : string) (request : obj) (t : Term) : obj :=
  let s := tm_session t in
  let cursor := get_int request "cursor" 0 in
  let eventCursor := get_int request "event_cursor" 0 in
  let limit := get_int request "limit" 32 in
  let cursor :=
    if cursor =? 0 then
      let c := ts_output_bytes s - 64 * 1024 in
      if get_bool request "tail" && (ts_output_base s <? c) then c else ts_output_base s
    else cursor in
  let limit := if (limit <=? 0) || (64 <? limit) then 32 else limit in
  let l := page cursor eventCursor limit (tm_output t) in
  let next := foldl (λ n c, Z.max n (tool_chunk_end c)) cursor l in
  let text := String.concat "" (chunk_text <$> l) in
  list_to_map
    [("session", session_json p s); ("base", jint (ts_output_base s)); ("cursor", jint cursor);
     ("next_cursor", jint next); ("event_cursor", jint (next_event eventCursor l));
     ("gap", JBool (cursor <? ts_output_base s));
     ("eof", JBool (negb (terminalLive (ts_status s)) && (ts_output_bytes s <=? next)));
     ("content", JStr text); ("content_b64", JStr (base64 (String.list_ascii_of_string text)))].

(** What a writing tool submits. *)
Definition tool_input (tool : string) (request : obj) : string * obj :=
  if bool_decide (tool = "terminal.write") then
    if get_bool request "eof" then ("eof", ∅)
    else ("stdin", {["data" := JStr (get_str request "data")]})
  else if bool_decide (tool = "terminal.resize") then
    ("resize", list_to_map [("cols", default JNull (request !! "cols"));
                            ("rows", default JNull (request !! "rows"))])
  else if bool_decide (tool = "terminal.signal") then
    ("signal", {["signal" := JStr (get_str request "signal")]})
  else ("eof", ∅).

Definition needs_session (tool : string) (request : obj) : ptx string :=
  let sessionID := get_str request "session_id" in
  lift (check (negb (bool_decide (sessionID = ""))) (tool +:+ " requires session_id")) ;;
  mret sessionID.

(** [None] is a tool of another family. *)
Definition terminal_tool_tx (cfg : TerminalConfig) (now : Z) (newID p tool : string) (request : obj)
    : ptx (option obj) :=
  if bool_decide (tool = "terminal.open") then
    s ← createTerminalSessionTx cfg now newID (get_str request "name") "agent" "tool:terminal.open";
    mret (Some {["session" := session_json p s]})
  else if bool_decide (tool = "terminal.list") then
    l ← gets ListTerminalSessions;
    mret (Some {["sessions" := json_list (session_json p <$> l)]})
  else if bool_decide (tool = "terminal.read") then
    sessionID ← needs_session tool request;
    t ← tool_err (lockTerminalSessionTx sessionID);
    mret (Some (tool_read p request t))
  else if bool_decide (tool = "terminal.inputs") then
    sessionID ← needs_session tool request;
    t ← tool_err (lockTerminalSessionTx sessionID);
    let l := take (Z.to_nat terminalInputListMax)
               (filter (λ i, get_int request "after_seq" 0 < ti_seq i) (tm_inputs t)) in
    mret (Some (list_to_map [("session", session_json p (tm_session t));
                             ("inputs", json_list (tinput_json sessionID <$> l))]))
  else if bool_decide (tool ∈ ["terminal.write"; "terminal.resize"; "terminal.signal"; "terminal.eof"])
  then
    sessionID ← needs_session tool request;
    let '(kind, payload) := tool_input tool request in
    i ← tool_err (submitTerminalInputTx now newID sessionID "agent" kind payload);
    mret (Some {["input" := tinput_json sessionID i]})
  else if bool_decide (tool = "terminal.close") then
    sessionID ← needs_session tool request;
    tool_err (lockTerminalSessionTx sessionID) ;;
    s ← close_tx now sessionID "closed";
    mret (Some {["session" := session_json p s]})
  else mret None.

(** The tool as the effect a claim runs: a refusal has written nothing. *)
Definition internalTerminalTool (cfg : TerminalConfig) (now : Z) (newID p tool : string)
    (request : obj) : call err PersonaRow (option obj) :=
  commit (terminal_tool_tx cfg now newID p tool request).
End tool.

(** ** The runner's operations on the database *)

Section runner_ops.
Context `{GL : !GoLib}.

Definition HeartbeatTerminalSession (now : Z) (p sessionID runnerID : string) (epoch lease : Z)
    : tx TerminalSession :=
  with_persona p (no_session sessionID)
    (HeartbeatTerminalSession_tx now sessionID runnerID epoch lease).
Definition PendingTerminalInputs (now : Z) (p sessionID runnerID : string) (epoch : Z)
    : tx (list TerminalInput) :=
  with_persona p (no_session sessionID) (PendingTerminalInputs_tx now sessionID runnerID epoch).
Definition ResolveDequeuedTerminalInputs (now : Z) (p sessionID runnerID : string) (epoch : Z)
    : tx Z :=
  with_persona p (no_session sessionID)
    (ResolveDequeuedTerminalInputs_tx now sessionID runnerID epoch).
Definition ReportTerminalInputDisposition (now : Z) (p sessionID inputID runnerID : string)
    (epoch : Z) (status : string) (detail : option obj) : tx TerminalInput :=
  with_persona p (match disposition status with
                  | None => badreq "invalid input disposition" | Some _ => no_session sessionID end)
    (ReportTerminalInputDisposition_tx now sessionID inputID runnerID epoch status detail).
Definition AppendTerminalOutput (now : Z) (p sessionID runnerID : string) (epoch : Z)
    (chunks : list OutputReq) : tx TerminalSession :=
  with_persona p (no_session sessionID)
    (AppendTerminalOutput_tx now sessionID runnerID epoch chunks).
Definition ReportTerminalStatus (now : Z) (p sessionID runnerID : string) (epoch : Z)
    (status reason : string) (exitCode : option Z) (exitSignal operationID : string)
    : tx TerminalSession :=
  with_persona p (match report_status status with
                  | None => badreq "invalid session status report" | Some _ => no_session sessionID end)
    (ReportTerminalStatus_tx now sessionID runnerID epoch status reason exitCode exitSignal
       operationID).
End runner_ops.
