(* ===== verification/TerminalOutput.v ===== *)
(** * The output window of a terminal

    What [AppendTerminalOutput], [pruneTerminalOutputTx] and
    [ReadTerminalOutput] promise about a session's output, against an
    abstract stream: a high-water mark and the bytes still known at each
    absolute offset.  The rows of the table represent such a stream, appending
    chunks refines writing them to the stream, pruning forgets a prefix of it,
    and a reader that follows its cursors sees every retained row once. *)

From Stdlib Require Import ZArith Lia.
From Stdlib Require Import Strings.Byte.
From stdpp Require Import sorting.
From S2P Require Import Prelude Json TerminalState State Terminals.
Local Open Scope list_scope.
Local Open Scope Z_scope.

(** ** The abstract stream *)

Record Stream := mkStream { st_high : Z; st_byte : Z → option byte }.

(** A chunk written to the stream: only bytes above the mark are new. *)
Definition write_chunk (s : Stream) (c : OutputReq) : Stream :=
  if bool_decide (or_kind c = "gap"%string) then
    mkStream (Z.max (st_high s) (default (or_base c) (or_gap_to c))) (st_byte s)
  else
    mkStream (if bool_decide (or_data c = []) then st_high s
              else Z.max (st_high s) (or_base c + length (or_data c)))
      (λ o, if (st_high s <=? o) && (or_base c <=? o) && (o <? or_base c + length (or_data c))
            then or_data c !! Z.to_nat (o - or_base c) else st_byte s o).
Definition write_chunks (s : Stream) (l : list OutputReq) : Stream := foldl write_chunk s l.

(** Forgetting what lies below an offset. *)
Definition forget_below (cut : Z) (s : Stream) : Stream :=
  mkStream (st_high s) (λ o, if o <? cut then None else st_byte s o).

(** ** The rows as a stream *)

Definition data_rows (out : list TerminalOutputChunk) : list TerminalOutputChunk :=
  filter (λ c, is_data c = true) out.
Definition chunk_holds (c : TerminalOutputChunk) (o : Z) (b : byte) : Prop :=
  oc_base c ≤ o ∧ oc_data c !! Z.to_nat (o - oc_base c) = Some b.
Definition stores (out : list TerminalOutputChunk) (o : Z) (b : byte) : Prop :=
  ∃ c, c ∈ data_rows out ∧ chunk_holds c o b.

(** A row ends where a later one begins. *)
Definition before (c d : TerminalOutputChunk) : Prop := oc_base c + oc_size c ≤ oc_base d.
Definition older (c d : TerminalOutputChunk) : Prop := oc_seq c < oc_seq d.

Definition row_ok (lo high : Z) (c : TerminalOutputChunk) : Prop :=
  match oc_kind c with
  | CkData => 0 < oc_size c ∧ lo ≤ oc_base c ∧ oc_base c + oc_size c ≤ high ∧ oc_gap_to c = None
  | CkGap => ∃ g, oc_gap_to c = Some g ∧ 0 ≤ oc_base c ≤ g ∧ g ≤ high ∧ oc_data c = []
  end.

(** A data row reaches above every row before it; a gap need not. *)
Definition climbs (c d : TerminalOutputChunk) : Prop :=
  oc_kind d = CkGap ∨ chunk_end c < chunk_end d.

Record rows_ok (lo high : Z) (out : list TerminalOutputChunk) : Prop := {
  ro_seq : StronglySorted older out;
  ro_positive : Forall (λ c, 0 < oc_seq c) out;
  ro_data : StronglySorted before (data_rows out);
  ro_rows : Forall (row_ok lo high) out;
  ro_climb : StronglySorted climbs out;
  ro_offsets : 0 ≤ lo ≤ high ∧ high ≤ MaxInt64
}.

Definition output_ok (t : Term) : Prop :=
  rows_ok (ts_output_base (tm_session t)) (ts_output_bytes (tm_session t)) (tm_output t).
Definition represents (t : Term) (s : Stream) : Prop :=
  st_high s = ts_output_bytes (tm_session t) ∧
  ∀ o b, stores (tm_output t) o b ↔ st_byte s o = Some b.

(** Offsets and sizes of a report that fit their 64-bit columns. *)
Definition fits (c : OutputReq) : Prop :=
  0 ≤ or_base c ∧ or_base c + length (or_data c) ≤ MaxInt64 ∧
  default (or_base c) (or_gap_to c) ≤ MaxInt64.

(** A loss marker: a gap of unknown size, at one offset. *)
Definition marker (c : TerminalOutputChunk) : Prop :=
  oc_kind c = CkGap ∧ oc_gap_to c = Some (oc_base c).
#[global] Instance marker_dec c : base.Decision (marker c).
Proof. unfold marker. apply _. Defined.
(** Every row but a marker reaches above all rows before it. *)
Definition rises (c d : TerminalOutputChunk) : Prop := marker d ∨ chunk_end c < chunk_end d.
(** Gaps are reported where the output skipped ahead. *)
Fixpoint skips_ahead (s : Stream) (l : list OutputReq) : Prop :=
  match l with
  | [] => True
  | c :: l =>
      (or_kind c = "gap"%string → default (or_base c) (or_gap_to c) = or_base c
                                  ∨ st_high s < default (or_base c) (or_gap_to c))
      ∧ skips_ahead (write_chunk s c) l
  end.

(** ** Generic lemmas *)

Lemma data_rows_app a b : data_rows (a ++ b) = data_rows a ++ data_rows b.
Proof. apply filter_app. Qed.

Lemma stores_app a b o x : stores (a ++ b) o x ↔ stores a o x ∨ stores b o x.
Proof.
  unfold stores. rewrite data_rows_app. setoid_rewrite elem_of_app. naive_solver.
Qed.

Lemma holds_range c o b : chunk_holds c o b → oc_base c ≤ o < oc_base c + oc_size c.
Proof.
  intros [Ho Hb]. apply lookup_lt_Some in Hb. unfold oc_size. lia.
Qed.

Lemma data_row_elem out c : c ∈ data_rows out ↔ c ∈ out ∧ oc_kind c = CkData.
Proof.
  unfold data_rows, is_data. rewrite list_elem_of_filter, bool_decide_eq_true. tauto.
Qed.

Lemma row_ok_mono lo high high' c : high ≤ high' → row_ok lo high c → row_ok lo high' c.
Proof.
  unfold row_ok. intros Hle. destruct (oc_kind c).
  - intros (? & ? & ? & ?). split_and!; try done; lia.
  - intros (g & ? & ? & ? & ?). exists g. split_and!; try done; lia.
Qed.

Lemma row_end_below lo high c : row_ok lo high c → chunk_end c ≤ high.
Proof.
  unfold row_ok, chunk_end. destruct (oc_kind c); [lia|]. intros (g & -> & _ & Hg & _). done.
Qed.
(** No data row reaches above the mark. *)
Lemma stores_below lo high out o b :
  rows_ok lo high out → stores out o b → lo ≤ o < high.
Proof.
  intros H (c & Hc & Hh). apply data_row_elem in Hc as [Hc Hk]. apply holds_range in Hh.
  pose proof (ro_rows _ _ _ H) as HF. rewrite Forall_forall in HF. specialize (HF c Hc).
  unfold row_ok in HF. rewrite Hk in HF. lia.
Qed.

(** ** Appending *)

(** A row behind all others, at or above the mark. *)
Lemma rows_ok_snoc lo high high' out c :
  rows_ok lo high out → Forall (λ d, older d c) out → 0 < oc_seq c →
  (oc_kind c = CkData → high ≤ oc_base c) → row_ok lo high' c → high ≤ high' ≤ MaxInt64 →
  rows_ok lo high' (out ++ [c]).
Proof.
  intros [Hs Hpos Hd Hr Hcl Ho] Hnew Hc Hbase Hok Hle. split.
  - by apply StronglySorted_snoc.
  - apply Forall_app. split; [done|]. by repeat constructor.
  - rewrite data_rows_app. unfold data_rows at 2. rewrite filter_cons, filter_nil.
    case_decide as Hk; [|by rewrite app_nil_r]. apply StronglySorted_snoc; [done|].
    unfold is_data in Hk. apply bool_decide_eq_true in Hk. specialize (Hbase Hk).
    apply Forall_forall. intros d [Hin Hdk]%data_row_elem. rewrite Forall_forall in Hr.
    specialize (Hr d Hin). unfold row_ok in Hr. rewrite Hdk in Hr. unfold before. lia.
  - apply Forall_app. split; [|by repeat constructor].
    eapply Forall_impl; [exact Hr|]. intros d. apply row_ok_mono. lia.
  - apply StronglySorted_snoc; [done|]. eapply Forall_impl; [exact Hr|]. intros d Hd'%row_end_below.
    unfold climbs. unfold row_ok in Hok. destruct (oc_kind c) eqn:Hk; [right|by left].
    specialize (Hbase eq_refl). unfold chunk_end at 2. rewrite Hk. lia.
  - lia.
Qed.

Lemma rows_ok_raise lo high high' out :
  rows_ok lo high out → high ≤ high' ≤ MaxInt64 → rows_ok lo high' out.
Proof.
  intros [Hs Hpos Hd Hr Hcl Ho] Hle. split; try done; [|lia].
  eapply Forall_impl; [exact Hr|]. intros d. apply row_ok_mono. lia.
Qed.

Lemma insert_chunk_ok c out out' :
  insert_chunk c out = Ok out' →
  0 ≤ oc_base c ∧ (∀ g, oc_gap_to c = Some g → oc_base c ≤ g) ∧
  ((out' = out ∧ ∃ d, d ∈ out ∧ oc_base d = oc_base c ∧ oc_kind d = oc_kind c) ∨ out' = out ++ [c]).
Proof.
  unfold insert_chunk. destruct (_ || _) eqn:Hb; [done|]. apply orb_false_iff in Hb as [Hb Hg].
  intros H. split; [by reflect_bools|]. split.
  { intros g Hgt. rewrite Hgt in Hg. by reflect_bools. }
  destruct (existsb _ out) eqn:He; simplify_eq; [|by right]. left. split; [done|].
  apply existsb_exists in He as (d & Hd%list_elem_of_In & Hde).
  apply bool_decide_eq_true in Hde. eauto.
Qed.

Lemma older_max out seq c :
  max_seq oc_seq out ≤ seq → oc_seq c = seq + 1 → Forall (λ d, older d c) out.
Proof.
  intros Hm Hc. apply Forall_forall. intros d Hd. unfold older. rewrite Hc.
  induction out as [|x out IH]; [by apply not_elem_of_nil in Hd|].
  simpl in Hm. apply elem_of_cons in Hd as [->|Hd]; [lia|]. apply IH; [lia|done].
Qed.
Lemma max_seq_snoc out seq c :
  max_seq oc_seq out ≤ seq → 0 ≤ seq → oc_seq c = seq + 1 → max_seq oc_seq (out ++ [c]) ≤ seq + 1.
Proof. intros Hm H0 Hc. rewrite max_seq_app. simpl. lia. Qed.

(** What one data row adds. *)
Lemma stores_snoc out c o b :
  oc_kind c = CkData → stores (out ++ [c]) o b ↔ stores out o b ∨ chunk_holds c o b.
Proof.
  intros Hk. rewrite stores_app. unfold stores at 2. setoid_rewrite data_row_elem.
  split; intros [H|H]; auto; right.
  - destruct H as (d & [->%list_elem_of_singleton _] & Hd). done.
  - exists c. split; [|done]. split; [by apply list_elem_of_singleton|done].
Qed.
Lemma stores_gap out c o b : oc_kind c = CkGap → stores (out ++ [c]) o b ↔ stores out o b.
Proof.
  intros Hk. rewrite stores_app. split; [|by left].
  intros [H|(d & [->%list_elem_of_singleton Hd]%data_row_elem & _)]; [done|congruence].
Qed.

(** The rows [out] represent the stream [s]. *)
Definition rows_represent (out : list TerminalOutputChunk) (s : Stream) : Prop :=
  ∀ o b, stores out o b ↔ st_byte s o = Some b.

(** A data chunk with nothing new. *)
Lemma write_old out s c :
  or_kind c ≠ "gap"%string → rows_represent out s →
  (or_data c = [] ∨ or_base c + length (or_data c) ≤ st_high s) →
  st_high (write_chunk s c) = st_high s ∧ rows_represent out (write_chunk s c).
Proof.
  intros Hk Hrep Hold. unfold write_chunk. rewrite bool_decide_eq_false_2 by done. simpl. split.
  - case_bool_decide; [done|]. destruct Hold; [done|lia].
  - intros o b. rewrite (Hrep o b). simpl. destruct (_ && _) eqn:Hc; [|done].
    reflect_bools. destruct Hold as [Hd|Hd]; [rewrite Hd in *; simpl in *; lia|lia].
Qed.

(** A data chunk whose tail is new. *)
Lemma write_new lo out s c now seq :
  let skip := if or_base c <? st_high s then st_high s - or_base c else 0 in
  let base := if or_base c <? st_high s then st_high s else or_base c in
  let d := mkOut seq CkData base None (drop (Z.to_nat skip) (or_data c)) now in
  or_kind c ≠ "gap"%string → rows_ok lo (st_high s) out → rows_represent out s →
  skip < length (or_data c) →
  st_high (write_chunk s c) = Z.max (st_high s) (oc_base d + oc_size d) ∧
  oc_base d + oc_size d = or_base c + length (or_data c) ∧
  rows_represent (out ++ [d]) (write_chunk s c).
Proof.
  intros skip base d Hk Hok Hrep Hnew.
  assert (or_data c ≠ []) as Hne by (intros E; rewrite E in Hnew; subst skip; simpl in Hnew;
    destruct (or_base c <? st_high s) eqn:Hb; reflect_bools; lia).
  assert (0 ≤ skip ∧ base = or_base c + skip) as [Hs Hb].
  { subst skip base. destruct (or_base c <? st_high s) eqn:Hb; reflect_bools; lia. }
  assert (oc_base d + oc_size d = or_base c + length (or_data c)) as Hend.
  { unfold oc_size. simpl. rewrite length_drop. lia. }
  split_and!; [|done|].
  - unfold write_chunk. rewrite bool_decide_eq_false_2 by done. simpl.
    rewrite bool_decide_eq_false_2 by done. fold base. rewrite <-Hend. done.
  - intros o b. rewrite stores_snoc by done. rewrite (Hrep o b).
    unfold write_chunk. rewrite (bool_decide_eq_false_2 (or_kind c = _)) by done. simpl.
    pose proof (ro_offsets _ _ _ Hok) as Ho.
    assert (base = Z.max (or_base c) (st_high s)) as Hmax.
    { subst base. destruct (or_base c <? st_high s) eqn:Hlt; reflect_bools; lia. }
    destruct (_ && _) eqn:Hc; reflect_bools.
    + unfold chunk_holds. simpl. rewrite lookup_drop.
      replace (Z.to_nat skip + Z.to_nat (o - base))%nat with (Z.to_nat (o - or_base c)) by lia.
      split; [|intros; right; split; [lia|done]]. intros [Hst|[_ Hst]]; [|done].
      apply Hrep in Hst. apply (stores_below _ _ _ _ _ Hok) in Hst. lia.
    + split; [|by left]. intros [Hst|Hst]; [done|]. apply holds_range in Hst. simpl in Hst.
      unfold oc_size in *. simpl in *. rewrite length_drop in Hst.
      apply andb_false_iff in Hc as [[Hc|Hc]%andb_false_iff|Hc]; reflect_bools; lia.
Qed.

Lemma rises_snoc lo high out d :
  rows_ok lo high out → StronglySorted rises out → marker d ∨ high < chunk_end d →
  StronglySorted rises (out ++ [d]).
Proof.
  intros Hok Hr Hd. apply StronglySorted_snoc; [done|].
  eapply Forall_impl; [by apply ro_rows|]. intros c Hc%row_end_below. unfold rises.
  destruct Hd; [by left|right; lia].
Qed.

(** One chunk of a report. *)
Lemma append_gap lo out s c now seq out1 :
  let g := default (or_base c) (or_gap_to c) in
  rows_ok lo (st_high s) out → max_seq oc_seq out ≤ seq → 0 ≤ seq → rows_represent out s →
  fits c → or_kind c = "gap"%string →
  insert_chunk (mkOut (seq + 1) CkGap (or_base c) (Some g) [] now) out = Ok out1 →
  st_high (write_chunk s c) = Z.max (st_high s) g ∧
  rows_ok lo (st_high (write_chunk s c)) out1 ∧ max_seq oc_seq out1 ≤ seq + 1 ∧
  rows_represent out1 (write_chunk s c) ∧
  (StronglySorted rises out → g = or_base c ∨ st_high s < g → StronglySorted rises out1).
Proof.
  intros g Hok Hm H0 Hrep (Hb0 & Hlen & Hgap) Hk Hins. fold g in Hgap.
  pose proof (ro_offsets _ _ _ Hok) as Hoff.
  assert (write_chunk s c = mkStream (Z.max (st_high s) g) (st_byte s)) as ->.
  { unfold write_chunk. by rewrite bool_decide_eq_true_2. }
  apply insert_chunk_ok in Hins as (_ & Hg & Hins). specialize (Hg g eq_refl). simpl in *.
  destruct Hins as [[-> _]| ->]; (split; [done|]).
  - split_and!; try done; try lia. eapply rows_ok_raise; [done|lia].
  - split_and!.
    + apply (rows_ok_snoc lo (st_high s)); [done|by apply (older_max _ seq)|simpl; lia|done| |lia].
      exists g. split_and!; simpl; try done; lia.
    + by apply max_seq_snoc.
    + intros o b. rewrite stores_gap by done. apply Hrep.
    + intros Hr Hskip. eapply rises_snoc; [done|done|]. unfold marker, chunk_end. simpl.
      destruct Hskip as [->|?]; auto.
Qed.

Lemma append_data lo out s c now seq out1 :
  let skip := if or_base c <? st_high s then st_high s - or_base c else 0 in
  let base := if or_base c <? st_high s then st_high s else or_base c in
  let d := mkOut (seq + 1) CkData base None (drop (Z.to_nat skip) (or_data c)) now in
  rows_ok lo (st_high s) out → max_seq oc_seq out ≤ seq → 0 ≤ seq → rows_represent out s →
  fits c → or_kind c ≠ "gap"%string → skip < length (or_data c) → insert_chunk d out = Ok out1 →
  st_high (write_chunk s c) = Z.max (st_high s) (int64 (oc_base d + oc_size d)) ∧
  rows_ok lo (st_high (write_chunk s c)) out1 ∧ max_seq oc_seq out1 ≤ seq + 1 ∧
  rows_represent out1 (write_chunk s c) ∧
  (StronglySorted rises out → StronglySorted rises out1).
Proof.
  intros skip base d Hok Hm H0 Hrep (Hb0 & Hlen & Hgap) Hk Hnew Hins.
  pose proof (ro_offsets _ _ _ Hok) as Hoff.
  destruct (write_new lo out s c now (seq + 1) Hk Hok Hrep Hnew) as (Hh & Hend & Hr).
  fold skip base d in Hh, Hend, Hr.
  assert (st_high s ≤ oc_base d) as Hbase.
  { subst d base. simpl. destruct (or_base c <? st_high s) eqn:Hlt; reflect_bools; lia. }
  assert (0 < oc_size d) as Hsize.
  { subst d skip. unfold oc_size. simpl. rewrite length_drop.
    destruct (or_base c <? st_high s) eqn:Hlt; reflect_bools; lia. }
  rewrite int64_id by (unfold is_int64, MinInt64; lia).
  apply insert_chunk_ok in Hins as (_ & _ & [[_ (x & Hx & Hxb & Hxk)]| ->]).
  { pose proof (ro_rows _ _ _ Hok) as HF. rewrite Forall_forall in HF. specialize (HF x Hx).
    unfold row_ok in HF. rewrite Hxk in HF. change (oc_kind d) with CkData in HF.
    rewrite Hxb in HF. lia. }
  split_and!; [done| |by apply max_seq_snoc|done|].
  - rewrite Hh. apply (rows_ok_snoc lo (st_high s)); [done|by apply (older_max _ seq)|simpl; lia|done| |lia].
    unfold row_ok. change (oc_kind d) with CkData. split_and!; try done; lia.
  - intros Hri. eapply rises_snoc; [done|done|]. right. assert (chunk_end d = oc_base d + oc_size d) as -> by done. lia.
Qed.

Lemma append_refines lo now chunks seq out s high' out' :
  rows_ok lo (st_high s) out → max_seq oc_seq out ≤ seq → 0 ≤ seq → rows_represent out s →
  Forall fits chunks → append_chunks now seq (st_high s) out chunks = Ok (high', out') →
  st_high (write_chunks s chunks) = high' ∧ rows_ok lo high' out' ∧
  rows_represent out' (write_chunks s chunks) ∧
  (StronglySorted rises out → skips_ahead s chunks → StronglySorted rises out').
Proof.
  revert seq out s. induction chunks as [|c chunks IH]; intros seq out s Hok Hm H0 Hrep Hfit H.
  { injection H as <- <-. done. }
  inversion Hfit as [|? ? Hc Hfit']; subst. simpl in H.
  pose proof (ro_offsets _ _ _ Hok) as Hoff. case_bool_decide as Hk.
  - destruct (insert_chunk _ out) as [out1|] eqn:Hins; [|done].
    destruct (append_gap lo out s c now seq out1 Hok Hm H0 Hrep Hc Hk Hins)
      as (Hh & Hok1 & Hm1 & Hrep1 & Hri). rewrite <-Hh in H.
    destruct (IH (seq + 1) out1 _ Hok1 Hm1 ltac:(lia) Hrep1 Hfit' H) as (? & ? & ? & Hri').
    split_and!; try done. intros Hr [Hs1 Hs2]. apply Hri'; [|done]. apply Hri; [done|]. by apply Hs1.
  - destruct Hc as (Hb0 & Hlen & Hgap).
    assert ((if or_base c <? st_high s then int64 (st_high s - or_base c) else 0)
            = if or_base c <? st_high s then st_high s - or_base c else 0) as Hskip.
    { destruct (_ <? _) eqn:Hlt; [|done]. reflect_bools. apply int64_id.
      unfold is_int64, MinInt64, MaxInt64 in *. lia. }
    rewrite Hskip in H. destruct (_ <=? _) eqn:Hle; reflect_bools.
    + destruct (write_old out s c Hk Hrep) as [Hh Hr].
      { destruct (or_base c <? st_high s) eqn:Hlt; reflect_bools; [right; lia|left].
        destruct (or_data c); [done|simpl in Hle; lia]. }
      rewrite <-Hh in H, Hok.
      destruct (IH (seq + 1) out _ Hok ltac:(lia) ltac:(lia) Hr Hfit' H) as (? & ? & ? & Hri').
      split_and!; try done. intros Hri [_ Hs2]. by apply Hri'.
    + destruct (_ <? 0) eqn:Hneg; [done|]. destruct (insert_chunk _ out) as [out1|] eqn:Hins; [|done].
      destruct (append_data lo out s c now seq out1 Hok Hm H0 Hrep (conj Hb0 (conj Hlen Hgap)) Hk Hle Hins)
        as (Hh & Hok1 & Hm1 & Hrep1 & Hri). simpl in Hh. unfold oc_size in Hh. simpl in Hh.
      rewrite <-Hh in H.
      destruct (IH (seq + 1) out1 _ Hok1 Hm1 ltac:(lia) Hrep1 Hfit' H) as (? & ? & ? & Hri').
      split_and!; try done. intros Hr [_ Hs2]. apply Hri'; [|done]. by apply Hri.
Qed.

(** ** Pruning *)

Lemma before_le D :
  StronglySorted before D → Forall (λ c, 0 < oc_size c) D → StronglySorted base_le D.
Proof.
  intros H HF. induction H as [|c D Hs IH Hc]; [constructor|]. inversion HF; subst.
  constructor; [auto|]. eapply Forall_impl; [exact Hc|]. unfold before, base_le. intros; lia.
Qed.

(** Data rows come out of the sort as they went in. *)
Lemma data_sorted D :
  StronglySorted before D → Forall (λ c, 0 < oc_size c) D → merge_sort base_le D = D.
Proof.
  intros Hs HF. pose proof (before_le D Hs HF) as Hb.
  apply (StronglySorted_unique_strong base_le).
  - intros x y Hx Hy Hxy Hyx. rewrite merge_sort_Permutation in Hx.
    clear Hb. induction Hs as [|c D Hs IH Hc]; [by apply not_elem_of_nil in Hx|].
    inversion HF as [|? ? Hpos HF']; subst. rewrite Forall_forall in Hc.
    unfold before, base_le in *.
    apply elem_of_cons in Hx as [->|Hx], Hy as [->|Hy]; try done.
    + specialize (Hc y Hy). lia.
    + specialize (Hc x Hx). lia.
    + by apply IH.
  - apply StronglySorted_merge_sort; [|intros x y; unfold base_le; lia].
    intros x y z. unfold base_le. lia.
  - done.
  - apply merge_sort_Permutation.
Qed.

(** The pruning loop on the data rows alone. *)
Fixpoint cut_rows (k : Z) (D : list TerminalOutputChunk) : list TerminalOutputChunk :=
  match D with
  | [] => []
  | c :: D =>
      if k <=? 0 then c :: D
      else if oc_size c <=? k then cut_rows (k - oc_size c) D
      else trim_chunk k c :: D
  end.

Definition total (D : list TerminalOutputChunk) : Z := foldr (λ c n, oc_size c + n) 0 D.
Lemma retained_total out : retained out = total (data_rows out).
Proof. done. Qed.
Lemma total_nonneg D : 0 ≤ total D.
Proof. induction D as [|c D IH]; simpl; unfold oc_size; lia. Qed.

Lemma cut_total k D : 0 ≤ k ≤ total D → total (cut_rows k D) = total D - k.
Proof.
  revert k. induction D as [|c D IH]; intros k Hk; simpl in *; [lia|].
  destruct (k <=? 0) eqn:H0; reflect_bools; [simpl; lia|].
  destruct (oc_size c <=? k) eqn:H1; reflect_bools; [rewrite IH; lia|].
  simpl. unfold oc_size in *. simpl. rewrite length_drop. lia.
Qed.

(** Deleting or replacing one row, found by its sequence number. *)
Lemma seq_distinct (out : list TerminalOutputChunk) c d :
  StronglySorted older out → c ∈ out → d ∈ out → oc_seq c = oc_seq d → c = d.
Proof.
  induction 1 as [|x out Hs IH Hx]; intros Hc Hd He; [by apply not_elem_of_nil in Hc|].
  rewrite Forall_forall in Hx. unfold older in Hx.
  apply elem_of_cons in Hc as [->|Hc], Hd as [->|Hd]; auto.
  - specialize (Hx d Hd). lia.
  - specialize (Hx c Hc). lia.
Qed.
Lemma seq_nodup (out : list TerminalOutputChunk) : StronglySorted older out → NoDup out.
Proof.
  induction 1 as [|x out Hs IH Hx]; constructor; [|done]. intros Hin.
  rewrite Forall_forall in Hx. specialize (Hx x Hin). unfold older in Hx. lia.
Qed.

Lemma data_older out c D :
  StronglySorted older out → data_rows out = c :: D → Forall (λ d, oc_seq c < oc_seq d) D.
Proof.
  intros Hs HD. assert (StronglySorted older (c :: D)) as H.
  { rewrite <-HD. by apply StronglySorted_keep. }
  by inversion H.
Qed.

Lemma delete_first out c D :
  StronglySorted older out → data_rows out = c :: D →
  data_rows (filter (λ d, oc_seq d ≠ oc_seq c) out) = D.
Proof.
  intros Hs HD. pose proof (data_older out c D Hs HD) as Hc.
  transitivity (filter (λ d, oc_seq d ≠ oc_seq c) (data_rows out)).
  { unfold data_rows. rewrite !list_filter_filter. apply filter_ext_Forall, Forall_forall. tauto. }
  rewrite HD, filter_cons. case_decide; [done|]. apply filter_all.
  eapply Forall_impl; [exact Hc|]. simpl. intros; lia.
Qed.

Lemma replace_first out c D (f : TerminalOutputChunk → TerminalOutputChunk) :
  StronglySorted older out → data_rows out = c :: D → (∀ d, oc_kind (f d) = oc_kind d) →
  data_rows (map (λ d, if bool_decide (oc_seq d = oc_seq c) then f d else d) out) = f c :: D.
Proof.
  intros Hs HD Hf. pose proof (data_older out c D Hs HD) as Hc.
  set (g := λ d, if bool_decide (oc_seq d = oc_seq c) then f d else d).
  transitivity (map g (data_rows out)).
  - unfold data_rows. clear HD. induction out as [|x out IH]; [done|]. simpl.
    inversion Hs; subst. rewrite !filter_cons, IH by done.
    assert (is_data (g x) = is_data x) as Hk.
    { unfold is_data, g. destruct (bool_decide (oc_seq x = oc_seq c)); [|done]. by rewrite Hf. }
    rewrite Hk. by case_decide.
  - rewrite HD. simpl. unfold g at 1. rewrite bool_decide_eq_true_2 by done. f_equal.
    rewrite <-(map_id D) at 2. apply map_ext_in. intros d Hd%list_elem_of_In.
    rewrite Forall_forall in Hc. specialize (Hc d Hd). unfold g.
    rewrite bool_decide_eq_false_2 by lia. done.
Qed.

Fixpoint cut_base (nb k : Z) (D : list TerminalOutputChunk) : Z :=
  match D with
  | [] => nb
  | c :: D =>
      if k <=? 0 then nb
      else if oc_size c <=? k then cut_base (oc_base c + oc_size c) (k - oc_size c) D
      else oc_base c + k
  end.

Lemma trim_seq k c : oc_seq (trim_chunk k c) = oc_seq c.
Proof. done. Qed.

Lemma sorted_map_seq (f : TerminalOutputChunk → TerminalOutputChunk) out :
  (∀ c, oc_seq (f c) = oc_seq c) → StronglySorted older out → StronglySorted older (map f out).
Proof.
  intros Hf. induction 1 as [|c out Hs IH Hc]; [constructor|]. simpl. constructor; [done|].
  apply Forall_map. eapply Forall_impl; [exact Hc|]. intros d. unfold older. simpl. by rewrite !Hf.
Qed.
(** What trimming a row keeps, and the relations between rows that depend on
    no more. *)
Definition same_place (c c' : TerminalOutputChunk) : Prop :=
  chunk_end c' = chunk_end c ∧ oc_kind c' = oc_kind c ∧ (marker c → marker c').
Definition placed (R : TerminalOutputChunk → TerminalOutputChunk → Prop) : Prop :=
  ∀ c c' d d', same_place c c' → same_place d d' → R c d → R c' d'.
Lemma rises_placed : placed rises.
Proof.
  intros c c' d d' (Hc & _ & _) (Hd & _ & Hm). unfold rises. rewrite Hc, Hd. intuition.
Qed.
Lemma climbs_placed : placed climbs.
Proof. intros c c' d d' (Hc & _ & _) (Hd & Hk & _). unfold climbs. by rewrite Hc, Hd, Hk. Qed.
Lemma sorted_map_placed R (f : TerminalOutputChunk → TerminalOutputChunk) out :
  placed R → Forall (λ c, same_place c (f c)) out →
  StronglySorted R out → StronglySorted R (map f out).
Proof.
  intros HR Hf Hs. induction Hs as [|c out Hs IH Hc]; [constructor|]. simpl.
  inversion Hf as [|? ? He Hf']; subst. constructor; [auto|]. apply Forall_map.
  rewrite Forall_forall in *. intros d Hd. by apply (HR c _ d); auto.
Qed.
Lemma trim_end k c : oc_kind c = CkData → 0 ≤ k ≤ oc_size c → chunk_end (trim_chunk k c) = chunk_end c.
Proof.
  intros Hk Hle. unfold chunk_end, oc_size in *. simpl. rewrite Hk, length_drop. lia.
Qed.

(** The loop cuts the data rows and keeps everything else. *)
Lemma prune_chunks_spec target removed nb out D nb' out' :
  prune_chunks target removed nb out D = (nb', out') →
  StronglySorted older out → data_rows out = D →
  nb' = cut_base nb (target - removed) D ∧ data_rows out' = cut_rows (target - removed) D ∧
  StronglySorted older out' ∧
  (∀ c, c ∈ out' → ∃ d, d ∈ out ∧ (c = d ∨ ∃ k, 0 < k < oc_size d ∧ c = trim_chunk k d)) ∧
  (∀ c, c ∈ out → oc_kind c = CkGap → c ∈ out') ∧
  (∀ R, placed R → StronglySorted R out → StronglySorted R out').
Proof.
  revert removed nb out. induction D as [|c D IH]; intros removed nb out H Hs HD; simpl in *.
  { injection H as <- <-. split_and!; try done. eauto. }
  assert (c ∈ out) as Hcin by (apply data_row_elem; rewrite HD; left).
  replace (target <=? removed) with (target - removed <=? 0) in H by
    (apply eq_true_iff_eq; rewrite !Z.leb_le; lia).
  destruct (target - removed <=? 0) eqn:H0.
  { injection H as <- <-. split_and!; try done. eauto. }
  replace (removed + oc_size c <=? target) with (oc_size c <=? target - removed) in H by
    (apply eq_true_iff_eq; rewrite !Z.leb_le; lia).
  destruct (oc_size c <=? target - removed) eqn:H1.
  - replace (target - removed - oc_size c) with (target - (removed + oc_size c)) by lia.
    apply IH in H as (Hnb & Hrows & Hs' & Hfrom & Hgap & Hri);
      [|by apply StronglySorted_keep|by apply delete_first].
    split_and!; try done.
    + intros d Hd. destruct (Hfrom d Hd) as (e & [_ He]%list_elem_of_filter & Hde). eauto.
    + intros d Hd Hk. apply Hgap; [|done]. apply list_elem_of_filter. split; [|done]. intros Heq.
      assert (d = c) as -> by by apply (seq_distinct out).
      apply (f_equal (λ l, c ∈ l)) in HD. assert (c ∈ data_rows out) as Hdr by (rewrite HD; left).
      apply data_row_elem in Hdr as [_ Hdr]. congruence.
    + intros R HR Hr. by apply Hri, StronglySorted_keep.
  - reflect_bools. set (f := trim_chunk (target - removed)) in *.
    assert (oc_kind c = CkData) as Hck.
    { assert (c ∈ data_rows out) as Hdr by (rewrite HD; left). by apply data_row_elem in Hdr as []. }
    pose proof (replace_first out c D f Hs HD (λ _, eq_refl)) as HD'.
    set (g := λ d, if bool_decide (oc_seq d = oc_seq c) then f d else d) in *.
    assert (prune_chunks target (removed + (target - removed)) (oc_base c + (target - removed))
              (map g out) D = (oc_base c + (target - removed), map g out)) as Hstop.
    { destruct D; [done|]. simpl. by rewrite (proj2 (Z.leb_le _ _)) by lia. }
    rewrite Hstop in H. injection H as <- <-. split_and!; try done.
    + apply sorted_map_seq; [|done]. intros d. unfold g. by case_bool_decide.
    + intros d (e & -> & He)%list_elem_of_fmap. exists e. split; [done|]. unfold g.
      case_bool_decide as Hse; [|by left].
      assert (e = c) as -> by by apply (seq_distinct out).
      right. exists (target - removed). split; [lia|done].
    + intros d Hd Hk. apply list_elem_of_fmap. exists d. split; [|done]. unfold g.
      rewrite bool_decide_eq_false_2; [done|]. intros Hse.
      assert (d = c) as -> by by apply (seq_distinct out). congruence.
    + intros R HR. apply sorted_map_placed; [done|]. apply Forall_forall. intros d Hd. unfold g.
      destruct (bool_decide (oc_seq d = oc_seq c)) eqn:Hse; [|done]. apply bool_decide_eq_true in Hse.
      assert (d = c) as -> by by apply (seq_distinct out).
      split_and!; [apply trim_end; [done|lia]|done|]. intros [Hm _]. congruence.
Qed.

Lemma holds_trim k c o b :
  0 ≤ k → chunk_holds (trim_chunk k c) o b ↔ chunk_holds c o b ∧ oc_base c + k ≤ o.
Proof.
  intros Hk. unfold chunk_holds. simpl. rewrite lookup_drop.
  split; [intros [Ho Hb]|intros [[Ho Hb] Hk']].
  - replace (Z.to_nat k + Z.to_nat (o - (oc_base c + k)))%nat with (Z.to_nat (o - oc_base c))
      in Hb by lia. split_and!; try done; lia.
  - replace (Z.to_nat k + Z.to_nat (o - (oc_base c + k)))%nat with (Z.to_nat (o - oc_base c)) by lia.
    by split.
Qed.

Lemma cut_spec nb k D :
  StronglySorted before D → Forall (λ c, 0 < oc_size c ∧ nb ≤ oc_base c) D →
  nb ≤ cut_base nb k D ∧ StronglySorted before (cut_rows k D) ∧
  Forall (λ c, 0 < oc_size c ∧ cut_base nb k D ≤ oc_base c) (cut_rows k D) ∧
  ∀ o b, (∃ c, c ∈ cut_rows k D ∧ chunk_holds c o b) ↔
         (∃ c, c ∈ D ∧ chunk_holds c o b) ∧ cut_base nb k D ≤ o.
Proof.
  intros Hs. revert nb k. induction Hs as [|c D Hs IH Hc]; intros nb k HF; simpl.
  { split_and!; [lia|constructor|constructor|]. split; [by intros (c & ?%not_elem_of_nil & _)|].
    intros [(c & ?%not_elem_of_nil & _) _]. done. }
  inversion HF as [|? ? [Hpos Hnb] HFD]; subst.
  assert (∀ o b, (∃ d, d ∈ c :: D ∧ chunk_holds d o b) ↔
                 chunk_holds c o b ∨ ∃ d, d ∈ D ∧ chunk_holds d o b) as Hcons.
  { intros o b. setoid_rewrite elem_of_cons. naive_solver. }
  assert (∀ d o b, d ∈ D → chunk_holds d o b → oc_base c + oc_size c ≤ o) as Hafter.
  { intros d o b Hd Hh%holds_range. rewrite Forall_forall in Hc. specialize (Hc d Hd).
    unfold before in Hc. lia. }
  destruct (k <=? 0) eqn:H0; [|destruct (oc_size c <=? k) eqn:H1]; reflect_bools.
  - split_and!; [lia|by constructor|done|]. intros o b. split; [|tauto].
    intros (d & Hd & Hh). split; [eauto|]. rewrite Forall_forall in HF.
    destruct (HF d Hd). apply holds_range in Hh. lia.
  - destruct (IH (oc_base c + oc_size c) (k - oc_size c)) as (Hle & Hso & Hfo & Hst).
    { rewrite Forall_forall in *. intros d Hd. specialize (Hc d Hd). destruct (HFD d Hd).
      unfold before in Hc. done. }
    split_and!; [lia|done|done|]. intros o b. rewrite Hst, Hcons.
    split; [tauto|]. intros [[Hh%holds_range|?] ?]; [lia|done].
  - split_and!.
    + lia.
    + constructor; [done|]. eapply Forall_impl; [exact Hc|]. unfold before, oc_size in *. simpl.
      rewrite length_drop. intros; lia.
    + constructor; [simpl; unfold oc_size in *; simpl; rewrite length_drop; lia|].
      rewrite Forall_forall in *. intros d Hd. specialize (Hc d Hd). destruct (HFD d Hd).
      unfold before in Hc. lia.
    + intros o b. rewrite Hcons. setoid_rewrite elem_of_cons. split.
      * intros (d & [->|Hd] & Hh).
        -- apply holds_trim in Hh as [? ?]; [|lia]. split; [by left|lia].
        -- split; [right; eauto|]. specialize (Hafter d o b Hd Hh). lia.
      * intros [[Hh|(d & Hd & Hh)] Ho]; [|by exists d; auto].
        exists (trim_chunk k c). split; [by left|]. apply holds_trim; [lia|done].
Qed.

(** A pruned row is a row of before, or what is left of one. *)
Definition left_of (c d : TerminalOutputChunk) : Prop :=
  c = d ∨ ∃ k, 0 < k < oc_size d ∧ c = trim_chunk k d.

Lemma left_row lo nb hi c d :
  row_ok lo hi d → left_of c d → (oc_kind c = CkData → 0 < oc_size c ∧ nb ≤ oc_base c) →
  row_ok nb hi c.
Proof.
  intros Hrow Hcd Hfo. unfold row_ok in *.
  assert (oc_kind c = oc_kind d) as Hk by (destruct Hcd as [->|(k & _ & ->)]; done).
  rewrite Hk. rewrite Hk in Hfo. destruct (oc_kind d).
  - destruct Hrow as (? & ? & ? & ?), (Hfo eq_refl).
    destruct Hcd as [->|(k & Hk' & ->)]; [done|]. unfold oc_size in *. simpl in *.
    rewrite length_drop in *. split_and!; try done; lia.
  - destruct Hcd as [->|(k & Hk' & ->)]; [done|]. destruct Hrow as (g & _ & _ & _ & Hnil).
    unfold oc_size in Hk'. rewrite Hnil in Hk'. simpl in Hk'. lia.
Qed.

Lemma left_rows lo nb hi out out' :
  rows_ok lo hi out → StronglySorted older out' → StronglySorted climbs out' →
  StronglySorted before (data_rows out') →
  (∀ c, c ∈ out' → ∃ d, d ∈ out ∧ left_of c d) →
  Forall (λ c, 0 < oc_size c ∧ nb ≤ oc_base c) (data_rows out') → data_rows out' ≠ [] → 0 ≤ nb →
  rows_ok nb hi out'.
Proof.
  intros [_ Hpos _ Hrows _ Hoff] Hs Hcl Hb Hfrom Hfo Hne H0. rewrite Forall_forall in Hpos, Hrows, Hfo.
  assert (∀ c, c ∈ out' → row_ok nb hi c) as Hrow.
  { intros c Hc. destruct (Hfrom c Hc) as (d & Hd & Hcd). eapply left_row; [by apply Hrows|done|].
    intros Hk. apply Hfo, data_row_elem. done. }
  split; try done; [|by apply Forall_forall|].
  - apply Forall_forall. intros c Hc. destruct (Hfrom c Hc) as (d & Hd & Hcd).
    specialize (Hpos d Hd). by destruct Hcd as [->|(k & _ & ->)].
  - destruct (data_rows out') as [|c D] eqn:HD; [done|].
    assert (c ∈ data_rows out') as [Hc Hk]%data_row_elem by (rewrite HD; left).
    specialize (Hrow c Hc). unfold row_ok in Hrow. rewrite Hk in Hrow. lia.
Qed.

Lemma data_rows_pos lo hi out :
  rows_ok lo hi out → Forall (λ c, 0 < oc_size c ∧ lo ≤ oc_base c) (data_rows out).
Proof.
  intros Hok. pose proof (ro_rows _ _ _ Hok) as Hrows. rewrite Forall_forall in Hrows.
  apply Forall_forall. intros c [Hc Hk]%data_row_elem. specialize (Hrows c Hc).
  unfold row_ok in Hrows. rewrite Hk in Hrows. lia.
Qed.

(** The rows after a pruning run that has [k] bytes to drop. *)
Lemma prune_rows lo hi k out nb out' :
  rows_ok lo hi out → 0 ≤ k < retained out →
  prune_chunks k 0 lo out (merge_sort base_le (data_rows out)) = (nb, out') →
  lo ≤ nb ∧ rows_ok nb hi out' ∧ retained out' = retained out - k ∧
  (∀ o b, stores out' o b ↔ stores out o b ∧ nb ≤ o) ∧
  (∀ c, c ∈ out → oc_kind c = CkGap → c ∈ out') ∧
  (StronglySorted rises out → StronglySorted rises out').
Proof.
  intros Hok Hk Hpr. pose proof (data_rows_pos _ _ _ Hok) as HF.
  pose proof Hok as [Hseq _ Hd _ Hcl Hoff]. rewrite retained_total in Hk.
  rewrite data_sorted in Hpr; [|done|by eapply Forall_impl; [exact HF|simpl; tauto]].
  apply prune_chunks_spec in Hpr as (Hnb & Hdr & Hs' & Hfrom & Hgap & Hri); [|done|done].
  rewrite Z.sub_0_r in *.
  destruct (cut_spec lo k _ Hd HF) as (Hle & Hso & Hfo & Hcut). rewrite <-Hnb, <-?Hdr in *.
  assert (total (data_rows out') = total (data_rows out) - k) as Ht.
  { rewrite Hdr. apply cut_total. lia. }
  split_and!; [done| |by rewrite !retained_total|exact Hcut|done|apply Hri, rises_placed].
  apply (left_rows lo _ _ out); try done; [by apply Hri; [apply climbs_placed|]| |lia].
  intros Hnil. rewrite Hnil in Ht. simpl in Ht. lia.
Qed.

(** Pruning a window that represents a stream forgets a prefix of it; the
    window holds at most the cap, and exactly the kept size when it was
    pruned. *)
Lemma prune_refines t s :
  output_ok t → represents t s →
  let t' := pruneTerminalOutputTx t in
  output_ok t' ∧ represents t' (forget_below (ts_output_base (tm_session t')) s) ∧
  ts_output_base (tm_session t) ≤ ts_output_base (tm_session t') ∧
  (retained (tm_output t) ≤ terminalScrollbackCap → t' = t) ∧
  (terminalScrollbackCap < retained (tm_output t) →
     retained (tm_output t') = terminalScrollbackKeep) ∧
  (∀ c, c ∈ tm_output t → oc_kind c = CkGap → c ∈ tm_output t') ∧
  (StronglySorted rises (tm_output t) → StronglySorted rises (tm_output t')).
Proof.
  intros Hok [Hh Hst]. unfold pruneTerminalOutputTx.
  destruct (retained (tm_output t) <=? terminalScrollbackCap) eqn:Hcap; reflect_bools.
  { simpl. split_and!; try done; try lia. split; [done|]. intros o b. rewrite (Hst o b). simpl.
    destruct (o <? _) eqn:Ho; [|done]. reflect_bools. split; [|done]. intros Hb%Hst.
    apply (stores_below _ _ _ _ _ Hok) in Hb. lia. }
  destruct (prune_chunks _ _ _ _ _) as [nb out'] eqn:Hpr.
  apply (prune_rows _ (ts_output_bytes (tm_session t))) in Hpr as (Hle & Hok' & Hr & Hstores & Hgap & Hri);
    [|done|unfold terminalScrollbackCap, terminalScrollbackKeep in *; lia].
  unfold output_ok. simpl.
  assert (Z.max nb (ts_output_base (tm_session t)) = nb) as -> by lia.
  split_and!; try done; try lia.
  split; simpl; [done|]. intros o b. rewrite Hstores, (Hst o b).
  destruct (o <? nb) eqn:Ho; reflect_bools; [split; [lia|done]|]. split; [tauto|].
  intros; split; [done|lia].
Qed.

(** ** Appending to a session *)

Definition no_output : Stream := mkStream 0 (λ _, None).
(** The window of a session just created. *)
Lemma fresh_output_ok t :
  ts_output_base (tm_session t) = 0 → ts_output_bytes (tm_session t) = 0 → tm_output t = [] →
  output_ok t ∧ represents t no_output ∧ StronglySorted rises (tm_output t).
Proof.
  intros Hb Hy Ho. unfold output_ok, represents. rewrite Hb, Hy, Ho. split_and!; [|done| |constructor].
  - split; try constructor; unfold MaxInt64; lia.
  - intros o b. simpl. split; [|done]. intros (c & ?%not_elem_of_nil & _). done.
Qed.

Lemma max_seq_nonneg (out : list TerminalOutputChunk) : 0 ≤ max_seq oc_seq out.
Proof. induction out as [|c out IH]; simpl; lia. Qed.

Lemma write_chunk_high s c : st_high s ≤ st_high (write_chunk s c).
Proof. unfold write_chunk. case_bool_decide; simpl; [lia|]. case_bool_decide; lia. Qed.
Lemma write_chunks_high chunks s : st_high s ≤ st_high (write_chunks s chunks).
Proof.
  revert s. induction chunks as [|c chunks IH]; intros s; simpl; [lia|].
  specialize (IH (write_chunk s c)). pose proof (write_chunk_high s c). lia.
Qed.

(** The session between the inserts and the pruning. *)
Lemma append_output_ok now chunks t t' s :
  output_ok t → represents t s → Forall fits chunks → append_output now chunks t = Ok t' →
  ∃ t1, t' = pruneTerminalOutputTx t1 ∧ output_ok t1 ∧ represents t1 (write_chunks s chunks) ∧
    append_chunks now (max_seq oc_seq (tm_output t)) (ts_output_bytes (tm_session t))
      (tm_output t) chunks = Ok (ts_output_bytes (tm_session t1), tm_output t1) ∧
    ts_output_base (tm_session t1) = ts_output_base (tm_session t) ∧
    (StronglySorted rises (tm_output t) → skips_ahead s chunks → StronglySorted rises (tm_output t1)).
Proof.
  intros Hok [Hh Hst] Hf H. unfold append_output in H.
  destruct (append_chunks _ _ _ _ _) as [[high out]|] eqn:Ha; [|done]. injection H as <-.
  rewrite <-Hh in Ha. pose proof Hok as Hok0. unfold output_ok in Hok. rewrite <-Hh in Hok.
  destruct (append_refines _ _ _ _ _ s _ _ Hok ltac:(reflexivity) (max_seq_nonneg _) Hst Hf Ha)
    as (Hhigh & Hok1 & Hst1 & Hri).
  pose proof (write_chunks_high chunks s) as Hle.
  match goal with |- context [pruneTerminalOutputTx ?x] => set (t1 := x) end.
  assert (ts_output_bytes (tm_session t1) = high) as Hb by (simpl; lia).
  exists t1. split_and!; try done.
  - unfold output_ok. rewrite Hb. done.
  - split; [by rewrite Hb|done].
  - by rewrite Hb.
Qed.

(** ** Drains repeated after a reconnect *)

(** A chunk that is all in the window or below it already. *)
Definition absorbed (high : Z) (out : list TerminalOutputChunk) (c : OutputReq) : Prop :=
  if bool_decide (or_kind c = "gap"%string) then
    0 ≤ or_base c ∧ or_base c ≤ default (or_base c) (or_gap_to c) ≤ high ∧
    ∃ d, d ∈ out ∧ oc_base d = or_base c ∧ oc_kind d = CkGap
  else or_data c = [] ∨ or_base c + length (or_data c) ≤ high.

Lemma absorbed_mono high high' out out' c :
  high ≤ high' → (∀ d, d ∈ out → oc_kind d = CkGap → d ∈ out') →
  absorbed high out c → absorbed high' out' c.
Proof.
  intros Hle Hin. unfold absorbed. case_bool_decide; [|intros [?|?]; [by left|right; lia]].
  intros (H0 & Hg & d & Hd & Hdb & Hk). split_and!; try done; try lia. exists d. auto.
Qed.

Lemma insert_chunk_keeps c out out' d : insert_chunk c out = Ok out' → d ∈ out → d ∈ out'.
Proof.
  intros (_ & _ & [[-> _]| ->])%insert_chunk_ok; [done|]. intros; apply elem_of_app; auto.
Qed.
Lemma insert_chunk_there c out out' :
  insert_chunk c out = Ok out' → ∃ d, d ∈ out' ∧ oc_base d = oc_base c ∧ oc_kind d = oc_kind c.
Proof.
  intros (_ & _ & [[-> Hd]| ->])%insert_chunk_ok; [done|]. exists c.
  split; [|done]. apply elem_of_app. right. by apply list_elem_of_singleton.
Qed.

Lemma append_keeps now chunks seq high out high' out' :
  append_chunks now seq high out chunks = Ok (high', out') →
  high ≤ high' ∧ ∀ d, d ∈ out → d ∈ out'.
Proof.
  revert seq high out. induction chunks as [|c chunks IH]; intros seq high out H.
  { injection H as <- <-. auto with lia. }
  simpl in H. case_bool_decide.
  - destruct (insert_chunk _ out) as [out1|] eqn:Hins; [|done]. apply IH in H as [Hle Hin].
    split; [lia|]. intros d Hd. eapply Hin, insert_chunk_keeps; done.
  - destruct (_ <=? _); [by apply IH in H|]. destruct (_ <? 0); [done|].
    destruct (insert_chunk _ out) as [out1|] eqn:Hins; [|done]. apply IH in H as [Hle Hin].
    split; [lia|]. intros d Hd. eapply Hin, insert_chunk_keeps; done.
Qed.

Lemma append_absorbs now chunks seq high out high' out' :
  0 ≤ high ≤ MaxInt64 → Forall fits chunks →
  append_chunks now seq high out chunks = Ok (high', out') →
  Forall (absorbed high' out') chunks.
Proof.
  revert seq high out. induction chunks as [|c chunks IH]; intros seq high out Hh Hf H; [constructor|].
  inversion Hf as [|? ? (Hb0 & Hlen & Hgap) Hf']; subst. simpl in H.
  case_bool_decide as Hk.
  - destruct (insert_chunk _ out) as [out1|] eqn:Hins; [|done].
    pose proof (append_keeps _ _ _ _ _ _ _ H) as [Hle Hin].
    pose proof (insert_chunk_ok _ _ _ Hins) as (_ & Hg & _). specialize (Hg _ eq_refl). simpl in Hg.
    constructor; [|eapply IH; [|done|exact H]; lia]. unfold absorbed. rewrite bool_decide_eq_true_2 by done.
    split_and!; try lia. destruct (insert_chunk_there _ _ _ Hins) as (d & Hd & ? & ?). eauto.
  - assert ((if or_base c <? high then int64 (high - or_base c) else 0)
            = if or_base c <? high then high - or_base c else 0) as Hskip.
    { destruct (_ <? _) eqn:Hlt; [|done]. reflect_bools. apply int64_id.
      unfold is_int64, MinInt64, MaxInt64 in *. lia. }
    rewrite Hskip in H. destruct (_ <=? _) eqn:Hle; reflect_bools.
    + pose proof (append_keeps _ _ _ _ _ _ _ H) as [Hle' _].
      constructor; [|by eapply IH; [| |exact H]]. unfold absorbed. rewrite bool_decide_eq_false_2 by done.
      destruct (or_base c <? high) eqn:Hlt; reflect_bools; [right; lia|left].
      destruct (or_data c); [done|simpl in Hle; lia].
    + destruct (_ <? 0) eqn:Hneg; [done|]. destruct (insert_chunk _ out) as [out1|] eqn:Hins; [|done].
      pose proof (append_keeps _ _ _ _ _ _ _ H) as [Hle' _].
      set (skip := if or_base c <? high then high - or_base c else 0) in *.
      assert ((if or_base c <? high then high else or_base c)
        + length (drop (Z.to_nat skip) (or_data c)) = or_base c + length (or_data c)) as Hend.
      { rewrite length_drop. subst skip. destruct (or_base c <? high) eqn:Hlt; reflect_bools; lia. }
      rewrite Hend, int64_id in H, Hle' by (unfold is_int64, MinInt64; lia).
      constructor; [|eapply IH; [|done|exact H]; lia].
      unfold absorbed. rewrite bool_decide_eq_false_2 by done. right. lia.
Qed.

Lemma append_absorbed now chunks seq high out :
  0 ≤ high ≤ MaxInt64 → Forall fits chunks → Forall (absorbed high out) chunks →
  append_chunks now seq high out chunks = Ok (high, out).
Proof.
  intros Hh Hf Ha. revert seq. induction Ha as [|c chunks Hc Ha IH]; intros seq; [done|].
  inversion Hf as [|? ? (Hb0 & Hlen & Hgap) Hf']; subst. simpl.
  unfold absorbed in Hc. destruct (bool_decide (or_kind c = "gap"%string)).
  - destruct Hc as (_ & Hg & d & Hd & Hdb & Hdk).
    assert (∀ r, oc_base r = or_base c → oc_kind r = CkGap →
              oc_gap_to r = Some (default (or_base c) (or_gap_to c)) → insert_chunk r out = Ok out) as Hi.
    { intros r Hrb Hrk Hrg. unfold insert_chunk. rewrite Hrb, Hrg, Hrk.
      destruct (_ || _) eqn:Hbad; [apply orb_true_iff in Hbad as [Hbad|Hbad]; reflect_bools; lia|].
      destruct (existsb _ out) eqn:He; [done|]. apply not_true_iff_false in He. destruct He.
      apply existsb_exists. exists d. split; [by apply list_elem_of_In|].
      by apply bool_decide_eq_true_2. }
    rewrite Hi by done. rewrite Z.max_l by lia. by apply IH.
  - destruct (_ <=? _) eqn:Hle; [by apply IH|]. reflect_bools.
    destruct (or_base c <? high) eqn:Hlt; reflect_bools.
    + rewrite int64_id in Hle by (unfold is_int64, MinInt64, MaxInt64 in *; lia).
      destruct Hc as [Hc|Hc]; [rewrite Hc in Hle; simpl in Hle; lia|lia].
    + destruct Hc as [Hc|Hc]; [rewrite Hc in Hle; simpl in Hle; lia|lia].
Qed.

(** ** Reading *)

Definition wanted (cursor event : Z) (out : list TerminalOutputChunk) : list TerminalOutputChunk :=
  filter (λ c, chunk_wanted cursor event c = true) out.
(** What a reader at these cursors has yet to see. *)
Definition unseen (cursor event : Z) (c : TerminalOutputChunk) : Prop :=
  event < oc_seq c ∧ (marker c ∨ cursor < chunk_end c).

Lemma chunk_wanted_iff lo high cursor event c :
  row_ok lo high c → 0 ≤ cursor →
  chunk_wanted cursor event c = true ↔ cursor < chunk_end c ∨ (marker c ∧ event < oc_seq c).
Proof.
  intros Hrow H0. unfold row_ok, chunk_wanted, chunk_end, marker, oc_size in *.
  rewrite orb_true_iff, Z.ltb_lt. destruct (oc_kind c).
  - rewrite bool_decide_eq_false_2 by done. simpl.
    destruct Hrow as (? & ? & ? & ->). simpl. split; [intros [?|?]; [left; lia|done]|].
    intros [?|[[? _] _]]; [left; lia|done].
  - destruct Hrow as (g & -> & Hg & ? & ->). simpl.
    rewrite andb_true_iff, bool_decide_eq_true, Z.ltb_lt.
    replace (oc_base c + 0) with (oc_base c) by lia. rewrite Z.max_r by lia. tauto.
Qed.

Lemma next_cursor_le l cursor : cursor ≤ next_cursor cursor l.
Proof.
  unfold next_cursor. revert cursor. induction l as [|c l IH]; intros cursor; simpl; [lia|].
  specialize (IH (Z.max cursor (chunk_end c))). lia.
Qed.
Lemma next_event_le l event : event ≤ next_event event l.
Proof.
  unfold next_event. revert event. induction l as [|c l IH]; intros event; simpl; [lia|].
  specialize (IH (Z.max event (oc_seq c))). lia.
Qed.
Lemma next_cursor_elem l cursor c : c ∈ l → chunk_end c ≤ next_cursor cursor l.
Proof.
  revert cursor. induction l as [|d l IH]; intros cursor Hc; [by apply not_elem_of_nil in Hc|].
  apply elem_of_cons in Hc as [->|Hc]; [|by apply IH].
  pose proof (next_cursor_le l (Z.max cursor (chunk_end d))). unfold next_cursor in *. simpl. lia.
Qed.
Lemma next_event_elem l event c : c ∈ l → oc_seq c ≤ next_event event l.
Proof.
  revert event. induction l as [|d l IH]; intros event Hc; [by apply not_elem_of_nil in Hc|].
  apply elem_of_cons in Hc as [->|Hc]; [|by apply IH].
  pose proof (next_event_le l (Z.max event (oc_seq d))). unfold next_event in *. simpl. lia.
Qed.
Lemma next_cursor_below l cursor x :
  cursor < x → Forall (λ c, chunk_end c < x) l → next_cursor cursor l < x.
Proof.
  intros Hx HF. unfold next_cursor. revert cursor Hx. induction HF as [|c l Hc HF IH]; intros cursor Hx;
    simpl; [done|]. apply IH. lia.
Qed.
Lemma next_event_below l event x :
  event < x → Forall (λ c, oc_seq c < x) l → next_event event l < x.
Proof.
  intros Hx HF. unfold next_event. revert event Hx. induction HF as [|c l Hc HF IH]; intros event Hx;
    simpl; [done|]. apply IH. lia.
Qed.

(** After a page the reader wants what it has not passed of the rest. *)
Lemma wanted_after lo high out cursor event a b :
  rows_ok lo high out → 0 ≤ cursor →
  wanted cursor event out = a ++ b → Forall (unseen cursor event) (a ++ b) →
  let cur' := next_cursor cursor a in let ev' := next_event event a in
  wanted cur' ev' out = filter (λ c, marker c ∨ cur' < chunk_end c) b ∧
  Forall (unseen cur' ev') (wanted cur' ev' out).
Proof.
  intros Hok H0 Hw Hun cur' ev'. pose proof (ro_rows _ _ _ Hok) as Hrows.
  pose proof (next_cursor_le a cursor) as Hc. pose proof (next_event_le a event) as He.
  assert (Forall (row_ok lo high) (a ++ b)) as Hrab by (rewrite <-Hw; by apply Forall_keep).
  assert (StronglySorted older (a ++ b)) as Hold.
  { rewrite <-Hw. apply StronglySorted_keep, (ro_seq _ _ _ Hok). }
  apply Forall_app in Hun as [_ Hub]. apply Forall_app in Hrab as [Hra Hrb].
  assert (∀ c, c ∈ b → ev' < oc_seq c) as Hev.
  { intros c Hcb. rewrite Forall_forall in Hub. destruct (Hub c Hcb) as [Hs _].
    apply next_event_below; [done|]. apply Forall_forall. intros d Hd.
    by apply (StronglySorted_app_1_elem_of older a b d c). }
  assert (wanted cur' ev' out = filter (λ c, marker c ∨ cur' < chunk_end c) b) as Hrest.
  { transitivity (wanted cur' ev' (wanted cursor event out)).
    { unfold wanted. rewrite list_filter_filter. apply filter_ext_Forall.
      eapply Forall_impl; [exact Hrows|]. intros c Hr.
      rewrite !(chunk_wanted_iff _ _ _ _ _ Hr) by lia. intuition lia. }
    rewrite Hw. unfold wanted. rewrite filter_app.
    assert (filter (λ c, chunk_wanted cur' ev' c = true) a = []) as ->.
    { apply filter_none. rewrite Forall_forall in Hra |- *. intros c Hca.
      rewrite (chunk_wanted_iff _ _ _ _ _ (Hra c Hca)) by lia.
      pose proof (next_cursor_elem a cursor c Hca). pose proof (next_event_elem a event c Hca). lia. }
    apply filter_ext_Forall. rewrite Forall_forall in Hrb |- *. intros c Hcb.
    rewrite (chunk_wanted_iff _ _ _ _ _ (Hrb c Hcb)) by lia. specialize (Hev c Hcb). tauto. }
  split; [done|]. rewrite Hrest. apply Forall_forall. intros c [Hc' Hcb]%list_elem_of_filter.
  split; auto.
Qed.

(** A reader that asks again from the cursors it was given. *)
Fixpoint drain (n : nat) (cursor event limit : Z) (t : Term) : list TerminalOutputChunk :=
  match n with
  | O => []
  | S n => let r := read_term cursor event limit t in
           rd_chunks r ++ drain n (rd_next_cursor r) (rd_event_cursor r) limit t
  end.

Lemma drain_S n cursor event limit t r :
  read_term cursor event limit t = r →
  drain (S n) cursor event limit t =
  rd_chunks r ++ drain n (rd_next_cursor r) (rd_event_cursor r) limit t.
Proof. by intros <-. Qed.

Lemma read_page cursor event limit t :
  output_ok t → 0 ≤ event → ts_output_base (tm_session t) ≤ cursor →
  let r := read_term cursor event limit t in
  ∃ k, rd_chunks r = take (S k) (wanted cursor event (tm_output t)) ∧
    rd_next_cursor r = next_cursor cursor (rd_chunks r) ∧
    rd_event_cursor r = next_event event (rd_chunks r).
Proof.
  intros Hok He Hc. pose proof (ro_offsets _ _ _ Hok) as Ho. unfold read_term. simpl.
  destruct (cursor <? 0) eqn:H1; reflect_bools; [lia|].
  destruct (event <? 0) eqn:H2; reflect_bools; [lia|].
  set (limit' := if _ : bool then 32 else limit).
  assert (0 < limit') as Hl by (subst limit'; destruct (_ || _) eqn:Hb; reflect_bools; lia).
  assert ((if cursor =? 0 then ts_output_base (tm_session t) else cursor) = cursor) as ->.
  { destruct (cursor =? 0) eqn:H3; reflect_bools; lia. }
  exists (Z.to_nat limit'). split_and!; try done. unfold page, wanted. f_equal. lia.
Qed.

(** A row that reaches above every row before it. *)
Definition leads (out : list TerminalOutputChunk) (c : TerminalOutputChunk) : Prop :=
  ∀ d, d ∈ out → oc_seq d < oc_seq c → chunk_end d < chunk_end c.

(** A drain serves rows it wants, in order, and among them every marker and
    every row that leads. *)
Lemma drain_spec n cursor event limit t :
  output_ok t → 0 ≤ event → ts_output_base (tm_session t) ≤ cursor →
  Forall (unseen cursor event) (wanted cursor event (tm_output t)) →
  (length (wanted cursor event (tm_output t)) ≤ n)%nat →
  drain n cursor event limit t `sublist_of` wanted cursor event (tm_output t) ∧
  ∀ c, c ∈ wanted cursor event (tm_output t) → marker c ∨ leads (tm_output t) c →
    c ∈ drain n cursor event limit t.
Proof.
  intros Hok. revert cursor event. induction n as [|n IH]; intros cursor event He Hc Hun Hn.
  { assert (wanted cursor event (tm_output t) = []) as -> by (apply length_zero_iff_nil; lia).
    split; [constructor|done]. }
  destruct (read_page cursor event limit t Hok He Hc) as (k & Hpage & Hcur & Hev).
  rewrite (drain_S _ _ _ _ _ _ eq_refl), Hcur, Hev. set (a := rd_chunks _) in *.
  set (w := wanted cursor event (tm_output t)) in *. set (b := drop (S k) w).
  assert (w = a ++ b) as Hw by (rewrite Hpage; symmetry; apply take_drop).
  pose proof (ro_offsets _ _ _ Hok) as Ho.
  destruct (wanted_after _ _ _ cursor event a b Hok ltac:(lia) Hw) as [Hrest Hun'].
  { by rewrite <-Hw. }
  pose proof (next_cursor_le a cursor). pose proof (next_event_le a event).
  destruct (IH (next_cursor cursor a) (next_event event a)) as [Hsub Hin]; [lia|lia|done| |].
  { rewrite Hrest. etransitivity; [apply length_filter|]. unfold b. rewrite length_drop. lia. }
  rewrite Hrest in Hsub, Hin. split.
  - rewrite Hw. apply sublist_app; [done|]. etrans; [exact Hsub|apply sublist_filter].
  - intros c Hcw Hl. rewrite Hw in Hcw. apply elem_of_app in Hcw as [Hca|Hcb];
      [apply elem_of_app; by left|]. apply elem_of_app. right. apply Hin; [|done].
    apply list_elem_of_filter. split; [|done]. destruct Hl as [Hm|Hl]; [by left|].
    rewrite Hw in Hun. apply Forall_app in Hun as [_ Hub]. rewrite Forall_forall in Hub.
    destruct (Hub c Hcb) as [_ [Hm|Hcc]]; [by left|right]. apply next_cursor_below; [done|].
    apply Forall_forall. intros d Hda. apply Hl.
    + assert (d ∈ w) as [_ Hd]%list_elem_of_filter by (rewrite Hw; apply elem_of_app; by left). done.
    + apply (StronglySorted_app_1_elem_of older a b d c); [|done..]. rewrite <-Hw.
      apply StronglySorted_keep, (ro_seq _ _ _ Hok).
Qed.

(** Rows in the order of their numbers are in the order of the table. *)
Lemma sorted_by_seq (R : TerminalOutputChunk → TerminalOutputChunk → Prop) out c d :
  StronglySorted older out → StronglySorted R out → c ∈ out → d ∈ out → oc_seq c < oc_seq d → R c d.
Proof.
  intros Hs HR Hc Hd Hlt. induction HR as [|x out HR IH HF]; [by apply not_elem_of_nil in Hc|].
  inversion Hs as [|? ? Hs' Hx]; subst. rewrite Forall_forall in HF, Hx.
  apply elem_of_cons in Hc as [->|Hc], Hd as [->|Hd]; [lia|auto| |auto].
  specialize (Hx c Hc). unfold older in Hx. lia.
Qed.
Lemma data_leads t c : output_ok t → c ∈ data_rows (tm_output t) → leads (tm_output t) c.
Proof.
  intros Hok [Hc Hk]%data_row_elem d Hd Hlt.
  destruct (sorted_by_seq climbs _ d c (ro_seq _ _ _ Hok) (ro_climb _ _ _ Hok) Hd Hc Hlt); congruence.
Qed.
Lemma rises_leads t c :
  output_ok t → StronglySorted rises (tm_output t) → c ∈ tm_output t →
  marker c ∨ leads (tm_output t) c.
Proof.
  intros Hok Hri Hc. destruct (decide (marker c)) as [|Hm]; [by left|right]. intros d Hd Hlt.
  by destruct (sorted_by_seq rises _ d c (ro_seq _ _ _ Hok) Hri Hd Hc Hlt).
Qed.

(** A fresh reader has seen nothing of what it wants. *)
Lemma fresh_reader t :
  output_ok t →
  Forall (unseen (ts_output_base (tm_session t)) 0)
    (wanted (ts_output_base (tm_session t)) 0 (tm_output t)).
Proof.
  intros Hok. pose proof (ro_rows _ _ _ Hok) as Hrows. pose proof (ro_positive _ _ _ Hok) as Hpos.
  pose proof (ro_offsets _ _ _ Hok) as Ho. rewrite Forall_forall in *.
  intros c [Hw Hc]%list_elem_of_filter. specialize (Hpos c Hc). specialize (Hrows c Hc).
  apply (chunk_wanted_iff _ _ _ _ _ Hrows) in Hw; [|lia]. split; tauto.
Qed.
Lemma drain_fresh n limit t :
  0 ≤ ts_output_base (tm_session t) →
  drain n 0 0 limit t = drain n (ts_output_base (tm_session t)) 0 limit t.
Proof.
  intros Hb. destruct n as [|n]; [done|]. rewrite !(drain_S _ _ _ _ _ _ eq_refl).
  assert (read_term 0 0 limit t = read_term (ts_output_base (tm_session t)) 0 limit t) as ->; [|done].
  unfold read_term. rewrite (proj2 (Z.ltb_ge (ts_output_base (tm_session t)) 0)) by lia.
  destruct (ts_output_base (tm_session t) =? 0) eqn:H0; [|done]. by reflect_bools.
Qed.
Lemma wanted_fresh t :
  output_ok t →
  wanted (ts_output_base (tm_session t)) 0 (tm_output t) =
  filter (λ c, marker c ∨ ts_output_base (tm_session t) < chunk_end c) (tm_output t).
Proof.
  intros Hok. apply filter_ext_Forall, Forall_forall. intros c Hc.
  pose proof (ro_rows _ _ _ Hok) as Hr. pose proof (ro_positive _ _ _ Hok) as Hpos.
  pose proof (ro_offsets _ _ _ Hok) as Ho. rewrite Forall_forall in Hr, Hpos.
  rewrite (chunk_wanted_iff _ _ _ _ _ (Hr c Hc)) by lia. specialize (Hpos c Hc). simpl in Hpos. tauto.
Qed.

(** Reporting the same chunks a second time. *)
Lemma append_twice now now' chunks t t1 t2 s :
  output_ok t → represents t s → Forall fits chunks →
  append_output now chunks t = Ok t1 → append_output now' chunks t1 = Ok t2 →
  t2 = set_session (λ s, s <| ts_updated_at := now' |>) t1.
Proof.
  intros Hok Hrep Hf H1 H2.
  apply (append_output_ok _ _ _ _ s) in H1 as (u & -> & Hoku & Hru & Ha & _); [|done..].
  destruct (prune_refines u _ Hoku Hru) as (Hok1 & [Hh1 _] & _ & Hsmall & Hbig & Hgap & _).
  pose proof (ro_offsets _ _ _ Hok) as Ho.
  apply append_absorbs in Ha; [|lia|done].
  set (t1 := pruneTerminalOutputTx u) in *.
  assert (ts_output_bytes (tm_session t1) = ts_output_bytes (tm_session u)) as Hb.
  { rewrite <-Hh1. simpl. apply Hru. }
  assert (retained (tm_output t1) ≤ terminalScrollbackCap) as Hr.
  { destruct (decide (retained (tm_output u) ≤ terminalScrollbackCap)) as [Hle|Hgt];
      [by rewrite Hsmall|]. rewrite Hbig by lia. done. }
  unfold append_output in H2. pose proof (ro_offsets _ _ _ Hok1) as Ho1.
  rewrite append_absorbed in H2; [|lia|done|].
  2: { rewrite Hb. eapply Forall_impl; [exact Ha|]. intros c. by apply absorbed_mono. }
  injection H2 as <-. unfold pruneTerminalOutputTx at 1. simpl.
  rewrite (proj2 (Z.leb_le _ _) Hr). clearbody t1. destruct t1 as [[] ? ?].
  unfold set_session. simpl. by rewrite Z.max_id.
Qed.
