(* ===== verification/Turns.v ===== *)
(** * Turns

    [store.go]: the turn-start read ([LoadTurn]), the end-of-turn write
    ([CommitTurn], split here by outcome) and the recovery of a dead
    generation ([Recover]).  [memory.go]: the context a turn is shown
    ([renderedContext], [appliedBlocks]). *)

From Stdlib Require Import ZArith Lia.
From stdpp Require Import sorting.
From S2P Require Import Prelude Json MemoryState State Personas Inputs Journal Plans Pricing Usage Approvals.
Local Open Scope string_scope.
Local Open Scope list_scope.
Local Open Scope Z_scope.

(** ** The rendered context *)

Record MemoryBlock := mkBlock {
  mb_chunk_seq : Z; mb_layer : Z; mb_first_seq : Z; mb_last_seq : Z;
  mb_first_time : Z; mb_last_time : Z; mb_text : option string; mb_est_tokens : option Z
}.

Definition represented (c : MemoryChunk) : bool :=
  bool_decide (mc_status c = ChApplied) || bool_decide (mc_status c = ChSuperseded).
Definition covers (c : MemoryChunk) (seq : Z) : bool :=
  (mc_first_seq c <=? seq) && (seq <=? mc_last_seq c).

(** Events no applied replacement stands for, without those of the turns of
    [exclude]. *)
Definition unrepresented (exclude : string) (row : PersonaRow) : list Event :=
  filter (λ e, existsb (λ kc, represented kc.2 && covers kc.2 (ev_seq e))
                 (map_to_list (ps_chunks row)) = false
               ∧ in_lineage row exclude (ev_turn_id e) = false) (ps_events row).

Definition event_time (seq : Z) (row : PersonaRow) : option Z :=
  ev_created_at <$> List.find (λ e, ev_seq e =? seq) (ps_events row).
Definition block_of (row : PersonaRow) (kc : Z * MemoryChunk) : option MemoryBlock :=
  if bool_decide (mc_status kc.2 = ChApplied) then
    match event_time (mc_first_seq kc.2) row, event_time (mc_last_seq kc.2) row with
    | Some f, Some l => Some (mkBlock kc.1 (mc_layer kc.2) (mc_first_seq kc.2) (mc_last_seq kc.2)
                                f l (mc_replacement kc.2) (mc_replacement_est_tokens kc.2))
    | _, _ => None
    end
  else None.
Definition block_le (a b : MemoryBlock) : Prop := mb_first_seq a ≤ mb_first_seq b.
#[global] Instance block_le_dec : RelDecision block_le.
Proof. intros a b. unfold block_le. apply _. Defined.
Definition appliedBlocks (row : PersonaRow) : list MemoryBlock :=
  merge_sort block_le (omap (block_of row) (map_to_list (ps_chunks row))).

Record RenderedContext := mkContext { rc_events : list Event; rc_memory : list MemoryBlock }.
Definition renderedContext (exclude : string) (row : PersonaRow) : RenderedContext :=
  mkContext (unrepresented exclude row) (appliedBlocks row).

(** ** Starting a turn *)

Record LoadResult := mkLoad {
  lr_turn : option Turn;
  lr_input : option Input;
  lr_context : RenderedContext;
  lr_plan : option TurnPlan
}.

(** Queued inputs whose pacing has passed, and the oldest of them. *)
Definition claimable_input (now : Z) (i : Input) : bool :=
  bool_decide (in_status i = Queued)
  && match in_not_before i with None => true | Some t => t <=? now end.
Fixpoint oldest (l : list (string * Input)) : option (string * Input) :=
  match l with
  | [] => None
  | x :: l =>
      match oldest l with
      | Some y => if in_admission_seq x.2 <=? in_admission_seq y.2 then Some x else Some y
      | None => Some x
      end
  end.
Definition next_input (now : Z) (row : PersonaRow) : option (string * Input) :=
  oldest (filter (λ ki, claimable_input now ki.2 = true) (map_to_list (ps_inputs row))).

Definition claim_input (generation : Z) (i : Input) : Input :=
  i <| in_status := Claimed |> <| in_claimed_generation := Some generation |>
    <| in_not_before := None |>.

(** Attempts that parked do not count. *)
Definition attempts (inputID : string) (row : PersonaRow) : Z :=
  length (filter (λ kt, tu_input_id kt.2 = inputID ∧ tu_status kt.2 ≠ TurnAwaiting)
            (map_to_list (ps_turns row))) + 1.

Definition new_turn (now : Z) (turnID inputID : string) (generation attempt : Z) : Turn :=
  mkTurn turnID inputID generation attempt TurnRunning now None None None None None.

(** Claim [i] and begin turn [turnID] for it. *)
Definition begin_turn (now : Z) (generation : Z) (turnID : string) (ki : string * Input)
    : ptx (Turn * Input) := λ row,
  let t := new_turn now turnID ki.1 generation (attempts ki.1 row) in
  match ps_turns row !! turnID with
  | Some _ => Err (PgError "core_turns_pkey")
  | None =>
      if contains_nul turnID then Err (PgData "invalid byte sequence")
      else Ok ((t, claim_input generation ki.2),
               upd_input ki.1 (λ i, claim_input generation i <| in_turn_id := Some turnID |>)
                 (row <| ps_turns ::= <[turnID := t]> |>))
  end.

(** [freshID] is the [uuid.NewString()] used when the caller named no turn. *)
Definition load_tx (now generation : Z) (turnID freshID : string) : ptx LoadResult := λ row,
  match running_turn row with
  | Some (tid, t) =>
      if negb (tu_generation t =? generation) then Err ErrTurnConflict
      else match ps_inputs row !! tu_input_id t with
      | None => Err (PgError "no rows")
      | Some i =>
          Ok (mkLoad (Some t) (Some i) (renderedContext (tu_input_id t) row)
                (planForInput (tu_input_id t) row), row)
      end
  | None =>
      match next_input now row with
      | None => Ok (mkLoad None None (renderedContext "" row) None, row)
      | Some ki =>
          match begin_turn now generation
                  (if bool_decide (turnID = "") then freshID else turnID) ki row with
          | Err e => Err e
          | Ok ((t, i), row') =>
              Ok (mkLoad (Some t) (Some i) (renderedContext ki.1 row')
                    (planForInput ki.1 row'), row')
          end
      end
  end.

Definition LoadTurn (now : Z) (p : string) (generation : Z) (turnID freshID : string)
    : tx LoadResult :=
  fenced p generation (load_tx now generation turnID freshID).

(** ** Committing a turn *)

Section commit.
Context `{GL : !GoLib}.

Definition obj_ok (o : option obj) : bool :=
  match o with Some m => jsonb_ok (JObj m) | None => true end.
Definition event_ok (e : EventInput) : bool :=
  jsonb_ok (JObj (ei_payload e)) && negb (contains_nul (ei_kind e)).

(** Whether the request can be stored as the [commit_request] jsonb. *)
Definition request_ok (req : CommitRequest) : bool :=
  forallb event_ok (default [] (cr_events req)) && obj_ok (cr_output req)
  && obj_ok (cr_usage req)
  && texts_ok ([cr_outcome req; cr_error req; cr_error_kind req]
               ++ match cr_wait req with
                  | Some w => w_kind w :: funding_texts (w_funding w)
                  | None => []
                  end).

(** Error text loses its NUL bytes before anything compares or stores it. *)
Definition clean_request (req : CommitRequest) : CommitRequest :=
  req <| cr_error ::= strip_nul |>.

(** A finished turn replays only the identical commit. *)
Definition replay_commit (generation : Z) (req : CommitRequest) (t : Turn) : res err Turn :=
  if negb (tu_generation t =? generation) then Err ErrTurnConflict
  else if negb (request_ok req) then Err nul_error
  else if bool_decide (tu_commit_request t = Some req) then Ok t else Err ErrTurnConflict.

Definition wait_ok (w : CommitWait) : bool :=
  bool_decide (w_kind w = "budget")
  && negb (bool_decide (f_kind (w_funding w) = "")) && negb (bool_decide (f_id (w_funding w) = ""))
  && match w_estimate w with
     | None => false
     | Some e => negb (est_input_tokens e <? 0) && negb (negative (est_output_bound e))
     end.
Definition wait_estimate (w : CommitWait) : UsageEstimate :=
  default (mkEstimate 0 None) (w_estimate w).

(** The blocker of a budget park as the database has it now. *)
Definition wait_blocker (p : string) (w : CommitWait) (db : DB)
    : res err (bool * fundingHeadroom) :=
  if negb (wait_ok w)
  then Err (badreq "wait must be a budget wait with funding and a non-negative estimate")
  else
    stale ← waitFundingStale p (w_funding w) db;
    if negb (texts_ok [f_kind (w_funding w); f_id (w_funding w)])
    then Err (PgData "invalid byte sequence")
    else
      room ← get_fundingHeadroom (f_kind (w_funding w)) (f_id (w_funding w)) db;
      Ok (stale, room).

(** *** The journal part *)

Definition commit_events (now : Z) (turnID inputID : string) (req : CommitRequest) : ptx unit :=
  events ← gets (withoutJournaledInput (default [] (cr_events req)));
  events ← lift events;
  events ← gets (withoutJournaledExperience inputID events);
  base ← gets (λ row, max_seq ev_seq (ps_events row));
  (λ row, match appendEventsTx now turnID events row with
          | Ok r => Ok r
          | Err e => Err (dataErr e)
          end) ;;
  modify (link_receipts base).

(** *** The turn and the input *)

Definition finish_turn (now : Z) (st : TurnStatus) (req : CommitRequest) (t : Turn) : Turn :=
  t <| tu_status := st |> <| tu_finished_at := Some now |> <| tu_commit_request := Some req |>.
Definition complete_turn (now : Z) (req : CommitRequest) (t : Turn) : Turn :=
  finish_turn now TurnDone req t <| tu_output := cr_output req |> <| tu_usage := cr_usage req |>.
Definition fail_turn (now : Z) (req : CommitRequest) (t : Turn) : Turn :=
  finish_turn now TurnFailed req t <| tu_error := Some (cr_error req) |>.

Definition requeue (notBefore : option Z) (i : Input) : Input :=
  i <| in_status := Queued |> <| in_claimed_generation := None |> <| in_turn_id := None |>
    <| in_not_before := notBefore |>.
Definition park (now : Z) (i : Input) : Input :=
  i <| in_status := Waiting |> <| in_waiting_since := Some now |>.
Definition resolve (now : Z) (i : Input) : Input :=
  i <| in_status := InputDone |> <| in_done_at := Some now |>.

Definition commit_await_budget (now : Z) (turnID : string) (req : CommitRequest) (w : CommitWait) (stale : bool)
    (room : fundingHeadroom) (t : Turn) : ptx Turn :=
  modify (upd_turn turnID (finish_turn now TurnAwaiting req)) ;;
  fn ← lift (fit room (wait_estimate w));
  let currency := default "" (b_currency <$> h_budget room) in
  (if fn.1 || stale then modify (upd_input (tu_input_id t) (requeue None))
   else
     modify (upd_input (tu_input_id t) (park now)) ;;
     modify (λ row, row <| ps_waits ::= <[tu_input_id t :=
       mkWaitRow turnID (f_kind (w_funding w)) (f_id (w_funding w)) fn.2 currency
         (wait_estimate w) now]> |>) ;;
     append_outbox now "budget_wait" (list_to_map
       [("turn_id", JStr turnID); ("input_id", JStr (tu_input_id t));
        ("funding_kind", JStr (f_kind (w_funding w))); ("funding_id", JStr (f_id (w_funding w)));
        ("needed_minor", jint fn.2); ("currency", JStr currency)]) ;;
     mret tt) ;;
  mret (finish_turn now TurnAwaiting req t).

Definition approval_request (a : ToolApproval) : json :=
  JObj (list_to_map
    [("approval_id", JStr (ap_id a)); ("tool", JStr (ap_tool a)); ("route", JStr (ap_route a));
     ("required_by", JStr (ap_required_by a)); ("request", JObj (ap_request a));
     ("action_digest", JStr (ap_action_digest a))]).

Definition commit_await_approval (now : Z) (turnID : string) (req : CommitRequest) (t : Turn) : ptx Turn :=
  pending ← gets (pendingApprovalsForInput (tu_input_id t));
  modify (upd_turn turnID (finish_turn now TurnAwaiting req)) ;;
  (match pending with
   | [] => modify (upd_input (tu_input_id t) (requeue None))
   | _ =>
       modify (upd_input (tu_input_id t) (park now)) ;;
       append_outbox now "approval_requested" (list_to_map
         [("turn_id", JStr turnID); ("input_id", JStr (tu_input_id t));
          ("approvals", JArr (map approval_request pending))]) ;;
       mret tt
   end) ;;
  mret (finish_turn now TurnAwaiting req t).

Definition commit_complete (now : Z) (turnID : string) (req : CommitRequest) (t : Turn) : ptx Turn :=
  modify (upd_turn turnID (complete_turn now req)) ;;
  modify (upd_input (tu_input_id t) (resolve now)) ;;
  append_outbox now "turn_completed" (list_to_map
    [("turn_id", JStr turnID); ("input_id", JStr (tu_input_id t));
     ("output", jopt (cr_output req))]) ;;
  mret (complete_turn now req t).

Definition commit_fail (now : Z) (turnID : string) (req : CommitRequest) (t : Turn) : ptx Turn :=
  modify (upd_turn turnID (fail_turn now req)) ;;
  (if cr_retryable req then
     (* delay.Milliseconds() truncates; now() is in microseconds *)
     let ms := Z.quot (retry_delay (tu_attempt t) (cr_retry_after_ms req)) Millisecond in
     modify (upd_input (tu_input_id t) (requeue (Some (now + ms * 1000))))
   else
     modify (upd_input (tu_input_id t) (resolve now)) ;;
     append_outbox now "turn_failed" (list_to_map
       [("turn_id", JStr turnID); ("input_id", JStr (tu_input_id t));
        ("error", JStr (cr_error req))]) ;;
     mret tt) ;;
  mret (fail_turn now req t).

(** The blocker is there exactly for an [await] with a wait. *)
Definition commit_outcome (now : Z) (turnID : string) (req : CommitRequest)
    (blocker : bool * fundingHeadroom) (t : Turn) : ptx Turn :=
  if bool_decide (cr_outcome req = "await") then
    match cr_wait req with
    | Some w => commit_await_budget now turnID req w blocker.1 blocker.2 t
    | None => commit_await_approval now turnID req t
    end
  else if bool_decide (cr_outcome req = "complete") then commit_complete now turnID req t
  else commit_fail now turnID req t.

Definition commit_row (now : Z) (turnID : string) (req : CommitRequest)
    (blocker : bool * fundingHeadroom) (t : Turn) : ptx Turn :=
  commit_events now turnID (tu_input_id t) req ;;
  guard_or (request_ok req) (dataErr nul_error) ;;
  commit_outcome now turnID req blocker t.

Definition get_turn (turnID : string) : ptx Turn := λ row,
  match ps_turns row !! turnID with
  | None => Err ErrTurnNotFound
  | Some t => Ok (t, row)
  end.

Definition outcome_ok (o : string) : bool :=
  bool_decide (o = "complete" ∨ o = "fail" ∨ o = "await").

Definition CommitTurn (now : Z) (p turnID : string) (generation : Z) (req0 : CommitRequest)
    : tx Turn :=
  if negb (outcome_ok (cr_outcome req0))
  then throw (badreq "outcome must be complete, fail, or await")
  else
    let req := clean_request req0 in
    t ← fenced p generation (get_turn turnID);
    if negb (bool_decide (tu_status t = TurnRunning)) then lift (replay_commit generation req t)
    else if negb (tu_generation t =? generation) then throw ErrTurnConflict
    else
      with_persona p ErrGenerationFence (reconcileHeldReservations now turnID None) ;;
      blocker ← gets (λ db, match cr_wait req with
                            | Some w => if bool_decide (cr_outcome req = "await")
                                        then wait_blocker p w db
                                        else Ok (false, mkHeadroom None 0 0)
                            | None => Ok (false, mkHeadroom None 0 0)
                            end);
      blocker ← lift blocker;
      with_persona p ErrGenerationFence (commit_row now turnID req blocker t).
End commit.

(** ** Recovery *)

Record RecoverResult := mkRecover {
  rr_interrupted : list string; rr_requeued : list string; rr_released : list string
}.

(** Running turns of other generations. *)
Definition stale_turns (generation : Z) (row : PersonaRow) : list (string * Turn) :=
  filter (λ kt, tu_generation kt.2 ≠ generation) (running_turns row).
Definition interrupt (now : Z) (t : Turn) : Turn :=
  t <| tu_status := TurnInterrupted |> <| tu_finished_at := Some now |>.

Definition stale_claim (generation : Z) (interrupted : list string) (k : string) (i : Input)
    : bool :=
  bool_decide (in_status i = Claimed)
  && (match in_claimed_generation i with Some g => negb (g =? generation) | None => false end
      || bool_decide (k ∈ interrupted)).
Definition unclaim (i : Input) : Input :=
  i <| in_status := Queued |> <| in_claimed_generation := None |> <| in_turn_id := None |>.
Definition requeue_stale (generation : Z) (interrupted : list string)
    (m : gmap string Input) : gmap string Input :=
  map_imap (λ k i, Some (if stale_claim generation interrupted k i then unclaim i else i)) m.

Definition stale_schedule (generation : Z) (s : Schedule) : bool :=
  bool_decide (sc_status s = SchClaimed)
  && match sc_claimed_generation s with Some g => negb (g =? generation) | None => true end.
Definition release_schedule (generation : Z) (s : Schedule) : Schedule :=
  if stale_schedule generation s
  then s <| sc_status := SchPending |> <| sc_claimed_generation := None |> else s.

Definition recover_tx (now generation : Z) : ptx RecoverResult :=
  stale ← gets (stale_turns generation);
  for_each stale (λ kt, modify (upd_turn kt.1 (interrupt now))) ;;
  for_each stale (λ kt, markInterruptedTx now kt.1 (tu_input_id kt.2)) ;;
  let inputs := map (λ kt, tu_input_id kt.2) stale in
  requeued ← gets (λ row, fst <$> filter (λ ki, stale_claim generation inputs ki.1 ki.2 = true)
                            (map_to_list (ps_inputs row)));
  modify (λ row, row <| ps_inputs ::= requeue_stale generation inputs |>) ;;
  released ← gets (λ row, fst <$> filter (λ ks, stale_schedule generation ks.2 = true)
                            (map_to_list (ps_schedules row)));
  modify (λ row, row <| ps_schedules ::= fmap (release_schedule generation) |>) ;;
  reconcileHeldReservations now "" (Some generation) ;;
  mret (mkRecover (map fst stale) requeued released).

Definition Recover (now : Z) (p : string) (generation : Z) : tx RecoverResult :=
  fenced p generation (recover_tx now generation).
