(* ===== verification/Operations.v ===== *)
(** * Operations: the ledger of side effects

    [store.go]: [ClaimOperation] records a planned call before its effect
    runs and applies the effect in the same transaction, [claimGated] puts a
    human decision in between, [CompleteOperation] finalizes a running one,
    [internalToolResponse] is the effect of each state-internal tool.

    Effects that live outside the files modelled here are parameters
    ([Tools]): the delegated effects other packages register, and the
    terminal, memory and history tools.  [EffectFrame] (EffectFacts.v) states
    what the core relies on about them; the terminal tool of [Terminals.v]
    is shown to honour it in TerminalFacts.v. *)

From Stdlib Require Import ZArith Lia.
From S2P Require Import Prelude Json State Personas Inputs Journal Plans Pricing Usage Approvals.
From S2P Require Import Jobs.
Local Open Scope string_scope.
Local Open Scope list_scope.
Local Open Scope Z_scope.

(** ** Effects the core does not implement *)

(** A failed effect may leave writes behind in the transaction it ran in:
    [te_apply] returns the tables with the outcome either way. *)
Record ToolEffect := mkEffect {
  te_validate : option (obj → res err unit);
  te_apply : string → string → obj → call err PersonaRow obj;
  te_readonly : option (obj → bool)
}.
Record Tools := mkTools {
  tl_config : StoreConfig;
  tl_effects : gmap string ToolEffect;
  tl_terminal : Z → string → string → obj → call err PersonaRow (option obj);
  tl_memory_resume : Z → string → obj → call err PersonaRow obj;
  tl_history : string → obj → PersonaRow → res err obj
}.

Definition claimableTool (tl : Tools) (tool : string) : bool :=
  isInternalTool tool || bool_decide (is_Some (tl_effects tl !! tool)).

Definition RegisterEffect (tool : string) (e : ToolEffect) (tl : Tools) : res err Tools :=
  if bool_decide (tool = "") then Err (badreq "tool effect requires a name and Apply")
  else if isInternalTool tool then Err (badreq (tool +:+ " is a built-in internal tool"))
  else Ok (mkTools (tl_config tl) (<[tool := e]> (tl_effects tl)) (tl_terminal tl)
             (tl_memory_resume tl) (tl_history tl)).

(** Running a call inside a transaction, and a transaction as a call. *)
Definition of_call {A} (c : call err PersonaRow A) : ptx A := λ row,
  match c row with (row', Ok a) => Ok (a, row') | (_, Err e) => Err e end.

Section operations.
Context `{GL : !GoLib} (tl : Tools).

(** ** State-internal tools *)

Definition schedule_json (p : string) (s : Schedule) : json :=
  JObj (list_to_map
    [("persona_id", JStr p); ("schedule_id", JStr (sc_id s));
     ("wake_at", j_time (Some (sc_wake_at s))); ("payload", JObj (sc_payload s));
     ("miss_policy", JStr (sc_miss_policy s));
     ("status", JStr (schedule_status_text (sc_status s)));
     ("claimed_generation", JNull); ("created_at", j_time (Some (sc_created_at s)));
     ("fired_at", JNull)]).

(** A parsed time is in nanoseconds; the column keeps microseconds. *)
Definition wake_us (ns : Z) : Z := ns / 1000.

Definition set_schedule (now : Z) (scheduleID : string) (wake_ns : Z) (payload : obj)
    (missPolicy : string) : ptx Schedule := λ row,
  if negb (texts_ok [scheduleID; missPolicy] && jsonb_ok (JObj payload))
  then Err (dataErr nul_error)
  else match ps_schedules row !! scheduleID with
  | None =>
      let s := mkSchedule scheduleID (wake_us wake_ns) payload missPolicy SchPending None now
                 None in
      Ok (s, row <| ps_schedules ::= <[scheduleID := s]> |>)
  | Some s =>
      let identical := (sc_wake_at s * 1000 =? wake_ns)
        && bool_decide (sc_miss_policy s = missPolicy)
        && jsonbEqual (Some (sc_payload s)) (Some payload) in
      if negb identical
      then Err (badreq ("schedule.set schedule_id " +:+ strconv_Quote scheduleID
                        +:+ " already exists with different contents"))
      else if negb (bool_decide (sc_status s = SchPending))
      then Err (badreq ("schedule.set schedule_id " +:+ strconv_Quote scheduleID
                        +:+ " is already " +:+ schedule_status_text (sc_status s)))
      else Ok (s, row)
  end.

(** [nanos] is [time.Now().UnixNano()], the id of an unnamed schedule. *)
Definition tool_schedule_set (now nanos : Z) (p : string) (request : obj) : ptx obj :=
  let id := get_str request "schedule_id" in
  let scheduleID := if bool_decide (id = "") then "sch-" +:+ itoa nanos else id in
  match time_Parse (get_str request "wake_at") with
  | None => throw (badreq "schedule.set requires RFC3339 wake_at")
  | Some wake =>
      if bool_decide (miss_policy request ∈ ["fire_late"; "coalesce"; "expire"; "report_missed"])
      then
        s ← set_schedule now scheduleID wake (default ∅ (get_obj request "payload"))
              (miss_policy request);
        mret (list_to_map [("schedule", schedule_json p s)])
      else throw (badreq "schedule.set miss_policy must be fire_late, coalesce, expire, or report_missed")
  end.

Definition tool_journal_note (now : Z) (turnID inputID : string) (request : obj) : ptx obj :=
  let text := get_str request "text" in
  lift (required request "text" "journal.note requires text") ;;
  ensureInputReceived now inputID turnID ;;
  seq ← gets (λ row, max_seq ev_seq (ps_events row) + 1);
  map_err dataErr (appendEventsTx now turnID
    [mkEventInput "note" (list_to_map [("text", JStr text)])]) ;;
  mret (list_to_map [("seq", jint seq); ("kind", JStr "note")]).

Definition tool_message_send (now : Z) (turnID : string) (request : obj) : ptx obj :=
  let text := get_str request "text" in
  lift (required request "text" "message.send requires text") ;;
  seq ← map_err dataErr (append_outbox now "secretary_message"
          (list_to_map [("text", JStr text); ("turn_id", JStr turnID)]));
  mret (list_to_map [("seq", jint seq); ("kind", JStr "secretary_message")]).

Definition some_resp (c : call err PersonaRow obj) : call err PersonaRow (option obj) :=
  then_call c (λ r, ret_call (Ok (Some r))).

(** The effect of a tool; [None] is a tool nothing implements.  The
    built-in effects write nothing when they refuse. *)
Definition internalToolResponse (now nanos : Z) (p turnID inputID tool : string)
    (callIndex : Z) (idemKey : string) (request : obj) : call err PersonaRow (option obj) :=
  if HasPrefix tool "job." || bool_decide (tool = "script.start") then
    some_resp (commit (internalJobTool (tl_config tl) now p turnID inputID tool callIndex request))
  else if HasPrefix tool "terminal." then tl_terminal tl now p tool request
  else if bool_decide (tool = "schedule.set") then
    some_resp (commit (tool_schedule_set now nanos p request))
  else if bool_decide (tool = "memory.resume") then some_resp (tl_memory_resume tl now p request)
  else if bool_decide (tool = "journal.note") then
    some_resp (commit (tool_journal_note now turnID inputID request))
  else if bool_decide (tool = "message.send") then
    some_resp (commit (tool_message_send now turnID request))
  else if bool_decide (tool = "conversation_history") then
    some_resp (λ row, (row, tl_history tl p request row))
  else match tl_effects tl !! tool with
  | Some e => some_resp (te_apply e p idemKey request)
  | None => ret_call (Ok None)
  end.

(** ** Claiming *)

Definition operationByKey (tool idemKey : string) (row : PersonaRow)
    : option (string * Operation) :=
  List.find (λ ko, bool_decide (op_tool ko.2 = tool)
                   && bool_decide (op_idempotency_key ko.2 = idemKey))
    (map_to_list (ps_ops row)).

Definition settle_op (now : Z) (st : OpStatus) (resp : obj) (o : Operation) : Operation :=
  o <| op_status := st |> <| op_response := Some resp |> <| op_completed_at := Some now |>.

(** [UPDATE core_operations SET status, response ... WHERE operation_id]:
    the updated row, or a data error. *)
Definition finish_op (now : Z) (st : OpStatus) (resp : obj) (op : Operation) : ptx Operation :=
  guard_or (jsonb_ok (JObj resp)) (dataErr nul_error) ;;
  modify (upd_op (op_id op) (settle_op now st resp)) ;;
  mret (settle_op now st resp op).

Definition error_response (e : err) : obj := list_to_map [("error", JStr (err_text e))].
Definition blocked_response (tool : string) : obj := list_to_map
  [("error", JStr "blocked"); ("blocked", JStr "elevated_route_required");
   ("detail", JStr (tool +:+ " only runs as an elevated call the human approves; a normal call asks no one and is never re-routed"))].

Definition Claim : Type := Operation * option ToolApproval * bool.

Definition validate_gated (tool : string) (request : obj) : res err unit :=
  validateToolRequest tool request ≫= λ _,
  match tl_effects tl !! tool with
  | Some e => match te_validate e with Some v => v request | None => Ok tt end
  | None => Ok tt
  end.

Definition new_approval (now : Z) (p inputID route requiredBy : string) (callIndex : Z)
    (op : Operation) : ToolApproval :=
  mkApproval (approvalID p inputID callIndex) inputID callIndex (op_id op) (op_turn_id op)
    (op_tool op) route requiredBy (op_request op)
    (ActionDigest (op_tool op) route (op_request op)) Pending None None None None None None
    None None None None None now.

(** [INSERT INTO core_tool_approvals ... ON CONFLICT (persona_id, input_id,
    call_index) DO NOTHING]; the approval id is the primary key. *)
Definition record_approval (a : ToolApproval) : ptx unit := λ row,
  match ps_approvals row !! (ap_input_id a, ap_call_index a) with
  | Some _ => Ok (tt, row)
  | None =>
      match approval_by_id (ap_id a) row with
      | Some _ => Err (PgError "core_tool_approvals_pkey")
      | None => Ok (tt, row <| ps_approvals ::= <[(ap_input_id a, ap_call_index a) := a]> |>)
      end
  end.

Definition consume (now : Z) (inputID : string) (callIndex : Z) : ptx unit :=
  modify (λ row, row <| ps_approvals ::= alter (λ a, a <| ap_consumed_at := Some now |>)
                                           (inputID, callIndex) |>).

(** The approved call runs once: the grant is spent in the transaction
    that applies the effect and records its outcome. *)
Definition run_approved (now nanos : Z) (p turnID inputID : string) (pos : callExperience)
    (op : Operation) (a : ToolApproval) : ptx Claim :=
  let a' := a <| ap_consumed_at := Some now |> in
  consume now inputID (ce_index pos) ;;
  journalExperienceTx now turnID inputID (decided pos) ;;
  outcome ← (λ row, let '(row', r) := internalToolResponse now nanos p (op_turn_id op) inputID
                      (op_tool op) (ce_index pos) (op_idempotency_key op) (op_request op) row in
                    Ok (r, row'));
  match outcome with
  | Ok (Some response) =>
      op ← finish_op now OpDone response op;
      journalOutcomeTx now turnID inputID pos op (Some a') ;;
      mret (op, Some a', true)
  | Ok None =>
      let e := badreq (op_tool op +:+ " has no registered effect to run after approval") in
      op ← finish_op now OpFailed (error_response e) op;
      journalOutcomeTx now turnID inputID pos op (Some a') ;;
      mret (op, Some a', true)
  | Err (ErrBadRequest m) =>
      op ← finish_op now OpFailed (error_response (ErrBadRequest m)) op;
      journalOutcomeTx now turnID inputID pos op (Some a') ;;
      mret (op, Some a', true)
  | Err (ErrBadData _) => throw (PgError "current transaction is aborted")
  | Err e => throw e
  end.

(** What the approval row says happens next. *)
Definition gated_decision (now nanos : Z) (p turnID inputID : string) (pos : callExperience)
    (op : Operation) (fresh : bool) : ptx Claim :=
  found ← gets (approvalForCall inputID (ce_index pos));
  match found with
  | None => throw (PgError "approval record missing for gated operation")
  | Some a =>
      match ap_status a with
      | Pending =>
          journalExperienceTx now turnID inputID (awaiting pos a) ;;
          mret (op, Some a, fresh)
      | Approved =>
          match ap_consumed_at a with
          | Some _ =>
              journalOutcomeTx now turnID inputID pos op (Some a) ;;
              mret (op, Some a, false)
          | None => run_approved now nanos p turnID inputID pos op a
          end
      | Denied =>
          journalOutcomeTx now turnID inputID pos op (Some a) ;;
          mret (op, Some a, false)
      end
  end.

Definition claimGated (now nanos : Z) (p turnID inputID : string) (pos : callExperience)
    (op : Operation) (route requiredBy : string) (fresh : bool) : ptx Claim :=
  if negb (bool_decide (op_status op = OpAwaitingApproval)) then
    a ← gets (approvalForCall inputID (ce_index pos));
    journalOutcomeTx now turnID inputID pos op a ;;
    mret (op, a, false)
  else if fresh then
    match validate_gated (op_tool op) (op_request op) with
    | Err e =>
        op ← finish_op now OpFailed (error_response e) op;
        journalOutcomeTx now turnID inputID pos op None ;;
        mret (op, None, true)
    | Ok _ =>
        record_approval (new_approval now p inputID route requiredBy (ce_index pos) op) ;;
        gated_decision now nanos p turnID inputID pos op fresh
    end
  else gated_decision now nanos p turnID inputID pos op fresh.

(** A fresh claim of a call no approval gates. *)
Definition claim_fresh (now nanos : Z) (p turnID inputID : string) (pos : callExperience)
    (op : Operation) (idemKey : string) : ptx Claim :=
  let c := ce_call pos in
  denied ← gets (deniedIdenticalCall inputID (op_tool op) (op_request op));
  match denied with
  | Some a =>
      op ← finish_op now OpFailed (denialResponse a) op;
      journalOutcomeTx now turnID inputID pos op (Some a) ;;
      mret (op, Some a, true)
  | None =>
      if elevatedOnlyTool (op_tool op) && negb (bool_decide (pc_route c = "elevated")) then
        op ← finish_op now OpFailed (blocked_response (op_tool op)) op;
        journalOutcomeTx now turnID inputID pos op None ;;
        mret (op, None, true)
      else
        journalExperienceTx now turnID inputID (decided pos) ;;
        resp ← of_call (internalToolResponse now nanos p turnID inputID (op_tool op)
                          (ce_index pos) idemKey (op_request op));
        match resp with
        | None => throw (badreq (op_tool op +:+ " has no registered effect to run"))
        | Some response =>
            op ← finish_op now OpDone response op;
            journalOutcomeTx now turnID inputID pos op None ;;
            mret (op, None, true)
        end
  end.

Definition is_job_tool (tool : string) : bool :=
  HasPrefix tool "job." || bool_decide (tool = "script.start").

(** The stored operation of the key: reclaimed when its generation is
    fenced, else replayed. *)
Definition claim_stored (now nanos : Z) (p turnID inputID tool : string) (generation : Z)
    (request : obj) (pos : callExperience) (requiredBy : string) (op : Operation) : ptx Claim :=
  if negb (jsonbEqual (Some (op_request op)) (Some request)) then throw ErrTurnConflict
  else if bool_decide (op_status op = OpRunning)
          && negb (op_claimed_generation op =? generation) then
    let f o := o <| op_claimed_generation := generation |> <| op_turn_id := turnID |> in
    modify (upd_op (op_id op) f) ;; mret (f op, None, true)
  else
    cur ← gets (withCurrentJobTx (op_response op));
    let op := if is_job_tool tool && bool_decide (op_status op = OpDone)
              then op <| op_response := cur |> else op in
    if bool_decide (requiredBy = "") then
      journalOutcomeTx now turnID inputID pos op None ;; mret (op, None, false)
    else claimGated now nanos p turnID inputID pos op (pc_route (ce_call pos)) requiredBy false.

Definition new_op (now : Z) (operationID turnID tool idemKey : string) (request : obj)
    (st : OpStatus) (generation : Z) : Operation :=
  mkOp operationID turnID tool idemKey request st None generation now None.

(** [INSERT ... ON CONFLICT (persona_id, tool, idempotency_key) DO NOTHING]
    with the operation id as primary key. *)
Definition insert_op (op : Operation) : ptx (option Operation) := λ row,
  if negb (texts_ok [op_id op; op_tool op; op_idempotency_key op]
           && jsonb_ok (JObj (op_request op)))
  then Err (dataErr nul_error)
  else match operationByKey (op_tool op) (op_idempotency_key op) row with
  | Some (_, o) => Ok (Some o, row)
  | None =>
      match ps_ops row !! op_id op with
      | Some _ => Err (PgError "core_operations_pkey")
      | None => Ok (None, row <| ps_ops ::= <[op_id op := op]> |>)
      end
  end.

(** The claim of the call at [pos]. *)
Definition claim_position (now nanos : Z) (p turnID inputID : string) (generation : Z)
    (operationID tool : string) (request : obj) (pos : callExperience) : ptx Claim :=
  let idemKey := idem_key inputID (ce_index pos) in
  let requiredBy := approvalRequirement tool (pc_route (ce_call pos)) in
  let st := if bool_decide (requiredBy = "") then OpRunning else OpAwaitingApproval in
  let op := new_op now operationID turnID tool idemKey request st generation in
  stored ← insert_op op;
  match stored with
  | Some o => claim_stored now nanos p turnID inputID tool generation request pos requiredBy o
  | None =>
      if bool_decide (requiredBy = "")
      then claim_fresh now nanos p turnID inputID pos op idemKey
      else claimGated now nanos p turnID inputID pos op (pc_route (ce_call pos)) requiredBy true
  end.

(** The claim must be the call recorded at [callIndex] of the live turn's
    plan. *)
Definition claim_tx (now nanos : Z) (p turnID : string) (generation : Z)
    (operationID tool : string) (callIndex : Z) (request : obj) : ptx Claim := λ row,
  match ps_turns row !! turnID with
  | None => Err ErrTurnNotFound
  | Some t =>
      if negb (live_turn generation t) then Err ErrTurnConflict
      else if callIndex <? 0 then Err (badreq "call_index must be >= 0")
      else match planPosition (planForInput (tu_input_id t) row) callIndex with
      | None => Err ErrTurnConflict
      | Some pos =>
          if bool_decide (pc_tool (ce_call pos) = tool)
             && jsonbEqual (Some (pc_request (ce_call pos))) (Some request)
          then claim_position now nanos p turnID (tu_input_id t) generation operationID tool
                 request pos row
          else Err ErrTurnConflict
      end
  end.

Definition claimOperation (now nanos : Z) (p turnID : string) (generation : Z)
    (operationID tool : string) (callIndex : Z) (request : option obj) : tx Claim :=
  let request := default ∅ request in
  if negb (claimableTool tl tool) then throw (ErrUnknownTool tool)
  else if hasNUL (JObj request)
  then throw (badreq (tool +:+ " request contains a NUL byte jsonb cannot store"))
  else fenced p generation
         (claim_tx now nanos p turnID generation operationID tool callIndex request).

(** A deterministic rejection is journaled in a transaction of its own. *)
Definition ClaimOperation (now nanos : Z) (p turnID : string) (generation : Z)
    (operationID tool : string) (callIndex : Z) (request : option obj) : call err DB Claim := λ db,
  match commit (claimOperation now nanos p turnID generation operationID tool callIndex request)
          db with
  | (db, Err e) =>
      if claimRejected e then
        match commit (fenced p generation (journalRejectedClaim now turnID generation callIndex
                        tool request e)) db with
        | (db, Ok _) => (db, Err e)
        | (db, Err je) => (db, Err je)
        end
      else (db, Err e)
  | r => r
  end.

(** ** Completing *)

Definition complete_op_tx (now : Z) (operationID : string) (generation : Z)
    (response : option obj) (failed : bool) : ptx Operation := λ row,
  match ps_ops row !! operationID with
  | None => Err ErrOpNotFound
  | Some op =>
      if bool_decide (op_status op = OpRunning) then
        if op_claimed_generation op =? generation then
          if match response with Some r => jsonb_ok (JObj r) | None => true end then
            let f o := o <| op_status := if failed then OpFailed else OpDone |>
                         <| op_response := response |> <| op_completed_at := Some now |> in
            (modify (upd_op operationID f) ;; journalCompletedTx now (f op) ;; mret (f op)) row
          else Err nul_error
        else Err ErrGenerationFence
      else Ok (op, row)
  end.

Definition CompleteOperation (now : Z) (p operationID : string) (generation : Z)
    (response : option obj) (failed : bool) : tx Operation :=
  fenced p generation (complete_op_tx now operationID generation response failed).

(** ** What an input may have done *)

Definition operationReadOnly (tool : string) (request : obj) : bool :=
  if isInternalTool tool
  then match tool_info tool with Some i => ti_readOnly i | None => false end
  else match tl_effects tl !! tool with
       | Some e => match te_readonly e with Some f => f request | None => false end
       | None => false
       end.

Definition InputMayHaveCommittedEffects (inputID : string) (row : PersonaRow) : bool :=
  existsb (λ ko, in_lineage row inputID (op_turn_id ko.2)
                 && negb (bool_decide (op_status ko.2 = OpFailed))
                 && negb (operationReadOnly (op_tool ko.2) (op_request ko.2)))
    (map_to_list (ps_ops row)).
End operations.
