(* ===== verification/Schedules.v ===== *)
(** * Schedules

    [store.go]: [DispatchDueSchedules] turns due schedules into wake
    inputs. *)

From Stdlib Require Import ZArith Lia.
From stdpp Require Import sorting.
From S2P Require Import Prelude Json State Personas Inputs.
Local Open Scope string_scope.
Local Open Scope list_scope.
Local Open Scope Z_scope.

(** Pending and due by both clocks: the caller's [hint] can only delay. *)
Definition due (now hint : Z) (s : Schedule) : bool :=
  bool_decide (sc_status s = SchPending) && (sc_wake_at s <=? Z.min now hint).

(** [ORDER BY wake_at, schedule_id] *)
Definition schedule_le (a b : string * Schedule) : Prop :=
  sc_wake_at a.2 < sc_wake_at b.2
  ∨ (sc_wake_at a.2 = sc_wake_at b.2 ∧ String.leb a.1 b.1 = true).
#[global] Instance schedule_le_dec : RelDecision schedule_le.
Proof. intros a b. unfold schedule_le. apply _. Defined.

Definition due_schedules (now hint limit : Z) (row : PersonaRow) : list (string * Schedule) :=
  take (Z.to_nat limit) (merge_sort schedule_le
    (filter (λ ks, due now hint ks.2 = true) (map_to_list (ps_schedules row)))).

Definition wake_input (now : Z) (id : string) (s : Schedule) (seq : Z) : Input :=
  mkInput (schedInputPrefix +:+ id) "wake" (sc_payload s) "schedule" id "core_schedules" ""
    None "reply" Queued None None now None None None seq None 0.

Definition fire (now generation : Z) (s : Schedule) : Schedule :=
  s <| sc_status := SchFired |> <| sc_fired_at := Some now |>
    <| sc_claimed_generation := Some generation |>.

(** The wake input of a schedule, which may be there already. *)
Definition enqueue_wake (now : Z) (ks : string * Schedule) : ptx unit :=
  fresh ← insert_input (wake_input now ks.1 ks.2);
  if fresh : bool then mret tt
  else
    found ← gets (λ row, ps_inputs row !! (schedInputPrefix +:+ ks.1));
    match found with
    | None => throw (PgError "no rows")
    | Some i => guard_or (bool_decide (in_kind i = "wake") && bool_decide (in_actor_id i = ks.1))
                  ErrTurnConflict
    end.

Definition fire_schedule (now generation : Z) (ks : string * Schedule) : ptx unit :=
  enqueue_wake now ks ;;
  modify (λ row, row <| ps_schedules ::= alter (fire now generation) ks.1 |>).

Definition dispatch_tx (now generation hint limit : Z) : ptx (list Schedule) :=
  ids ← gets (due_schedules now hint limit);
  for_each ids (fire_schedule now generation) ;;
  mret (map (λ ks, fire now generation ks.2) ids).

Definition DispatchDueSchedules (now : Z) (p : string) (generation hint limit : Z)
    : tx (list Schedule) :=
  fenced p generation (dispatch_tx now generation hint (clampLimit limit 16 256)).
