(* ===== verification/Machine.v ===== *)
(** * The input/turn state machine

    The part of a persona's tables that decides who works on what: of each
    input its status, claiming generation and turn; of each turn its input,
    generation and status.  [machine_inv] relates the two, and the lemmas
    below are the transitions the operations of [store.go] perform on it.
    [terminal_inv] ties the inputs to the outbox, [slot_inv] ties the
    notification inputs of jobs and schedules to what they report. *)

From Stdlib Require Import ZArith Lia.
From S2P Require Import Prelude Json State Personas Inputs.
Local Open Scope string_scope.
Local Open Scope list_scope.
Local Open Scope Z_scope.

(** ** Views *)

Record View := mkView { v_status : InputStatus; v_gen : option Z; v_turn : option string }.
Record TView := mkTView { x_input : string; x_gen : Z; x_status : TurnStatus }.

Definition view (i : Input) : View :=
  mkView (in_status i) (in_claimed_generation i) (in_turn_id i).
Definition tview (t : Turn) : TView := mkTView (tu_input_id t) (tu_generation t) (tu_status t).

Definition views (row : PersonaRow) : gmap string View := view <$> ps_inputs row.
Definition tviews (row : PersonaRow) : gmap string TView := tview <$> ps_turns row.

Definition queued_view : View := mkView Queued None None.

Record machine_inv (V : gmap string View) (T : gmap string TView) (g : option Z) : Prop := {
  mi_running : ∀ t x, T !! t = Some x → x_status x = TurnRunning →
    V !! x_input x = Some (mkView Claimed (Some (x_gen x)) (Some t));
  mi_claimed : ∀ k v, V !! k = Some v → v_status v = Claimed →
    ∃ t x, v_turn v = Some t ∧ v_gen v = Some (x_gen x) ∧ T !! t = Some x ∧ x_input x = k
      ∧ x_status x = TurnRunning;
  mi_queued : ∀ k v, V !! k = Some v → v_status v = Queued → v = queued_view;
  mi_one : ∀ t t' x x', T !! t = Some x → T !! t' = Some x' →
    x_status x = TurnRunning → x_status x' = TurnRunning → t = t';
  mi_inputs : ∀ t x, T !! t = Some x → is_Some (V !! x_input x);
  mi_gen : ∀ t x, T !! t = Some x → ∃ g', g = Some g' ∧ x_gen x ≤ g'
}.

Section machine.
Implicit Types (V : gmap string View) (T : gmap string TView).

Lemma machine_inv_lease V T g g' :
  (∀ z, g = Some z → ∃ z', g' = Some z' ∧ z ≤ z') →
  machine_inv V T g → machine_inv V T g'.
Proof.
  intros Hg [H1 H2 H3 H4 H5 H6]. split; [done..|].
  intros t x (z & Hz & ?)%H6. destruct (Hg z Hz) as (z' & ? & ?).
  exists z'. split; [done|lia].
Qed.

(** A new input. *)
Lemma machine_inv_add V T g k :
  V !! k = None → machine_inv V T g → machine_inv (<[k := queued_view]> V) T g.
Proof.
  intros Hk [H1 H2 H3 H4 H5 H6]. split; [| | |done| |done].
  - intros t x Hx Hr. rewrite lookup_insert_ne; [eauto|].
    intros ->. apply H5 in Hx as [v Hv]. congruence.
  - intros j v [[<- <-]|[Hne Hv]]%lookup_insert_Some; [done|eauto].
  - intros j v [[<- <-]|[Hne Hv]]%lookup_insert_Some; [done|eauto].
  - intros t x Hx. rewrite lookup_insert. case_decide; [by eexists|eauto].
Qed.

(** A parked or otherwise unclaimed input goes back to the queue, or stays
    unclaimed under another status. *)
Lemma machine_inv_unclaimed V T g k v v' :
  V !! k = Some v → v_status v ≠ Claimed → v_status v' ≠ Claimed →
  (v_status v' = Queued → v' = queued_view) →
  machine_inv V T g → machine_inv (<[k := v']> V) T g.
Proof.
  intros Hk Hv Hv' Hq [H1 H2 H3 H4 H5 H6]. split; [| | |done| |done].
  - intros t x Hx Hr. pose proof (H1 _ _ Hx Hr) as Hi. rewrite lookup_insert_ne; [done|].
    intros ->. rewrite Hk in Hi. injection Hi as ->. done.
  - intros j w [[<- <-]|[Hne Hw]]%lookup_insert_Some; [done|eauto].
  - intros j w [[<- <-]|[Hne Hw]]%lookup_insert_Some; [auto|eauto].
  - intros t x Hx. rewrite lookup_insert. case_decide; [by eexists|eauto].
Qed.

(** Claiming a queued input for a new running turn. *)
Lemma machine_inv_begin V T g k t gn v :
  V !! k = Some v → v_status v = Queued → T !! t = None →
  (∀ t' x, T !! t' = Some x → x_status x ≠ TurnRunning) → g = Some gn →
  machine_inv V T g →
  machine_inv (<[k := mkView Claimed (Some gn) (Some t)]> V)
    (<[t := mkTView k gn TurnRunning]> T) g.
Proof.
  intros Hk Hq Ht Hno -> [H1 H2 H3 H4 H5 H6]. split.
  - intros t' x [[<- <-]|[Hne Hx]]%lookup_insert_Some Hr.
    + simpl. by rewrite lookup_insert_eq.
    + by apply Hno in Hx.
  - intros j w [[<- <-]|[Hne Hw]]%lookup_insert_Some Hc.
    + exists t, (mkTView k gn TurnRunning). by rewrite lookup_insert_eq.
    + destruct (H2 _ _ Hw Hc) as (t' & x & ? & ? & Hx & ? & Hr). by apply Hno in Hx.
  - intros j w [[<- <-]|[Hne Hw]]%lookup_insert_Some; [done|eauto].
  - intros t1 t2 x1 x2 [[<- <-]|[? Hx1]]%lookup_insert_Some
      [[<- <-]|[? Hx2]]%lookup_insert_Some Hr1 Hr2; try done.
    + by apply Hno in Hx2.
    + by apply Hno in Hx1.
    + by apply Hno in Hx1.
  - intros t' x [[<- <-]|[Hne Hx]]%lookup_insert_Some; rewrite lookup_insert.
    + simpl. by rewrite decide_True by done.
    + case_decide; [by eexists|eauto].
  - intros t' x [[<- <-]|[Hne Hx]]%lookup_insert_Some; [|eauto].
    exists gn. simpl. split; [done|lia].
Qed.

(** The running turn ends and its input leaves the claimed state. *)
Lemma machine_inv_finish V T g t x st v' :
  T !! t = Some x → x_status x = TurnRunning → st ≠ TurnRunning →
  v_status v' ≠ Claimed → (v_status v' = Queued → v' = queued_view) →
  machine_inv V T g →
  machine_inv (<[x_input x := v']> V) (<[t := mkTView (x_input x) (x_gen x) st]> T) g.
Proof.
  intros Ht Hr Hst Hv' Hq [H1 H2 H3 H4 H5 H6]. split.
  - intros t' y [[<- <-]|[Hne Hy]]%lookup_insert_Some Hry; [done|].
    destruct Hne. eapply H4; eauto.
  - intros j w [[<- <-]|[Hne Hw]]%lookup_insert_Some Hc; [done|].
    destruct (H2 _ _ Hw Hc) as (t' & y & ? & ? & Hy & Hj & Hry).
    assert (t' = t) as -> by (eapply H4; eauto). rewrite Ht in Hy. injection Hy as ->. done.
  - intros j w [[<- <-]|[Hne Hw]]%lookup_insert_Some; [auto|eauto].
  - intros t1 t2 x1 x2 [[<- <-]|[? Hx1]]%lookup_insert_Some
      [[<- <-]|[? Hx2]]%lookup_insert_Some Hr1 Hr2; try done. eapply H4; eauto.
  - intros t' y Hy. rewrite lookup_insert. case_decide; [by eexists|].
    apply lookup_insert_Some in Hy as [[<- <-]|[? Hy]]; [done|eauto].
  - intros t' y [[<- <-]|[Hne Hy]]%lookup_insert_Some; [|eauto]. simpl. eauto.
Qed.
End machine.

(** ** The outbox record of an input's end *)

Definition terminal_of (e : OutboxEntry) : option string :=
  if bool_decide (ob_kind e = "turn_completed" ∨ ob_kind e = "turn_failed") then
    match ob_payload e !! "input_id" with Some (JStr i) => Some i | _ => None end
  else None.
Definition terminals (row : PersonaRow) : list string := omap terminal_of (ps_outbox row).

(** Exactly one terminal entry for each resolved input, none for others. *)
Definition view_done (V : gmap string View) (k : string) : Prop :=
  ∃ v, V !! k = Some v ∧ v_status v = InputDone.
Definition terminal_inv (V : gmap string View) (O : list string) : Prop :=
  NoDup O ∧ ∀ k, k ∈ O ↔ view_done V k.

Lemma view_done_insert V k v j :
  view_done (<[k := v]> V) j ↔ if decide (k = j) then v_status v = InputDone else view_done V j.
Proof.
  unfold view_done. rewrite lookup_insert. destruct (decide (k = j)); [|done].
  split; [by intros (w & [= <-] & ?)|eauto].
Qed.

(** A change that resolves nothing. *)
Lemma terminal_inv_insert V O k v :
  (v_status v = InputDone ↔ view_done V k) → terminal_inv V O →
  terminal_inv (<[k := v]> V) O.
Proof.
  intros Hv [Hnd HO]. split; [done|]. intros j. rewrite HO, view_done_insert.
  destruct (decide (k = j)) as [<-|]; [by rewrite Hv|done].
Qed.

(** An input that was not resolved is, with its one entry. *)
Lemma terminal_inv_resolve V O k v :
  v_status v = InputDone → ¬ view_done V k → terminal_inv V O →
  terminal_inv (<[k := v]> V) (O ++ [k]).
Proof.
  intros Hv Hn [Hnd HO]. split.
  - apply NoDup_app. split; [done|]. split; [|apply NoDup_singleton].
    intros j Hj ->%list_elem_of_singleton. by apply Hn, HO.
  - intros j. rewrite elem_of_app, list_elem_of_singleton, HO, view_done_insert.
    destruct (decide (k = j)) as [<-|]; naive_solver.
Qed.

(** ** Notification slots

    The input [prefix ++ x] exists exactly when [P x]. *)
Definition slot_inv (prefix : string) (P : string → Prop) (V : gmap string View) : Prop :=
  ∀ x, is_Some (V !! (prefix +:+ x)) ↔ P x.

Lemma slot_inv_dom pre P V V' :
  (∀ k, is_Some (V' !! k) ↔ is_Some (V !! k)) → slot_inv pre P V → slot_inv pre P V'.
Proof. intros H HP x. by rewrite H. Qed.

Lemma slot_inv_add pre P V k v :
  (∀ x, k ≠ pre +:+ x) → slot_inv pre P V → slot_inv pre P (<[k := v]> V).
Proof. intros Hk HP x. rewrite lookup_insert_ne by apply Hk. apply HP. Qed.

Lemma slot_inv_fill pre P P' V y v :
  (∀ x, P' x ↔ P x ∨ x = y) → slot_inv pre P V →
  slot_inv pre P' (<[pre +:+ y := v]> V).
Proof.
  intros HP' HP x. rewrite HP', lookup_insert. case_decide as Heq.
  - apply (str_app_inj pre) in Heq as ->. split; [by right|by eexists].
  - rewrite (HP x). split; [by left|]. intros [?| ->]; done.
Qed.

Lemma insert_dom (V : gmap string View) (k : string) (v : View) :
  is_Some (V !! k) → ∀ j, is_Some (<[k := v]> V !! j) ↔ is_Some (V !! j).
Proof.
  intros Hk j. rewrite lookup_insert. case_decide as Heq; [|done].
  subst j. split; [done|by eexists].
Qed.

(** Ids outside the reserved namespaces are no slots. *)
Lemma not_reserved_slot i x :
  reserved_input_id i = false → i ≠ schedInputPrefix +:+ x ∧ i ≠ jobInputPrefix +:+ x.
Proof.
  unfold reserved_input_id. intros [H1 H2]%orb_false_iff.
  split; intros ->; by rewrite prefix_app in *.
Qed.
Lemma sched_job_slot x y : schedInputPrefix +:+ x ≠ jobInputPrefix +:+ y.
Proof. done. Qed.
