(* ===== verification/History.v ===== *)
(** * What never changes back

    How each table of a persona may change from one committed state to a
    later one, whatever operations run in between: rows are never removed,
    identities never change, and what was decided, finished or resolved
    stays so.  [row_hist] collects the tables. *)

From Stdlib Require Import ZArith Lia.
From S2P Require Import Prelude Json TerminalState MemoryState MemoryShape State Personas Inputs.
From S2P Require Import Journal Plans Usage Jobs.
Local Open Scope string_scope.
Local Open Scope list_scope.
Local Open Scope Z_scope.

(** A finished turn is final. *)
Record turn_hist (t t' : Turn) : Prop := {
  th_input : tu_input_id t' = tu_input_id t;
  th_gen : tu_generation t' = tu_generation t;
  th_attempt : tu_attempt t' = tu_attempt t;
  th_final : tu_status t ≠ TurnRunning → t' = t
}.

(** A settled operation keeps its receipt. *)
Definition op_settled (o : Operation) : Prop := op_status o = OpDone ∨ op_status o = OpFailed.
Record op_hist (o o' : Operation) : Prop := {
  oh_id : op_id o' = op_id o;
  oh_tool : op_tool o' = op_tool o;
  oh_key : op_idempotency_key o' = op_idempotency_key o;
  oh_request : op_request o' = op_request o;
  oh_final : op_settled o → o' = o
}.

(** A decision is final; a spent grant stays spent. *)
Record approval_hist (a a' : ToolApproval) : Prop := {
  ah_id : ap_id a' = ap_id a;
  ah_key : ap_input_id a' = ap_input_id a ∧ ap_call_index a' = ap_call_index a;
  ah_op : ap_operation_id a' = ap_operation_id a;
  ah_action : ap_tool a' = ap_tool a ∧ ap_request a' = ap_request a
    ∧ ap_route a' = ap_route a ∧ ap_action_digest a' = ap_action_digest a;
  ah_decided : ap_status a ≠ Pending →
    a' = a <| ap_consumed_at := ap_consumed_at a' |>;
  ah_consumed : ∀ t, ap_consumed_at a = Some t → ap_consumed_at a' = Some t
}.

(** Across placements an approval not yet spent may be asked again; a denial
    and a spent grant stay. *)
Record approval_moves (a a' : ToolApproval) : Prop := {
  am_id : ap_id a' = ap_id a;
  am_key : ap_input_id a' = ap_input_id a ∧ ap_call_index a' = ap_call_index a;
  am_op : ap_operation_id a' = ap_operation_id a;
  am_action : ap_tool a' = ap_tool a ∧ ap_request a' = ap_request a
    ∧ ap_route a' = ap_route a ∧ ap_action_digest a' = ap_action_digest a;
  am_decided : ap_status a ≠ Pending →
    a' = a <| ap_consumed_at := ap_consumed_at a' |> ∨
    (ap_status a = Approved ∧ ap_consumed_at a = None);
  am_consumed : ∀ t, ap_consumed_at a = Some t → ap_consumed_at a' = Some t
}.

(** A finished job keeps its verdict, and a claimed job its runner. *)
Record job_hist (j j' : Job) : Prop := {
  jh_id : j_id j' = j_id j;
  jh_kind : j_kind j' = j_kind j;
  jh_request : j_request j' = j_request j;
  jh_claimed : ∀ r, j_claimed_by j = Some r → j_claimed_by j' = Some r;
  jh_final : jobTerminal (j_status j) = true →
    j_status j' = j_status j ∧ j_error j' = j_error j ∧ j_finished_at j' = j_finished_at j
    ∧ j_notified_at j' = j_notified_at j
}.

(** A fired schedule stays fired. *)
Record schedule_hist (s s' : Schedule) : Prop := {
  sh_wake : sc_wake_at s' = sc_wake_at s;
  sh_payload : sc_payload s' = sc_payload s;
  sh_fired : sc_status s = SchFired → s' = s
}.

(** The supersession order of usage facts. *)
Definition fact_rank (s : FactStatus) : Z :=
  match s with Unrecorded => 0 | Unknown => 1 | Reported | NotSent => 2 end.
Record fact_hist (f f' : UsageFact) : Prop := {
  fh_identity : uf_kind f' = uf_kind f ∧ uf_phase f' = uf_phase f ∧ uf_turn_id f' = uf_turn_id f
    ∧ uf_input_id f' = uf_input_id f ∧ uf_round f' = uf_round f ∧ uf_funding f' = uf_funding f;
  fh_rank : f' = f ∨ fact_rank (uf_status f) < fact_rank (uf_status f')
}.

#[global] Instance turn_hist_preorder : PreOrder turn_hist.
Proof.
  split; [by intros []|]. intros t1 t2 t3 [] [H1 H2 H3 H4]. split; try congruence.
  intros Hs. rewrite H4; [auto|]. rewrite th_final0 by done. done.
Qed.
#[global] Instance op_hist_preorder : PreOrder op_hist.
Proof.
  split; [by intros []|]. intros t1 t2 t3 [] [H1 H2 H3 H4 H5]. split; try congruence.
  intros Hs. rewrite H5; [auto|]. by rewrite oh_final0.
Qed.
#[global] Instance approval_hist_preorder : PreOrder approval_hist.
Proof.
  split; [intros []; by split|]. intros a b c [] [H1 H2 H3 H4 H5 H6].
  destruct ah_key0, ah_action0 as (?&?&?&?), H2, H4 as (?&?&?&?).
  split; try (split_and!; congruence); try congruence.
  - intros Hs. specialize (ah_decided0 Hs). rewrite H5.
    + rewrite ah_decided0. by destruct a, c.
    + by rewrite ah_decided0.
  - auto.
Qed.
#[global] Instance approval_moves_preorder : PreOrder approval_moves.
Proof.
  split; [intros []; split; auto|]. intros a b c [] [H1 H2 H3 H4 H5 H6].
  destruct am_key0, am_action0 as (?&?&?&?), H2, H4 as (?&?&?&?).
  split; try (split_and!; congruence); try congruence.
  - intros Hs. destruct (am_decided0 Hs) as [Hb|]; [|by right].
    assert (ap_status b = ap_status a) as Hsb by (rewrite Hb; done).
    destruct H5 as [Hc|[Hap Hun]]; [congruence|left; rewrite Hc, Hb; by destruct a, c|right].
    split; [congruence|]. destruct (ap_consumed_at a) as [t|]; [|done].
    by rewrite (am_consumed0 t eq_refl) in Hun.
  - auto.
Qed.
Lemma approval_hist_moves a a' : approval_hist a a' → approval_moves a a'.
Proof. intros []. split; auto. Qed.
#[global] Instance job_hist_preorder : PreOrder job_hist.
Proof.
  split; [intros []; by split|]. intros a b c [] [H1 H2 H3 H4 H5]. split; try congruence; auto.
  intros Ht. destruct (jh_final0 Ht) as (Hs & ? & ? & ?).
  destruct H5 as (? & ? & ? & ?); [by rewrite Hs|]. split_and!; congruence.
Qed.
#[global] Instance schedule_hist_preorder : PreOrder schedule_hist.
Proof.
  split; [by intros []|]. intros a b c [] [H1 H2 H3]. split; try congruence.
  intros Hs. rewrite H3; [auto|]. by rewrite sh_fired0.
Qed.
#[global] Instance fact_hist_preorder : PreOrder fact_hist.
Proof.
  split; [intros []; split; [by split_and!|by left]|].
  intros a b c [(?&?&?&?&?&?) Hr] [(?&?&?&?&?&?) Hr']. split; [split_and!; congruence|].
  destruct Hr as [->|Hr], Hr' as [->|Hr']; auto. right. lia.
Qed.

(** A fact of the highest rank is final. *)
Lemma fact_hist_final f f' :
  fact_hist f f' → uf_status f = Reported ∨ uf_status f = NotSent → f' = f.
Proof.
  intros [_ [->|Hr]] Hs; [done|]. destruct Hs as [Hs|Hs]; rewrite Hs in Hr; simpl in Hr;
    destruct (uf_status f'); simpl in Hr; lia.
Qed.

(** ** A persona's history *)

(** What may happen to an approval depends on whether the persona moves: the
    relation is a parameter. *)
Record row_hist_of {R : ToolApproval → ToolApproval → Prop} (row row' : PersonaRow) : Prop := {
  rh_lease : lease_mono row row';
  rh_inputs : table_hist input_hist (ps_inputs row) (ps_inputs row');
  rh_turns : table_hist turn_hist (ps_turns row) (ps_turns row');
  rh_plans : table_hist plan_grows (ps_plans row) (ps_plans row');
  rh_ops : table_hist op_hist (ps_ops row) (ps_ops row');
  rh_approvals : table_hist R (ps_approvals row) (ps_approvals row');
  rh_jobs : table_hist job_hist (ps_jobs row) (ps_jobs row');
  rh_schedules : table_hist schedule_hist (ps_schedules row) (ps_schedules row');
  rh_events : ps_events row `prefix_of` ps_events row';
  rh_outbox : ps_outbox row `prefix_of` ps_outbox row';
  rh_facts : table_hist fact_hist (ps_facts row) (ps_facts row');
  rh_terms : table_hist term_hist (ps_terms row) (ps_terms row');
  rh_memory : mem_hist (ps_chunks row) (ps_chunks row')
}.

Arguments row_hist_of R row row' : clear implicits.
(** At one placement, and with transfers. *)
Notation row_hist := (row_hist_of approval_hist).
Notation row_moves := (row_hist_of approval_moves).

#[global] Instance row_hist_preorder R : PreOrder R → PreOrder (row_hist_of R).
Proof.
  intros HR.
  split.
  - intros row. split; try reflexivity; try done.
  - intros r1 r2 r3 [] []. split; by etrans.
Qed.

Lemma row_hist_moves row row' : row_hist row row' → row_moves row row'.
Proof.
  intros []. split; try done. intros k a Ha. destruct (rh_approvals0 k a Ha) as (a' & ? & ?).
  exists a'. split; [done|]. by apply approval_hist_moves.
Qed.

(** Operations that write no more than the tables named here. *)
Ltac solve_hist := split; simpl; try reflexivity; try (by apply lease_mono_eq).

Lemma input_marked_hist i i' : input_marked i i' → input_hist i i'.
Proof. intros [Hi Hr]. rewrite Hi. by split. Qed.

Lemma journals_hist row row' : journals row row' → row_hist row row'.
Proof.
  intros [He Hi Hr]. rewrite Hr. solve_hist; try done.
  intros k i Hk. specialize (Hi k). rewrite Hk in Hi.
  inversion Hi as [? i' Hm Heq1 Heq2|]; subst. exists i'.
  split; [done|]. by apply input_marked_hist.
Qed.
