(* ===== verification/Ledger.v ===== *)
(** * The operation ledger and its approvals

    The invariant that ties operations, approvals, plans and turns together:
    each operation is one call of its input's recorded plan, no two
    operations share a call, no committed operation is left running, and an
    operation awaits approval exactly while its grant is open. *)

From Stdlib Require Import ZArith Lia.
From S2P Require Import Prelude Json State Inputs Journal Plans Approvals Machine.
Local Open Scope string_scope.
Local Open Scope list_scope.
Local Open Scope Z_scope.

(** ** Identities of calls *)

Lemma idem_key_inj i n i' n' :
  0 ≤ n → 0 ≤ n' → idem_key i n = idem_key i' n' → i = i' ∧ n = n'.
Proof.
  intros Hn Hn' H.
  assert (Some n = Some n') as [= <-].
  { rewrite <-(operationCallIndex_idem_key i n Hn), H.
    by apply operationCallIndex_idem_key. }
  split; [|done].
  assert (Some (String.length i) = Some (String.length i')) as [= Hl].
  { rewrite <-(idem_key_last i n Hn), H. by apply idem_key_last. }
  rewrite <-(str_take_app i (":tool:" +:+ itoa n)), <-(str_take_app i' (":tool:" +:+ itoa n)).
  unfold idem_key in H. by rewrite Hl, H.
Qed.

(** The flat list of a plan's calls, in which a call's index is its
    position. *)
Definition flat (plan : list Decision) : list PlanCall := concat (d_calls <$> plan).

Lemma plan_position_flat round n idx plan pos :
  plan_position_from round n idx plan = Some pos →
  flat plan !! n = Some (ce_call pos) ∧ ce_index pos = idx.
Proof.
  revert round n. induction plan as [|d plan IH]; intros round n; simpl; [done|].
  destruct (d_calls d !! n) as [c|] eqn:Hc.
  - intros [= <-]. simpl. split; [|done]. unfold flat. simpl.
    apply lookup_app_l_Some. done.
  - intros H. apply IH in H as [H1 H2]. split; [|done]. unfold flat. simpl.
    apply lookup_ge_None in Hc. by rewrite lookup_app_r by done.
Qed.

Lemma plan_position_complete round n idx plan c :
  flat plan !! n = Some c →
  ∃ pos, plan_position_from round n idx plan = Some pos ∧ ce_call pos = c ∧ ce_index pos = idx.
Proof.
  revert round n. induction plan as [|d plan IH]; intros round n; [done|].
  unfold flat. simpl. intros H. destruct (d_calls d !! n) as [c'|] eqn:Hc.
  - erewrite lookup_app_l_Some in H by done. injection H as ->. by eexists.
  - pose proof Hc as Hl. apply lookup_ge_None in Hl. rewrite lookup_app_r in H by done.
    by apply IH.
Qed.

Lemma plan_position_prefix round n idx plan plan' pos :
  plan_position_from round n idx plan = Some pos → plan `prefix_of` plan' →
  plan_position_from round n idx plan' = Some pos.
Proof.
  intros H [l ->]. revert round n H. induction plan as [|d plan IH]; intros round n; simpl; [done|].
  destruct (d_calls d !! n); [done|apply IH].
Qed.

Definition plan_call (P : gmap string TurnPlan) (i : string) (n : Z) : option PlanCall :=
  ce_call <$> planPosition (P !! i) n.

Lemma plan_call_grows P P' i n c :
  table_hist plan_grows P P' → plan_call P i n = Some c → plan_call P' i n = Some c.
Proof.
  unfold plan_call. intros HP (pos & Hpos & ->)%fmap_Some.
  destruct (P !! i) as [p|] eqn:Hp; [|done]. apply HP in Hp as (p' & -> & Hg).
  unfold planPosition in *. destruct (n <? 0); [done|].
  by erewrite plan_position_prefix.
Qed.

(** ** The invariant *)

(** A grant that can still be decided or spent. *)
Definition grant_open (a : ToolApproval) : Prop :=
  ap_status a = Pending ∨ (ap_status a = Approved ∧ ap_consumed_at a = None).

Definition lineage (T : gmap string TView) (t i : string) : Prop :=
  ∃ x, T !! t = Some x ∧ x_input x = i.

Record op_call (P : gmap string TurnPlan) (o : Operation) (i : string) (n : Z) : Prop := {
  oc_key : op_idempotency_key o = idem_key i n;
  oc_index : 0 ≤ n;
  oc_plan : ∃ c, plan_call P i n = Some c ∧ pc_tool c = op_tool o ∧ pc_request c = op_request o
}.

Record approval_ok (O : gmap string Operation) (T : gmap string TView) (i : string) (n : Z)
    (a : ToolApproval) : Prop := {
  ao_key : ap_input_id a = i ∧ ap_call_index a = n ∧ 0 ≤ n;
  ao_turn : lineage T (ap_turn_id a) i;
  ao_op : ∃ o, O !! ap_operation_id a = Some o ∧ op_idempotency_key o = idem_key i n
    ∧ op_tool o = ap_tool a ∧ op_request o = ap_request a
    ∧ (grant_open a → op_status o = OpAwaitingApproval)
    ∧ (ap_status a = Approved → ap_consumed_at a ≠ None →
         op_status o = OpDone ∨ op_status o = OpFailed)
    ∧ (ap_status a = Denied → op_status o = OpFailed);
  ao_unspent : ap_status a = Pending → ap_consumed_at a = None
}.

(** A call only a human may let through. *)
Definition needs_grant (c : PlanCall) : Prop :=
  approvalRequirement (pc_tool c) (pc_route c) ≠ "" ∨ elevatedOnlyTool (pc_tool c) = true.

(** The grant the completed call at [(i, n)] ran under. *)
Definition granted (A : gmap (string * Z) ToolApproval) (i : string) (n : Z) : Prop :=
  ∃ a, A !! (i, n) = Some a ∧ ap_status a = Approved ∧ is_Some (ap_consumed_at a).

Definition gate_inv (O : gmap string Operation) (A : gmap (string * Z) ToolApproval)
    (P : gmap string TurnPlan) : Prop :=
  ∀ k o i n c, O !! k = Some o → op_idempotency_key o = idem_key i n → 0 ≤ n →
    plan_call P i n = Some c → needs_grant c → op_status o = OpDone → granted A i n.

Record ledger_inv (O : gmap string Operation) (A : gmap (string * Z) ToolApproval)
    (T : gmap string TView) (P : gmap string TurnPlan) : Prop := {
  li_id : ∀ k o, O !! k = Some o → op_id o = k;
  li_call : ∀ k o, O !! k = Some o → ∃ i n, op_call P o i n ∧ lineage T (op_turn_id o) i;
  li_unique : ∀ k k' o o', O !! k = Some o → O !! k' = Some o' →
    op_idempotency_key o = op_idempotency_key o' → k = k';
  li_settled : ∀ k o, O !! k = Some o → op_status o ≠ OpRunning;
  li_await : ∀ k o i n, O !! k = Some o → op_status o = OpAwaitingApproval →
    op_idempotency_key o = idem_key i n → 0 ≤ n →
    ∃ a, A !! (i, n) = Some a ∧ ap_operation_id a = k ∧ grant_open a;
  li_approval : ∀ i n a, A !! (i, n) = Some a → approval_ok O T i n a;
  li_ids : ∀ k k' a a', A !! k = Some a → A !! k' = Some a' → ap_id a = ap_id a' → k = k';
  li_gate : gate_inv O A P
}.

Section ledger.
Implicit Types (O : gmap string Operation) (A : gmap (string * Z) ToolApproval)
  (T : gmap string TView) (P : gmap string TurnPlan).

(** Turns only gain rows and keep their inputs. *)
Definition lineages_kept T T' : Prop := ∀ t i, lineage T t i → lineage T' t i.

Lemma lineages_insert_new T t x : T !! t = None → lineages_kept T (<[t := x]> T).
Proof.
  intros Ht t' i (y & Hy & Hi). exists y. split; [|done].
  rewrite lookup_insert_ne; [done|]. intros ->. congruence.
Qed.
Lemma lineages_insert_same T t x y :
  T !! t = Some x → x_input y = x_input x → lineages_kept T (<[t := y]> T).
Proof.
  intros Ht Hxy t' i (z & Hz & Hi). destruct (decide (t = t')) as [<-|].
  - exists y. rewrite lookup_insert_eq. split; [done|]. congruence.
  - exists z. by rewrite lookup_insert_ne by done.
Qed.

Lemma ledger_inv_grow O A T T' P P' :
  lineages_kept T T' → table_hist plan_grows P P' → ledger_inv O A T P →
  ledger_inv O A T' P'.
Proof.
  intros HT HP [H1 H2 H3 H4 H5 H6 H7 H8]. split; try done.
  - intros k o Ho. destruct (H2 _ _ Ho) as (i & n & [Hk Hn (c & Hc & ?)] & Hl).
    exists i, n. split; [|by apply HT]. split; [done|done|].
    exists c. split; [by eapply plan_call_grows|done].
  - intros i n a Ha. destruct (H6 _ _ _ Ha) as [? Hl ? ?]. split; auto.
  - intros k o i n c Ho Hk Hn Hc. destruct (H2 _ _ Ho) as (j & m & [Hk' Hm (c' & Hc' & _)] & _).
    rewrite Hk in Hk'. apply idem_key_inj in Hk' as [<- <-]; [|done|done].
    pose proof (plan_call_grows _ _ _ _ _ HP Hc') as Hc2. rewrite Hc in Hc2.
    injection Hc2 as <-. by eapply H8.
Qed.

(** A new operation of a call nothing was recorded for, settled in the
    same transaction. *)
Lemma ledger_inv_new O A T P k o i n :
  O !! k = None → (∀ k' o', O !! k' = Some o' → op_idempotency_key o' ≠ op_idempotency_key o) →
  op_id o = k → op_call P o i n → lineage T (op_turn_id o) i →
  op_status o = OpDone ∨ op_status o = OpFailed →
  (∀ c, plan_call P i n = Some c → needs_grant c → op_status o ≠ OpDone) →
  ledger_inv O A T P → ledger_inv (<[k := o]> O) A T P.
Proof.
  intros Hk Hkey Hid Hcall Hl Hst Hgate [H1 H2 H3 H4 H5 H6 H7 H8]. split; try done.
  - intros k' o' [[<- <-]|[? Ho]]%lookup_insert_Some; eauto.
  - intros k' o' [[<- <-]|[? Ho]]%lookup_insert_Some; eauto.
  - intros k1 k2 o1 o2 [[<- <-]|[? Ho1]]%lookup_insert_Some
      [[<- <-]|[? Ho2]]%lookup_insert_Some He; [done| | |by eapply H3].
    + symmetry in He. by apply Hkey in Ho2.
    + by apply Hkey in Ho1.
  - intros k' o' [[<- <-]|[? Ho]]%lookup_insert_Some; [|by eapply H4].
    destruct Hst as [-> | ->]; done.
  - intros k' o' i' n' [[<- <-]|[? Ho]]%lookup_insert_Some; [|by eapply H5].
    destruct Hst as [-> | ->]; done.
  - intros i' n' a Ha. destruct (H6 _ _ _ Ha) as [? ? (o' & Ho' & ?) ?]. split; [done|done| |done].
    exists o'. split; [|done]. rewrite lookup_insert_ne; [done|]. intros ->. congruence.
  - intros k' o' i' n' c [[<- <-]|[? Ho]]%lookup_insert_Some Hk' Hn' Hc Hneed Hd; [|by eapply H8].
    rewrite (oc_key _ _ _ _ Hcall) in Hk'.
    apply idem_key_inj in Hk' as [<- <-]; [|by destruct Hcall|done].
    by apply Hgate in Hc.
Qed.

(** A new gated operation with its pending request. *)
Lemma ledger_inv_park O A T P k o i n a :
  O !! k = None → (∀ k' o', O !! k' = Some o' → op_idempotency_key o' ≠ op_idempotency_key o) →
  op_id o = k → op_call P o i n → lineage T (op_turn_id o) i →
  op_status o = OpAwaitingApproval → A !! (i, n) = None →
  (∀ k' a', A !! k' = Some a' → ap_id a' ≠ ap_id a) →
  ap_input_id a = i → ap_call_index a = n → ap_operation_id a = k → ap_turn_id a = op_turn_id o →
  ap_tool a = op_tool o → ap_request a = op_request o → ap_status a = Pending →
  ap_consumed_at a = None → ledger_inv O A T P → ledger_inv (<[k := o]> O) (<[(i, n) := a]> A) T P.
Proof.
  intros Hk Hkey Hid Hcall Hl Hst HA Hids Hi Hn Hop Ht Htool Hreq Hpend Hun [H1 H2 H3 H4 H5 H6 H7 H8].
  assert (op_idempotency_key o = idem_key i n ∧ 0 ≤ n) as [Hkn Hn0].
  { by destruct Hcall. }
  split.
  - intros k' o' [[<- <-]|[? Ho]]%lookup_insert_Some; eauto.
  - intros k' o' [[<- <-]|[? Ho]]%lookup_insert_Some; eauto.
  - intros k1 k2 o1 o2 [[<- <-]|[? Ho1]]%lookup_insert_Some
      [[<- <-]|[? Ho2]]%lookup_insert_Some He; [done| | |by eapply H3].
    + symmetry in He. by apply Hkey in Ho2.
    + by apply Hkey in Ho1.
  - intros k' o' [[<- <-]|[? Ho]]%lookup_insert_Some; [|by eapply H4]. by rewrite Hst.
  - intros k' o' i' n' [[<- <-]|[? Ho]]%lookup_insert_Some Hs Hkk Hn'.
    + rewrite Hkn in Hkk. apply idem_key_inj in Hkk as [<- <-]; [|done|done].
      exists a. rewrite lookup_insert_eq. split_and!; [done|done|by left].
    + destruct (H5 _ _ _ _ Ho Hs Hkk Hn') as (a' & Ha' & ? & ?). exists a'.
      split; [|done]. rewrite lookup_insert_ne; [done|]. intros [= <- <-]. congruence.
  - intros i' n' a' [[[= <- <-] <-]|[Hne Ha]]%lookup_insert_Some.
    + split; [by split_and!|by rewrite Ht| |done]. exists o. rewrite Hop, lookup_insert_eq.
      split_and!; try done; congruence.
    + destruct (H6 _ _ _ Ha) as [? ? (o' & Ho' & ?) ?]. split; [done|done| |done].
      exists o'. split; [|done]. rewrite lookup_insert_ne; [done|]. intros ->. congruence.
  - intros k1 k2 a1 a2 [[<- <-]|[? Ha1]]%lookup_insert_Some
      [[<- <-]|[? Ha2]]%lookup_insert_Some He; [done| | |by eapply H7].
    + symmetry in He. by apply Hids in Ha2.
    + by apply Hids in Ha1.
  - intros k' o' i' n' c [[<- <-]|[? Ho]]%lookup_insert_Some Hk' Hn' Hc Hneed Hd; [congruence|].
    destruct (H8 _ _ _ _ _ Ho Hk' Hn' Hc Hneed Hd) as (b & Hb & ?). exists b. split; [|done].
    rewrite lookup_insert_ne; [done|]. intros [= <- <-]. congruence.
Qed.

(** The open grant of an awaiting operation is decided or spent, and the
    operation follows it. *)
Lemma ledger_inv_settle O A T P k o o' i n a a' :
  O !! k = Some o → A !! (i, n) = Some a → ap_operation_id a = k → grant_open a →
  op_id o' = op_id o → op_turn_id o' = op_turn_id o → op_tool o' = op_tool o →
  op_idempotency_key o' = op_idempotency_key o → op_request o' = op_request o →
  ap_id a' = ap_id a → ap_input_id a' = ap_input_id a → ap_call_index a' = ap_call_index a →
  ap_operation_id a' = ap_operation_id a → ap_turn_id a' = ap_turn_id a →
  ap_tool a' = ap_tool a → ap_request a' = ap_request a →
  ((grant_open a' ∧ op_status o' = OpAwaitingApproval) ∨
   (ap_status a' = Denied ∧ op_status o' = OpFailed) ∨
   (ap_status a' = Approved ∧ ap_consumed_at a' ≠ None ∧
      (op_status o' = OpDone ∨ op_status o' = OpFailed))) →
  (ap_status a' = Pending → ap_consumed_at a' = None) →
  ledger_inv O A T P → ledger_inv (<[k := o']> O) (<[(i, n) := a']> A) T P.
Proof.
  intros Hk Ha Hop Hopen Hid Ht Htool Hkey Hreq Haid Hai Han Haop Hat Hatool Hareq Hcase Hun
    [H1 H2 H3 H4 H5 H6 H7 H8].
  destruct (H6 _ _ _ Ha) as [(Hi & Hn & Hn0) Hturn (o0 & Ho0 & Hokey & Hotool & Horeq & _) _].
  rewrite Hop, Hk in Ho0. injection Ho0 as <-.
  split.
  - intros k' p [[<- <-]|[? Ho]]%lookup_insert_Some; [rewrite Hid|]; eauto.
  - intros k' p [[<- <-]|[? Ho]]%lookup_insert_Some; [|by eapply H2].
    destruct (H2 _ _ Hk) as (j & m & [? ? (c & ? & ? & ?)] & ?). exists j, m.
    rewrite Ht. split; [|done]. split; [congruence|done|]. exists c. split_and!; congruence.
  - intros k1 k2 o1 o2 [[<- <-]|[? Ho1]]%lookup_insert_Some
      [[<- <-]|[? Ho2]]%lookup_insert_Some He; [done| | |by eapply H3].
    + eapply (H3 _ _ o); [done|done|congruence].
    + eapply (H3 _ _ _ o); [done|done|congruence].
  - intros k' p [[<- <-]|[? Ho]]%lookup_insert_Some; [|by eapply H4].
    destruct Hcase as [[? ->]|[[? ->]|(? & ? & [-> | ->])]]; done.
  - intros k' p j m [[<- <-]|[Hne Ho]]%lookup_insert_Some Hs Hkk Hm.
    + rewrite Hkey, Hokey in Hkk. apply idem_key_inj in Hkk as [<- <-]; [|done|done].
      exists a'. rewrite lookup_insert_eq. split_and!; [done|congruence|].
      destruct Hcase as [[? ?]|[[? ?]|(? & ? & [?|?])]]; [done|congruence..].
    + destruct (H5 _ _ _ _ Ho Hs Hkk Hm) as (b & Hb & Hbo & ?). exists b.
      split; [|done]. rewrite lookup_insert_ne; [done|]. intros [= <- <-]. congruence.
  - intros j m b [[[= <- <-] <-]|[Hne Hb]]%lookup_insert_Some.
    + split; [split_and!; congruence|congruence| |done]. exists o'.
      rewrite Haop, Hop, lookup_insert_eq. split_and!; try congruence.
      * intros Ho'. destruct Hcase as [[? ?]|[[? ?]|(? & ? & ?)]]; [done| |];
          destruct Ho' as [?|[? ?]]; congruence.
      * intros ??. destruct Hcase as [[[?|[? ?]] ?]|[[? ?]|(? & ? & ?)]]; [congruence..|done].
      * intros ?. destruct Hcase as [[[?|[? ?]] ?]|[[? ?]|(? & ? & ?)]]; congruence.
    + destruct (H6 _ _ _ Hb) as [(Hbi & Hbn & Hm0) ? (p & Hp & Hpk & Hrest) ?].
      split; [done|done| |done].
      exists p. split; [|done]. rewrite lookup_insert_ne; [done|]. intros ->.
      rewrite Hk in Hp. injection Hp as <-. rewrite Hokey in Hpk.
      apply idem_key_inj in Hpk as [<- <-]; done.
  - intros k1 k2 a1 a2 [[<- <-]|[? Ha1]]%lookup_insert_Some
      [[<- <-]|[? Ha2]]%lookup_insert_Some He; [done| | |by eapply H7].
    + eapply (H7 _ _ a); [done|done|congruence].
    + eapply (H7 _ _ _ a); [done|done|congruence].
  - intros k' p j m c [[<- <-]|[Hne Ho]]%lookup_insert_Some Hk' Hm Hc Hneed Hd.
    + rewrite Hkey, Hokey in Hk'. apply idem_key_inj in Hk' as [<- <-]; [|done|done].
      exists a'. rewrite lookup_insert_eq. split; [done|].
      destruct Hcase as [[? ?]|[[? ?]|(? & Hcon & ?)]]; [congruence..|].
      split; [done|]. by apply not_eq_None_Some.
    + destruct (H8 _ _ _ _ _ Ho Hk' Hm Hc Hneed Hd) as (b & Hb & ?). exists b. split; [|done].
      rewrite lookup_insert_ne; [done|]. intros [= <- <-]. destruct Hne.
      eapply H3; [done|done|congruence].
Qed.
End ledger.
