(* ===== verification/Invariant.v ===== *)
(** * The invariant of a persona's tables

    [row_inv] is what holds of every committed state of a persona;
    [evolves] is the relation every operation moves a persona along: the
    invariant is kept and nothing settled is undone ([row_hist]).  This file
    proves it for the operations on inputs, leases, plans and for the
    journaling helpers. *)

From Stdlib Require Import ZArith Lia.
From S2P Require Import Prelude Json TerminalState MemoryState MemoryShape State Personas Inputs.
From S2P Require Import Journal Plans Usage Jobs Machine History Ledger.
Local Open Scope string_scope.
Local Open Scope list_scope.
Local Open Scope Z_scope.

(** ** The components *)

(** Why an input waits. *)
Definition parked (A : gmap (string * Z) ToolApproval) (W : gmap string BudgetWaitRow)
    (k : string) : Prop :=
  (∃ n a, A !! (k, n) = Some a ∧ ap_status a = Pending) ∨ is_Some (W !! k).

Definition job_ended (J : gmap string Job) (x : string) : Prop :=
  ∃ j, J !! x = Some j ∧ jobTerminal (j_status j) = true.
Record job_ok (x : string) (j : Job) : Prop := {
  jk_id : j_id j = x;
  jk_notified : is_Some (j_notified_at j) ↔ jobTerminal (j_status j) = true;
  jk_claimed : live_status (j_status j) = true → is_Some (j_claimed_by j);
  jk_queued : j_status j = JobQueued → j_claimed_by j = None
}.

Definition schedule_fired (S : gmap string Schedule) (x : string) : Prop :=
  ∃ s, S !! x = Some s ∧ sc_status s = SchFired.
Definition schedule_ok (s : Schedule) : Prop := sc_status s = SchPending ∨ sc_status s = SchFired.

Definition amounts_ok (row : PersonaRow) : Prop :=
  (∀ k r, ps_reservations row !! k = Some r → 0 ≤ rs_reserved_minor r) ∧
  (∀ k f c, ps_facts row !! k = Some f → uf_cost_minor f = Some c → 0 ≤ c).

(** The session of every row is what its key says; the end of a session has
    reached its input slot. *)
Definition terms_ok (row : PersonaRow) : Prop :=
  ∀ x t, ps_terms row !! x = Some t →
    ts_id (tm_session t) = x ∧ term_ok t ∧
    (term_over (ts_status (tm_session t)) = true →
     is_Some (ps_inputs row !! (terminalInputPrefix +:+ x))).

(** Memory chunks cover the journal as [mem_ok] says, and one at a time is
    prepared on its branch. *)
Definition memory_ok (row : PersonaRow) : Prop :=
  mem_ok (length (ps_events row)) (ps_chunks row) ∧ prep_ok (ps_chunks row) (ps_branches row).

Record row_inv (row : PersonaRow) : Prop := {
  ri_journal : journal_inv row;
  ri_machine : machine_inv (views row) (tviews row) (lease_gen row);
  ri_waiting : ∀ k v, views row !! k = Some v → v_status v = Waiting →
    parked (ps_approvals row) (ps_waits row) k;
  ri_outbox : numbered ob_seq (ps_outbox row);
  ri_terminal : terminal_inv (views row) (terminals row);
  ri_ledger : ledger_inv (ps_ops row) (ps_approvals row) (tviews row) (ps_plans row);
  ri_jobs : map_Forall job_ok (ps_jobs row);
  ri_job_slots : slot_inv jobInputPrefix (job_ended (ps_jobs row)) (views row);
  ri_schedules : map_Forall (λ _, schedule_ok) (ps_schedules row);
  ri_schedule_slots : slot_inv schedInputPrefix (schedule_fired (ps_schedules row)) (views row);
  ri_amounts : amounts_ok row;
  ri_terms : terms_ok row;
  ri_memory : memory_ok row
}.

Definition evolves (row row' : PersonaRow) : Prop :=
  row_inv row → row_inv row' ∧ row_hist row row'.

#[global] Instance evolves_preorder : PreOrder evolves.
Proof.
  split.
  - intros row H. done.
  - intros r1 r2 r3 H12 H23 H1. destruct (H12 H1) as [H2 ?]. destruct (H23 H2) as [H3 ?].
    split; [done|]. by etrans.
Qed.

(** A new persona. *)
Lemma terms_ok_frame row row' :
  ps_terms row' = ps_terms row →
  (∀ k, is_Some (ps_inputs row !! k) → is_Some (ps_inputs row' !! k)) →
  terms_ok row → terms_ok row'.
Proof.
  intros HT HI H x t. rewrite HT. intros Hx. destruct (H x t Hx) as (? & ? & Hs). auto.
Qed.
Lemma memory_ok_frame row row' :
  ps_chunks row' = ps_chunks row → ps_branches row' = ps_branches row →
  ps_events row `prefix_of` ps_events row' → memory_ok row → memory_ok row'.
Proof.
  unfold memory_ok. intros -> -> He%prefix_length [Hm Hp]. split; [|done].
  eapply mem_ok_grow; [|done]. lia.
Qed.
(** The frame for steps that insert or alter inputs. *)
Ltac keep_terms row :=
  apply (terms_ok_frame row);
  [done | let k := fresh in let Hk := fresh in intros k Hk; simpl;
          repeat first [rewrite lookup_alter_is_Some | apply lookup_insert_is_Some'; right];
          exact Hk
   | done].

Lemma row_inv_empty p : row_inv (empty_row p).
Proof.
  assert (views (empty_row p) = ∅) as HV by apply fmap_empty.
  assert (tviews (empty_row p) = ∅) as HT by apply fmap_empty.
  assert (∀ pre (P : string → Prop), (∀ x, ¬ P x) → slot_inv pre P ∅) as Hslot.
  { intros pre P HP x. rewrite lookup_empty. split; [by intros [? ?]|]. by intros ?%HP. }
  split; rewrite ?HV, ?HT; simpl.
  - split; simpl.
    + done.
    + by intros e ?%not_elem_of_nil.
    + intros k n. split; [done|]. by intros (e & ?%not_elem_of_nil & _).
    + intros k. constructor.
  - split; intros *; by rewrite lookup_empty.
  - intros k v. by rewrite lookup_empty.
  - done.
  - split; [constructor|]. intros k. split; [by intros ?%not_elem_of_nil|].
    intros (v & Hv & _). by rewrite lookup_empty in Hv.
  - split; unfold gate_inv; intros *; by rewrite lookup_empty.
  - apply map_Forall_empty.
  - apply Hslot. intros x (j & Hj & _). by rewrite lookup_empty in Hj.
  - apply map_Forall_empty.
  - apply Hslot. intros x (j & Hj & _). by rewrite lookup_empty in Hj.
  - split; simpl; intros *; by rewrite lookup_empty.
  - intros x t. simpl. by rewrite lookup_empty.
  - split; [apply mem_ok_empty|]. split; simpl; [intros *..|intros k]; rewrite lookup_empty; try done.
Qed.

(** ** Views under updates of the inputs *)

Lemma views_upd row k f :
  views (upd_input k f row) = partial_alter (λ _, view ∘ f <$> ps_inputs row !! k) k (views row).
Proof.
  unfold views, upd_input. simpl. apply map_eq. intros j. rewrite lookup_fmap.
  destruct (decide (k = j)) as [<-|].
  - rewrite lookup_alter_eq, lookup_partial_alter_eq. by rewrite option_fmap_compose.
  - by rewrite lookup_alter_ne, lookup_partial_alter_ne, lookup_fmap by done.
Qed.

Lemma views_upd_Some row k f i :
  ps_inputs row !! k = Some i → views (upd_input k f row) = <[k := view (f i)]> (views row).
Proof. intros Hi. rewrite views_upd, Hi. done. Qed.

Lemma views_lookup row k v :
  views row !! k = Some v ↔ ∃ i, ps_inputs row !! k = Some i ∧ v = view i.
Proof. unfold views. rewrite lookup_fmap, fmap_Some. done. Qed.

Lemma tviews_upd row t f x :
  ps_turns row !! t = Some x → tviews (upd_turn t f row) = <[t := tview (f x)]> (tviews row).
Proof.
  intros Hx. unfold tviews, upd_turn. simpl. apply map_eq. intros j. rewrite lookup_fmap.
  destruct (decide (t = j)) as [<-|].
  - by rewrite lookup_alter_eq, Hx, lookup_insert_eq.
  - by rewrite lookup_alter_ne, lookup_insert_ne, lookup_fmap by done.
Qed.

Lemma journals_views row row' : journals row row' → views row' = views row.
Proof.
  intros [_ Hi _]. apply map_eq. intros k. unfold views. rewrite !lookup_fmap.
  specialize (Hi k). inversion Hi as [i i' [Hm _] H1 H2|]; simpl; [|done].
  rewrite Hm. by destruct i.
Qed.

(** ** Journaling keeps everything but the journal as it is *)

Lemma journals_evolves row row' :
  journals row row' → (journal_inv row → journal_inv row') → evolves row row'.
Proof.
  intros Hjo HJ [H1 H2 H3 H4 H5 H6 H7 H8 H9 H10 H11 H12 H13].
  pose proof (journals_views _ _ Hjo) as HV. split; [|by apply journals_hist].
  pose proof (jo_rest _ _ Hjo) as Hr. specialize (HJ H1).
  split; rewrite ?HV; try done; try (rewrite Hr; done).
  2: { apply (memory_ok_frame row); [by rewrite Hr..|by apply jo_events|done]. }
  apply (terms_ok_frame row); [by rewrite Hr| |done].
  intros k [i Hi]. destruct (rh_inputs _ _ (journals_hist _ _ Hjo) _ _ Hi) as (i' & -> & _). eauto.
Qed.

(** The writer lease. *)
Lemma lease_evolves row l :
  lease_mono row (row <| ps_lease := Some l |>) → evolves row (row <| ps_lease := Some l |>).
Proof.
  intros Hm [H1 H2 H3 H4 H5 H6 H7 H8 H9 H10 H11 H12 H13]. split; [|by solve_hist].
  split; try done.
  - eapply journal_inv_frame; [|done]. split; simpl; try done. intros t x Hx. eauto.
  - eapply machine_inv_lease; [|done]. intros z Hz. apply Hm in Hz as (z' & ? & ?). eauto.
Qed.

(** ** A new input *)

Definition admitted (k : string) (i : Input) (row : PersonaRow) : PersonaRow :=
  row <| ps_inputs ::= <[k := i]> |> <| ps_next_admission ::= Z.succ |>.

Lemma insert_input_ok mk row fresh row' :
  insert_input mk row = Ok (fresh, row') →
  let i := mk (ps_next_admission row) in
  (fresh = true ∧ ps_inputs row !! in_id i = None ∧ row' = admitted (in_id i) i row) ∨
  (fresh = false ∧ is_Some (ps_inputs row !! in_id i) ∧ row' = row).
Proof.
  unfold insert_input. simpl. destruct (ps_inputs row !! in_id _) as [i|] eqn:Hi.
  - intros [= <- <-]. right. eauto.
  - intros [= <- <-]. left. done.
Qed.

Section admission.
Context (row : PersonaRow) (k : string) (i : Input).
Context (Hk : ps_inputs row !! k = None) (Hq : view i = queued_view)
  (Hrec : in_received_seq i = None).

Lemma admitted_views : views (admitted k i row) = <[k := queued_view]> (views row).
Proof. unfold views, admitted. simpl. by rewrite fmap_insert, Hq. Qed.

Lemma admitted_fresh : views row !! k = None.
Proof. unfold views. by rewrite lookup_fmap, Hk. Qed.

Lemma admitted_journal : journal_frame row (admitted k i row).
Proof.
  split; [done| |intros t x Hx; by eauto].
  intros j. unfold received, admitted. simpl. rewrite lookup_insert.
  case_decide as Hj; [|done]. subst j. by rewrite Hk.
Qed.

Lemma admitted_hist : row_hist row (admitted k i row).
Proof.
  solve_hist. apply (table_hist_insert input_hist). intros x Hx. congruence.
Qed.

(** All but the notification slots. *)
Lemma admitted_machine :
  row_inv row → machine_inv (views (admitted k i row)) (tviews row) (lease_gen row).
Proof.
  intros H. rewrite admitted_views. apply machine_inv_add; [apply admitted_fresh|apply H].
Qed.
Lemma admitted_waiting :
  row_inv row → ∀ j v, views (admitted k i row) !! j = Some v → v_status v = Waiting →
    parked (ps_approvals row) (ps_waits row) j.
Proof.
  intros H j v. rewrite admitted_views.
  intros [[<- <-]|[_ Hv]]%lookup_insert_Some; [done|by eapply ri_waiting].
Qed.
Lemma admitted_terminal :
  row_inv row → terminal_inv (views (admitted k i row)) (terminals row).
Proof.
  intros H. rewrite admitted_views. apply terminal_inv_insert; [|apply H].
  split; [done|]. intros (v & Hv & _). by rewrite admitted_fresh in Hv.
Qed.

Lemma admitted_evolves :
  (∀ x, k ≠ schedInputPrefix +:+ x ∧ k ≠ jobInputPrefix +:+ x) →
  evolves row (admitted k i row).
Proof.
  intros Hslot H. split; [|apply admitted_hist].
  pose proof H as [H1 H2 H3 H4 H5 H6 H7 H8 H9 H10 H11 H12 H13]. split; try done.
  - eapply journal_inv_frame; [apply admitted_journal|done].
  - by apply admitted_machine.
  - by apply admitted_waiting.
  - by apply admitted_terminal.
  - rewrite admitted_views. apply slot_inv_add; [|done]. intros x. apply Hslot.
  - rewrite admitted_views. apply slot_inv_add; [|done]. intros x. apply Hslot.
  - keep_terms row.
Qed.
End admission.

(** ** Inputs, personas, plans *)

Lemma submit_tx_ok now r row a row' :
  submit_tx now r row = Ok (a, row') →
  (row' = row ∧ ∃ i, ps_inputs row !! ir_id r = Some i ∧ a = (i, false) ∧ same_request r i = true) ∨
  (ps_inputs row !! ir_id r = None ∧ a = (new_input now r (ps_next_admission row), true)
   ∧ row' = admitted (ir_id r) (new_input now r (ps_next_admission row)) row).
Proof.
  unfold submit_tx. assert (∀ a row', submit_replay r row = Ok (a, row') → row' = row ∧
    ∃ i, ps_inputs row !! ir_id r = Some i ∧ a = (i, false) ∧ same_request r i = true) as Hrep.
  { unfold submit_replay. intros b row0. repeat case_match; intros; simplify_eq. eauto. }
  destruct (bool_decide _); [|by left; apply Hrep].
  destruct (negb _); [done|].
  destruct (insert_input _ row) as [[[] row1]|e] eqn:Hins; [|by left; apply Hrep|done].
  intros [= <- <-]. apply insert_input_ok in Hins as [(_ & ? & ->)|(? & _)]; [|done].
  by right.
Qed.

Lemma submit_tx_evolves now r :
  reserved_input_id (ir_id r) = false → steps evolves (submit_tx now r).
Proof.
  intros Hres row a row' [[-> _]|(Hk & _ & ->)]%submit_tx_ok; [done|].
  apply admitted_evolves; [done|done|done|]. intros x. by apply not_reserved_slot.
Qed.

Lemma AcquireWriter_evolves now h ttl : steps evolves (AcquireWriter now h ttl).
Proof.
  intros row l row' H. pose proof (AcquireWriter_mono _ _ _ _ _ _ H) as Hm.
  unfold AcquireWriter in H. repeat case_match; simplify_eq; by apply lease_evolves.
Qed.
Lemma RenewWriter_evolves now h g ttl : steps evolves (RenewWriter now h g ttl).
Proof.
  intros row l row' H. pose proof (RenewWriter_mono _ _ _ _ _ _ _ H) as Hm.
  unfold RenewWriter in H. repeat case_match; simplify_eq; by apply lease_evolves.
Qed.
Lemma ReleaseWriter_evolves h g : steps evolves (ReleaseWriter h g).
Proof.
  intros row l row' H. pose proof (ReleaseWriter_mono _ _ _ _ _ H) as Hm.
  unfold ReleaseWriter in H. repeat case_match; simplify_eq; by apply lease_evolves.
Qed.

(** Tables the invariant does not mention, or mentions only as amounts. *)
Lemma side_evolves row row' :
  ps_lease row' = ps_lease row → ps_inputs row' = ps_inputs row → ps_turns row' = ps_turns row →
  ps_plans row' = ps_plans row → ps_ops row' = ps_ops row → ps_approvals row' = ps_approvals row →
  ps_schedules row' = ps_schedules row → ps_jobs row' = ps_jobs row →
  ps_events row' = ps_events row → ps_outbox row' = ps_outbox row → ps_waits row' = ps_waits row →
  (amounts_ok row → amounts_ok row') → table_hist fact_hist (ps_facts row) (ps_facts row') →
  (terms_ok row → terms_ok row') → table_hist term_hist (ps_terms row) (ps_terms row') →
  (memory_ok row → memory_ok row') → mem_hist (ps_chunks row) (ps_chunks row') →
  evolves row row'.
Proof.
  intros HL HI HT HP HO HA HS HJ HE HX HW Ham Hf Htm Hth Hmm Hmh [H1 H2 H3 H4 H5 H6 H7 H8 H9 H10 H11 H12 H13].
  assert (views row' = views row) as HV by (unfold views; by rewrite HI).
  assert (tviews row' = tviews row) as HT' by (unfold tviews; by rewrite HT).
  split.
  - split; rewrite ?HV, ?HT', ?HW, ?HA, ?HX, ?HO, ?HP, ?HJ, ?HS; try done; auto.
    + eapply journal_inv_frame; [|done]. split; [done| |].
      * intros k. unfold received. by rewrite HI.
      * intros t x Hx. rewrite HT. eauto.
    + unfold lease_gen. by rewrite HL.
    + unfold terminals. by rewrite HX.
  - split; rewrite ?HI, ?HT, ?HP, ?HO, ?HA, ?HJ, ?HS, ?HE, ?HX; try reflexivity; try done.
    by apply lease_mono_eq.
Qed.

Lemma persona_evolves row per : evolves row (row <| ps_persona := per |>).
Proof. by apply side_evolves. Qed.

Lemma save_tx_evolves now t g round d :
  0 ≤ round → steps evolves (save_tx now t g round d).
Proof.
  intros Hround row [p c] row' H. pose proof H as Hsave.
  apply save_tx_ok in Hsave as (x & Hx & _ & Hrow & Hp & _ & Hother & Hgrow & _); [|done].
  assert (table_hist plan_grows (ps_plans row) (ps_plans row')) as HP.
  { intros i p0 Hp0. destruct (decide (i = tu_input_id x)) as [->|Hne].
    - exists p. split; [done|]. unfold plan_grows. rewrite (Hgrow p0 Hp0).
      by apply prefix_app_r.
    - exists p0. by rewrite Hother. }
  intros [H1 H2 H3 H4 H5 H6 H7 H8 H9 H10 H11 H12 H13]. split.
  - rewrite Hrow. split; try done; simpl.
    + eapply journal_inv_frame; [|done]. split; [done|done|]. intros t' y Hy. eauto.
    + eapply ledger_inv_grow; [|done|done]. by intros t' i.
  - rewrite Hrow. by solve_hist.
Qed.

(** ** Steps beside the ledger

    A tool's effect runs between the insertion of its operation and the
    update that settles it, when the ledger's invariant does not hold.
    [beside row row'] says of such a step that it leaves the ledger alone
    and would be a step of the invariant whatever the ledger held. *)
Definition swap (O : gmap string Operation) (A : gmap (string * Z) ToolApproval)
    (row : PersonaRow) : PersonaRow :=
  row <| ps_ops := O |> <| ps_approvals := A |>.

Record beside (row row' : PersonaRow) : Prop := {
  bs_ops : ps_ops row' = ps_ops row;
  bs_approvals : ps_approvals row' = ps_approvals row;
  bs_turns : ps_turns row' = ps_turns row;
  bs_plans : ps_plans row' = ps_plans row;
  bs_lease : ps_lease row' = ps_lease row;
  bs_evolves : ∀ O A, evolves (swap O A row) (swap O A row')
}.

#[global] Instance beside_preorder : PreOrder beside.
Proof.
  split; [by intros row; split|].
  intros r1 r2 r3 [] []. split; try congruence. intros O A. etrans; eauto.
Qed.

Lemma swap_self row : swap (ps_ops row) (ps_approvals row) row = row.
Proof. by destruct row. Qed.

Lemma beside_evolves row row' : beside row row' → evolves row row'.
Proof.
  intros [HO HA _ _ _ He]. specialize (He (ps_ops row) (ps_approvals row)).
  rewrite swap_self in He. by rewrite <-HO, <-HA, swap_self in He.
Qed.

Lemma journal_inv_swap O A row : journal_inv row ↔ journal_inv (swap O A row).
Proof.
  split; apply journal_inv_frame; (split; [done|done|]); intros t x Hx; eauto.
Qed.

Lemma journals_beside row row' :
  journals row row' → (journal_inv row → journal_inv row') → beside row row'.
Proof.
  intros Hjo HJ. pose proof (jo_rest _ _ Hjo) as Hr.
  split; [by rewrite Hr..|]. intros O A. apply journals_evolves.
  - destruct Hjo as [He Hi _]. split; [done|done|]. by rewrite Hr.
  - by rewrite <-!journal_inv_swap.
Qed.
