(* ===== verification/ContextFacts.v ===== *)
(** * The rendered context over well-shaped memory

    With [mem_ok], the records rendered raw and the applied blocks share the
    journal out between them. *)

From Stdlib Require Import ZArith Lia.
From stdpp Require Import sorting.
From S2P Require Import Prelude Json MemoryState MemoryShape State Personas Journal Turns.
From S2P Require Import Memory MemoryFacts MemoryLive History Invariant.
Local Open Scope list_scope.
Local Open Scope Z_scope.

Definition shown_by (b : MemoryBlock) (e : Event) : Prop :=
  mb_first_seq b ≤ ev_seq e ≤ mb_last_seq b.
Definition before_block (b b' : MemoryBlock) : Prop := mb_last_seq b < mb_first_seq b'.

Section context.
Context (row : PersonaRow).
Hypothesis Hnum : numbered ev_seq (ps_events row).
Hypothesis Hok : mem_ok (length (ps_events row)) (ps_chunks row).

(** A record of every number. *)
Lemma event_at s : 1 ≤ s ≤ length (ps_events row) → ∃ e, e ∈ ps_events row ∧ ev_seq e = s.
Proof.
  intros Hs. assert (s ∈ ev_seq <$> ps_events row) as (e & -> & He)%list_elem_of_fmap.
  { rewrite Hnum. apply elem_of_seqZ. lia. }
  by exists e.
Qed.
Lemma event_time_at s : 1 ≤ s ≤ length (ps_events row) → is_Some (event_time s row).
Proof.
  intros (e & He & Hs)%event_at. unfold event_time. apply fmap_is_Some.
  destruct (List.find (λ e, ev_seq e =? s) (ps_events row)) as [x|] eqn:Hf; [by exists x|].
  apply list_elem_of_In in He. eapply find_none in Hf; [|exact He]. simpl in Hf. reflect_bools. lia.
Qed.

(** A block is an applied chunk. *)
Lemma block_chunk b :
  b ∈ appliedBlocks row → ∃ c, ps_chunks row !! mb_chunk_seq b = Some c ∧ mc_status c = ChApplied ∧
    mb_layer b = mc_layer c ∧ mb_first_seq b = mc_first_seq c ∧ mb_last_seq b = mc_last_seq c ∧
    mb_text b = mc_replacement c ∧ mb_est_tokens b = mc_replacement_est_tokens c.
Proof.
  unfold appliedBlocks. rewrite merge_sort_Permutation, list_elem_of_omap.
  intros ([k c] & Hk%elem_of_map_to_list & Hb). unfold block_of in Hb. simpl in Hb.
  case_bool_decide as Ha; [|done]. repeat case_match; [|done..]. injection Hb as <-. by exists c.
Qed.
Lemma chunk_block k c :
  ps_chunks row !! k = Some c → mc_status c = ChApplied →
  ∃ b, b ∈ appliedBlocks row ∧ mb_chunk_seq b = k ∧
    mb_first_seq b = mc_first_seq c ∧ mb_last_seq b = mc_last_seq c.
Proof.
  intros Hk Ha. pose proof (mo_range _ _ Hok k c Hk) as Hr.
  destruct (event_time_at (mc_first_seq c)) as [f Hf]; [lia|].
  destruct (event_time_at (mc_last_seq c)) as [l Hl]; [lia|].
  exists (mkBlock k (mc_layer c) (mc_first_seq c) (mc_last_seq c) f l (mc_replacement c)
            (mc_replacement_est_tokens c)).
  split; [|done]. unfold appliedBlocks. rewrite merge_sort_Permutation, list_elem_of_omap.
  exists (k, c). rewrite elem_of_map_to_list. split; [done|]. unfold block_of. simpl.
  by rewrite bool_decide_eq_true_2, Hf, Hl.
Qed.

Lemma blocks_keys : NoDup (mb_chunk_seq <$> appliedBlocks row).
Proof.
  unfold appliedBlocks. rewrite merge_sort_Permutation.
  generalize (NoDup_fst_map_to_list (ps_chunks row)). generalize (map_to_list (ps_chunks row)).
  intros l. induction l as [|[k c] l IH]; intros Hnd; [constructor|].
  apply NoDup_cons in Hnd as [Hk Hnd]. specialize (IH Hnd). simpl.
  destruct (block_of row (k, c)) as [b|] eqn:Hb; [|done]. simpl. apply NoDup_cons. split; [|done].
  intros (b' & Hkb & ([k' c'] & Hin & Hb')%list_elem_of_omap)%list_elem_of_fmap.
  apply Hk. unfold block_of in Hb, Hb'. repeat case_match; simplify_eq/=.
  by apply (list_elem_of_fmap_2 fst) in Hin.
Qed.

(** Two blocks that show the same record are one. *)
Lemma shown_unique b b' e :
  b ∈ appliedBlocks row → b' ∈ appliedBlocks row → shown_by b e → shown_by b' e → b' = b.
Proof.
  intros Hb Hb' Hs Hs'. destruct (block_chunk b Hb) as (c & Hc & Ha & _ & Ef & El & _).
  destruct (block_chunk b' Hb') as (c' & Hc' & Ha' & _ & Ef' & El' & _).
  assert (mb_chunk_seq b' = mb_chunk_seq b) as Hkey.
  { eapply (mo_applied _ _ Hok _ _ c' c (ev_seq e)); try done; unfold in_chunk, shown_by in *; lia. }
  by eapply (NoDup_fmap_inj mb_chunk_seq); [apply blocks_keys|..].
Qed.

Lemma blocks_ordered : StronglySorted before_block (appliedBlocks row).
Proof.
  apply (StronglySorted_keyed mb_chunk_seq block_le).
  - apply StronglySorted_merge_sort; intros x y; unfold block_le; lia.
  - apply blocks_keys.
  - intros b b' Hb Hb' Hne Hle. destruct (block_chunk b Hb) as (c & Hc & Ha & _ & Ef & El & _).
    destruct (block_chunk b' Hb') as (c' & Hc' & Ha' & _ & Ef' & El' & _).
    pose proof (mo_range _ _ Hok _ _ Hc'). unfold before_block, block_le in *.
    destruct (decide (mb_last_seq b < mb_first_seq b')); [done|]. exfalso. apply Hne.
    eapply (mo_applied _ _ Hok _ _ c c' (mc_first_seq c')); try done; unfold in_chunk; lia.
Qed.

Lemma blocks_smaller :
  Forall (λ b, ∃ text c, mb_text b = Some text ∧ mb_est_tokens b = Some (estTextTokens text) ∧
            ps_chunks row !! mb_chunk_seq b = Some c ∧ estTextTokens text < mc_est_tokens c)
    (appliedBlocks row).
Proof.
  apply Forall_forall. intros b (c & Hc & Ha & _ & _ & _ & Et & Ee)%block_chunk.
  pose proof (mo_text _ _ Hok _ _ Hc) as Ht. unfold text_ok in Ht. rewrite Ha in Ht.
  destruct Ht as (text & ? & ? & ?). exists text, c. split_and!; congruence.
Qed.

(** What the raw context leaves out, a block shows. *)
Lemma represented_shown e :
  existsb (λ kc, represented kc.2 && covers kc.2 (ev_seq e)) (map_to_list (ps_chunks row)) = true ↔
  ∃ b, b ∈ appliedBlocks row ∧ shown_by b e.
Proof.
  rewrite existsb_exists. setoid_rewrite <-list_elem_of_In. split.
  - intros ([k c] & Hk%elem_of_map_to_list & [Hr Hin]%andb_true_iff). simpl in *.
    assert (in_chunk c (ev_seq e)) as Hs.
    { unfold covers in Hin. apply andb_true_iff in Hin as [? ?]. reflect_bools. by split. }
    assert (∃ k' c', ps_chunks row !! k' = Some c' ∧ mc_status c' = ChApplied ∧ in_chunk c' (ev_seq e))
      as (k' & c' & Hk' & Ha' & Hs').
    { unfold represented in Hr. apply orb_true_iff in Hr as [Hr|Hr]; reflect_bools; [by eauto|].
      by eapply mo_superseded. }
    destruct (chunk_block k' c' Hk' Ha') as (b & Hb & _ & Ef & El). exists b. split; [done|].
    unfold shown_by, in_chunk in *. lia.
  - intros (b & Hb & Hs). destruct (block_chunk b Hb) as (c & Hc & Ha & _ & Ef & El & _).
    exists (mb_chunk_seq b, c). split; [by apply elem_of_map_to_list|]. simpl. unfold represented, covers.
    rewrite bool_decide_eq_true_2 by done. simpl. unfold shown_by in Hs.
    apply andb_true_iff. split; apply Z.leb_le; lia.
Qed.
End context.
