(* ===== verification/Database.v ===== *)
(** * From a persona to the database

    Transactions run on the whole database; [db_evolves] lifts [evolves] to
    it.  A call that touches one persona leaves the others as they are, so
    its theorem is the persona's. *)

From Stdlib Require Import ZArith Lia.
From S2P Require Import Prelude Json State Personas Inputs Journal Plans Usage Machine History.
From S2P Require Import Invariant.
Local Open Scope string_scope.
Local Open Scope list_scope.
Local Open Scope Z_scope.

Definition db_inv (db : DB) : Prop := map_Forall (λ _, row_inv) (db_personas db).
Definition db_hist (db db' : DB) : Prop :=
  table_hist row_hist (db_personas db) (db_personas db').
Definition db_evolves (db db' : DB) : Prop := db_inv db → db_inv db' ∧ db_hist db db'.

(** With transfers: what [repend_grants] may do as well. *)
Definition db_moves (db db' : DB) : Prop :=
  db_inv db → db_inv db' ∧ table_hist row_moves (db_personas db) (db_personas db').

#[global] Instance db_moves_preorder : PreOrder db_moves.
Proof.
  split; [intros db HI; split; [done|reflexivity]|].
  intros a b c Hab Hbc HI. destruct (Hab HI) as [HI' Hh], (Hbc HI') as [HI'' Hh'].
  split; [done|by etrans].
Qed.
Lemma db_evolves_moves db db' : db_evolves db db' → db_moves db db'.
Proof.
  intros H HI. destruct (H HI) as [HI' Hh]. split; [done|]. intros p row Hp.
  destruct (Hh p row Hp) as (row' & Hp' & Hr). exists row'. split; [done|]. by apply row_hist_moves.
Qed.

#[global] Instance db_hist_preorder : PreOrder db_hist.
Proof.
  split; unfold db_hist; [intros db; reflexivity|intros a b c Hab Hbc; by etrans].
Qed.
#[global] Instance db_evolves_preorder : PreOrder db_evolves.
Proof.
  split.
  - intros db H. done.
  - intros r1 r2 r3 H12 H23 H1. destruct (H12 H1) as [H2 ?]. destruct (H23 H2) as [H3 ?].
    split; [done|]. by etrans.
Qed.

(** One persona's row changes. *)
Lemma row_db_evolves db p row row' :
  db_personas db !! p = Some row → evolves row row' →
  db_evolves db (db <| db_personas := <[p := row']> (db_personas db) |>).
Proof.
  intros Hp He HI. destruct (He (HI p row Hp)) as [HI' Hh]. split.
  - by apply map_Forall_insert_2.
  - apply (table_hist_insert row_hist). intros r Hr. congruence.
Qed.

(** The tables no persona owns. *)
Lemma outer_db_evolves db db' : db_personas db' = db_personas db → db_evolves db db'.
Proof. intros H HI. split; [by unfold db_inv; rewrite H|]. unfold db_hist. by rewrite H. Qed.

Lemma with_persona_evolves {A} p missing (m : ptx A) :
  steps evolves m → steps db_evolves (with_persona p missing m).
Proof.
  intros Hm db a db' (row & row' & Hp & H & ->)%with_persona_ok.
  apply (row_db_evolves db p row row' Hp). by eapply Hm.
Qed.

Lemma with_persona_or_evolves {A} p (d : A) (m : ptx A) :
  steps evolves m → steps db_evolves (with_persona_or p d m).
Proof.
  intros Hm db a db' H. unfold with_persona_or in H.
  destruct (db_personas db !! p); [|by injection H as _ <-].
  by eapply with_persona_evolves.
Qed.

(** Operations behind the fence may rely on the generation they named. *)
Definition fenced_evolves {A} (g : Z) (m : ptx A) : Prop :=
  ∀ row a row', lease_gen row = Some g → m row = Ok (a, row') → evolves row row'.

Lemma fenced_evolves_steps {A} g (m : ptx A) :
  fenced_evolves g m → steps evolves (requireGeneration g ;; m).
Proof.
  intros Hm row a row' (u & s & Hf & H)%bind_ok.
  apply requireGeneration_ok in Hf as (_ & -> & Hg & _). by eapply Hm.
Qed.

Lemma steps_fenced {A} g (m : ptx A) : steps evolves m → fenced_evolves g m.
Proof. intros Hm row a row' _ H. by eapply Hm. Qed.

Lemma fenced_db_evolves {A} p g (m : ptx A) :
  fenced_evolves g m → steps db_evolves (fenced p g m).
Proof. intros Hm. by apply with_persona_evolves, fenced_evolves_steps. Qed.

(** A passed fence, at the level of the database. *)
Lemma fenced_ok {A} p g (m : ptx A) db a db' :
  fenced p g m db = Ok (a, db') →
  ∃ row row', db_personas db !! p = Some row ∧ lease_gen row = Some g
    ∧ p_authority (ps_persona row) = Active ∧ m row = Ok (a, row')
    ∧ db' = db <| db_personas := <[p := row']> (db_personas db) |>.
Proof.
  intros (row & row' & Hp & (u & s & Hf & H)%bind_ok & ->)%with_persona_ok.
  apply requireGeneration_ok in Hf as (_ & -> & ? & ?). eauto 10.
Qed.

(** Calls of several transactions. *)
Definition call_evolves {A} (c : call err DB A) : Prop := ∀ db, db_evolves db (c db).1.

Lemma commit_call_evolves {A} (m : tx A) : steps db_evolves m → call_evolves (commit m).
Proof. intros Hm db. apply (steps_commit db_evolves), Hm. Qed.
Lemma then_call_evolves {A B} (c : call err DB A) (k : A → call err DB B) :
  call_evolves c → (∀ a, call_evolves (k a)) → call_evolves (then_call c k).
Proof.
  intros Hc Hk db. unfold then_call. specialize (Hc db).
  destruct (c db) as [db' [a|e]]; simpl in *; [|done]. etrans; [done|apply Hk].
Qed.
Lemma ret_call_evolves {A} (r : res err A) : call_evolves (ret_call r).
Proof. by intros db. Qed.
Lemma read_call_evolves {A} (f : DB → res err A) : call_evolves (λ db, (db, f db)).
Proof. by intros db. Qed.

(** Personas themselves. *)
Lemma EnsurePersona_evolves now p h name : steps db_evolves (EnsurePersona now p h name).
Proof.
  assert (∀ p h, steps db_evolves (bindHuman p h)) as Hbind.
  { intros p' h' db a db' H. unfold bindHuman in H. repeat case_match; simplify_eq; try done.
    eapply row_db_evolves; [done|]. apply persona_evolves. }
  intros db a db' H. unfold EnsurePersona in H.
  destruct (db_personas db !! p) as [row|] eqn:Hp.
  - repeat case_match; simplify_eq; try done. by eapply Hbind.
  - case_match; [|done]. injection H as _ <-. intros HI. split.
    + apply map_Forall_insert_2; [apply row_inv_empty|done].
    + apply (table_hist_insert row_hist). intros r Hr. congruence.
Qed.

Lemma ClearModelIntent_evolves : steps evolves ClearModelIntent.
Proof.
  intros row u row' H. unfold ClearModelIntent in H. repeat case_match; simplify_eq; try done;
    apply persona_evolves.
Qed.
