(* ===== verification/JobFacts.v ===== *)
(** * Jobs keep the invariant

    Every operation of [Jobs.v] moves a persona along [evolves]: a job's
    verdict is final, its notification input is admitted exactly when it
    ends, and a claim stays with its runner. *)

From Stdlib Require Import ZArith Lia.
From stdpp Require Import sorting.
From S2P Require Import Prelude Json State Personas Inputs Journal Plans Usage Approvals Jobs.
From S2P Require Import Machine History Ledger Invariant.
Local Open Scope string_scope.
Local Open Scope list_scope.
Local Open Scope Z_scope.

(** A job changes, or a new one appears, without ending. *)
Lemma job_set_evolves row x j' :
  job_ok x j' →
  (∀ j, ps_jobs row !! x = Some j →
     job_hist j j' ∧ jobTerminal (j_status j') = jobTerminal (j_status j)) →
  (ps_jobs row !! x = None → jobTerminal (j_status j') = false) →
  evolves row (row <| ps_jobs ::= <[x := j']> |>).
Proof.
  intros Hok Hold Hnew [H1 H2 H3 H4 H5 H6 H7 H8 H9 H10 H11 H12 H13]. split.
  - split; try done.
    + eapply journal_inv_frame; [|done]. split; simpl; try done. intros t y Hy. eauto.
    + simpl. by apply map_Forall_insert_2.
    + intros y. rewrite (H8 y). unfold job_ended. simpl. rewrite lookup_insert. case_decide as Hxy.
      * subst y. destruct (ps_jobs row !! x) as [j|] eqn:Hj.
        -- destruct (Hold j eq_refl) as [_ Ht].
           split; intros (y & [= <-] & ?); eexists; (split; [done|congruence]).
        -- split; [naive_solver|]. intros (j & [= <-] & Ht). by rewrite Hnew in Ht.
      * done.
  - solve_hist. apply (table_hist_insert job_hist). intros j Hj. by apply Hold.
Qed.

Lemma job_upd_evolves row x j f :
  ps_jobs row !! x = Some j → job_hist j (f j) → (job_ok x j → job_ok x (f j)) →
  jobTerminal (j_status (f j)) = jobTerminal (j_status j) →
  evolves row (upd_job x f row).
Proof.
  intros Hj Hh Hok Ht HI.
  assert (upd_job x f row = row <| ps_jobs ::= <[x := f j]> |>) as ->.
  { unfold upd_job. simpl. by rewrite (alter_found _ _ _ j Hj). }
  apply job_set_evolves; [|naive_solver|naive_solver|done].
  apply Hok. exact (ri_jobs _ HI x j Hj).
Qed.

(** An update that neither starts nor ends the job. *)
Record touches (j j' : Job) : Prop := {
  to_id : j_id j' = j_id j;
  to_kind : j_kind j' = j_kind j;
  to_request : j_request j' = j_request j;
  to_claim : j_claimed_by j' = j_claimed_by j;
  to_notified : j_notified_at j' = j_notified_at j;
  to_status : (j_status j' = j_status j ∧ j_error j' = j_error j
               ∧ j_finished_at j' = j_finished_at j)
    ∨ (live_status (j_status j) = true ∧ live_status (j_status j') = true)
}.

Lemma live_not_terminal s : live_status s = true → jobTerminal s = false.
Proof. by destruct s. Qed.

(** ** Jobs in the hands of others

    The browser and connection tools queue jobs of their own within an
    effect, and the browser's host claims them and reports progress: new jobs
    that have not ended, and work on jobs that neither ends one nor revises
    one that ended. *)
Record job_work (j j' : Job) : Prop := {
  jw_hist : job_hist j j';
  jw_ended : jobTerminal (j_status j') = jobTerminal (j_status j);
  jw_ok : ∀ x, job_ok x j → job_ok x j'
}.
#[global] Instance job_work_preorder : PreOrder job_work.
Proof.
  split; [by split|]. intros a b c [] []. split; [by etrans|congruence|auto].
Qed.
Lemma touches_work j j' : touches j j' → job_work j j'.
Proof.
  intros [H1 H2 H3 H4 H5 H6]. split.
  - split; try done; [by rewrite H4|]. intros Ht.
    destruct H6 as [(? & ? & ?)|[Hl _]]; [done|]. by rewrite live_not_terminal in Ht.
  - destruct H6 as [(-> & _)|[Hl Hl']]; [done|]. by rewrite !live_not_terminal.
  - intros x [K1 K2 K3 K4].
    split; rewrite ?H4, ?H5, ?K2; [congruence|..];
      destruct H6 as [(-> & _)|[Hl Hl']]; try done.
    + by rewrite !live_not_terminal.
    + intros _. by apply K3.
    + intros Hq. by rewrite Hq in Hl'.
Qed.

Lemma touches_evolves row x j f :
  ps_jobs row !! x = Some j → touches j (f j) → evolves row (upd_job x f row).
Proof.
  intros Hj [Hh He Hok]%touches_work. eapply job_upd_evolves; eauto.
Qed.

Definition jobs_frame (J J' : gmap string Job) : Prop :=
  table_hist job_work J J' ∧
  ∀ x j, J' !! x = Some j → J !! x = None → job_ok x j ∧ jobTerminal (j_status j) = false.
#[global] Instance jobs_frame_preorder : PreOrder jobs_frame.
Proof.
  split; [intros J; split; [reflexivity|congruence]|].
  intros J1 J2 J3 [H1 H2] [K1 K2]. split; [by etrans|]. intros x j Hj Hnone.
  destruct (J2 !! x) as [j2|] eqn:Hj2; [|by eapply K2].
  destruct (H2 x j2 Hj2 Hnone) as [Hok Hn]. destruct (K1 x j2 Hj2) as (j3 & Hj3 & [_ He Hk]).
  rewrite Hj in Hj3. injection Hj3 as <-. split; [auto|congruence].
Qed.

Lemma jobs_frame_evolves row J' :
  jobs_frame (ps_jobs row) J' → evolves row (row <| ps_jobs := J' |>).
Proof.
  intros [Hw Hnew] [H1 H2 H3 H4 H5 H6 H7 H8 H9 H10 H11 H12 H13]. split.
  - split; try done.
    + eapply journal_inv_frame; [|done]. split; simpl; try done. intros t y Hy. eauto.
    + intros x j Hj. destruct (ps_jobs row !! x) as [j0|] eqn:Hj0; [|by eapply Hnew].
      destruct (Hw x j0 Hj0) as (j1 & Hj1 & Hk). simpl in Hj. rewrite Hj in Hj1. injection Hj1 as <-.
      by apply (jw_ok _ _ Hk), H7.
    + intros x. rewrite (H8 x). unfold job_ended. simpl. split; intros (j & Hj & Ht).
      * destruct (Hw x j Hj) as (j1 & Hj1 & Hk). exists j1. split; [done|]. by rewrite (jw_ended _ _ Hk).
      * destruct (ps_jobs row !! x) as [j0|] eqn:Hj0; [|destruct (Hnew x j Hj Hj0); congruence].
        destruct (Hw x j0 Hj0) as (j1 & Hj1 & Hk). rewrite Hj in Hj1. injection Hj1 as <-.
        exists j0. split; [done|]. by rewrite <-(jw_ended _ _ Hk).
  - solve_hist. intros x j Hj. destruct (Hw x j Hj) as (j1 & Hj1 & Hk). exists j1.
    split; [done|apply Hk].
Qed.

Section job_facts.
Context `{GL : !GoLib}.

Definition notified (now : Z) (j : Job) : Job := j <| j_notified_at := Some now |>.

Lemma notify_ok now j row u row' :
  notifyJobTerminalTx now j row = Ok (u, row') →
  let i := notification_input now j (jobOriginTx j row) (ps_next_admission row) in
  let k := jobInputPrefix +:+ j_id j in
  u = notified now j ∧
  ((ps_inputs row !! k = None ∧ row' = upd_job (j_id j) (notified now) (admitted k i row)) ∨
   (is_Some (ps_inputs row !! k) ∧ row' = upd_job (j_id j) (notified now) row)).
Proof.
  unfold notifyJobTerminalTx. destruct (jsonb_ok _); [|done].
  destruct (insert_input _ row) as [[fresh row1]|e] eqn:Hi; [|done]. intros [= <- <-].
  split; [done|]. apply insert_input_ok in Hi as [(_ & ? & ->)|(_ & ? & ->)]; auto.
Qed.

(** How an operation may end a job. *)
Record ends (j j' : Job) : Prop := {
  en_id : j_id j' = j_id j;
  en_kind : j_kind j' = j_kind j;
  en_request : j_request j' = j_request j;
  en_claim : j_claimed_by j' = j_claimed_by j;
  en_terminal : jobTerminal (j_status j') = true
}.

Lemma ends_ok now x j j' : ends j j' → job_ok x j → job_ok x (notified now j').
Proof.
  intros [H1 H2 H3 H4 H5] [K1 K2 K3 K4]. split; simpl.
  - congruence.
  - split; [done|by eexists].
  - intros Hl. by destruct (j_status j').
  - intros Hl. by rewrite Hl in H5.
Qed.

Lemma ends_hist now j j' :
  jobTerminal (j_status j) = false → ends j j' → job_hist j (notified now j').
Proof. intros Hn []. split; simpl; [done..| |]; congruence. Qed.

(** A job ends and its notification is admitted. *)
Lemma job_end_evolves now row x j j' i :
  ps_jobs row !! x = Some j → jobTerminal (j_status j) = false → ends j j' →
  ps_inputs row !! (jobInputPrefix +:+ x) = None → view i = queued_view →
  in_received_seq i = None →
  evolves row (admitted (jobInputPrefix +:+ x) i row <| ps_jobs ::= <[x := notified now j']> |>).
Proof.
  intros Hj Hn He Hk Hq Hrec HI.
  assert (job_ended (<[x := notified now j']> (ps_jobs row)) x) as Hend.
  { eexists. rewrite lookup_insert_eq. split; [done|]. apply He. }
  assert (∀ y, job_ended (<[x := notified now j']> (ps_jobs row)) y
               ↔ job_ended (ps_jobs row) y ∨ y = x) as Hends.
  { intros y. destruct (decide (y = x)) as [->|Hne]; [naive_solver|].
    unfold job_ended. rewrite lookup_insert_ne by done. naive_solver. }
  pose proof HI as [H1 H2 H3 H4 H5 H6 H7 H8 H9 H10 H11 H12 H13]. split.
  - split; try done; simpl.
    + eapply journal_inv_frame; [|done].
      destruct (admitted_journal row _ i Hk Hrec) as [? ? ?]. by split.
    + by apply (admitted_machine row _ i).
    + by apply (admitted_waiting row _ i).
    + by apply (admitted_terminal row _ i).
    + apply map_Forall_insert_2; [|done]. eapply ends_ok; [done|]. exact (H7 _ _ Hj).
    + change (views _) with (views (admitted (jobInputPrefix +:+ x) i row)).
      rewrite admitted_views by done. by eapply slot_inv_fill.
    + change (views _) with (views (admitted (jobInputPrefix +:+ x) i row)).
      rewrite admitted_views by done. apply slot_inv_add; [|done].
      intros y Heq. by apply (sched_job_slot y x).
    + keep_terms row.
  - solve_hist.
    + apply (table_hist_insert input_hist). intros y Hy. congruence.
    + apply (table_hist_insert job_hist). intros y Hy. rewrite Hj in Hy. injection Hy as <-.
      by apply ends_hist.
Qed.

(** The update that ends a job, with the notification that follows it. *)
Lemma notify_end now row x j f u row' :
  ps_jobs row !! x = Some j → jobTerminal (j_status j) = false → j_id j = x → ends j (f j) →
  notifyJobTerminalTx now (f j) (upd_job x f row) = Ok (u, row') →
  beside row row' ∧ (∀ k, k ≠ x → ps_jobs row' !! k = ps_jobs row !! k) ∧
  u = notified now (f j).
Proof.
  intros Hj Hn Hx He Hno. apply notify_ok in Hno as [-> Hcase].
  rewrite (en_id _ _ He), Hx in Hcase.
  assert (∀ g, alter g x (alter f x (ps_jobs row)) = <[x := g (f j)]> (ps_jobs row)) as Halt.
  { intros g. rewrite (alter_found f x _ j Hj), (alter_found g x _ (f j)).
    - by rewrite insert_insert_eq.
    - apply lookup_insert_eq. }
  destruct Hcase as [[Hk ->]|[Hk ->]].
  - unfold upd_job, admitted. simpl. rewrite Halt. split_and!; [|intros k ?; by rewrite lookup_insert_ne|done].
    split; [done..|]. intros O A.
    refine (job_end_evolves now (swap O A row) x j (f j) _ Hj Hn He Hk _ _); done.
  - split_and!; [|intros k ?|done].
    + split; [done..|]. intros O A HI. exfalso.
      assert (is_Some (views row !! (jobInputPrefix +:+ x))) as Hs.
      { destruct Hk as [i Hi]. exists (view i). apply views_lookup. eauto. }
      apply (ri_job_slots _ HI) in Hs as (j2 & Hj2 & Ht). simpl in Hj2; congruence.
    + unfold upd_job. simpl. by rewrite Halt, lookup_insert_ne.
Qed.

(** *** The operations *)

Lemma submitJobTx_beside cfg now x kind r by_ : steps beside (submitJobTx cfg now x kind r by_).
Proof.
  assert (∀ x kind r row a row', job_replay x kind r row = Ok (a, row') → row' = row) as Hrep.
  { unfold job_replay. intros * H. by repeat case_match; simplify_eq. }
  intros row a row' H. unfold submitJobTx in H. repeat case_match; simplify_eq;
    try (apply Hrep in H as ->; done); try done.
  split; [done..|]. intros O A. apply (job_set_evolves (swap O A row)); [|naive_solver|done].
  split; try done. split; [by intros [? ?]|done].
Qed.

Lemma touches_beside row x j f :
  ps_jobs row !! x = Some j → touches j (f j) → beside row (upd_job x f row).
Proof.
  intros Hj Ht. split; [done..|]. intros O A. by apply (touches_evolves (swap O A row) x j f).
Qed.

(** Job ids are their keys. *)
Definition ids_ok (row : PersonaRow) : Prop := ∀ x j, ps_jobs row !! x = Some j → j_id j = x.
Lemma row_inv_ids row : row_inv row → ids_ok row.
Proof. intros HI x j Hj. by apply (ri_jobs _ HI). Qed.

Lemma cancelJobTx_beside now x row u row' :
  ids_ok row → cancelJobTx now x row = Ok (u, row') → beside row row'.
Proof.
  intros HI H. unfold cancelJobTx in H. inv_tx; try done.
  - by eapply (notify_end now _ x j (cancel now)) in H as (He & _);
      [|done|by rewrite Heqj0|apply HI|split].
  - eapply touches_beside; [done|]. split; try done. right. by rewrite Heqj0.
Qed.

Lemma cancelJobTx_evolves now x : steps evolves (cancelJobTx now x).
Proof.
  intros row u row' H HI. pose proof (row_inv_ids _ HI) as Hid. revert HI.
  by apply (beside_evolves _ _ (cancelJobTx_beside _ _ _ _ _ Hid H)).
Qed.

(** Expired claims. *)
Lemma sweep_evolves now row u row' :
  for_each (expired_jobs now row) (sweep_job now) row = Ok (u, row') → evolves row row'.
Proof.
  intros H HI. assert (∀ kj, kj ∈ expired_jobs now row → jobTerminal (j_status kj.2) = false ∧
    ps_jobs row !! kj.1 = Some kj.2 ∧ j_id kj.2 = kj.1) as Hin.
  { intros [k j] [Hc Hk%elem_of_map_to_list]%list_elem_of_filter. split_and!; [|done|].
    - apply andb_true_iff in Hc as [Hc _]. by apply live_not_terminal.
    - by apply (ri_jobs _ HI). }
  revert HI. eapply (steps_distinct ps_jobs evolves); [..|exact H].
  - eapply sublist_NoDup; [apply (NoDup_fst_map_to_list (ps_jobs row))|].
    apply fmap_sublist, sublist_filter.
  - intros kj Hkj. by apply Hin.
  - intros [k j] s u1 s1 (Hn & _ & Hid)%Hin Hj Hs. simpl in *. unfold sweep_job in Hs. inv_tx.
    match goal with Hno : notifyJobTerminalTx _ _ _ = _ |- _ =>
      eapply notify_end in Hno as (Hev%beside_evolves & Hoth & _); [done|done..|by split] end.
Qed.

(** Starting the claimed batch. *)
Lemma start_evolves now r kinds lease backend limit row u row' :
  for_each (claim_batch kinds backend limit row)
    (λ kj, modify (upd_job kj.1 (start_job now r lease)) : ptx unit) row = Ok (u, row') →
  evolves row row'.
Proof.
  intros H. unfold claim_batch in H. destruct (bool_decide _); [|by injection H as _ <-].
  eapply (steps_distinct ps_jobs evolves); [..|exact H].
  - apply take_sorted_distinct.
  - intros [k j] [_ Hk%elem_of_map_to_list]%take_sorted_spec. done.
  - intros [k j] s u1 s1 [Hc _]%take_sorted_spec Hj [= _ <-]. simpl in *. split.
    + unfold claimable in Hc. reflect_bools.
      assert (j_status j = JobQueued) as Hq by done. intros HI. pose proof (ri_jobs _ HI k j Hj) as [K1 K2 K3 K4]. revert HI.
      eapply job_upd_evolves; [done|..].
      * split; try done; simpl; [rewrite K4; done|by rewrite Hq].
      * intros _. split; simpl; try done. by rewrite K2, Hq.
      * simpl. by rewrite Hq.
    + intros k' Hne. unfold upd_job. simpl. by rewrite lookup_alter_ne.
Qed.

Lemma claim_jobs_tx_evolves now r kinds lease limit backend :
  steps evolves (claim_tx now r kinds lease limit backend).
Proof.
  intros row a row' H. unfold claim_tx in H. inv_tx. etrans.
  - eapply sweep_evolves. eassumption.
  - eapply start_evolves. eassumption.
Qed.

Lemma heartbeat_tx_evolves now x r lease : steps evolves (heartbeat_tx now x r lease).
Proof.
  intros row a row' H. unfold heartbeat_tx in H. inv_tx.
  eapply touches_evolves; [done|]. split; try done. by left.
Qed.

Lemma note_tx_evolves now x r lease cause : steps evolves (note_tx now x r lease cause).
Proof.
  intros row a row' H. unfold note_tx in H. inv_tx.
  eapply touches_evolves; [done|]. split; try done. by left.
Qed.

Lemma clear_wait_evolves x r : steps evolves (modify (upd_job x (clear_wait r)) : ptx unit).
Proof.
  intros row a row' [= _ <-]. destruct (ps_jobs row !! x) as [j|] eqn:Hj.
  - eapply touches_evolves; [done|]. unfold clear_wait. destruct (_ && _); split; try done;
      by left.
  - assert (upd_job x (clear_wait r) row = row) as ->; [|done].
    unfold upd_job. simpl. rewrite alter_absent by done. by destruct row.
Qed.

Lemma complete_tx_evolves now x r st result e :
  jobTerminal st = true → steps evolves (complete_tx now x r st result e).
Proof.
  intros Hst row a row' H HI. unfold complete_tx in H. inv_tx; [done|].
  pose proof (jk_id _ _ (ri_jobs _ HI _ _ ltac:(eassumption))) as Hid.
  eapply notify_end in H as (He%beside_evolves & _); [by apply He|done|done|done|by split].
Qed.

Lemma attach_tx_evolves x r outcome : steps evolves (attach_tx x r outcome).
Proof.
  intros row a row' H. unfold attach_tx in H. inv_tx; try done.
  eapply touches_evolves; [done|]. split; try done. by left.
Qed.

Lemma internalJobTool_beside cfg now p t i tool n r row a row' :
  ids_ok row → internalJobTool cfg now p t i tool n r row = Ok (a, row') → beside row row'.
Proof.
  intros HI H. unfold internalJobTool, start_tool, map_err in H. inv_tx; try done.
  - by eapply submitJobTx_beside.
  - by eapply cancelJobTx_beside.
Qed.

(** One swept job. *)
Lemma sweep_sets now kj row u row' :
  ps_jobs row !! kj.1 = Some kj.2 → j_id kj.2 = kj.1 → sweep_job now kj row = Ok (u, row') →
  ps_jobs row' = <[kj.1 := notified now (lose now kj.2)]> (ps_jobs row).
Proof.
  destruct kj as [x j]. simpl. intros Hj Hid H. unfold sweep_job in H. simpl in H.
  apply bind_ok in H as (u1 & s1 & [= _ <-] & H). apply bind_ok in H as (u2 & s2 & H & [= _ <-]).
  apply notify_ok in H as [_ Hcase]. simpl in Hcase. rewrite Hid in Hcase.
  assert (alter (notified now) x (alter (lose now) x (ps_jobs row))
          = <[x := notified now (lose now j)]> (ps_jobs row)) as <-.
  { rewrite (alter_found _ x _ j Hj), (alter_found _ x _ (lose now j)) by apply lookup_insert_eq.
    by rewrite insert_insert_eq. }
  by destruct Hcase as [[_ ->]|[_ ->]].
Qed.
End job_facts.
