(* ===== verification/DiscoveryFacts.v ===== *)
(** * Facts about job discovery

    The order of job keys, the walk of a cursor over pages, and that the
    global sweep keeps the invariant. *)

From Stdlib Require Import Ascii ZArith Lia.
From stdpp Require Import sorting.
From S2P Require Import Prelude Json State Personas Inputs Journal Usage Approvals Jobs JobDiscovery.
From S2P Require Import Machine History Ledger Invariant Database JobFacts.
Local Open Scope string_scope.
Local Open Scope list_scope.
Local Open Scope Z_scope.

(** ** The order of keys *)

Lemma ascii_compare_trans a b c : Ascii.compare a b = Lt → Ascii.compare b c = Lt → Ascii.compare a c = Lt.
Proof. unfold Ascii.compare. rewrite !N.compare_lt_iff. lia. Qed.
Lemma ascii_compare_refl a : Ascii.compare a a = Eq.
Proof. unfold Ascii.compare. apply N.compare_refl. Qed.
Lemma str_compare_refl a : String.compare a a = Eq.
Proof. induction a as [|c a IH]; [done|]. simpl. by rewrite ascii_compare_refl. Qed.
Lemma str_compare_trans a b c : String.compare a b = Lt → String.compare b c = Lt → String.compare a c = Lt.
Proof.
  revert b c. induction a as [|x a IH]; intros [|y b] [|z c]; simpl; try done.
  destruct (Ascii.compare x y) eqn:H1; [|intros _|done].
  - apply Ascii.compare_eq_iff in H1 as ->. destruct (Ascii.compare y z); [apply IH|done|done].
  - destruct (Ascii.compare y z) eqn:H2; [|intros _|done].
    + apply Ascii.compare_eq_iff in H2 as ->. by rewrite H1.
    + by rewrite (ascii_compare_trans _ _ _ H1 H2).
Qed.

Lemma key_lt_irrefl a : ¬ key_lt a a.
Proof. unfold key_lt, key_cmp. by rewrite !str_compare_refl. Qed.
Lemma key_lt_trans a b c : key_lt a b → key_lt b c → key_lt a c.
Proof.
  unfold key_lt, key_cmp. destruct a as [a1 a2], b as [b1 b2], c as [c1 c2]. simpl.
  destruct (String.compare a1 b1) eqn:H1; [|intros _|done].
  - apply String.compare_eq_iff in H1 as ->. destruct (String.compare b1 c1); [|done|done].
    apply str_compare_trans.
  - destruct (String.compare b1 c1) eqn:H2; [|intros _|done].
    + apply String.compare_eq_iff in H2 as ->. by rewrite H1.
    + by rewrite (str_compare_trans _ _ _ H1 H2).
Qed.
Lemma key_lt_total a b : key_lt a b ∨ a = b ∨ key_lt b a.
Proof.
  unfold key_lt, key_cmp. destruct a as [a1 a2], b as [b1 b2]. simpl.
  rewrite (String.compare_antisym b1 a1), (String.compare_antisym b2 a2).
  destruct (String.compare a1 b1) eqn:H1; simpl; [|by left|by right; right].
  apply String.compare_eq_iff in H1 as ->.
  destruct (String.compare a2 b2) eqn:H2; simpl; [|by left|by right; right].
  apply String.compare_eq_iff in H2 as ->. by right; left.
Qed.

#[global] Instance row_le_total : Total row_le.
Proof.
  intros a b. unfold row_le. destruct (key_lt_total a.1 b.1) as [H|[->|H]].
  - left. intros H'. by apply (key_lt_irrefl a.1), (key_lt_trans _ b.1).
  - left. apply key_lt_irrefl.
  - right. intros H'. by apply (key_lt_irrefl a.1), (key_lt_trans _ b.1).
Qed.
#[global] Instance row_le_trans : Transitive row_le.
Proof.
  intros a b c Hab Hbc Hca. destruct (key_lt_total b.1 a.1) as [H|[E|H]]; [done| |].
  - apply Hbc. unfold row_le in *. by rewrite E.
  - apply Hbc. by eapply key_lt_trans.
Qed.

(** ** The table *)

Lemma all_jobs_elem db p k j :
  ((p, k), j) ∈ all_jobs db ↔ ∃ row, db_personas db !! p = Some row ∧ ps_jobs row !! k = Some j.
Proof.
  unfold all_jobs. rewrite list_elem_of_bind. split.
  - intros ([p' row] & ([k' j'] & [= -> -> ->] & Hj%elem_of_map_to_list)%list_elem_of_fmap
      & Hp%elem_of_map_to_list). eauto.
  - intros (row & Hp & Hj). exists (p, row). split; [|by apply elem_of_map_to_list].
    apply list_elem_of_fmap. exists (k, j). split; [done|by apply elem_of_map_to_list].
Qed.
Lemma all_jobs_keys db : NoDup (all_jobs db).*1.
Proof.
  unfold all_jobs. generalize (NoDup_fst_map_to_list (db_personas db)).
  generalize (map_to_list (db_personas db)). intros l.
  induction l as [|[p row] l IH]; intros Hnd; [constructor|].
  apply NoDup_cons in Hnd as [Hp Hnd]. rewrite bind_cons, fmap_app. apply NoDup_app. split_and!.
  - assert ((persona_jobs (p, row)).*1 = pair p <$> (map_to_list (ps_jobs row)).*1) as ->.
    { unfold persona_jobs. by rewrite <-!list_fmap_compose. }
    apply NoDup_fmap_2; [by intros ? ? [=]|]. apply NoDup_fst_map_to_list.
  - intros [q k] H1 H2. apply list_elem_of_fmap in H1 as ([[? ?] ?] & [= -> ->] & H1).
    apply list_elem_of_fmap in H1 as ([? ?] & [= -> -> ->] & _).
    apply list_elem_of_fmap in H2 as ([[? ?] ?] & [= <- <-] & H2).
    apply list_elem_of_bind in H2 as ([q' row'] & H2 & Hq).
    apply list_elem_of_fmap in H2 as ([? ?] & [= -> -> ->] & _).
    apply Hp. by apply (list_elem_of_fmap_2 fst) in Hq.
  - by apply IH.
Qed.

(** ** Walking a cursor *)

(** The pages a caller reads who moves the cursor to the last row of each
    full page and stops at a short one. *)
Fixpoint walk (fuel : nat) (P : JobRow → bool) (after : string * string) (n : Z) (rows : list JobRow)
    : list JobRow :=
  match fuel with
  | O => []
  | S fuel =>
      let pg := page P after n rows in
      match last pg with
      | Some r => if n <=? length pg then pg ++ walk fuel P r.1 n rows else pg
      | None => pg
      end
  end.

Section walk.
Context (P : JobRow → bool) (rows : list JobRow) (n : Z).
Hypothesis Hkeys : NoDup rows.*1.
Hypothesis Hn : 0 < n.

Definition rest (after : string * string) : list JobRow :=
  merge_sort row_le (filter (λ r, P r = true ∧ key_lt after r.1) rows).
Definition before (a b : JobRow) : Prop := key_lt a.1 b.1.

Lemma rest_elem after r : r ∈ rest after ↔ r ∈ rows ∧ P r = true ∧ key_lt after r.1.
Proof. unfold rest. rewrite merge_sort_Permutation, list_elem_of_filter. tauto. Qed.
Lemma rest_keys after : NoDup (rest after).*1.
Proof. unfold rest. rewrite merge_sort_Permutation. by apply NoDup_fmap_keep. Qed.
Lemma rest_sorted after : StronglySorted before (rest after).
Proof.
  apply (StronglySorted_keyed fst row_le); [apply StronglySorted_merge_sort; apply _|apply rest_keys|].
  intros x y _ _ Hne Hle. unfold before. destruct (key_lt_total x.1 y.1) as [?|[?|?]]; done.
Qed.

(** Sorted lists with the same elements. *)
Lemma before_unique l l' :
  StronglySorted before l → StronglySorted before l' → (∀ r, r ∈ l ↔ r ∈ l') → l = l'.
Proof.
  revert l'. induction l as [|x l IH]; intros [|y l'] Hs Hs' Heq; [done| | |].
  - exfalso. apply (not_elem_of_nil y), Heq. by left.
  - exfalso. apply (not_elem_of_nil x), Heq. by left.
  - apply StronglySorted_inv in Hs as [Hs Hx], Hs' as [Hs' Hy]. rewrite Forall_forall in Hx, Hy.
    assert (x = y) as ->.
    { assert (x ∈ y :: l') as [?|Hx']%elem_of_cons by (apply Heq; by left); [done|].
      assert (y ∈ x :: l) as [?|Hy']%elem_of_cons by (apply Heq; by left); [done|].
      exfalso. apply (key_lt_irrefl x.1). eapply key_lt_trans; [by apply Hx|by apply Hy]. }
    f_equal. apply IH; [done|done|]. intros r. split; intros Hr.
    + assert (r ∈ y :: l') as [->|?]%elem_of_cons by (apply Heq; by right); [|done].
      exfalso. by apply (key_lt_irrefl y.1), Hx.
    + assert (r ∈ y :: l) as [->|?]%elem_of_cons by (apply Heq; by right); [|done].
      exfalso. by apply (key_lt_irrefl y.1), Hy.
Qed.

(** What a page leaves is what comes after its last row. *)
Lemma rest_after after r :
  last (take (Z.to_nat n) (rest after)) = Some r → rest r.1 = drop (Z.to_nat n) (rest after).
Proof.
  intros Hlast. pose proof (rest_sorted after) as Hs.
  rewrite <-(take_drop (Z.to_nat n) (rest after)) in Hs. apply StronglySorted_app in Hs as (Hlt & Ht & Hd).
  apply before_unique; [apply rest_sorted|done|]. intros x. rewrite rest_elem.
  assert (r ∈ take (Z.to_nat n) (rest after)) as Hr.
  { apply last_Some in Hlast as [l' ->]. apply elem_of_app. right. by left. }
  assert (r ∈ rest after) as (_ & _ & Har)%rest_elem.
  { rewrite <-(take_drop (Z.to_nat n) (rest after)). apply elem_of_app. by left. }
  split.
  - intros (Hx & HP & Hrx). assert (x ∈ rest after) as Hin.
    { apply rest_elem. split_and!; [done|done|by eapply key_lt_trans]. }
    rewrite <-(take_drop (Z.to_nat n) (rest after)) in Hin.
    apply elem_of_app in Hin as [Hin|?]; [exfalso|done].
    apply last_Some in Hlast as [l' Hl']. rewrite Hl' in Hin, Ht.
    apply StronglySorted_app in Ht as (Hb & _).
    apply elem_of_app in Hin as [Hin| ->%list_elem_of_singleton]; [|by apply (key_lt_irrefl r.1)].
    specialize (Hb x r Hin ltac:(by left)). apply (key_lt_irrefl r.1). by eapply key_lt_trans.
  - intros Hx. assert (x ∈ rest after) as (? & ? & _)%rest_elem.
    { rewrite <-(take_drop (Z.to_nat n) (rest after)). apply elem_of_app. by right. }
    split_and!; [done|done|]. by apply (Hlt r x).
Qed.

Lemma walk_rest fuel after : (length (rest after) < fuel)%nat → walk fuel P after n rows = rest after.
Proof.
  revert after. induction fuel as [|fuel IH]; intros after Hf; [lia|]. simpl.
  change (page P after n rows) with (take (Z.to_nat n) (rest after)).
  destruct (last (take _ _)) as [r|] eqn:Hlast.
  - destruct (n <=? _) eqn:Hfull; reflect_bools; rewrite length_take in Hfull.
    + rewrite IH; [by rewrite (rest_after _ _ Hlast), take_drop|].
      rewrite (rest_after _ _ Hlast), length_drop. lia.
    + apply take_ge. lia.
  - apply last_None in Hlast. assert (length (take (Z.to_nat n) (rest after)) = 0%nat) as H0 by by rewrite Hlast.
    rewrite length_take in H0. destruct (rest after); [by rewrite take_nil|]. simpl in H0. lia.
Qed.
End walk.

(** ** The global sweep *)

Definition job_table (db : DB) : gmap (string * string) Job := list_to_map (all_jobs db).
Lemma job_table_lookup db p k j :
  job_table db !! (p, k) = Some j ↔ ∃ row, db_personas db !! p = Some row ∧ ps_jobs row !! k = Some j.
Proof.
  unfold job_table. rewrite <-elem_of_list_to_map by apply all_jobs_keys. apply all_jobs_elem.
Qed.
Lemma job_table_set db p row row' k j :
  db_personas db !! p = Some row → ps_jobs row' = <[k := j]> (ps_jobs row) →
  job_table (db <| db_personas := <[p := row']> (db_personas db) |>) = <[(p, k) := j]> (job_table db).
Proof.
  intros Hp Hj. apply map_eq. intros [q x]. apply option_eq. intros y.
  rewrite job_table_lookup, lookup_insert_Some, job_table_lookup. simpl.
  setoid_rewrite lookup_insert_Some. split.
  - intros (r & [[<- <-]|[Hq Hr]] & Hx); [|right; split; [naive_solver|eauto]].
    rewrite Hj, lookup_insert_Some in Hx. destruct Hx as [[<- <-]|[Hk Hx]]; [by left|].
    right. split; [naive_solver|eauto].
  - intros [[[= <- <-] <-]|[Hne (r & Hr & Hx)]].
    + exists row'. split; [by left|]. by rewrite Hj, lookup_insert_eq.
    + destruct (decide (p = q)) as [<-|Hq]; [|eauto]. exists row'. split; [by left|].
      rewrite Hp in Hr. injection Hr as <-. rewrite Hj, lookup_insert_ne; [done|naive_solver].
Qed.

Section sweep.
Context `{GL : !GoLib}.

Lemma sweep_row_ok now r db u db' :
  job_table db !! r.1 = Some r.2 → j_id r.2 = r.1.2 → claim_expired now r.2 = true →
  sweep_row now r db = Ok (u, db') →
  db_evolves db db' ∧ job_table db' = <[r.1 := notified now (lose now r.2)]> (job_table db).
Proof.
  destruct r as [[p k] j]. simpl. intros (row & Hp & Hj)%job_table_lookup Hid Hc H.
  apply with_persona_ok in H as (row0 & row' & Hp0 & H & ->). simpl in Hp0. rewrite Hp in Hp0.
  injection Hp0 as <-. split.
  - apply (row_db_evolves db p row); [done|]. unfold sweep_job in H. inv_tx.
    match goal with Hno : notifyJobTerminalTx _ _ _ = _ |- _ =>
      eapply notify_end in Hno as (Hev%beside_evolves & _); [done|done| |done|by split] end.
    simpl. apply andb_true_iff in Hc as [Hc _]. by apply live_not_terminal.
  - apply (job_table_set db p row); [done|]. by apply (sweep_sets now (k, j) row u).
Qed.

Lemma expired_page_elem now kinds n db r :
  r ∈ expired_page now kinds n db →
  job_table db !! r.1 = Some r.2 ∧ claim_expired now r.2 = true ∧ j_kind r.2 ∈ kinds.
Proof.
  intros [[Hc Hk] Hr]%take_sorted_spec. split_and!; [|done|done].
  destruct r as [[p k] j]. by apply job_table_lookup, all_jobs_elem.
Qed.
Lemma expired_page_keys now kinds n db : NoDup (expired_page now kinds n db).*1.
Proof.
  eapply sublist_NoDup; [|apply fmap_sublist, sublist_take].
  rewrite merge_sort_Permutation. apply NoDup_fmap_keep, all_jobs_keys.
Qed.
#[local] Instance expiry_le_total : Total expiry_le.
Proof.
  intros a b. unfold expiry_le. destruct (row_le_total a b); destruct (decide (expiry a.2 < expiry b.2));
    destruct (decide (expiry b.2 < expiry a.2)); first [by left; left|by right; left|left; right; split; [lia|done]
    |right; right; split; [lia|done]].
Qed.
#[local] Instance expiry_le_trans : Transitive expiry_le.
Proof.
  intros a b c [H1|[H1 K1]] [H2|[H2 K2]]; [left; lia..|right]. split; [lia|by etrans].
Qed.
(** A page takes what expired first. *)
Lemma expired_first now kinds n db x j r :
  r ∈ expired_page now kinds n db → job_table db !! x = Some j → claim_expired now j = true →
  j_kind j ∈ kinds → (x, j) ∉ expired_page now kinds n db → expiry r.2 ≤ expiry j.
Proof.
  intros Hr Hx Hc Hk Hno. unfold expired_page in *.
  set (l := merge_sort expiry_le (filter _ (all_jobs db))) in *.
  assert ((x, j) ∈ l) as Hin.
  { unfold l. rewrite merge_sort_Permutation. apply list_elem_of_filter. split; [done|].
    destruct x as [p k]. by apply all_jobs_elem, job_table_lookup. }
  assert (StronglySorted expiry_le l) as Hs by (apply StronglySorted_merge_sort; apply _).
  rewrite <-(take_drop (Z.to_nat n) l) in Hin, Hs. apply elem_of_app in Hin as [?|Hin]; [done|].
  apply StronglySorted_app in Hs as (Hlt & _). destruct (Hlt _ _ Hr Hin) as [?|[? _]]; simpl in *; lia.
Qed.
Lemma table_ids db r : db_inv db → job_table db !! r.1 = Some r.2 → j_id r.2 = r.1.2.
Proof.
  destruct r as [[p k] j]. simpl. intros HI (row & Hp & Hj)%job_table_lookup.
  by apply (ri_jobs _ (HI p row Hp)).
Qed.

Lemma sweep_page_evolves now kinds n db u db' :
  for_each (expired_page now kinds n db) (sweep_row now) db = Ok (u, db') → db_evolves db db'.
Proof.
  intros H HI. generalize HI. change (db_evolves db db').
  eapply (steps_distinct job_table db_evolves); [apply expired_page_keys| | |exact H].
  - intros r Hr. by apply expired_page_elem in Hr as [].
  - intros r s u1 s1 Hr Hs Hbody. apply expired_page_elem in Hr as (Ht & Hc & _).
    destruct (sweep_row_ok now r s u1 s1 Hs (table_ids _ _ HI Ht) Hc Hbody) as [He Hset].
    split; [done|]. intros k Hk. by rewrite Hset, lookup_insert_ne.
Qed.
Lemma sweep_page_sets now kinds n db u db' :
  db_inv db → for_each (expired_page now kinds n db) (sweep_row now) db = Ok (u, db') →
  (∀ r, r ∈ expired_page now kinds n db → job_table db' !! r.1 = Some (notified now (lose now r.2))) ∧
  (∀ k, k ∉ (expired_page now kinds n db).*1 → job_table db' !! k = job_table db !! k).
Proof.
  intros HI H.
  apply (for_each_sets job_table (expired_page now kinds n db) (sweep_row now)
           (λ r, notified now (lose now r.2)) db u db'); [apply expired_page_keys| | |exact H].
  - intros r Hr. by apply expired_page_elem in Hr as [].
  - intros r s u1 s1 Hr Hs Hbody. apply expired_page_elem in Hr as (Ht & Hc & _).
    by apply (sweep_row_ok now r s u1 s1 Hs (table_ids _ _ HI Ht) Hc Hbody).
Qed.

Lemma SweepExpiredJobs_evolves now kinds limit : steps db_evolves (SweepExpiredJobs now kinds limit).
Proof.
  intros db a db' H. unfold SweepExpiredJobs in H. inv_tx. by eapply sweep_page_evolves.
Qed.
End sweep.
