(* ===== verification/ScheduleFacts.v ===== *)
(** * Schedules keep the invariant

    Setting a schedule and dispatching due ones move a persona along
    [evolves]: the wake input of a schedule is admitted exactly when it
    fires. *)

From Stdlib Require Import ZArith Lia.
From stdpp Require Import sorting.
From S2P Require Import Prelude Json State Personas Inputs Journal Plans Usage Approvals Jobs.
From S2P Require Import Schedules Operations Machine History Ledger Invariant.
Local Open Scope string_scope.
Local Open Scope list_scope.
Local Open Scope Z_scope.

Lemma schedule_new_evolves row x s :
  ps_schedules row !! x = None → sc_status s = SchPending →
  evolves row (row <| ps_schedules ::= <[x := s]> |>).
Proof.
  intros Hx Hs [H1 H2 H3 H4 H5 H6 H7 H8 H9 H10 H11 H12 H13]. split.
  - split; try done.
    + eapply journal_inv_frame; [|done]. split; simpl; try done. intros t y Hy. eauto.
    + simpl. apply map_Forall_insert_2; [by left|done].
    + intros y. rewrite (H10 y). unfold schedule_fired. simpl. rewrite lookup_insert.
      case_decide as Hxy; [|done]. subst y. rewrite Hx.
      split; [naive_solver|]. intros (s' & [= <-] & ?). congruence.
  - solve_hist. apply (table_hist_insert schedule_hist). intros s' Hs'. congruence.
Qed.

Lemma set_schedule_beside `{GL : !GoLib} now x w payload policy :
  steps beside (set_schedule now x w payload policy).
Proof.
  intros row s row' H. unfold set_schedule in H. repeat case_match; simplify_eq; try done.
  split; [done..|]. intros O A. by apply (schedule_new_evolves (swap O A row)).
Qed.

(** A schedule fires and its wake is admitted. *)
Lemma schedule_fire_evolves row x s s' i :
  ps_schedules row !! x = Some s → sc_status s = SchPending →
  sc_wake_at s' = sc_wake_at s → sc_payload s' = sc_payload s → sc_status s' = SchFired →
  ps_inputs row !! (schedInputPrefix +:+ x) = None → view i = queued_view →
  in_received_seq i = None →
  evolves row (admitted (schedInputPrefix +:+ x) i row <| ps_schedules ::= <[x := s']> |>).
Proof.
  intros Hs Hp Hw Hpay Hf Hk Hq Hrec HI.
  assert (∀ y, schedule_fired (<[x := s']> (ps_schedules row)) y
               ↔ schedule_fired (ps_schedules row) y ∨ y = x) as Hfired.
  { intros y. unfold schedule_fired. destruct (decide (y = x)) as [->|Hne].
    - rewrite lookup_insert_eq. naive_solver.
    - rewrite lookup_insert_ne by done. naive_solver. }
  pose proof HI as [H1 H2 H3 H4 H5 H6 H7 H8 H9 H10 H11 H12 H13]. split.
  - split; try done; simpl.
    + eapply journal_inv_frame; [|done].
      destruct (admitted_journal row _ i Hk Hrec) as [? ? ?]. by split.
    + by apply (admitted_machine row _ i).
    + by apply (admitted_waiting row _ i).
    + by apply (admitted_terminal row _ i).
    + change (views _) with (views (admitted (schedInputPrefix +:+ x) i row)).
      rewrite admitted_views by done. by apply slot_inv_add.
    + apply map_Forall_insert_2; [by right|done].
    + change (views _) with (views (admitted (schedInputPrefix +:+ x) i row)).
      rewrite admitted_views by done. by eapply slot_inv_fill.
    + keep_terms row.
  - solve_hist.
    + apply (table_hist_insert input_hist). intros y Hy. congruence.
    + apply (table_hist_insert schedule_hist). intros y Hy. rewrite Hs in Hy. injection Hy as <-.
      split; [done|done|]. congruence.
Qed.

Lemma due_spec now hint s :
  due now hint s = true ↔ sc_status s = SchPending ∧ sc_wake_at s ≤ now ∧ sc_wake_at s ≤ hint.
Proof.
  unfold due. rewrite andb_true_iff, bool_decide_eq_true, Z.leb_le.
  split; [intros [? ?]; split_and!; [done|lia..]|intros (? & ? & ?); split; [done|lia]].
Qed.

(** One due schedule: it fires, and under the invariant its wake is new. *)
Lemma fire_schedule_ok now g x s row u row' :
  ps_schedules row !! x = Some s → sc_status s = SchPending →
  fire_schedule now g (x, s) row = Ok (u, row') →
  evolves row row' ∧ (∀ k, k ≠ x → ps_schedules row' !! k = ps_schedules row !! k) ∧
  (row_inv row → row' = admitted (schedInputPrefix +:+ x)
     (wake_input now x s (ps_next_admission row)) row
     <| ps_schedules ::= <[x := fire now g s]> |>).
Proof.
  intros Hs Hp H. unfold fire_schedule, enqueue_wake in H. cbn [fst snd] in H.
  apply bind_ok in H as (u1 & row1 & H & [= _ Hmod]).
  apply bind_ok in H as (fresh & row2 & Hins & H).
  pose proof (insert_input_ok _ _ _ _ Hins) as Hcase. simpl in Hcase.
  assert (ps_schedules row1 = ps_schedules row ∧ (row_inv row → fresh = true)) as [Hsch Hfresh].
  { destruct Hcase as [(-> & _ & ->)|(-> & [i Hi] & ->)].
    - by injection H as _ <-.
    - split; [by inv_tx|]. intros HI.
      destruct (proj1 (ri_schedule_slots _ HI x)) as (s' & Hs' & ?); [|congruence].
      exists (view i). apply views_lookup. eauto. }
  assert (row_inv row → row'
    = admitted (schedInputPrefix +:+ x) (wake_input now x s (ps_next_admission row)) row
        <| ps_schedules ::= <[x := fire now g s]> |>) as Hrow.
  { intros HI. rewrite (Hfresh HI) in *. destruct Hcase as [(_ & _ & ->)|(? & _)]; [|done].
    injection H as _ <-. rewrite <-Hmod. simpl. by rewrite (alter_found _ _ _ s Hs). }
  split_and!; [|intros k Hk; rewrite <-Hmod; simpl; by rewrite Hsch, lookup_alter_ne|done].
  intros HI. rewrite (Hrow HI). rewrite (Hfresh HI) in Hcase.
  destruct Hcase as [(_ & Hk & _)|(? & _)]; [|done].
  by apply (schedule_fire_evolves row x s).
Qed.

Lemma dispatch_tx_evolves now g hint limit : steps evolves (dispatch_tx now g hint limit).
Proof.
  intros row r row' H. unfold dispatch_tx in H.
  apply bind_ok in H as (ids & s & [= <- <-] & H). apply bind_ok in H as (u & s1 & H & [= _ <-]).
  unfold due_schedules in H. eapply (steps_distinct ps_schedules evolves); [..|exact H].
  - apply take_sorted_distinct.
  - intros [k s] [_ Hk%elem_of_map_to_list]%take_sorted_spec. done.
  - intros [k s] r0 u1 s2 [Hd _]%take_sorted_spec Hs Hf. simpl in *.
    apply due_spec in Hd as (Hp & _ & _).
    by destruct (fire_schedule_ok _ _ _ _ _ _ _ Hs Hp Hf) as (? & ? & _).
Qed.
