(* ===== verification/EffectFacts.v ===== *)
(** * The effects of tools keep the invariant

    What the core relies on about the effects it does not implement
    ([EffectFrame]), and that every tool's effect, built in or delegated, is
    a step beside the operation ledger. *)

From Stdlib Require Import ZArith Lia.
From S2P Require Import Prelude Json TerminalState MemoryState MemoryShape State Personas Inputs Journal Plans Usage Approvals Jobs.
From S2P Require Import Turns Schedules Operations Machine History Ledger Invariant JobFacts.
From S2P Require Import ScheduleFacts.
Local Open Scope string_scope.
Local Open Scope list_scope.
Local Open Scope Z_scope.

(** An effect may admit new inputs, queue jobs and work on memory, on
    terminal sessions and on jobs as their own contracts allow; every other
    core table stays as it is. *)
Record effect_frame (row row' : PersonaRow) : Prop := {
  ef_rest : row' = row <| ps_inputs := ps_inputs row' |> <| ps_chunks := ps_chunks row' |>
                       <| ps_branches := ps_branches row' |> <| ps_terms := ps_terms row' |>
                       <| ps_jobs := ps_jobs row' |>
                       <| ps_next_admission := ps_next_admission row' |>;
  ef_inputs : ps_inputs row ⊆ ps_inputs row';
  ef_new : ∀ k i, ps_inputs row' !! k = Some i → ps_inputs row !! k = None →
    view i = queued_view ∧ in_received_seq i = None ∧ reserved_input_id k = false;
  ef_terms : terms_ok row → terms_ok row';
  ef_terms_hist : table_hist term_hist (ps_terms row) (ps_terms row');
  ef_memory : numbered ev_seq (ps_events row) → memory_ok row →
    memory_ok row' ∧ mem_hist (ps_chunks row) (ps_chunks row');
  ef_jobs : jobs_frame (ps_jobs row) (ps_jobs row')
}.

#[export] Instance effect_frame_preorder : PreOrder effect_frame.
Proof.
  split.
  - intros row. split; [by destruct row|done|congruence|done|done|done|done].
  - intros r1 r2 r3 [Hr Hi Hn Ht Hh Hm Hjobs] [Kr Ki Kn Kt Kh Km Kjobs]. split.
    + rewrite Kr, Hr. by destruct r1.
    + by etrans.
    + intros k i Hk Hnone. destruct (ps_inputs r2 !! k) as [j|] eqn:Hj; [|by eapply Kn].
      destruct (Hn k j Hj Hnone) as (? & ? & ?).
      pose proof (lookup_weaken _ _ _ _ Hj Ki) as Hk'. rewrite Hk in Hk'. by injection Hk' as ->.
    + auto.
    + by etrans.
    + intros Hnum Hok. destruct (Hm Hnum Hok) as [Hok2 Hh2].
      destruct Km as [Hok3 Hh3]; [by rewrite Hr|done|]. split; [done|by etrans].
    + by etrans.
Qed.

(** What the browser and connection tools insert. *)
Lemma queued_job_frame row x j :
  ps_jobs row !! x = None → j_id j = x → j_status j = JobQueued → j_claimed_by j = None →
  j_notified_at j = None → effect_frame row (row <| ps_jobs ::= <[x := j]> |>).
Proof.
  intros Hx Hid Hs Hc Hn. split; [by destruct row|done|simpl; congruence|done|done|done|]. split.
  - apply (table_hist_insert job_work). intros y Hy. congruence.
  - intros y k Hk Hy. simpl in Hk. destruct (decide (x = y)) as [<-|Hne].
    + rewrite lookup_insert_eq in Hk. injection Hk as <-. rewrite Hs. split; [|done].
      split; [done|rewrite Hn, Hs; by split; [intros []|]|by rewrite Hs|done].
    + rewrite lookup_insert_ne in Hk by done. congruence.
Qed.
(** What the browser's host does to one of them. *)
Lemma claimed_job_frame row x j who expires now :
  ps_jobs row !! x = Some j → j_status j = JobQueued → j_claimed_by j = None →
  effect_frame row (row <| ps_jobs ::= <[x := j <| j_status := JobRunning |>
    <| j_claimed_by := Some who |> <| j_claim_expires_at := expires |>
    <| j_started_at := Some now |>]> |>).
Proof.
  intros Hx Hs Hc. split; [by destruct row|done|simpl; congruence|done|done|done|]. split.
  - apply (table_hist_insert job_work). intros y Hy. rewrite Hx in Hy. injection Hy as <-. split.
    + split; try done; simpl; [by rewrite Hc|by rewrite Hs].
    + simpl. by rewrite Hs.
    + intros k [K1 K2 K3 K4]. split; simpl; try done. by rewrite K2, Hs.
  - intros y k Hk Hy. simpl in Hk. destruct (decide (x = y)) as [<-|Hne]; [congruence|].
    rewrite lookup_insert_ne in Hk by done. congruence.
Qed.

Class EffectFrame (tl : Tools) : Prop := {
  frame_effects : ∀ tool e p key r row,
    tl_effects tl !! tool = Some e → effect_frame row (te_apply e p key r row).1;
  frame_terminal : ∀ now p tool r row, effect_frame row (tl_terminal tl now p tool r row).1;
  frame_memory : ∀ now p r row, effect_frame row (tl_memory_resume tl now p r row).1
}.

Lemma admissions_evolves row (N : gmap string Input) :
  (∀ k i, N !! k = Some i → ps_inputs row !! k = None →
     view i = queued_view ∧ in_received_seq i = None ∧ reserved_input_id k = false) →
  evolves row (row <| ps_inputs ::= λ I, I ∪ N |>).
Proof.
  induction N as [|k i N Hk IH] using map_ind; intros HN.
  - simpl. rewrite map_union_empty. by destruct row.
  - etrans; [apply IH; intros j x Hj Hnone; apply (HN j); [|done]|].
    { rewrite lookup_insert_ne; [done|]. intros ->. congruence. }
    destruct (ps_inputs row !! k) as [y|] eqn:Hy.
    + simpl. assert (ps_inputs row ∪ <[k := i]> N = ps_inputs row ∪ N) as ->; [|done].
      apply map_eq. intros j. rewrite !lookup_union. destruct (decide (k = j)) as [<-|].
      * by rewrite Hy, lookup_insert_eq, Hk.
      * by rewrite lookup_insert_ne.
    + destruct (HN k i) as (Hv & Hr & Hres); [by rewrite lookup_insert_eq|done|].
      etrans; [apply (admitted_evolves _ k i); try done|].
      * simpl. rewrite lookup_union, Hy, Hk. done.
      * intros x. by apply not_reserved_slot.
      * unfold admitted. simpl. rewrite <-insert_union_r by done.
        by apply side_evolves.
Qed.

Lemma effect_frame_beside row row' : effect_frame row row' → beside row row'.
Proof.
  intros [Hr Hi Hn Ht Hh Hm Hj]. split; [by rewrite Hr..|]. intros O A HI.
  pose proof (Ht (ri_terms _ HI)) as Hterms.
  destruct (Hm (ji_numbered _ (ri_journal _ HI)) (ri_memory _ HI)) as [Hmem Hmh]. revert HI.
  change (evolves (swap O A row) (swap O A row')).
  etrans; [apply (admissions_evolves (swap O A row) (ps_inputs row'))|].
  - intros k i Hk Hnone. by apply Hn.
  - etrans; [by apply (jobs_frame_evolves _ (ps_jobs row'))|].
    apply side_evolves; try (rewrite Hr; done); try done.
    simpl. symmetry. by apply map_subseteq_union.
Qed.

Section effects.
Context `{GL : !GoLib} (tl : Tools) `{!EffectFrame tl}.

(** The turn a tool's records are journaled under is of the input's
    lineage. *)
Definition in_turn (t i : string) (row : PersonaRow) : Prop :=
  ∃ x, ps_turns row !! t = Some x ∧ tu_input_id x = i.

Lemma in_turn_beside t i row row' : beside row row' → in_turn t i row → in_turn t i row'.
Proof. intros [_ _ HT _ _ _]. unfold in_turn. by rewrite HT. Qed.

Lemma journalExperienceTx_beside now t i es row u row' :
  in_turn t i row → omap erec es = [] →
  journalExperienceTx now t i es row = Ok (u, row') → beside row row'.
Proof.
  intros (x & Hx & <-) He H. apply journals_beside.
  - by eapply journalExperienceTx_journals.
  - by eapply journalExperienceTx_inv.
Qed.

Lemma journalOutcomeTx_beside now t i c op a row u row' :
  in_turn t i row → journalOutcomeTx now t i c op a row = Ok (u, row') → beside row row'.
Proof.
  intros (x & Hx & <-) H. apply journals_beside.
  - by eapply journalOutcomeTx_journals.
  - by eapply journalOutcomeTx_inv.
Qed.

Lemma tool_journal_note_beside now t i r row a row' :
  in_turn t i row → tool_journal_note now t i r row = Ok (a, row') → beside row row'.
Proof.
  intros (x & Hx & Hi) H. unfold tool_journal_note, map_err in H. inv_tx.
  match goal with He : ensureInputReceived _ _ _ _ = _ |- _ =>
    pose proof (ensureInputReceived_journals _ _ _ _ _ _ He) as Hjo;
    pose proof (ensureInputReceived_inv _ _ _ _ _ _ He) as Hinv end.
  etrans; [by apply journals_beside|]. apply journals_beside.
  - eapply appendEventsTx_journals. eassumption.
  - intros HJ. destruct (journals_lineage _ _ Hjo _ _ Hx) as (x' & Hx' & _).
    match goal with Ha : appendEventsTx _ _ _ _ = Ok _ |- _ =>
      refine (append_unkeyed_inv _ _ _ _ _ _ _ HJ Hx' _ _ Ha) end; [reflexivity|].
    unfold omap, list_omap. rewrite ekey_other by done. reflexivity.
Qed.

Lemma message_sent_evolves now n payload row :
  n = max_seq ob_seq (ps_outbox row) + 1 →
  evolves row (row <| ps_outbox ::= λ O, O ++ [mkOutbox n "secretary_message" payload now None] |>).
Proof.
  intros Hn [H1 H2 H3 H4 H5 H6 H7 H8 H9 H10 H11 H12 H13]. split.
  - split; try done.
    + eapply journal_inv_frame; [|done]. split; simpl; try done. intros t y Hy. eauto.
    + simpl. apply numbered_snoc. split; [done|]. rewrite Hn, numbered_max by done.
      simpl. lia.
    + unfold terminals. simpl. rewrite omap_app. csimpl. by rewrite app_nil_r.
  - solve_hist. by apply prefix_app_r.
Qed.

Lemma tool_message_send_beside now t r : steps beside (tool_message_send now t r).
Proof.
  intros row a row' H. unfold tool_message_send, map_err in H. inv_tx.
  unfold append_outbox in *. destruct (jsonb_ok _); [|done]. simplify_eq.
  split; [done..|]. intros O A. match goal with |- evolves ?r _ => by apply (message_sent_evolves _ _ _ r) end.
Qed.

Lemma tool_schedule_set_beside now nanos p r : steps beside (tool_schedule_set now nanos p r).
Proof.
  intros row a row' H. unfold tool_schedule_set in H. inv_tx.
  by eapply set_schedule_beside.
Qed.

Lemma commit_beside {A} (m : ptx A) row :
  (∀ a row', m row = Ok (a, row') → beside row row') → beside row (commit m row).1.
Proof. intros H. unfold commit. destruct (m row) as [[a row']|e]; [by eapply H|done]. Qed.

Lemma some_resp_state (c : call err PersonaRow obj) row : (some_resp c row).1 = (c row).1.
Proof. unfold some_resp, then_call. by destruct (c row) as [? []]. Qed.

(** Every tool, whatever it answers. *)
Lemma internalToolResponse_beside now nanos p t i tool n key r row :
  in_turn t i row → ids_ok row →
  beside row (internalToolResponse tl now nanos p t i tool n key r row).1.
Proof.
  intros Hin Hids. unfold internalToolResponse. repeat case_match;
    rewrite ?some_resp_state; try done.
  - apply commit_beside. intros a row' H'. by eapply internalJobTool_beside.
  - apply effect_frame_beside, frame_terminal.
  - apply commit_beside. intros a row' H'. by eapply tool_schedule_set_beside.
  - apply effect_frame_beside, frame_memory.
  - apply commit_beside. intros a row' H'. by eapply tool_journal_note_beside.
  - apply commit_beside. intros a row' H'. by eapply tool_message_send_beside.
  - by eapply effect_frame_beside, frame_effects.
Qed.
End effects.
