(* ===== verification/TerminalFacts.v ===== *)
(** * Terminal sessions keep their contract

    Each operation of [Terminals.v] preserves what holds of every session
    ([term_ok]) and moves it only along [term_hist]; seen from the core it
    stays within [effect_frame], so the terminal tools discharge what
    [EffectFrame] asks of them. *)

From Stdlib Require Import ZArith Lia.
From S2P Require Import Prelude Json TerminalState MemoryState State Personas Inputs Journal Plans Usage.
From S2P Require Import Approvals Jobs Terminals Turns Schedules Operations Machine History Ledger.
From S2P Require Import Invariant EffectFacts.
Local Open Scope string_scope.
Local Open Scope list_scope.
Local Open Scope Z_scope.

(** ** The ledger *)

Lemma ledger_map (f : TerminalInput → TerminalInput) l :
  (∀ i, i ∈ l → tinput_hist i (f i)) → ledger_grows l (map f l).
Proof.
  intros H. exists (map f l), []. split; [by rewrite app_nil_r|].
  apply Forall2_fmap_r, Forall_Forall2_diag, Forall_forall. exact H.
Qed.

Lemma ledger_snoc l i : ledger_grows l (l ++ [i]).
Proof. exists l, [i]. split; [done|]. reflexivity. Qed.

Lemma numbered_map (f : TerminalInput → TerminalInput) l :
  (∀ i, ti_seq (f i) = ti_seq i) → numbered ti_seq l → numbered ti_seq (map f l).
Proof.
  unfold numbered. intros Hf H. rewrite length_map. rewrite <-H.
  clear H. induction l as [|i l IH]; [done|]. simpl. rewrite Hf. f_equal. exact IH.
Qed.

Lemma open_not_over i : tinput_open (ti_status i) = false → ti_status i ≠ TiIntended.
Proof. intros H E. by rewrite E in H. Qed.

(** Changing rows of the ledger and nothing else of the session. *)
Lemma ledger_change_ok f t :
  (∀ i, i ∈ tm_inputs t → tinput_hist i (f i) ∧ ti_epoch (f i) = ti_epoch i
        ∧ (tinput_open (ti_status (f i)) = true → tinput_open (ti_status i) = true)) →
  (∀ i, ti_seq (f i) = ti_seq i) →
  term_ok t → term_ok (t <| tm_inputs ::= map f |>).
Proof.
  intros Hf Hs [H1 H2 H3 H4 H5 H6]. split; simpl; try done; [by apply numbered_map|].
  apply Forall_map, Forall_forall. intros i Hi. rewrite Forall_forall in H6.
  destruct (H6 i Hi) as [He Ho], (Hf i Hi) as (_ & Hep & Hop).
  split; [lia|]. intros Hopen. destruct (Ho (Hop Hopen)). split; [congruence|done].
Qed.
Lemma ledger_change_hist f t :
  term_over (ts_status (tm_session t)) = false →
  (∀ i, i ∈ tm_inputs t → tinput_hist i (f i)) → term_hist t (t <| tm_inputs ::= map f |>).
Proof.
  intros Ho Hf. split; simpl; try done; [by rewrite Ho|]. by apply ledger_map.
Qed.

(** ** One session *)

(** Rewriting the session row and leaving its ledger and output alone. *)
Lemma session_change_ok f t :
  ts_epoch (f (tm_session t)) = ts_epoch (tm_session t) →
  ts_output_bytes (f (tm_session t)) = ts_output_bytes (tm_session t) →
  ts_output_base (f (tm_session t)) = ts_output_base (tm_session t) →
  (claim_ok (tm_session t) → claim_ok (f (tm_session t))) →
  term_over (ts_status (f (tm_session t))) = false →
  term_ok t → term_ok (set_session f t).
Proof.
  intros He Hy Hb Hc Ho [H1 H2 H3 H4 H5 H6].
  split; simpl; [auto|by rewrite He|by rewrite Hy, Hb|by rewrite Ho|done|].
  eapply Forall_impl; [exact H6|]. intros i [Hi Hop]. split; [by rewrite He|].
  intros Hopen. destruct (Hop Hopen) as [-> _]. by rewrite He, Ho.
Qed.
Lemma session_change_hist f t :
  let s := tm_session t in
  term_over (ts_status s) = false →
  ts_id (f s) = ts_id s ∧ ts_name (f s) = ts_name s ∧ ts_backend (f s) = ts_backend s
    ∧ ts_created_at (f s) = ts_created_at s →
  ts_epoch (f s) = ts_epoch s → ts_output_bytes (f s) = ts_output_bytes s →
  ts_output_base (f s) = ts_output_base s →
  (term_closing (ts_status s) = true → term_closing (ts_status (f s)) = true) →
  term_hist t (set_session f t).
Proof.
  intros s Ho Hid He Hy Hb Hc. subst s.
  split; simpl; try done; try lia; try congruence; reflexivity.
Qed.

Lemma submit_term_ok t i :
  ti_seq i = max_seq ti_seq (tm_inputs t) + 1 → ti_epoch i = ts_epoch (tm_session t) →
  term_over (ts_status (tm_session t)) = false →
  term_ok t → term_ok (t <| tm_inputs ::= λ l, l ++ [i] |>).
Proof.
  intros Hs He Ho [H1 H2 H3 H4 H5 H6]. split; simpl; try done.
  - apply numbered_snoc. split; [done|]. rewrite Hs, numbered_max by done. simpl. lia.
  - apply Forall_app. split; [done|]. constructor; [|constructor]. split; [lia|]. by intros _.
Qed.
Lemma submit_term_hist t i :
  term_over (ts_status (tm_session t)) = false →
  term_hist t (t <| tm_inputs ::= λ l, l ++ [i] |>).
Proof. intros Ho. split; simpl; try done; [by rewrite Ho|]. apply ledger_snoc. Qed.

(** *** Ending *)

Lemma end_input_hist now i : tinput_hist i (end_input now i).
Proof.
  unfold end_input. destruct (ti_status i) eqn:Hs; try reflexivity; split; simpl; try done;
    rewrite Hs; done.
Qed.
Lemma end_input_closed now i : tinput_open (ti_status (end_input now i)) = false.
Proof. unfold end_input. by destruct (ti_status i) eqn:Hs; simpl; rewrite ?Hs. Qed.
Lemma end_input_epoch now i : ti_epoch (end_input now i) = ti_epoch i.
Proof. unfold end_input. by destruct (ti_status i). Qed.

Lemma end_term_ok now st reason code sig t :
  st = TsEnded ∨ st = TsLost → term_ok t → term_ok (end_term now st reason code sig t).
Proof.
  intros Hst [H1 H2 H3 H4 H5 H6]. split; simpl; try done.
  - by destruct Hst as [->| ->].
  - apply numbered_map; [|done]. intros i. unfold end_input. by destruct (ti_status i).
  - apply Forall_map, Forall_forall. intros i Hi. rewrite Forall_forall in H6.
    destruct (H6 i Hi) as [He _]. split; [by rewrite end_input_epoch|].
    by rewrite end_input_closed.
Qed.
Lemma end_term_hist now st reason code sig t :
  st = TsEnded ∨ st = TsLost → term_over (ts_status (tm_session t)) = false →
  term_hist t (end_term now st reason code sig t).
Proof.
  intros Hst Ho. split; simpl; try done.
  - intros _. by destruct Hst as [->| ->].
  - congruence.
  - apply ledger_map. intros i _. apply end_input_hist.
Qed.

(** *** Sweeping and claiming *)

Lemma sweep_term_ok now b t : term_ok t → term_ok (sweep_term now b t).
Proof.
  unfold sweep_term. destruct (claim_lapsed now b (tm_session t)) eqn:Hl; [|done].
  unfold claim_lapsed in Hl. reflect_bools. apply session_change_ok; try done.
  - intros _. unfold claim_ok. simpl.
    destruct (bool_decide (ts_status (tm_session t) = TsEnding)); simpl; [|done].
    split; intros [? [=]].
  - simpl. by destruct (bool_decide (ts_status (tm_session t) = TsEnding)).
Qed.
Lemma sweep_term_hist now b t : term_hist t (sweep_term now b t).
Proof.
  unfold sweep_term. destruct (claim_lapsed now b (tm_session t)) eqn:Hl; [|reflexivity].
  unfold claim_lapsed in Hl. reflect_bools. apply session_change_hist; try done.
  - by destruct (ts_status (tm_session t)).
  - simpl. by destruct (ts_status (tm_session t)).
Qed.
Lemma sweep_term_over now b t :
  term_over (ts_status (tm_session (sweep_term now b t))) = term_over (ts_status (tm_session t)).
Proof.
  unfold sweep_term. destruct (claim_lapsed now b (tm_session t)) eqn:Hl; [|done].
  unfold claim_lapsed in Hl. reflect_bools. simpl. by destruct (ts_status (tm_session t)).
Qed.

Lemma claimable_live r s : session_claimable r s = true → term_over (ts_status s) = false.
Proof.
  unfold session_claimable. intros H. destruct (ts_status s); try done;
    rewrite ?bool_decide_eq_false_2 in H by naive_solver; simpl in H;
    destruct (ts_claimed_by s); simpl in H; rewrite ?andb_false_r in H; done.
Qed.

Lemma claim_tinput_hist now e i : tinput_hist i (claim_tinput now e i).
Proof.
  unfold claim_tinput. destruct (ti_epoch i <? e) eqn:He; [|reflexivity]. reflect_bools.
  destruct (ti_status i) eqn:Hs; try reflexivity; split; simpl; try done; try lia; rewrite Hs; done.
Qed.
Lemma claim_tinput_ok now t r lease i :
  tinput_ok (tm_session t) i → session_claimable r (tm_session t) = true →
  tinput_ok (claim_session now r lease (tm_session t))
    (claim_tinput now (ts_epoch (tm_session t) + 1) i).
Proof.
  intros [He Ho] Hc%claimable_live. unfold claim_tinput.
  destruct (ti_epoch i <? ts_epoch (tm_session t) + 1) eqn:Hlt; reflect_bools; [|lia].
  assert (term_over (if bool_decide (ts_status (tm_session t) = TsEnding)
                     then TsEnding else TsClaimed) = false) as Hov by by case_bool_decide.
  destruct (ti_status i) eqn:Hs; split; simpl; rewrite ?Hs, ?Hov; try done; try lia.
Qed.
Lemma claim_term_ok now r lease t :
  session_claimable r (tm_session t) = true → term_ok t → term_ok (claim_term now r lease t).
Proof.
  intros Hc [H1 H2 H3 H4 H5 H6]. split; simpl; try done; try lia.
  - unfold claim_ok. simpl. case_bool_decide; eauto. split; eauto.
  - by case_bool_decide.
  - apply numbered_map; [|done]. intros i. unfold claim_tinput.
    destruct (_ <? _); [|done]. by destruct (ti_status i).
  - apply Forall_map, Forall_forall. intros i Hi. rewrite Forall_forall in H6.
    by apply claim_tinput_ok; [apply H6|].
Qed.
Lemma claim_term_hist now r lease t :
  session_claimable r (tm_session t) = true → term_hist t (claim_term now r lease t).
Proof.
  intros Hc%claimable_live. split; simpl; try done; try lia.
  - by destruct (ts_status (tm_session t)).
  - congruence.
  - apply ledger_map. intros i _. apply claim_tinput_hist.
Qed.
Lemma claim_term_over now r lease t :
  term_over (ts_status (tm_session (claim_term now r lease t))) = false.
Proof. simpl. by case_bool_decide. Qed.

(** ** The frame each operation stays in *)

Lemma put_term_frame row sid t t' :
  ps_terms row !! sid = Some t → (term_ok t → term_ok t') → term_hist t t' →
  (term_over (ts_status (tm_session t')) = true → term_over (ts_status (tm_session t)) = true) →
  effect_frame row (put_term sid t' row).
Proof.
  intros Ht Hok Hh Ho. split; simpl; [by destruct row|done|congruence| | |done|reflexivity].
  - intros HT x u. simpl. intros [[<- <-]|[_ Hu]]%lookup_insert_Some; [|by apply HT].
    destruct (HT _ _ Ht) as (Hid & Hok' & Hs). split_and!; [|by apply Hok|auto].
    destruct (tmh_identity _ _ Hh) as [-> _]. done.
  - apply (table_hist_insert term_hist). intros u Hu. rewrite Ht in Hu. by injection Hu as <-.
Qed.

Lemma lock_ok sid row t row' :
  lockTerminalSessionTx sid row = Ok (t, row') →
  ps_terms row !! sid = Some t ∧ row' = row.
Proof. unfold lockTerminalSessionTx. intros H. by repeat case_match; simplify_eq. Qed.

(** The end of a session and the input that tells of it. *)
Section ending_frame.
Context `{GL : !GoLib}.

Lemma ended_input_view now s n :
  view (terminal_ended_input now s n) = queued_view
  ∧ in_received_seq (terminal_ended_input now s n) = None
  ∧ reserved_input_id (in_id (terminal_ended_input now s n)) = false.
Proof. done. Qed.

Lemma end_frame row sid t now st reason code sig u row' :
  ps_terms row !! sid = Some t → st = TsEnded ∨ st = TsLost →
  term_over (ts_status (tm_session t)) = false →
  endTerminalSessionTx now sid st reason code sig t row = Ok (u, row') → effect_frame row row'.
Proof.
  intros Ht Hst Ho H. unfold endTerminalSessionTx, notifyTerminalEndedTx in H. inv_tx.
  set (t' := end_term now st reason code sig t) in *.
  set (s' := end_session now st reason code sig (tm_session t)) in *.
  match goal with Hi : insert_input _ _ = Ok _ |- _ => apply insert_input_ok in Hi; rename Hi into Hins end.
  set (i := terminal_ended_input now s' (ps_next_admission (put_term sid t' row))) in *.
  assert (ps_inputs row ⊆ ps_inputs row' ∧ is_Some (ps_inputs row' !! in_id i)
          ∧ ps_terms row' = ps_terms (put_term sid t' row)
          ∧ (∀ k j, ps_inputs row' !! k = Some j → ps_inputs row !! k = None → k = in_id i ∧ j = i)
          ∧ row' = row <| ps_inputs := ps_inputs row' |> <| ps_chunks := ps_chunks row' |>
                       <| ps_branches := ps_branches row' |> <| ps_terms := ps_terms row' |>
                       <| ps_jobs := ps_jobs row' |>
                       <| ps_next_admission := ps_next_admission row' |>)
    as (Hsub & Hin & HT & Hnew & Hrest).
  { destruct Hins as [(_ & Hfree & ->)|(_ & Hsome & ->)]; simpl in *; split_and!.
    - by apply insert_subseteq.
    - rewrite lookup_insert_eq. eauto.
    - done.
    - intros k j [[<- <-]|[_ Hj]]%lookup_insert_Some Hn; [done|congruence].
    - by destruct row.
    - done.
    - done.
    - done.
    - congruence.
    - by destruct row. }
  split; [done|done| | | | |].
  - intros k j Hj Hn. destruct (Hnew k j Hj Hn) as [-> ->]. done.
  - intros Hterms x y. rewrite HT. simpl.
    intros [[<- <-]|[_ Hy]]%lookup_insert_Some.
    + destruct (Hterms _ _ Ht) as (Hid & Hok & _). split_and!; [done|by apply end_term_ok|].
      intros _. change (in_id i) with (terminalInputPrefix +:+ ts_id (tm_session t)) in Hin.
      by rewrite Hid in Hin.
    + destruct (Hterms _ _ Hy) as (Hid & Hok & Hs). split_and!; [done|done|].
      intros [j Hj]%Hs. exists j. by eapply lookup_weaken.
  - rewrite HT. simpl. apply (table_hist_insert term_hist). intros y Hy. rewrite Ht in Hy.
    injection Hy as <-. by apply end_term_hist.
  - by destruct Hins as [(_ & _ & ->)|(_ & _ & ->)].
  - by destruct Hins as [(_ & _ & ->)|(_ & _ & ->)].
Qed.
End ending_frame.

(** ** The operations *)

Section operations_frame.
Context `{GL : !GoLib}.

Lemma create_frame cfg now id name rb cb :
  steps effect_frame (createTerminalSessionTx cfg now id name rb cb).
Proof.
  intros row s row' H. unfold createTerminalSessionTx in H. repeat case_match; simplify_eq.
  split; simpl; [by destruct row|done|congruence| | |done|reflexivity].
  - intros HT x u. simpl. intros [[<- <-]|[_ Hu]]%lookup_insert_Some; [|by apply HT].
    split; [done|]. split; [|done]. split; simpl; try done; constructor.
  - apply (table_hist_insert term_hist). intros u Hu. congruence.
Qed.

Lemma submit_frame now id sid src kind payload :
  steps effect_frame (submitTerminalInputTx now id sid src kind payload).
Proof.
  intros row i row' H. unfold submitTerminalInputTx in H.
  apply bind_ok in H as (t & row1 & [Ht ->]%lock_ok & H).
  destruct (input_refused _) as [e|] eqn:Hr; [done|].
  assert (term_over (ts_status (tm_session t)) = false) as Ho
    by by destruct (ts_status (tm_session t)).
  inv_tx. eapply put_term_frame; [exact Ht| | |done].
  - by apply submit_term_ok.
  - by apply submit_term_hist.
Qed.

Lemma control_frame now sid hold lease :
  steps effect_frame (SetTerminalControl_tx now sid hold lease).
Proof.
  intros row s row' H. unfold SetTerminalControl_tx in H.
  apply bind_ok in H as (t & row1 & [Ht ->]%lock_ok & H).
  destruct (term_over (ts_status (tm_session t))) eqn:Ho; [done|]. inv_tx.
  eapply put_term_frame; [exact Ht| | |].
  - by apply session_change_ok; destruct hold.
  - by apply session_change_hist; destruct hold.
  - by destruct hold; simpl; rewrite Ho.
Qed.

Lemma close_frame now sid reason : steps effect_frame (close_tx now sid reason).
Proof.
  intros row s row' H. unfold close_tx in H.
  apply bind_ok in H as (t & row1 & [Ht ->]%lock_ok & H).
  destruct (term_over (ts_status (tm_session t))) eqn:Ho; [by inv_tx|].
  destruct (live_claim now (tm_session t)) eqn:Hl.
  - inv_tx. eapply put_term_frame; [exact Ht| | |done].
    + apply session_change_ok; try done. unfold live_claim, claim_ok in *. reflect_bools. simpl.
      destruct (ts_status (tm_session t)); naive_solver.
    + by apply session_change_hist.
  - destruct (bool_decide (ts_status (tm_session t) = TsRequested)).
    + eapply end_frame; [exact Ht|by left|exact Ho|exact H].
    + inv_tx. eapply put_term_frame; [exact Ht| | |done].
      * apply session_change_ok; try done. intros _. unfold claim_ok. simpl.
        split; intros [? [=]].
      * by apply session_change_hist.
Qed.

Lemma sweep_frame now backend : steps effect_frame (sweepTerminalExpiredTx now backend).
Proof.
  intros row l row' [= _ <-]. split; simpl; [by destruct row|done|congruence| | |done|reflexivity].
  - intros HT x u. simpl. rewrite lookup_fmap. intros (t & Ht & ->)%fmap_Some.
    destruct (HT x t Ht) as (Hid & Hok & Hs). split_and!.
    + destruct (tmh_identity _ _ (sweep_term_hist now backend t)) as [-> _]. done.
    + by apply sweep_term_ok.
    + rewrite sweep_term_over. done.
  - apply (table_hist_fmap term_hist). intros k t _. apply sweep_term_hist.
Qed.

Lemma candidates_frame now r lease cands : steps effect_frame (claim_candidates now r lease cands).
Proof.
  induction cands as [|[sid t0] cands IH]; simpl; [intros row l row' H; by inv_tx|].
  intros row l row' H. inv_tx; try (by eapply IH).
  etrans; [|by eapply IH]. reflect_bools.
  eapply put_term_frame; [done| | |by rewrite claim_term_over].
  - by apply claim_term_ok.
  - by apply claim_term_hist.
Qed.

Lemma claim_frame now r backend lease limit :
  steps effect_frame (claim_terms_tx now r backend lease limit).
Proof.
  intros row l row' H. unfold claim_terms_tx in H. inv_tx; [done|].
  etrans; [by eapply sweep_frame|by eapply candidates_frame].
Qed.

(** *** Behind the fence *)

Lemma holds_claim_live now r e s : holds_claim now r e s = true →
  ts_epoch s = e ∧ default "" (ts_claimed_by s) = r ∧ terminalClaimed (ts_status s) = true
  ∧ is_Some (ts_claim_expires_at s) ∧ term_over (ts_status s) = false.
Proof.
  unfold holds_claim, after_opt. intros H. reflect_bools. split_and!; try done.
  - by destruct (ts_claim_expires_at s).
  - by destruct (ts_status s).
Qed.

Lemma fence_ok {A} now sid r e (fn : Term → ptx A) row a s row' :
  terminalClaimTx now sid r e fn row = Ok ((a, s), row') →
  ∃ t, ps_terms row !! sid = Some t ∧ holds_claim now r e (tm_session t) = true ∧
    fn t row = Ok (a, row').
Proof.
  unfold terminalClaimTx. intros H. apply bind_ok in H as (t & row1 & [Ht ->]%lock_ok & H).
  destruct (negb _) eqn:Hc; [done|]. reflect_bools.
  apply bind_ok in H as (b & row1 & Hfn & H). apply bind_ok in H as (u & row2 & [_ ->]%lock_ok & H).
  inv_tx. eauto.
Qed.

Lemma fence_frame {A} now sid r e (fn : Term → ptx A) :
  (∀ t row a row', ps_terms row !! sid = Some t → holds_claim now r e (tm_session t) = true →
     fn t row = Ok (a, row') → effect_frame row row') →
  steps effect_frame (terminalClaimTx now sid r e fn).
Proof. intros Hfn row [a s] row' (t & Ht & Hc & H)%fence_ok. by eapply Hfn. Qed.

Lemma heartbeat_frame now sid r e lease :
  steps effect_frame (HeartbeatTerminalSession_tx now sid r e lease).
Proof.
  intros row s row' H. unfold HeartbeatTerminalSession_tx in H.
  apply bind_ok in H as ([u s1] & row1 & Hf & H). inv_tx. revert Hf. apply fence_frame.
  intros t row0 [] row1 Ht (He & _ & Hcl & Hex & Ho)%holds_claim_live Hfn.
  case_bool_decide as Hcb; [|done]. inv_tx. eapply put_term_frame; [exact Ht| | |].
  - apply session_change_ok; try done. unfold claim_ok. simpl. rewrite Hcb.
    destruct (ts_status (tm_session t)); naive_solver.
  - by apply session_change_hist.
  - by simpl; rewrite Ho.
Qed.

Lemma pending_frame now sid r e : steps effect_frame (PendingTerminalInputs_tx now sid r e).
Proof.
  intros row l row' H. unfold PendingTerminalInputs_tx in H.
  apply bind_ok in H as ([u s1] & row1 & Hf & H). inv_tx. revert Hf. apply fence_frame.
  intros t row0 a row1 _ _ Hfn. by inv_tx.
Qed.

(** A reported or resolved row: only rows still open change. *)
Lemma dispose_hist now id e st d i :
  st ≠ TiIntended → tinput_hist i (dispose now id e st d i).
Proof.
  intros Hst. unfold dispose. destruct (_ && _) eqn:Hc; [|reflexivity]. reflect_bools.
  split; simpl; try done; intros; try done; congruence.
Qed.
Lemma dispose_kept now id e st d i :
  ti_epoch (dispose now id e st d i) = ti_epoch i
  ∧ (tinput_open (ti_status (dispose now id e st d i)) = true → tinput_open (ti_status i) = true).
Proof.
  unfold dispose. destruct (_ && _) eqn:Hc; [|done]. reflect_bools. by split.
Qed.
Lemma resolve_dequeued_hist now e i : tinput_hist i (resolve_dequeued now e i).
Proof.
  unfold resolve_dequeued. case_bool_decide as Hc; [|reflexivity]. destruct Hc as [_ Hc].
  split; simpl; try done; intros; rewrite Hc in *; done.
Qed.

Lemma ledger_frame row sid t f :
  ps_terms row !! sid = Some t → term_over (ts_status (tm_session t)) = false →
  (∀ i, tinput_hist i (f i)) →
  (∀ i, ti_epoch (f i) = ti_epoch i ∧
        (tinput_open (ti_status (f i)) = true → tinput_open (ti_status i) = true)) →
  effect_frame row (put_term sid (t <| tm_inputs ::= map f |>) row).
Proof.
  intros Ht Ho Hh Hf. eapply put_term_frame; [exact Ht| | |done].
  - apply ledger_change_ok; [|intros i; apply Hh]. intros i _. split; [apply Hh|apply Hf].
  - apply ledger_change_hist; [done|]. intros i _. apply Hh.
Qed.

Lemma resolve_frame now sid r e :
  steps effect_frame (ResolveDequeuedTerminalInputs_tx now sid r e).
Proof.
  intros row n row' H. unfold ResolveDequeuedTerminalInputs_tx in H.
  apply bind_ok in H as ([u s1] & row1 & Hf & H). inv_tx. revert Hf. apply fence_frame.
  intros t row0 a row1 Ht (_ & _ & _ & _ & Ho)%holds_claim_live Hfn. inv_tx.
  apply ledger_frame; [done|done|apply resolve_dequeued_hist|].
  intros i. unfold resolve_dequeued. by case_bool_decide.
Qed.

Lemma disposition_open status st : disposition status = Some st → st ≠ TiIntended.
Proof. unfold disposition. intros H. by repeat case_match; simplify_eq. Qed.

Lemma dispose_frame now sid id r e status d :
  steps effect_frame (ReportTerminalInputDisposition_tx now sid id r e status d).
Proof.
  intros row n row' H. unfold ReportTerminalInputDisposition_tx in H.
  destruct (disposition status) as [st|] eqn:Hd; [|done]. apply disposition_open in Hd.
  apply bind_ok in H as ([u s1] & row1 & Hf & H). inv_tx. revert Hf. apply fence_frame.
  intros t row0 a row1 Ht (_ & _ & _ & _ & Ho)%holds_claim_live Hfn. inv_tx.
  apply ledger_frame; [done|done|intros i; by apply dispose_hist|].
  intros i. apply dispose_kept.
Qed.

Lemma report_frame now sid r e status reason code sig opid :
  steps effect_frame (ReportTerminalStatus_tx now sid r e status reason code sig opid).
Proof.
  intros row n row' H. unfold ReportTerminalStatus_tx in H.
  destruct (report_status status) as [st|] eqn:Hd; [|done].
  apply bind_ok in H as ([u s1] & row1 & Hf & H). inv_tx. revert Hf. apply fence_frame.
  intros t row0 a row1 Ht (_ & Hcb & Hcl & Hex & Ho)%holds_claim_live Hfn.
  case_bool_decide as Hst.
  - inv_tx. eapply put_term_frame; [exact Ht| | |].
    + apply session_change_ok; try done; simpl; [|by case_bool_decide].
      unfold claim_ok. simpl. by destruct (ts_status (tm_session t)).
    + apply session_change_hist; try done. simpl. by destruct (ts_status (tm_session t)).
    + simpl. rewrite Ho. by case_bool_decide.
  - apply bind_ok in Hfn as (s' & row2 & He & Hfn). inv_tx. eapply end_frame; [done| |done|done].
    unfold report_status in Hd. repeat case_match; simplify_eq; auto.
Qed.

(** An append touches the output and its offsets, which only rise. *)
Lemma append_output_shape now chunks t t' :
  append_output now chunks t = Ok t' →
  ∃ y b, ts_output_bytes (tm_session t) ≤ y ∧ ts_output_base (tm_session t) ≤ b ∧
    tm_inputs t' = tm_inputs t ∧
    tm_session t' = (tm_session t) <| ts_output_bytes := y |> <| ts_output_base := b |>
                                 <| ts_updated_at := now |>.
Proof.
  unfold append_output. destruct (append_chunks _ _ _ _ _) as [[high out]|e]; [|done].
  intros [= <-]. unfold pruneTerminalOutputTx. simpl.
  destruct (retained out <=? terminalScrollbackCap).
  - exists (Z.max high (ts_output_bytes (tm_session t))), (ts_output_base (tm_session t)).
    split_and!; simpl; [lia|lia|done|]. by destruct (tm_session t).
  - destruct (prune_chunks _ _ _ _ _) as [nb out'].
    exists (Z.max high (ts_output_bytes (tm_session t))), (Z.max nb (ts_output_base (tm_session t))).
    split_and!; simpl; [lia|lia|done|]. by destruct (tm_session t).
Qed.

Lemma append_frame now sid r e chunks : steps effect_frame (AppendTerminalOutput_tx now sid r e chunks).
Proof.
  intros row s row' H. unfold AppendTerminalOutput_tx in H.
  apply bind_ok in H as ([u s1] & row1 & Hf & H). inv_tx. revert Hf. apply fence_frame.
  intros t row0 a row1 Ht (_ & _ & _ & _ & Ho)%holds_claim_live Hfn.
  apply bind_ok in Hfn as (t' & row2 & [Hap ->]%lift_ok & Hfn). inv_tx.
  apply append_output_shape in Hap as (y & b & Hy & Hb & Hin & Hs).
  eapply put_term_frame; [exact Ht| | |by rewrite Hs].
  - intros [H1 H2 H3 H4 H5 H6]. split; rewrite ?Hs, ?Hin; simpl; try done; try lia.
    eapply Forall_impl; [exact H6|]. intros i [? ?]. by split.
  - split; rewrite ?Hs, ?Hin; simpl; try done; try lia; try congruence; reflexivity.
Qed.

(** *** The tools *)

Lemma frame_tool_err {A} (m : ptx A) : steps effect_frame m → steps effect_frame (tool_err m).
Proof.
  intros Hm row a row' H. unfold tool_err in H.
  destruct (m row) as [[b row1]|e] eqn:Hr; [|done]. simplify_eq. by eapply Hm.
Qed.
Lemma lock_frame sid : steps effect_frame (lockTerminalSessionTx sid).
Proof. by intros row t row' [_ ->]%lock_ok. Qed.

Lemma terminal_tool_frame cfg now id p tool request :
  steps effect_frame (terminal_tool_tx cfg now id p tool request).
Proof.
  unfold terminal_tool_tx, needs_session.
  repeat case_bool_decide; try destruct (tool_input tool request); tx_steps;
    first [apply create_frame | apply frame_tool_err, lock_frame
          | apply frame_tool_err, submit_frame | apply close_frame].
Qed.

Lemma internalTerminalTool_frame cfg now id p tool request row :
  effect_frame row (internalTerminalTool cfg now id p tool request row).1.
Proof. exact (steps_commit effect_frame _ row (terminal_tool_frame cfg now id p tool request)). Qed.
End operations_frame.

(** A deployment whose terminal tool is the one of [Terminals.v]; [newID] is
    the id a call draws. *)
Section deployment.
Context `{GL : !GoLib} (cfg : TerminalConfig) (newID : Z → PersonaRow → string).

Definition with_terminals (tl : Tools) : Tools :=
  mkTools (tl_config tl) (tl_effects tl)
    (λ now p tool r row, internalTerminalTool cfg now (newID now row) p tool r row)
    (tl_memory_resume tl) (tl_history tl).

#[export] Instance with_terminals_frame tl :
  EffectFrame tl → EffectFrame (with_terminals tl).
Proof.
  intros [He _ Hm]. split; [done| |done]. intros. apply internalTerminalTool_frame.
Qed.
End deployment.
