(* ===== verification/MemoryFrames.v ===== *)
(** * Memory operations and the persona's row

    Every operation of the memory layer stays within [effect_frame]: it
    writes memory tables as the shape invariant allows and at most admits
    inputs of its own. *)

From Stdlib Require Import ZArith Lia.
From S2P Require Import Prelude Json MemoryState MemoryShape State Personas Memory MemoryFacts.
From S2P Require Import Inputs Journal Usage Approvals MemoryBranch Operations Machine History.
From S2P Require Import Invariant EffectFacts.
Local Open Scope string_scope.
Local Open Scope list_scope.
Local Open Scope Z_scope.

Section frames.
Context `{GL : !GoLib}.

(** A maintenance pass on a row, with the stages it went through. *)
Lemma maintain_tx_pass now row u row' :
  numbered ev_seq (ps_events row) → memory_ok row → maintain_tx now row = Ok (u, row') →
  row' = row <| ps_chunks := ps_chunks row' |> ∧
  ∃ l w C1 C2, pass_ok (length (ps_events row)) now (unsealed row) l w
                 (ps_chunks row) C1 C2 (ps_chunks row').
Proof.
  intros Hn [Hm _] H. unfold maintain_tx in H.
  destruct (maintain now (unsealed row) (ps_chunks row)) as [C'|] eqn:HC; [|done].
  injection H as _ <-. split; [by destruct row|]. eapply maintain_pass; [done|lia| |done].
  by apply unsealed_seqs.
Qed.

Lemma maintain_frame now : steps effect_frame (maintain_tx now).
Proof.
  intros row u row' H. pose proof H as H'. unfold maintain_tx in H'.
  destruct (maintain now (unsealed row) (ps_chunks row)) as [C'|]; [|done]. injection H' as _ <-.
  split; simpl; [by destruct row|done|congruence|done|done| |reflexivity].
  intros Hn Hok. destruct (maintain_tx_pass _ _ _ _ Hn Hok H) as (_ & l & w & C1 & C2 & Hp).
  pose proof (pass_steps _ _ _ _ _ _ _ _ _ Hp) as Hs. destruct Hok as [Hm Hpr].
  destruct (mem_steps _ _ _ _ Hs Hm) as [Hm' Hh]. split; [|done].
  split; [done|]. by eapply quiet_prep.
Qed.

(** ** Operations on branches *)

(** Memory tables that move along the state machine and keep preparation in
    order. *)
Lemma memory_frame row C' B' :
  (mem_ok (length (ps_events row)) (ps_chunks row) → prep_ok (ps_chunks row) (ps_branches row) →
   rtc (mem_step true (length (ps_events row))) (ps_chunks row) C' ∧ prep_ok C' B') →
  effect_frame row (row <| ps_chunks := C' |> <| ps_branches := B' |>).
Proof.
  intros H. split; simpl; [by destruct row|done|congruence|done|done| |reflexivity].
  intros _ [Hm Hp]. destruct (H Hm Hp) as [Hs Hp']. destruct (mem_steps _ _ _ _ Hs Hm) as [Hm' Hh].
  split; [|done]. by split.
Qed.

(** Branches may change as long as none appears without a chunk and none
    disappears. *)
Lemma branches_frame row B' :
  (∀ k, is_Some (B' !! k) ↔ is_Some (ps_branches row !! k)) →
  effect_frame row (row <| ps_branches := B' |>).
Proof.
  intros HB. assert (row <| ps_branches := B' |>
    = row <| ps_chunks := ps_chunks row |> <| ps_branches := B' |>) as -> by by destruct row.
  apply memory_frame. intros _ Hp. split; [apply rtc_refl|]. split.
  - apply Hp.
  - intros k c Hk Hc. apply HB. by eapply po_branch.
  - intros k Hk%HB. by eapply po_chunk.
Qed.
Lemma upd_branch_frame seq f row : effect_frame row (upd_branch seq f row).
Proof. apply branches_frame. intros k. by rewrite lookup_alter_is_Some. Qed.

(** A chunk outside preparation, or leaving it. *)
Lemma local_frame row seq c c' :
  ps_chunks row !! seq = Some c → raw_status (mc_status c) = true → raw_status (mc_status c') = true →
  mc_layer c' = mc_layer c → mc_sources c' = mc_sources c → mc_first_seq c' = mc_first_seq c →
  mc_last_seq c' = mc_last_seq c → mc_est_tokens c' = mc_est_tokens c → text_ok c' →
  (mc_status c' = ChPreparing → c' = c) →
  effect_frame row (row <| ps_chunks := <[seq := c']> (ps_chunks row) |>).
Proof.
  intros Hk Hr Hr' ? ? ? ? ? Ht Hq.
  assert (row <| ps_chunks := <[seq := c']> (ps_chunks row) |>
    = row <| ps_chunks := <[seq := c']> (ps_chunks row) |> <| ps_branches := ps_branches row |>) as ->
    by by destruct row.
  apply memory_frame. intros _ Hp.
  assert (∀ b, mem_step b (length (ps_events row)) (ps_chunks row) (<[seq := c']> (ps_chunks row))) as Hs.
  { intros b. apply (step_local _ _ _ seq c); try done. intros Hc. right. auto. }
  split; [by apply rtc_once|]. eapply quiet_prep; [by apply rtc_once|done].
Qed.

Lemma readMemoryBranch_ok seq row b :
  readMemoryBranch seq row = Ok b →
  ps_chunks row !! seq = Some (bn_chunk b) ∧
  ∃ r, ps_branches row !! seq = Some r ∧ bn_snapshot b = br_snapshot r ∧ bn_state b = br_state r ∧
    bn_revision b = br_revision r.
Proof.
  unfold readMemoryBranch, chunk, mbind, res_bind. intros H.
  destruct (ps_branches row !! seq) as [r|]; [|done]. destruct (ps_chunks row !! seq) as [c|]; [|done].
  injection H as <-. simpl. eauto 6.
Qed.

Lemma restart_frame now snap row row' :
  restartRequestedMemory now snap row = Ok row' →
  effect_frame row row' ∧ ps_chunks row' = ps_chunks row.
Proof.
  unfold restartRequestedMemory, mbind, res_bind. intros H.
  repeat case_match; simplify_eq; try done. split; [|done].
  etrans; apply upd_branch_frame.
Qed.

Lemma reopen_frame row seq c :
  ps_chunks row !! seq = Some c → mc_status c = ChKept → effect_frame row (upd_chunk seq reopen row).
Proof.
  intros Hk Hs.
  assert (upd_chunk seq reopen row = row <| ps_chunks := <[seq := reopen c]> (ps_chunks row) |>) as ->.
  { unfold upd_chunk. simpl. by rewrite (alter_found _ _ _ c). }
  apply (local_frame _ _ c); try done. by rewrite Hs.
Qed.

Lemma chunks_where_in P C k : k ∈ (chunks_where P C).*1 → ∃ c, C !! k = Some c ∧ P c = true.
Proof. intros ([j c] & -> & H)%list_elem_of_fmap. exists c. by apply chunks_where_elem. Qed.

Lemma reconsider_walk_frame s l row row' :
  (∀ k, k ∈ l → ∃ c, ps_chunks row !! k = Some c ∧ mc_status c = ChKept) →
  reconsider_walk s l row = Ok row' →
  effect_frame row row' ∧
  ∀ k c, ps_chunks row' !! k = Some c → mc_status c = ChPreparing → ps_chunks row !! k = Some c.
Proof.
  induction l as [|seq l IH]; intros Hl H; [by injection H as <-|]. simpl in H.
  unfold mbind, res_bind in H. destruct (readMemoryBranch seq row) as [b|]; [|done].
  destruct (snapshotMatchesChunk _ _ _) as [m|]; [|done].
  destruct (_ || _); [apply IH; [|done]; intros k Hk; apply Hl; by right|]. injection H as <-.
  destruct (Hl seq ltac:(by left)) as (c & Hc & Hs). split.
  - etrans; [apply (upd_branch_frame seq)|]. by apply (reopen_frame _ seq c).
  - intros k d. unfold archiveMemoryAttempt, upd_chunk, upd_branch. simpl.
    rewrite (alter_found _ _ _ c), lookup_insert by done. case_decide; [by intros [= <-]|done].
Qed.
Lemma reconsider_frame s row row' :
  reconsiderKeptMemory s row = Ok row' →
  effect_frame row row' ∧
  ∀ k c, ps_chunks row' !! k = Some c → mc_status c = ChPreparing → ps_chunks row !! k = Some c.
Proof.
  unfold reconsiderKeptMemory. intros H. destruct (_ && _); [by injection H as <-|].
  eapply reconsider_walk_frame; [|done]. intros k Hk. unfold kept_branches in Hk.
  apply list_elem_of_fmap in Hk as ([j c] & -> & [_ Hj]%list_elem_of_filter).
  apply chunks_where_elem in Hj as [Hj Hs]. apply bool_decide_eq_true in Hs. by exists c.
Qed.

Lemma first_match_elem s l row n :
  first_match s l row = Ok n → n = 0 ∨ n ∈ l.
Proof.
  induction l as [|k l IH]; simpl; [intros [= <-]; by left|]. unfold mbind, res_bind.
  destruct (chunk k row) as [c|]; [|done]. destruct (snapshotMatchesChunk c s row) as [[]|]; [| |done].
  - intros [= <-]. right. by left.
  - intros [?|?]%IH; [by left|right; by right].
Qed.

(** Taking a chunk that is sealed, or in preparation already. *)
Lemma take_branch_frame now g seq row b row' B' :
  take_branch now g seq (row <| ps_branches := B' |>) = Ok (b, row') →
  (∀ k, is_Some (B' !! k) ↔ k = seq ∨ is_Some (ps_branches row !! k)) →
  (∃ c, ps_chunks row !! seq = Some c ∧ (mc_status c = ChSealed ∨ mc_status c = ChPreparing)) →
  (prep_ok (ps_chunks row) (ps_branches row) →
   ∀ k c, ps_chunks row !! k = Some c → mc_status c = ChPreparing → k = seq) →
  effect_frame row row'.
Proof.
  intros H HB (c & Hc & Hs) Hone0. unfold take_branch, mbind, res_bind in H.
  destruct (readMemoryBranch _ _) as [b'|]; [|done]. injection H as _ <-.
  match goal with |- effect_frame _ ?r => replace r with
    (row <| ps_chunks := <[seq := take_chunk now g c]> (ps_chunks row) |> <| ps_branches := B' |>) end.
  2: { unfold upd_chunk. simpl. by rewrite (alter_found _ _ _ c). }
  apply memory_frame. intros Hm Hp. pose proof (Hone0 Hp) as Hone. split.
  - apply rtc_once, (step_local _ _ _ seq c); try done; [by destruct Hs as [->| ->]|]. intros _. by left.
  - split.
    + intros k k' d d' Hk Hk' Hd Hd'. assert (∀ j e, <[seq := take_chunk now g c]> (ps_chunks row) !! j = Some e
        → mc_status e = ChPreparing → j = seq) as Hj.
      { intros j e. rewrite lookup_insert. case_decide; [by intros|]. intros He Hpe. by eapply Hone. }
      by rewrite (Hj _ _ Hk Hd), (Hj _ _ Hk' Hd').
    + intros k d Hk Hd. apply HB. rewrite lookup_insert in Hk. case_decide; [by left|].
      left. by eapply Hone.
    + intros k [->|Hk]%HB; rewrite lookup_insert_is_Some; [by left|].
      destruct (decide (seq = k)); [by left|right]. split; [done|]. by eapply po_chunk.
Qed.

Lemma find_row_elem P l k : find_row P l = Ok (Some k) → ∃ b, (k, b) ∈ l ∧ P b = Ok true.
Proof.
  induction l as [|[j b] l IH]; simpl; [done|]. unfold mbind, res_bind.
  destruct (P b) as [[]|] eqn:Hb; [| |done].
  - intros [= <-]. exists b. split; [by left|done].
  - intros (b' & ? & ?)%IH. exists b'. split; [by right|done].
Qed.
Lemma preparing_branches_elem k b row :
  (k, b) ∈ preparing_branches row ↔
  ps_branches row !! k = Some b ∧ ∃ c, ps_chunks row !! k = Some c ∧ mc_status c = ChPreparing.
Proof.
  unfold preparing_branches. rewrite list_elem_of_omap. split.
  - intros ([j c] & [Hj Hp]%chunks_where_elem & H). apply bool_decide_eq_true in Hp. simpl in H.
    apply fmap_Some in H as (b' & Hb & [= -> ->]). eauto.
  - intros (Hb & c & Hc & Hp). exists (k, c). rewrite chunks_where_elem. simpl. rewrite Hb.
    split; [|done]. split; [done|by apply bool_decide_eq_true].
Qed.

Lemma claim_new_branch_frame now g snap row0 row b row' :
  effect_frame row0 row → claim_new_branch now g snap row0 row = Ok (b, row') → effect_frame row0 row'.
Proof.
  intros H0 H. unfold claim_new_branch, mbind, res_bind in H.
  destruct (existsb _ _) eqn:Hfree; [by injection H as _ <-|].
  destruct snap as [s|]; [|by injection H as _ <-].
  destruct (validateBranchSnapshot s); [|done].
  destruct (reconsiderKeptMemory s row) as [row2|] eqn:Hr; [|done].
  destruct (first_match _ _ _) as [seq|] eqn:Hf; [|done].
  destruct (seq =? 0) eqn:Hz; [by injection H as _ <-|]. reflect_bools.
  apply reconsider_frame in Hr as [Hr Hq]. etrans; [exact H0|]. etrans; [exact Hr|].
  apply first_match_elem in Hf as [?|Hin]; [lia|].
  unfold candidates in Hin. apply list_elem_of_fmap in Hin as ([j c] & -> & [_ Hj]%list_elem_of_filter).
  apply chunks_where_elem in Hj as [Hj Hready]. unfold prep_ready in Hready.
  apply andb_true_iff in Hready as [[Hs _]%andb_true_iff _]. apply bool_decide_eq_true in Hs. simpl in *.
  unfold open_branch in H. eapply take_branch_frame; [exact H| |by eauto|].
  - intros k. rewrite lookup_insert_is_Some. destruct (decide (j = k)); naive_solver.
  - intros _ k d Hk Hd. specialize (Hq k d Hk Hd). exfalso.
    assert (existsb (λ kc, bool_decide (mc_status kc.2 = ChPreparing)) (map_to_list (ps_chunks row)) = true)
      as Hex; [|congruence].
    apply existsb_exists. exists (k, d). rewrite <-list_elem_of_In, elem_of_map_to_list.
    split; [done|by apply bool_decide_eq_true].
Qed.

Lemma claim_branch_frame now g snap policy : steps effect_frame (claim_branch_tx now g snap policy).
Proof.
  intros row b row' H. unfold claim_branch_tx, mbind, res_bind in H.
  destruct (requireMemoryGeneration now g row); [|done].
  destruct (restartRequestedMemory now snap row) as [row1|] eqn:Hr; [|done].
  apply restart_frame in Hr as [Hr _]. destruct (negb _); [done|].
  destruct (match selected_fingerprint snap with Some f => _ | None => _ end); [done|].
  destruct (find_row _ _) as [[seq|]|] eqn:Hf; [| |done].
  - apply find_row_elem in Hf as (x & (Hx & c & Hc & Hs)%preparing_branches_elem & _).
    etrans; [exact Hr|]. assert (row1 = row1 <| ps_branches := ps_branches row1 |>) as Hrow by by destruct row1.
    rewrite Hrow in H. eapply take_branch_frame; [exact H| |by eauto|].
    + intros k. split; [by right|]. intros [->|?]; [by exists x|done].
    + intros Hp k d Hk Hd. by eapply po_one.
  - by eapply claim_new_branch_frame.
Qed.

(** ** Checkpoints *)

Lemma settle_chunk_ok now old next st c c' :
  mc_status c = ChPreparing → settle_chunk now old next st c = Ok c' →
  raw_status (mc_status c') = true ∧ mc_layer c' = mc_layer c ∧ mc_sources c' = mc_sources c ∧
  mc_first_seq c' = mc_first_seq c ∧ mc_last_seq c' = mc_last_seq c ∧
  mc_est_tokens c' = mc_est_tokens c ∧ text_ok c' ∧ (mc_status c' = ChPreparing → c' = c).
Proof.
  intros Hs H. unfold settle_chunk in H.
  repeat case_match; simplify_eq; unfold text_ok; simpl; rewrite ?Hs; split_and!; try done.
  reflect_bools. by eexists.
Qed.

Lemma notify_frame now seq rev was is_ row row' :
  notify_issue now seq rev was is_ row = Ok row' →
  effect_frame row row' ∧ ps_branches row' = ps_branches row ∧ ps_chunks row' = ps_chunks row.
Proof.
  assert (∀ tr i, memoryBranchNotice now seq rev tr i row = Ok row' →
    effect_frame row row' ∧ ps_branches row' = ps_branches row ∧ ps_chunks row' = ps_chunks row) as Hn.
  { intros tr i H. unfold memoryBranchNotice in H. destruct (_ || _); [done|].
    destruct (insert_input _ _) as [[fresh r]|] eqn:Hi; [|done]. injection H as ->.
    apply insert_input_ok in Hi as [(_ & Hfree & ->)|(_ & _ & ->)]; [|done]. split; [|done].
    split; simpl; [by destruct row|by apply insert_subseteq| |intros HT; keep_terms row|done|done|reflexivity].
    intros k j [[<- <-]|[_ Hj]]%lookup_insert_Some Hnone; [done|congruence]. }
  unfold notify_issue. intros H. repeat case_match; first [by injection H as <-|by apply Hn in H].
Qed.

Lemma save_branch_frame now g seq expected doc : steps effect_frame (save_branch_tx now g seq expected doc).
Proof.
  intros row b row' H. unfold save_branch_tx, mbind, res_bind in H. destruct doc as [[v next] st].
  destruct (requireMemoryGeneration now g row); [|done].
  destruct (readMemoryBranch seq row) as [b0|] eqn:Hb; [|done]. apply readMemoryBranch_ok in Hb as [Hc _].
  destruct (_ && _); [by injection H as _ <-|]. destruct (negb _); [done|].
  destruct (negb (bool_decide (mc_status _ = _))) eqn:Hp; [done|].
  apply negb_false_iff, bool_decide_eq_true in Hp.
  destruct (stored_checkpoint _) as [old|]; [|done]. destruct (check_progress old next); [|done].
  destruct (settle_chunk now old next st (bn_chunk b0)) as [c|] eqn:Hst; [|done].
  destruct (notify_issue _ _ _ _ _ _) as [row1|] eqn:Hn; [|done]. apply notify_frame in Hn as [Hn _].
  destruct (negb _); [done|]. destruct (readMemoryBranch seq _); [|done]. injection H as _ <-.
  destruct (settle_chunk_ok _ _ _ _ _ _ Hp Hst) as (? & ? & ? & ? & ? & ? & ? & ?).
  etrans; [|etrans; [exact Hn|apply upd_branch_frame]].
  apply (local_frame _ _ (bn_chunk b0)); try done. by rewrite Hp.
Qed.

Lemma resume_memory_frame now request : steps effect_frame (resumeMemory now request).
Proof.
  intros row o row' H. unfold resumeMemory, mbind, res_bind in H.
  repeat case_match; simplify_eq; try done; apply upd_branch_frame.
Qed.

(** The tool as the effect a claim runs. *)
Lemma internalMemoryTool_frame now request row : effect_frame row (commit (resumeMemory now request) row).1.
Proof. exact (steps_commit effect_frame _ row (resume_memory_frame now request)). Qed.

Definition with_memory (tl : Tools) : Tools :=
  mkTools (tl_config tl) (tl_effects tl) (tl_terminal tl)
    (λ now _ request, commit (resumeMemory now request)) (tl_history tl).
#[export] Instance with_memory_frame tl : EffectFrame tl → EffectFrame (with_memory tl).
Proof. intros [He Ht _]. split; [done|done|]. intros. apply internalMemoryTool_frame. Qed.
End frames.
