(* ===== verification/OperationFacts.v ===== *)
(** * Operations keep the invariant

    Claiming, deciding and completing operations move a persona along
    [evolves].  A claim inserts the operation, runs its effect beside the
    ledger and settles it in the same transaction; a replayed claim only
    journals. *)

From Stdlib Require Import ZArith Lia.
From S2P Require Import Prelude Json State Personas Inputs Journal Plans Pricing Usage Approvals.
From S2P Require Import Jobs Turns Operations Machine History Ledger Invariant JobFacts.
From S2P Require Import EffectFacts.
Local Open Scope string_scope.
Local Open Scope list_scope.
Local Open Scope Z_scope.

(** ** Looking operations up *)

Lemma operationByKey_Some tool key row k o :
  operationByKey tool key row = Some (k, o) →
  ps_ops row !! k = Some o ∧ op_tool o = tool ∧ op_idempotency_key o = key.
Proof.
  unfold operationByKey. intros [Hin Hp]%find_some. simpl in Hp. reflect_bools.
  split_and!; [|done|done]. apply elem_of_map_to_list. by apply list_elem_of_In.
Qed.

Lemma operationByKey_None tool key row k o :
  operationByKey tool key row = None → ps_ops row !! k = Some o → op_tool o = tool →
  op_idempotency_key o ≠ key.
Proof.
  unfold operationByKey. intros Hf Ho Ht Hk.
  assert (In (k, o) (map_to_list (ps_ops row))) as Hin.
  { by apply list_elem_of_In, elem_of_map_to_list. }
  apply (find_none _ _ Hf) in Hin. simpl in Hin.
  by rewrite !bool_decide_eq_true_2 in Hin.
Qed.

Lemma plan_call_position row i n pos :
  planPosition (planForInput i row) n = Some pos →
  plan_call (ps_plans row) i n = Some (ce_call pos) ∧ ce_index pos = n ∧ 0 ≤ n.
Proof.
  unfold plan_call, planForInput, planPosition. intros H. rewrite H. simpl.
  destruct (ps_plans row !! i) as [p|]; [|done]. destruct (n <? 0) eqn:Hn; [done|].
  apply plan_position_flat in H as [_ ->]. reflect_bools. done.
Qed.

(** A call nothing is recorded for under its tool has no operation at all:
    its key determines the plan's call, and so the tool. *)
Lemma fresh_key row i n pos :
  row_inv row → planPosition (planForInput i row) n = Some pos →
  operationByKey (pc_tool (ce_call pos)) (idem_key i n) row = None →
  ∀ k o, ps_ops row !! k = Some o → op_idempotency_key o ≠ idem_key i n.
Proof.
  intros HI Hp Hnone k o Ho Hkey. apply plan_call_position in Hp as (Hc & _ & Hn).
  destruct (li_call _ _ _ _ (ri_ledger _ HI) k o Ho) as (i' & n' & [Hk Hn' (c & Hc' & Ht & _)] & _).
  rewrite Hkey in Hk. apply idem_key_inj in Hk as [<- <-]; [|done|done].
  rewrite Hc in Hc'. injection Hc' as <-.
  by eapply operationByKey_None; [exact Hnone|exact Ho| |].
Qed.

(** ** Changing the ledger alone *)

Definition pending_kept (A A' : gmap (string * Z) ToolApproval) : Prop :=
  ∀ k a, A !! k = Some a → ap_status a = Pending →
    ∃ a', A' !! k = Some a' ∧ ap_status a' = Pending.

Lemma pending_kept_parked A A' W k : pending_kept A A' → parked A W k → parked A' W k.
Proof.
  intros Hp [(n & a & Ha & Hs)|Hw]; [left|by right].
  destruct (Hp _ _ Ha Hs) as (a' & ? & ?). eauto.
Qed.

Lemma ledger_step_evolves row O' A' :
  (row_inv row → ledger_inv O' A' (tviews row) (ps_plans row)) →
  table_hist op_hist (ps_ops row) O' → table_hist approval_hist (ps_approvals row) A' →
  (∀ k v, views row !! k = Some v → v_status v = Waiting →
     parked (ps_approvals row) (ps_waits row) k → parked A' (ps_waits row) k) →
  evolves row (swap O' A' row).
Proof.
  intros HL HO HA Hp HI. specialize (HL HI).
  pose proof HI as [H1 H2 H3 H4 H5 H6 H7 H8 H9 H10 H11 H12 H13]. split.
  - split; try done.
    + by apply journal_inv_swap.
    + intros k v Hv Hw. by eapply Hp, H3.
  - by solve_hist.
Qed.

(** ** A transfer re-pends the grants *)

Lemma repend_cases a :
  repend a = a ∧ ¬ (ap_status a = Approved ∧ ap_consumed_at a = None) ∨
  ap_status a = Approved ∧ ap_consumed_at a = None ∧ ap_status (repend a) = Pending.
Proof.
  unfold repend. repeat case_bool_decide; simpl; [right; done|left; naive_solver..].
Qed.
Lemma repend_keeps a :
  ap_id (repend a) = ap_id a ∧ ap_input_id (repend a) = ap_input_id a ∧
  ap_call_index (repend a) = ap_call_index a ∧ ap_operation_id (repend a) = ap_operation_id a ∧
  ap_turn_id (repend a) = ap_turn_id a ∧ ap_tool (repend a) = ap_tool a ∧
  ap_request (repend a) = ap_request a ∧ ap_route (repend a) = ap_route a ∧
  ap_action_digest (repend a) = ap_action_digest a ∧ ap_consumed_at (repend a) = ap_consumed_at a.
Proof. unfold repend. by destruct (_ && _). Qed.
Lemma repend_open a : grant_open (repend a) ↔ grant_open a.
Proof.
  unfold grant_open. destruct (repend_cases a) as [[-> _]|(Ha & Hc & Hp)]; [done|]. naive_solver.
Qed.
Lemma repend_moves a : approval_moves a (repend a).
Proof.
  destruct (repend_keeps a) as (?&?&?&?&?&?&?&?&?&Hc). split; try done.
  - intros _. destruct (repend_cases a) as [[-> _]|(Ha & Hn & _)]; [left; by destruct a|by right].
  - congruence.
Qed.

Lemma repend_approval_ok O T i n a : approval_ok O T i n a → approval_ok O T i n (repend a).
Proof.
  intros [H1 H2 (o & Ho & Hk & Ht & Hr & Hopen & Hspent & Hden) H4].
  destruct (repend_keeps a) as (_ & E1 & E2 & E3 & E4 & E5 & E6 & _ & _ & E7).
  split; [by rewrite E1, E2|by rewrite E4| |].
  - exists o. rewrite E3, E5, E6, repend_open. split_and!; try done;
      destruct (repend_cases a) as [[-> _]|(_ & _ & ->)]; done.
  - rewrite E7. destruct (repend_cases a) as [[-> _]|(_ & Hc & _)]; [done|by intros _].
Qed.

Lemma ledger_inv_repend O A T P : ledger_inv O A T P → ledger_inv O (repend <$> A) T P.
Proof.
  intros [H1 H2 H3 H4 H5 H6 H7 H8]. split; try done.
  - intros k o i n Ho Hs Hk Hn. destruct (H5 _ _ _ _ Ho Hs Hk Hn) as (a & Ha & Hop & Hg).
    exists (repend a). rewrite lookup_fmap, Ha. split_and!; [done| |by apply repend_open].
    by destruct (repend_keeps a) as (_ & _ & _ & -> & _).
  - intros i n a. rewrite lookup_fmap. intros (b & Hb & ->)%fmap_Some. by apply repend_approval_ok, H6.
  - intros k k' a a'. rewrite !lookup_fmap. intros (b & Hb & ->)%fmap_Some (b' & Hb' & ->)%fmap_Some.
    destruct (repend_keeps b) as [-> _], (repend_keeps b') as [-> _]. by eapply H7.
  - intros k o i n c Ho Hk Hn Hc Hg Hs. destruct (H8 _ _ _ _ _ Ho Hk Hn Hc Hg Hs) as (a & Ha & Hst & [t Ht]).
    exists a. rewrite lookup_fmap, Ha. simpl. split_and!; [|done|by rewrite Ht].
    destruct (repend_cases a) as [[-> _]|(_ & Hno & _)]; [done|congruence].
Qed.

(** Re-pending keeps the invariant; only unspent approvals are asked again. *)
Lemma repend_grants_moves row :
  row_inv row → row_inv (repend_grants row) ∧ row_moves row (repend_grants row).
Proof.
  intros [H1 H2 H3 H4 H5 H6 H7 H8 H9 H10 H11 H12 H13]. split.
  - split; try done.
    + eapply journal_inv_frame; [|done]. split; simpl; try done. intros t y Hy. eauto.
    + intros k v Hv Hw. destruct (H3 k v Hv Hw) as [(n & a & Ha & Hs)|Hwait]; [left|by right].
      exists n, (repend a). simpl. rewrite lookup_fmap, Ha. split; [done|].
      destruct (repend_cases a) as [[-> _]|(? & _)]; congruence.
    + by apply ledger_inv_repend.
  - solve_hist. intros k a Ha. exists (repend a). rewrite lookup_fmap, Ha. split; [done|].
    apply repend_moves.
Qed.

(** An operation inserted, its effect run beside the ledger, then settled. *)
Lemma new_settled_evolves now st resp row row_n op i n :
  ps_ops row !! op_id op = None →
  (∀ k o, ps_ops row !! k = Some o → op_idempotency_key o ≠ op_idempotency_key op) →
  op_call (ps_plans row) op i n → lineage (tviews row) (op_turn_id op) i →
  st = OpDone ∨ st = OpFailed →
  (∀ c, plan_call (ps_plans row) i n = Some c → needs_grant c → st ≠ OpDone) →
  beside (row <| ps_ops ::= <[op_id op := op]> |>) row_n →
  evolves row (upd_op (op_id op) (settle_op now st resp) row_n).
Proof.
  intros Hk Hkey Hcall Hl Hst Hgate [HO HA HT HP _ He].
  specialize (He (ps_ops row) (ps_approvals row)).
  replace (swap _ _ (row <| ps_ops ::= _ |>)) with row in He by by destruct row.
  etrans; [exact He|]. clear He.
  set (X := swap (ps_ops row) (ps_approvals row) row_n).
  assert (upd_op (op_id op) (settle_op now st resp) row_n
    = swap (<[op_id op := settle_op now st resp op]> (ps_ops row)) (ps_approvals row) X) as ->.
  { unfold X, swap, upd_op. simpl. simpl in HO, HA. rewrite HO.
    rewrite (alter_found _ _ _ op) by apply lookup_insert_eq.
    rewrite insert_insert_eq. rewrite <-HA. done. }
  assert (tviews X = tviews row) as HTv by (unfold tviews; simpl; simpl in HT; by rewrite HT).
  simpl in HP. apply ledger_step_evolves; try done.
  - intros HX. eapply ledger_inv_new; try done.
    + simpl. rewrite HP. destruct Hcall as [? ? ?]. by split.
    + by rewrite HTv.
    + intros c. simpl. rewrite HP. apply Hgate.
    + by apply (ri_ledger _ HX).
  - apply (table_hist_insert op_hist). intros o Ho. simpl in Ho. congruence.
Qed.

Lemma lineage_in_turn row t i : lineage (tviews row) t i ↔ in_turn t i row.
Proof.
  unfold lineage, in_turn, tviews. setoid_rewrite lookup_fmap. setoid_rewrite fmap_Some. split.
  - intros (x & (y & Hy & ->) & <-). eauto.
  - intros (y & Hy & <-). eauto.
Qed.

Lemma beside_ids row row' O A : beside row row' → row_inv (swap O A row) → ids_ok row'.
Proof.
  intros Hb HI. destruct (bs_evolves _ _ Hb O A HI) as [HI' _]. exact (row_inv_ids _ HI').
Qed.

(** A call that asks for no approval and is not blocked needs no grant. *)
Lemma ungated c :
  approvalRequirement (pc_tool c) (pc_route c) = "" →
  elevatedOnlyTool (pc_tool c) && negb (bool_decide (pc_route c = "elevated")) = false →
  ¬ needs_grant c.
Proof.
  intros Hr He [Hn|Hn]; [done|]. rewrite Hn in He. simpl in He. apply negb_false_iff in He.
  reflect_bools. unfold approvalRequirement in Hr.
  rewrite (bool_decide_eq_true_2 (pc_route c = "elevated")) in Hr by done.
  by repeat case_match.
Qed.

Section claims.
Context `{GL : !GoLib} (tl : Tools) `{!EffectFrame tl}.
Context (now nanos : Z) (p : string).

Lemma finish_op_ok st resp op row op' row' :
  finish_op now st resp op row = Ok (op', row') →
  op' = settle_op now st resp op ∧ row' = upd_op (op_id op) (settle_op now st resp) row.
Proof. unfold finish_op. intros H. inv_tx. done. Qed.

Lemma insert_op_ok op row r row' :
  insert_op op row = Ok (r, row') →
  (∃ k o, r = Some o ∧ row' = row ∧
     operationByKey (op_tool op) (op_idempotency_key op) row = Some (k, o)) ∨
  (r = None ∧ row' = row <| ps_ops ::= <[op_id op := op]> |> ∧ ps_ops row !! op_id op = None ∧
   operationByKey (op_tool op) (op_idempotency_key op) row = None).
Proof.
  unfold insert_op. intros H. repeat case_match; simplify_eq; [left|right]; eauto.
Qed.

(** *** A new operation *)
Section fresh.
Context (row : PersonaRow) (op : Operation) (turnID i : string) (n : Z) (pos : callExperience).
Context (HI : row_inv row) (Hk : ps_ops row !! op_id op = None)
  (Hkey : ∀ k o, ps_ops row !! k = Some o → op_idempotency_key o ≠ op_idempotency_key op)
  (Hcall : op_call (ps_plans row) op i n) (Hl : in_turn (op_turn_id op) i row)
  (Ht : in_turn turnID i row) (Hplan : plan_call (ps_plans row) i n = Some (ce_call pos))
  (Htool : pc_tool (ce_call pos) = op_tool op).

Definition with_op : PersonaRow := row <| ps_ops ::= <[op_id op := op]> |>.

(** Settled after a step beside the ledger, with its outcome journaled. *)
Lemma settle_new_evolves st resp a row_n op' row1 u row' :
  beside with_op row_n → st = OpDone ∨ st = OpFailed →
  (st = OpDone → ¬ needs_grant (ce_call pos)) →
  finish_op now st resp op row_n = Ok (op', row1) →
  journalOutcomeTx now turnID i pos op' a row1 = Ok (u, row') → evolves row row'.
Proof.
  intros Hb Hst Hgate [-> ->]%finish_op_ok Hj. etrans.
  - eapply (new_settled_evolves now st resp row row_n); try done; [by apply lineage_in_turn|].
    intros c Hc Hneed Hd. rewrite Hplan in Hc. injection Hc as <-. by apply Hgate.
  - apply beside_evolves. eapply journalOutcomeTx_beside; [|exact Hj].
    change (in_turn turnID i row_n). by eapply in_turn_beside.
Qed.

Lemma claim_fresh_evolves key c row' :
  approvalRequirement (op_tool op) (pc_route (ce_call pos)) = "" →
  claim_fresh tl now nanos p turnID i pos op key with_op = Ok (c, row') → evolves row row'.
Proof.
  intros Hreq. unfold claim_fresh. intros H. apply bind_ok in H as (denied & s & [= <- <-] & H).
  destruct (deniedIdenticalCall _ _ _ _) as [a|].
  { inv_tx. eapply (settle_new_evolves OpFailed); [reflexivity|by right|done|eassumption..]. }
  destruct (elevatedOnlyTool _ && _) eqn:Helev.
  { inv_tx. eapply (settle_new_evolves OpFailed); [reflexivity|by right|done|eassumption..]. }
  apply bind_ok in H as (u & s1 & Hexp & H). apply bind_ok in H as (resp & s2 & Heff & H).
  destruct resp as [response|]; [|done]. inv_tx.
  assert (beside with_op s1) as Hb1.
  { eapply journalExperienceTx_beside; [|apply erec_decided|exact Hexp]. exact Ht. }
  assert (beside s1 s2) as Hb2.
  { unfold of_call in Heff. pose proof (internalToolResponse_beside tl now nanos p turnID i
      (op_tool op) (ce_index pos) key (op_request op) s1) as Hi.
    destruct (internalToolResponse _ _ _ _ _ _ _ _ _ _ s1) as [s' []]; simplify_eq.
    apply Hi; [by eapply in_turn_beside|].
    eapply (beside_ids with_op _ (ps_ops row) (ps_approvals row)); [done|].
    unfold with_op. by destruct row. }
  eapply (settle_new_evolves OpDone); [by etrans|by left| |eassumption..].
  intros _. rewrite <-Htool in Hreq, Helev. by eapply ungated.
Qed.

(** A gated call: its request is recorded with it. *)
Definition with_request (route requiredBy : string) : PersonaRow :=
  swap (<[op_id op := op]> (ps_ops row))
    (<[(i, n) := new_approval now p i route requiredBy n op]> (ps_approvals row)) row.

Lemma record_approval_ok route requiredBy u row' :
  record_approval (new_approval now p i route requiredBy n op) with_op = Ok (u, row') →
  ps_approvals row !! (i, n) = None ∧ row' = with_request route requiredBy ∧
  ∀ k a, ps_approvals row !! k = Some a → ap_id a ≠ approvalID p i n.
Proof.
  unfold record_approval. simpl.
  destruct (ps_approvals row !! (i, n)) as [a|] eqn:Ha.
  { destruct (li_approval _ _ _ _ (ri_ledger _ HI) i n a Ha) as [_ _ (o & Ho & Hok & _) _].
    apply Hkey in Ho. by rewrite (oc_key _ _ _ _ Hcall) in Ho. }
  destruct (approval_by_id _ _) as [|] eqn:Hid; [done|]. intros [= _ <-]. split_and!; [done|done|].
  intros k a Hka Heq. unfold approval_by_id in Hid.
  assert (In (k, a) (map_to_list (ps_approvals row))) as Hin.
  { by apply list_elem_of_In, elem_of_map_to_list. }
  apply (find_none _ _ Hid) in Hin. simpl in Hin. by rewrite bool_decide_eq_true_2 in Hin.
Qed.

Lemma park_evolves route requiredBy :
  op_status op = OpAwaitingApproval → ps_approvals row !! (i, n) = None →
  (∀ k a, ps_approvals row !! k = Some a → ap_id a ≠ approvalID p i n) →
  evolves row (with_request route requiredBy).
Proof.
  intros Hst HA Hids. apply ledger_step_evolves.
  - intros _. apply ledger_inv_park; try done; [by apply lineage_in_turn|apply HI].
  - apply (table_hist_insert op_hist). intros o Ho. congruence.
  - apply (table_hist_insert approval_hist). intros a Ha. congruence.
  - intros j v _ _. apply pending_kept_parked.
    intros k a Ha Hp. destruct (decide (k = (i, n))) as [->|Hne]; [congruence|].
    exists a. by rewrite lookup_insert_ne.
Qed.

Lemma claimGated_fresh_evolves route requiredBy c row' :
  op_status op = OpAwaitingApproval → ce_index pos = n →
  claimGated tl now nanos p turnID i pos op route requiredBy true with_op = Ok (c, row') →
  evolves row row'.
Proof.
  intros Hst Hn. unfold claimGated. rewrite Hst. simpl.
  destruct (validate_gated _ _ _) as [_u|e]; intros H.
  - apply bind_ok in H as (u & s & Hrec & H). rewrite Hn in Hrec.
    apply record_approval_ok in Hrec as (HA & -> & Hids). etrans; [by apply park_evolves|].
    unfold gated_decision in H. apply bind_ok in H as (found & s & [= <- <-] & H).
    unfold approvalForCall in H. simpl in H. rewrite Hn, lookup_insert_eq in H. simpl in H.
    inv_tx. apply beside_evolves.
    eapply journalExperienceTx_beside; [exact Ht|apply erec_awaiting|eassumption].
  - clear Hn. inv_tx. eapply (settle_new_evolves OpFailed); [reflexivity|by right|done|eassumption..].
Qed.
End fresh.

(** *** A stored operation *)
Section stored.
Context (row : PersonaRow) (op : Operation) (turnID i : string) (n : Z) (pos : callExperience).
Context (HI : row_inv row) (Hop : ps_ops row !! op_id op = Some op)
  (Hkey : op_idempotency_key op = idem_key i n) (Hn : 0 ≤ n) (Hpos : ce_index pos = n)
  (Ht : in_turn turnID i row).

Lemma stored_turn : in_turn (op_turn_id op) i row.
Proof.
  destruct (li_call _ _ _ _ (ri_ledger _ HI) _ _ Hop) as (i' & n' & [Hk Hn' _] & Hl).
  rewrite Hkey in Hk. apply idem_key_inj in Hk as [<- <-]; [|done|done].
  by apply lineage_in_turn.
Qed.

(** A spent grant settles the operation it was for. *)
Lemma spend_evolves a row_n st resp :
  ps_approvals row !! (i, n) = Some a → ap_operation_id a = op_id op →
  ap_status a = Approved → ap_consumed_at a = None →
  op_status op = OpAwaitingApproval → st = OpDone ∨ st = OpFailed →
  beside (row <| ps_approvals ::= alter (λ a, a <| ap_consumed_at := Some now |>) (i, n) |>)
    row_n →
  evolves row (upd_op (op_id op) (settle_op now st resp) row_n).
Proof.
  intros Ha Hao Hap Hac Hos Hst [HO HA HT HP _ He].
  specialize (He (ps_ops row) (ps_approvals row)).
  replace (swap _ _ (row <| ps_approvals ::= _ |>)) with row in He by by destruct row.
  etrans; [exact He|]. clear He. set (X := swap (ps_ops row) (ps_approvals row) row_n).
  simpl in HO, HA, HT, HP.
  assert (upd_op (op_id op) (settle_op now st resp) row_n
    = swap (<[op_id op := settle_op now st resp op]> (ps_ops row))
        (<[(i, n) := a <| ap_consumed_at := Some now |>]> (ps_approvals row)) X) as ->.
  { unfold X, swap, upd_op. simpl. rewrite HO, (alter_found _ _ _ op Hop).
    rewrite (alter_found _ _ _ a Ha) in HA. rewrite <-HA. done. }
  apply ledger_step_evolves.
  - intros HX. eapply ledger_inv_settle; try done.
    + by right.
    + right. right. by split_and!.
    + simpl. congruence.
    + apply (ri_ledger _ HX).
  - apply (table_hist_insert op_hist). intros o Ho. simpl in Ho. rewrite Hop in Ho.
    injection Ho as <-. split; try done. intros [?|?]; congruence.
  - apply (table_hist_insert approval_hist). intros b Hb. simpl in Hb. rewrite Ha in Hb.
    injection Hb as <-. split; try done. simpl. congruence.
  - intros j v _ _. apply pending_kept_parked. intros k b Hb Hp. simpl in Hb. destruct (decide (k = (i, n))) as [->|Hne]; [congruence|].
    exists b. by rewrite lookup_insert_ne.
Qed.

Lemma run_approved_evolves a c row' :
  ps_approvals row !! (i, n) = Some a → ap_operation_id a = op_id op →
  ap_status a = Approved → ap_consumed_at a = None → op_status op = OpAwaitingApproval →
  run_approved tl now nanos p turnID i pos op a row = Ok (c, row') → evolves row row'.
Proof.
  intros Ha Hao Hap Hac Hos H. unfold run_approved in H. rewrite Hpos in H.
  apply bind_ok in H as (u & s & [= _ Hs] & H). apply bind_ok in H as (u1 & s1 & Hexp & H).
  apply bind_ok in H as (out & s2 & Heff & H).
  assert (beside s s1) as Hb1.
  { eapply journalExperienceTx_beside; [|apply erec_decided|exact Hexp]. by rewrite <-Hs. }
  assert (beside s1 s2) as Hb2.
  { pose proof (internalToolResponse_beside tl now nanos p (op_turn_id op) i (op_tool op) n
      (op_idempotency_key op) (op_request op) s1) as Hi.
    destruct (internalToolResponse _ _ _ _ _ _ _ _ _ _ s1) as [s' r].
    injection Heff as _ <-. apply Hi; [eapply in_turn_beside; [done|]; rewrite <-Hs; exact stored_turn|].
    eapply (beside_ids _ _ (ps_ops row) (ps_approvals row)); [done|]. rewrite <-Hs.
    by destruct row. }
  assert (∀ st resp op' s3 u a' s4, st = OpDone ∨ st = OpFailed →
    finish_op now st resp op s2 = Ok (op', s3) →
    journalOutcomeTx now turnID i pos op' a' s3 = Ok (u, s4) → evolves row s4) as Hend.
  { intros st resp op' s3 u' a' s4 Hst [-> ->]%finish_op_ok Hj. etrans.
    - eapply (spend_evolves a s2 st resp); try done.
      assert (beside s s2) as Hb by by etrans. rewrite <-Hs in Hb. exact Hb.
    - apply beside_evolves. eapply journalOutcomeTx_beside; [|exact Hj].
      change (in_turn turnID i s2). do 2 (eapply in_turn_beside; [done|]). by rewrite <-Hs. }
  clear Hpos. destruct out as [[response|]|[]]; inv_tx;
    (eapply Hend; [|eassumption..]; auto).
Qed.

(** What a stored operation's claim does under the invariant: it only
    journals, or spends the open grant. *)
Lemma gated_decision_cases c row' :
  op_status op = OpAwaitingApproval →
  gated_decision tl now nanos p turnID i pos op false row = Ok (c, row') →
  ∃ a, ps_approvals row !! (i, n) = Some a ∧ ap_operation_id a = op_id op ∧
    ((ap_status a = Pending ∧ beside row row' ∧ journals row row' ∧ c = (op, Some a, false)) ∨
     (ap_status a = Approved ∧ ap_consumed_at a = None ∧
        run_approved tl now nanos p turnID i pos op a row = Ok (c, row'))).
Proof.
  intros Hst H. unfold gated_decision in H. rewrite Hpos in H.
  apply bind_ok in H as (found & s & [= <- <-] & H). unfold approvalForCall in H.
  destruct (li_await _ _ _ _ (ri_ledger _ HI) _ _ i n Hop Hst Hkey Hn) as (a & Ha & Hao & Hopen).
  rewrite Ha in H. exists a. split_and!; [done|done|].
  destruct Hopen as [Hp|[Hp Hc]]; rewrite Hp, ?Hc in H.
  - left. clear Hpos. inv_tx. split_and!; [done| | |done].
    + by eapply journalExperienceTx_beside; [|apply erec_awaiting|].
    + by eapply journalExperienceTx_journals.
  - right. by rewrite Hc.
Qed.

Lemma claimGated_stored_evolves route requiredBy c row' :
  claimGated tl now nanos p turnID i pos op route requiredBy false row = Ok (c, row') →
  evolves row row'.
Proof.
  unfold claimGated. destruct (bool_decide_reflect (op_status op = OpAwaitingApproval)) as [Hst|Hst];
    simpl; intros H.
  - apply gated_decision_cases in H as (a & Ha & Hao & [(_ & Hb & _)|(Hp & Hc & Hrun)]); [| |done].
    + by apply beside_evolves.
    + by eapply run_approved_evolves.
  - apply bind_ok in H as (a & s & [= <- <-] & H). clear Hpos. inv_tx.
    apply beside_evolves. by eapply journalOutcomeTx_beside.
Qed.
End stored.

(** The replay of a settled operation journals and answers what was
    recorded; nothing else happens. *)
Lemma claim_stored_settled row turnID i tool g r pos req op c row' :
  op_settled op →
  claim_stored tl now nanos p turnID i tool g r pos req op row = Ok (c, row') →
  journals row row' ∧ c.2 = false ∧ op_request op = r ∧
  c.1.1 = op <| op_response := op_response c.1.1 |> ∧
  (is_job_tool tool = false → op_response c.1.1 = op_response op).
Proof.
  intros Hset H. unfold claim_stored in H.
  destruct (jsonbEqual _ _) eqn:Heq; [|done]. simpl in H.
  assert (op_request op = r) as <-.
  { unfold jsonbEqual in Heq. by apply bool_decide_eq_true_1 in Heq. }
  rewrite (bool_decide_eq_false_2 (op_status op = OpRunning)) in H
    by (destruct Hset; congruence). simpl in H.
  apply bind_ok in H as (cur & s & [= <- <-] & H). cbv zeta in H.
  set (op1 := if is_job_tool tool && _ then _ else op) in H.
  assert (op1 = op <| op_response := op_response op1 |> ∧
          (is_job_tool tool = false → op_response op1 = op_response op)) as [Hop1 Hresp].
  { unfold op1. destruct (is_job_tool tool); simpl; [|by destruct op].
    destruct (bool_decide _); by destruct op. }
  assert (op_status op1 = op_status op) as Hst by by rewrite Hop1.
  destruct (bool_decide (req = "")).
  - inv_tx. split_and!; try done. by eapply journalOutcomeTx_journals.
  - unfold claimGated in H. rewrite (bool_decide_eq_false_2 (op_status op1 = _)) in H
      by (rewrite Hst; destruct Hset; congruence). simpl in H. inv_tx.
    split_and!; try done. by eapply journalOutcomeTx_journals.
Qed.

Lemma claim_stored_evolves row turnID i n tool g r pos req op c row' :
  row_inv row → ps_ops row !! op_id op = Some op → op_idempotency_key op = idem_key i n →
  0 ≤ n → ce_index pos = n → in_turn turnID i row →
  claim_stored tl now nanos p turnID i tool g r pos req op row = Ok (c, row') → evolves row row'.
Proof.
  intros HI Hop Hkey Hn Hpos Ht H.
  assert (op_settled op ∨ op_status op = OpAwaitingApproval) as [Hset|Hst].
  { pose proof (li_settled _ _ _ _ (ri_ledger _ HI) _ _ Hop) as Hnr. unfold op_settled.
    destruct (op_status op); auto. done. }
  - pose proof (claim_stored_settled _ _ _ _ _ _ _ _ _ _ _ Hset H) as (Hjo & _).
    apply journals_evolves; [done|]. intros HJ. unfold claim_stored in H.
    destruct (negb _); [done|].
    rewrite (bool_decide_eq_false_2 (op_status op = OpRunning)) in H
      by (destruct Hset; congruence). simpl in H. destruct Ht as (x & Hx & Hi). subst i.
    unfold claimGated in H. clear Hpos.
    inv_tx; try (by eapply journalOutcomeTx_inv).
    all: reflect_bools; exfalso; destruct Hset, (is_job_tool tool), (bool_decide (op_status op = OpDone));
      simpl in *; congruence.
  - unfold claim_stored in H. destruct (negb _); [done|].
    rewrite Hst in H. simpl in H. rewrite andb_false_r in H.
    apply bind_ok in H as (cur & s & [= <- <-] & H).
    destruct (bool_decide (req = "")).
    + clear Hpos. inv_tx. apply beside_evolves. by eapply journalOutcomeTx_beside.
    + by eapply claimGated_stored_evolves.
Qed.

Lemma claim_position_evolves row turnID x g opID tool r pos n c row' :
  row_inv row → ps_turns row !! turnID = Some x →
  planPosition (planForInput (tu_input_id x) row) n = Some pos →
  pc_tool (ce_call pos) = tool → pc_request (ce_call pos) = r →
  claim_position tl now nanos p turnID (tu_input_id x) g opID tool r pos row = Ok (c, row') →
  evolves row row'.
Proof.
  intros HI Hx Hpos Htool Hreq H. set (i := tu_input_id x) in *.
  pose proof (plan_call_position _ _ _ _ Hpos) as (Hc & Hidx & Hn).
  assert (in_turn turnID i row) as Ht by by exists x.
  unfold claim_position in H. rewrite Hidx in H.
  set (req := approvalRequirement _ _) in H. set (st := if bool_decide _ then _ else _) in H.
  set (op := new_op _ _ _ _ _ _ _ _) in H.
  apply bind_ok in H as (stored & s & Hins & H).
  apply insert_op_ok in Hins as [(k & o & -> & -> & Hby)|(-> & -> & Hk & Hby)].
  - apply operationByKey_Some in Hby as (Ho & _ & Hkey).
    pose proof (li_id _ _ _ _ (ri_ledger _ HI) _ _ Ho) as Hid. rewrite <-Hid in Ho.
    exact (claim_stored_evolves row turnID i n _ _ _ _ _ _ _ _ HI Ho Hkey Hn Hidx Ht H).
  - simpl in Hk, Hby. rewrite <-Htool in Hby.
    pose proof (fresh_key _ _ _ _ HI Hpos Hby) as Hfresh.
    assert (op_call (ps_plans row) op i n) as Hcall.
    { split; [done|done|]. exists (ce_call pos). by split_and!. }
    unfold st in *. destruct (bool_decide_reflect (req = "")) as [Hun|].
    + exact (claim_fresh_evolves row op turnID i n pos HI Hk Hfresh Hcall Ht Ht Hc Htool _ _ _ Hun H).
    + exact (claimGated_fresh_evolves row op turnID i n pos HI Hk Hfresh Hcall Ht Ht Hc _ _ _ _
               eq_refl Hidx H).
Qed.

Lemma claim_tx_inv turnID g opID tool n r row c row' :
  claim_tx tl now nanos p turnID g opID tool n r row = Ok (c, row') →
  ∃ x pos, ps_turns row !! turnID = Some x ∧ live_turn g x = true ∧
    planPosition (planForInput (tu_input_id x) row) n = Some pos ∧
    pc_tool (ce_call pos) = tool ∧ pc_request (ce_call pos) = r ∧
    claim_position tl now nanos p turnID (tu_input_id x) g opID tool r pos row = Ok (c, row').
Proof.
  unfold claim_tx. intros H. destruct (ps_turns row !! turnID) as [x|]; [|done].
  destruct (live_turn g x) eqn:Hlive; [|done]. simpl in H. destruct (n <? 0); [done|].
  destruct (planPosition _ n) as [pos|] eqn:Hpos; [|done].
  destruct (bool_decide _ && _) eqn:Hm; [|done]. apply andb_true_iff in Hm as [Ht Hr].
  reflect_bools. unfold jsonbEqual in Hr.
  exists x, pos. split_and!; done.
Qed.

Lemma claim_tx_evolves turnID g opID tool n r :
  steps evolves (claim_tx tl now nanos p turnID g opID tool n r).
Proof.
  intros row c row' (x & pos & Hx & _ & Hpos & Ht & Hr & H)%claim_tx_inv HI.
  by eapply claim_position_evolves.
Qed.

Lemma rejected_evolves turnID g n tool r e :
  steps evolves (journalRejectedClaim now turnID g n tool r e).
Proof.
  intros row u row' H. apply journals_evolves.
  - by eapply journalRejectedClaim_journals.
  - by eapply journalRejectedClaim_inv.
Qed.

(** No committed operation is running, so completing one replays it. *)
Lemma complete_op_tx_stored opID g resp failed row o row' :
  row_inv row → complete_op_tx now opID g resp failed row = Ok (o, row') →
  row' = row ∧ ps_ops row !! opID = Some o.
Proof.
  intros HI. unfold complete_op_tx. destruct (ps_ops row !! opID) as [op|] eqn:Ho; [|done].
  rewrite bool_decide_eq_false_2 by by eapply (li_settled _ _ _ _ (ri_ledger _ HI)).
  by intros [= -> ->].
Qed.
End claims.

(** ** A human's decision *)

Lemma approval_by_id_Some aid row k a :
  approval_by_id aid row = Some (k, a) → ps_approvals row !! k = Some a ∧ ap_id a = aid.
Proof.
  unfold approval_by_id. intros [Hin Hp]%find_some. simpl in Hp. reflect_bools.
  split; [|done]. apply elem_of_map_to_list. by apply list_elem_of_In.
Qed.

Lemma appendEventsTx_on now t es row u row' rowb :
  appendEventsTx now t es row = Ok (u, row') → ps_events rowb = ps_events row →
  appendEventsTx now t es rowb = Ok (u, rowb <| ps_events := ps_events row' |>).
Proof.
  unfold appendEventsTx. intros H He. repeat case_match; simplify_eq/=. by rewrite He.
Qed.

(** A parked input goes back to the queue. *)
Lemma resumed_evolves now row k i :
  ps_inputs row !! k = Some i → in_status i = Waiting →
  evolves row (upd_input k (resumed now) row).
Proof.
  intros Hi Hw [H1 H2 H3 H4 H5 H6 H7 H8 H9 H10 H11 H12 H13].
  assert (views (upd_input k (resumed now) row) = <[k := queued_view]> (views row)) as HV.
  { by rewrite (views_upd_Some row k _ i). }
  assert (views row !! k = Some (view i)) as Hvk by (apply views_lookup; eauto).
  assert (∀ j, is_Some (<[k := queued_view]> (views row) !! j) ↔ is_Some (views row !! j)) as Hdom
    by (apply insert_dom; eauto).
  split.
  - split; rewrite ?HV; try done.
    + eapply journal_inv_frame; [|done]. split; [done| |by intros t x Hx; eauto].
      intros j. unfold received, upd_input. simpl. destruct (decide (k = j)) as [<-|].
      * by rewrite lookup_alter_eq, Hi.
      * by rewrite lookup_alter_ne.
    + eapply machine_inv_unclaimed; try done. simpl. by rewrite Hw.
    + intros j v [[<- <-]|[_ Hv]]%lookup_insert_Some; [done|by eapply H3].
    + apply terminal_inv_insert; [|done]. split; [done|]. intros (v & Hv & Hd).
      rewrite Hvk in Hv. injection Hv as <-. simpl in Hd. congruence.
    + by eapply slot_inv_dom.
    + by eapply slot_inv_dom.
    + keep_terms row.
  - solve_hist. apply (table_hist_alter input_hist). intros x Hx. rewrite Hi in Hx.
    injection Hx as <-. split; try done. simpl. congruence.
Qed.

Lemma requeue_waiting_evolves now row k : evolves row (upd_input k (requeue_waiting now) row).
Proof.
  destruct (ps_inputs row !! k) as [i|] eqn:Hi.
  - assert (upd_input k (requeue_waiting now) row
      = if bool_decide (in_status i = Waiting) then upd_input k (resumed now) row else row) as ->.
    { unfold upd_input. simpl. rewrite !(alter_found _ _ _ i Hi). unfold requeue_waiting.
      case_bool_decide; [done|]. rewrite insert_id by done. by destruct row. }
    case_bool_decide; [|done]. by eapply resumed_evolves.
  - assert (upd_input k (requeue_waiting now) row = row) as ->; [|done].
    unfold upd_input. simpl. rewrite alter_absent by done. by destruct row.
Qed.

Lemma requeue_waiting_not now row k v :
  views (upd_input k (requeue_waiting now) row) !! k = Some v → v_status v ≠ Waiting.
Proof.
  rewrite views_lookup. intros (i & Hi & ->). unfold upd_input in Hi. simpl in Hi.
  rewrite lookup_alter_eq in Hi. apply fmap_Some in Hi as (x & _ & ->).
  unfold requeue_waiting. by case_bool_decide.
Qed.

(** The ledger side of a decision. *)
Definition decide_op (now : Z) (req : ApprovalDecision) (a : ToolApproval) (o : Operation)
    : Operation :=
  if bool_decide (ad_decision req = "deny_once")
  then deny_op now (denied_response req a) o else o.

Definition decided_row (now : Z) (req : ApprovalDecision) (k : string * Z) (a : ToolApproval)
    (o : Operation) (row : PersonaRow) : PersonaRow :=
  swap (<[ap_operation_id a := decide_op now req a o]> (ps_ops row))
    (<[k := decide_approval now req a]> (ps_approvals row)) row.

Lemma resolve_pending_ok now req k a row a' row' :
  resolve_pending now req k a row = Ok (a', row') →
  ∀ o, ps_ops row !! ap_operation_id a = Some o →
  a' = decide_approval now req a ∧ ∃ u row1,
    appendEventsTx now (ap_turn_id a) [decided_event req a'] row = Ok (u, row1) ∧
    row' = decided_row now req k a o (upd_input (ap_input_id a) (requeue_waiting now) row)
             <| ps_events := ps_events row1 |>.
Proof.
  unfold resolve_pending. cbv zeta. intros H o Ho.
  apply bind_ok in H as (u & s & [_ ->]%guard_ok & H).
  apply bind_ok in H as (u1 & s1 & [= _ Hs1] & H). apply bind_ok in H as (u2 & s2 & Hop & H).
  apply bind_ok in H as (u3 & s3 & Hev & H). apply bind_ok in H as (u4 & s4 & [= _ Hs4] & [= <- Hrow]).
  split; [done|]. assert (s2 = decided_row now req k a o row) as Hs2.
  { unfold decided_row, decide_op, swap. case_bool_decide.
    - injection Hop as _ <-. rewrite <-Hs1. unfold upd_op. simpl.
      by rewrite (alter_found _ _ _ o Ho).
    - injection Hop as _ <-. rewrite <-Hs1. rewrite (insert_id (ps_ops row)) by done. done. }
  pose proof (appendEventsTx_on _ _ _ _ _ _ row Hev) as Hrow1.
  rewrite Hs2 in Hrow1. specialize (Hrow1 eq_refl).
  eexists _, _. split; [exact Hrow1|]. pose proof (appendEventsTx_ok _ _ _ _ _ _ Hev) as Hs3.
  rewrite <-Hrow, <-Hs4, Hs3, Hs2. done.
Qed.

Lemma decide_op_hist now req a o :
  op_status o = OpAwaitingApproval → op_hist o (decide_op now req a o).
Proof.
  intros Ho. unfold decide_op, deny_op. repeat case_bool_decide; split; try done;
    intros [?|?]; congruence.
Qed.

Lemma decide_approval_hist now req a :
  ap_status a = Pending → approval_hist a (decide_approval now req a).
Proof. intros Hp. by split. Qed.

Lemma decided_evolves now req k a o row :
  ps_approvals row !! k = Some a → ap_status a = Pending →
  ps_ops row !! ap_operation_id a = Some o →
  ad_decision req = "approve_once" ∨ ad_decision req = "deny_once" →
  (∀ v, views row !! k.1 = Some v → v_status v ≠ Waiting) →
  evolves row (decided_row now req k a o row).
Proof.
  intros Ha Hp Ho Hdec Hnw HI. destruct k as [i n].
  destruct (li_approval _ _ _ _ (ri_ledger _ HI) i n a Ha)
    as [_ _ (o0 & Ho0 & _ & _ & _ & Hopen & _) Hun].
  rewrite Ho in Ho0. injection Ho0 as <-. specialize (Hopen (or_introl Hp)).
  revert HI. apply ledger_step_evolves.
  - intros HI. eapply (ledger_inv_settle _ _ _ _ _ o _ _ _ a); [..|apply (ri_ledger _ HI)];
      try done.
    1: by left.
    1-5: unfold decide_op, deny_op; by repeat case_bool_decide.
    + unfold decide_op, deny_op, decide_approval, grant_open. simpl. rewrite Hopen.
      destruct Hdec as [-> | ->]; simpl; [left|right; left; done]. rewrite Hun by done.
      split; [by right|done].
    + simpl. by case_bool_decide.
  - apply (table_hist_insert op_hist). intros x Hx. rewrite Ho in Hx. injection Hx as <-.
    by apply decide_op_hist.
  - apply (table_hist_insert approval_hist). intros x Hx. rewrite Ha in Hx. injection Hx as <-.
    by apply decide_approval_hist.
  - intros j v Hv Hw [(m & b & Hb & Hs)|?]; [left|by right]. exists m, b. split; [|done].
    rewrite lookup_insert_ne; [done|]. intros [= <- <-]. by apply (Hnw v).
Qed.

Lemma resolve_pending_evolves now req k a row a' row' :
  ps_approvals row !! k = Some a → ap_status a = Pending →
  ad_decision req = "approve_once" ∨ ad_decision req = "deny_once" →
  resolve_pending now req k a row = Ok (a', row') → evolves row row'.
Proof.
  intros Ha Hp Hdec H HI. destruct k as [i n].
  destruct (li_approval _ _ _ _ (ri_ledger _ HI) i n a Ha)
    as [(Hi & Hn & _) Ht (o & Ho & _) _].
  apply (resolve_pending_ok _ _ _ _ _ _ _ H) in Ho as Hok.
  destruct Hok as (-> & u & row1 & Hev & ->). revert HI.
  set (rowq := upd_input (ap_input_id a) (requeue_waiting now) row).
  set (rowd := decided_row now req (i, n) a o rowq).
  match goal with |- row_inv ?r → row_inv ?r' ∧ _ => change (evolves r r') end.
  etrans; [apply requeue_waiting_evolves|].
  transitivity rowd; [apply (decided_evolves now req (i, n) a o rowq Ha Hp Ho Hdec)|].
  { intros v Hv. simpl in Hv. rewrite <-Hi in Hv. by apply requeue_waiting_not in Hv. }
  pose proof (appendEventsTx_on _ _ _ _ _ _ rowd Hev eq_refl) as Hevd.
  apply journals_evolves; [by eapply appendEventsTx_journals|]. intros HJ.
  apply lineage_in_turn in Ht as (x & Hx & _).
  refine (append_unkeyed_inv _ _ _ _ _ _ _ HJ Hx _ _ Hevd); [reflexivity|].
  unfold omap, list_omap, decided_event. by rewrite ekey_other.
Qed.

Lemma resolve_tx_evolves now aid req :
  decision_ok req = Ok tt → steps evolves (resolve_tx now aid req).
Proof.
  intros Hdec row a' row' H. unfold resolve_tx in H. inv_tx; [|done].
  match goal with H : approval_by_id _ _ = Some _ |- _ => apply approval_by_id_Some in H as [Hk _] end.
  reflect_bools. eapply resolve_pending_evolves; [exact Hk|done| |done].
  unfold decision_ok in Hdec. destruct (bool_decide_reflect (ad_decision req = "approve_once" ∨ ad_decision req = "deny_once")); done.
Qed.
