(* ===== verification/UsageFacts.v ===== *)
(** * The usage ledger keeps its amounts and the invariant

    Admission, recording, reconciliation and the release of parked inputs
    move the database along [db_evolves]; reconciliation turns the holds of
    calls without a record into spend of the same amount. *)

From Stdlib Require Import ZArith Lia.
From S2P Require Import MemoryState MemoryShape.
From S2P Require Import Prelude Json State Personas Inputs Journal Plans Pricing Usage Approvals.
From S2P Require Import Machine History Ledger Invariant Database OperationFacts.
Local Open Scope string_scope.
Local Open Scope list_scope.
Local Open Scope Z_scope.

(** ** Sums *)

Lemma fact_cost_nonneg kind id cur row :
  amounts_ok row → 0 ≤ row_spent kind id cur row.
Proof.
  intros [_ Hf]. apply msum_nonneg. intros k f Hk. unfold fact_cost.
  case_bool_decide; [|done]. destruct (uf_cost_minor f) eqn:Hc; simpl; [by eapply Hf|done].
Qed.
Lemma hold_nonneg kind id cur row : amounts_ok row → 0 ≤ row_held kind id cur row.
Proof.
  intros [Hr _]. apply msum_nonneg. intros k r Hk. unfold reservation_hold.
  case_bool_decide; [by eapply Hr|done].
Qed.

Lemma totals_nonneg kind id cur db :
  db_inv db → 0 ≤ total_spent kind id cur db ∧ 0 ≤ total_held kind id cur db.
Proof.
  intros HI. split; apply msum_nonneg; intros p row Hp.
  - by apply fact_cost_nonneg, ri_amounts, (HI p).
  - by apply hold_nonneg, ri_amounts, (HI p).
Qed.

(** ** Reconciliation conserves *)

(** A hold that never got its record becomes spend of the same amount. *)
Lemma unrecorded_cost kind id cur now r :
  rs_status r = Held → fact_cost kind id cur (unrecorded_fact now r) = reservation_hold kind id cur r.
Proof.
  intros Hh. unfold fact_cost, reservation_hold. simpl. repeat case_bool_decide; try naive_solver.
  destruct_and!. by rewrite H4.
Qed.

Lemma settled_hold kind id cur now r : reservation_hold kind id cur (settle now Settled r) = 0.
Proof. unfold reservation_hold. simpl. rewrite bool_decide_eq_false_2; [done|]. naive_solver. Qed.

(** The holds a reconciliation covers, and those of them whose call has a
    record already. *)
Definition covered_holds (turnID : string) (below : option Z) (row : PersonaRow)
    : gmap string Reservation :=
  filter (λ kr, reconciled turnID below kr.2 = true) (ps_reservations row).
Definition recorded_holds (turnID : string) (below : option Z) (row : PersonaRow)
    : gmap string Reservation :=
  filter (λ kr, is_Some (ps_facts row !! kr.1)) (covered_holds turnID below row).

Lemma covered_holds_spec turnID below row k r :
  covered_holds turnID below row !! k = Some r ↔
  ps_reservations row !! k = Some r ∧ reconciled turnID below r = true.
Proof. unfold covered_holds. by rewrite map_lookup_filter_Some. Qed.

Section reconcile.
Context (now : Z) (turnID : string) (below : option Z) (row : PersonaRow).
Let hit := covered_holds turnID below row.
Let known := recorded_holds turnID below row.
Let fresh := filter (λ kr : string * Reservation, ¬ is_Some (ps_facts row !! kr.1)) hit.

Lemma fresh_facts :
  ps_facts row ∪ (unrecorded_fact now <$> hit) = ps_facts row ∪ (unrecorded_fact now <$> fresh).
Proof.
  apply map_eq. intros k. rewrite !lookup_union, !lookup_fmap.
  destruct (ps_facts row !! k) as [f|] eqn:Hf; [by destruct (hit !! k), (fresh !! k)|].
  assert (fresh !! k = hit !! k) as ->; [|done]. unfold fresh.
  destruct (hit !! k) as [r|] eqn:Hr.
  - apply map_lookup_filter_Some. split; [done|]. simpl. rewrite Hf. by intros [? ?].
  - apply map_lookup_filter_None. by left.
Qed.

(** The hold of a call without a record becomes spend of the same amount. *)
Lemma reconcile_spent kind id cur row' :
  reconcileHeldReservations now turnID below row = Ok (tt, row') →
  row_spent kind id cur row' + msum (reservation_hold kind id cur) known
    = row_spent kind id cur row + msum (reservation_hold kind id cur) hit.
Proof.
  intros [= <-]. fold (covered_holds turnID below row) hit. unfold row_spent. simpl.
  rewrite fresh_facts, msum_union.
  - assert (hit = known ∪ fresh) as Hhit by (symmetry; apply map_filter_union_complement).
    assert (known ##ₘ fresh) as Hd by apply map_disjoint_filter_complement.
    rewrite Hhit, (msum_union _ known fresh Hd), msum_fmap.
    rewrite (msum_ext (fact_cost kind id cur ∘ unrecorded_fact now)
               (reservation_hold kind id cur) fresh); [lia|].
    intros k r [Hk _]%map_lookup_filter_Some. apply unrecorded_cost.
    apply covered_holds_spec in Hk as [_ Hk]. unfold reconciled in Hk. by reflect_bools.
  - apply map_disjoint_spec. intros k f g Hf Hg. rewrite lookup_fmap in Hg.
    apply fmap_Some in Hg as (r & [_ Hr]%map_lookup_filter_Some & _). apply Hr. simpl. by rewrite Hf.
Qed.

(** Every covered hold is closed. *)
Lemma reconcile_held kind id cur row' :
  reconcileHeldReservations now turnID below row = Ok (tt, row') →
  row_held kind id cur row' = row_held kind id cur row - msum (reservation_hold kind id cur) hit.
Proof.
  intros [= <-]. fold (covered_holds turnID below row) hit. unfold row_held. simpl.
  set (rest := filter (λ kr : string * Reservation, ¬ reconciled turnID below kr.2 = true)
                 (ps_reservations row)).
  assert (ps_reservations row = hit ∪ rest) as Hsplit
    by (symmetry; apply map_filter_union_complement).
  assert (hit ##ₘ rest) as Hd by apply map_disjoint_filter_complement.
  assert ((settle now Settled <$> hit) ∪ ps_reservations row
    = (settle now Settled <$> hit) ∪ rest) as ->.
  { rewrite Hsplit, (assoc_L (∪)). f_equal. apply map_eq. intros k.
    rewrite lookup_union, lookup_fmap. by destruct (hit !! k). }
  rewrite Hsplit, !msum_union; [|done|].
  - rewrite msum_fmap, (msum_ext _ (λ _, 0)) by (intros; apply settled_hold).
    assert (∀ m : gmap string Reservation, msum (λ _, 0) m = 0) as ->; [|lia].
    intros m. induction m as [|k r m Hk IH] using map_ind; [done|].
    by rewrite msum_insert_new, IH.
  - apply map_disjoint_spec. intros k x y Hx Hy. rewrite lookup_fmap in Hx.
    apply fmap_Some in Hx as (r & Hr & _). by eapply map_disjoint_spec.
Qed.
End reconcile.

(** ** Releasing parked inputs *)

Section usage_facts.
Context `{GL : !GoLib}.

Lemma pending_approval_spec k row :
  pending_approval k row = true ↔
  ∃ n a, ps_approvals row !! (k, n) = Some a ∧ ap_status a = Pending.
Proof.
  unfold pending_approval. rewrite existsb_exists. split.
  - intros ([[j n] a] & Hin & Hb). apply bool_decide_eq_true_1 in Hb as [Hj Hs]. simpl in *.
    subst j. exists n, a. split; [|done]. by apply elem_of_map_to_list, list_elem_of_In.
  - intros (n & a & Ha & Hs). exists ((k, n), a). split.
    + by apply list_elem_of_In, elem_of_map_to_list.
    + by apply bool_decide_eq_true_2.
Qed.

(** The waits of some inputs are dropped and those inputs that nothing
    else holds are requeued: [ks] are the inputs to visit. *)
Definition unwaited (ks : list string) (row : PersonaRow) : Prop :=
  ∀ k i, ps_inputs row !! k = Some i → in_status i = Waiting →
    parked (ps_approvals row) (ps_waits row) k ∨ k ∈ ks.

(** [row_inv] but for the inputs still to visit. *)
Definition resuming (ks : list string) (row : PersonaRow) : Prop :=
  unwaited ks row ∧
  ∃ W, row_inv (row <| ps_waits := W |>).

Lemma waits_row_inv row W W' :
  row_inv (row <| ps_waits := W |>) →
  (∀ k i, ps_inputs row !! k = Some i → in_status i = Waiting → parked (ps_approvals row) W' k) →
  row_inv (row <| ps_waits := W' |>).
Proof.
  intros [H1 H2 H3 H4 H5 H6 H7 H8 H9 H10 H11 H12 H13] Hp. split; try done.
  - eapply journal_inv_frame; [|exact H1]. split; [done|done|]. intros t x Hx. eauto.
  - intros k v (i & Hi & ->)%views_lookup Hw. by eapply Hp.
Qed.

Lemma requeue_parked_step now k ks row b row' :
  resuming (k :: ks) row → requeue_parked now k row = Ok (b, row') →
  resuming ks row' ∧ row_hist row row' ∧ ps_waits row' = ps_waits row.
Proof.
  intros [Hu (W & HI)] H. unfold requeue_parked in H.
  destruct (ps_inputs row !! k) as [i|] eqn:Hi.
  - destruct (bool_decide (in_status i = Waiting)) eqn:Hw;
      [destruct (pending_approval k row) eqn:Hpa|]; simpl in H; simplify_eq.
    + split; [|by split]. split; [|by exists W]. intros j x Hj Hwj.
      destruct (Hu j x Hj Hwj) as [?|[->|?]%elem_of_cons]; auto.
      left. left. by apply pending_approval_spec.
    + reflect_bools.
      assert (∃ roww, roww = row <| ps_waits := W |>) as [roww Hroww] by by eexists.
      rewrite <-Hroww in HI. assert (ps_inputs roww !! k = Some i) as Hi' by by rewrite Hroww.
      destruct (resumed_evolves now roww k i Hi' Hw HI) as [HI' Hh]. subst roww.
      split; [|split; [|done]].
      * split; [|by exists W]. intros j x Hj Hwj. unfold upd_input in Hj. simpl in Hj.
        destruct (decide (k = j)) as [<-|Hne].
        -- rewrite lookup_alter_eq, Hi in Hj. injection Hj as <-. done.
        -- rewrite lookup_alter_ne in Hj by done.
           by destruct (Hu j x Hj Hwj) as [?|[->|?]%elem_of_cons]; [left| |right].
      * destruct Hh. by split.
    + split; [|by split]. split; [|by exists W]. intros j x Hj Hwj.
      destruct (Hu j x Hj Hwj) as [?|[->|?]%elem_of_cons]; auto.
      reflect_bools. congruence.
  - simplify_eq. split; [|by split]. split; [|by exists W]. intros j x Hj Hwj.
    destruct (Hu j x Hj Hwj) as [?|[->|?]%elem_of_cons]; auto. congruence.
Qed.

Lemma resuming_nil row : resuming [] row → row_inv row.
Proof.
  intros [Hu (W & HI)]. replace row with (row <| ps_waits := ps_waits row |>) by by destruct row.
  eapply waits_row_inv; [exact HI|]. intros k i Hi Hw.
  destruct (Hu k i Hi Hw) as [?|?%not_elem_of_nil]; done.
Qed.

Lemma requeue_all now ks row n row' :
  resuming ks row → for_count ks (requeue_parked now) row = Ok (n, row') →
  row_inv row' ∧ row_hist row row'.
Proof.
  revert row n. induction ks as [|k ks IH]; intros row n Hr; simpl.
  - intros [= _ <-]. split; [by apply resuming_nil|done].
  - intros H. apply bind_ok in H as (b & s & Hb & H). apply bind_ok in H as (m & s1 & Hm & [= _ <-]).
    destruct (requeue_parked_step _ _ _ _ _ _ Hr Hb) as (Hr' & Hh & _).
    destruct (IH _ _ Hr' Hm) as [HI Hh']. split; [done|]. by etrans.
Qed.

Lemma release_waits_evolves now : steps evolves (release_waits now).
Proof.
  intros row n row' H HI. unfold release_waits in H.
  apply bind_ok in H as (ws & s & [= <- <-] & H). apply bind_ok in H as (u & s1 & [= _ <-] & H).
  eapply requeue_all in H; [destruct H as [? []]; by split; [|split]|]. split.
  - intros k i Hi Hw. assert (views row !! k = Some (view i)) as Hv by (apply views_lookup; eauto).
    destruct (ri_waiting _ HI k _ Hv Hw) as [?|[w Hwk]]; [by left; left|right].
    apply list_elem_of_fmap. exists (k, w). split; [done|]. by apply elem_of_map_to_list.
  - exists (ps_waits row). by destruct row.
Qed.

Lemma release_human_evolves now h : steps evolves (release_human now h).
Proof.
  intros row n row' H. unfold release_human in H. case_bool_decide; [|by injection H as _ <-].
  by eapply release_waits_evolves.
Qed.

Lemma resume_wait_evolves now room w : steps evolves (resume_wait now room w).
Proof.
  intros row b row' H HI. unfold resume_wait in H.
  destruct (fit room (bw_estimate w.2)) as [[[] needed]|e]; [| |by injection H as _ <-].
  - apply bind_ok in H as (u & s & [= _ <-] & H).
    eapply (requeue_parked_step now w.1 []) in H as (Hr & Hh & _).
    + split; [by apply resuming_nil|]. destruct Hh. by split.
    + split; [|exists (ps_waits row); by destruct row].
      intros k i Hi Hw. assert (views row !! k = Some (view i)) as Hv
        by (apply views_lookup; eauto).
      destruct (decide (w.1 = k)) as [->|Hne]; [right; left|].
      left. destruct (ri_waiting _ HI k _ Hv Hw) as [?|Hwk]; [by left|right].
      simpl. by rewrite lookup_delete_ne.
  - apply bind_ok in H as (u & s & [= _ <-] & [= _ <-]). split; [|by solve_hist].
    match goal with |- row_inv ?r => 
      assert (r = row <| ps_waits := ps_waits r |>) as -> by by destruct row end.
    eapply (waits_row_inv row (ps_waits row)); [by destruct row|].
    intros k i Hi Hw. assert (views row !! k = Some (view i)) as Hv
      by (apply views_lookup; eauto).
    destruct (ri_waiting _ HI k _ Hv Hw) as [?|[x Hx]]; [by left|right].
    simpl. destruct (decide (w.1 = k)) as [->|Hne].
    + rewrite lookup_alter_eq, Hx. by eexists.
    + by rewrite lookup_alter_ne, Hx by done.
Qed.

Lemma resume_row_evolves now room kind id : steps evolves (resume_row now room kind id).
Proof. unfold resume_row. tx_steps. intros w. apply resume_wait_evolves. Qed.

Lemma unpark_chunks_evolves hs : steps evolves (unpark_chunks hs).
Proof.
  intros row n row' H. unfold unpark_chunks in H.
  repeat case_match; simplify_eq; try done. intros HI.
  destruct (ri_memory _ HI) as [Hm Hp].
  assert (rtc (mem_step false (length (ps_events row))) (ps_chunks row)
            (unpark_chunk <$> ps_chunks row)) as Hs.
  { apply standing_map_steps; [done|]. intros k c _. unfold unpark_chunk.
    case_match; [right|by left]. reflect_bools. split; [done|]. by split_and!. }
  destruct (mem_steps _ _ _ _ Hs Hm) as [Hm' Hh]. revert HI. apply side_evolves; try done. intros _.
  split; [done|]. by eapply quiet_prep.
Qed.

Lemma for_personas_evolves (m : ptx Z) : steps evolves m → steps db_evolves (for_personas m).
Proof.
  intros Hm db n db'. unfold for_personas. generalize (fst <$> map_to_list (db_personas db)).
  intros l. revert db n db'. change (steps db_evolves (run_personas m l)).
  induction l as [|p l IH]; simpl; tx_steps.
  by apply with_persona_evolves.
Qed.

Lemma resumeFundingWaitsTx_evolves now kind id : steps db_evolves (resumeFundingWaitsTx now kind id).
Proof.
  unfold resumeFundingWaitsTx. tx_steps.
  - apply for_personas_evolves, resume_row_evolves.
  - apply for_personas_evolves, unpark_chunks_evolves.
Qed.

Lemma ResumeWaitsForHuman_evolves now h : steps db_evolves (ResumeWaitsForHuman now h).
Proof.
  unfold ResumeWaitsForHuman. tx_steps.
  - apply for_personas_evolves, release_human_evolves.
  - apply for_personas_evolves, unpark_chunks_evolves.
Qed.

(** ** Admission *)

Lemma admit_insert_evolves now req card reserved bounded :
  0 ≤ reserved → steps evolves (admit_insert now req card reserved bounded).
Proof.
  intros Hr row a row' H. unfold admit_insert in H. destruct (texts_ok _); [|done].
  injection H as _ <-. apply side_evolves; try done. intros [Ha Hf]. split; [|done].
  simpl. intros k r [[<- <-]|[_ Hk]]%lookup_insert_Some; [done|by eapply Ha].
Qed.

(** The verdict on a new admission. *)
Lemma admit_verdict_inr req db card reserved bounded :
  admit_verdict req db = Ok (inr (card, reserved, bounded)) → 0 ≤ reserved ≤ MaxInt64.
Proof.
  unfold admit_verdict, mbind, res_bind. intros H.
  destruct (budgetForFunding _ _ db) as [b|]; [|simplify_eq; unfold MaxInt64; lia].
  destruct (priceEstimate _ _) as [[n bd]|] eqn:Hp; [|done].
  apply priceEstimate_range in Hp. destruct (fundingSpend _ _ _ db) as [[s h]|]; [|done].
  simpl in H. destruct (budgetAdmits _ _ _ _); simplify_eq. done.
Qed.

(** An admission replays, denies, or holds the priced amount. *)
Lemma AdmitUsage_ok now p req db r db' :
  AdmitUsage now p req db = Ok (r, db') →
  ∃ row, db_personas db !! p = Some row ∧ lease_gen row = Some (ua_generation req) ∧
    fundingAllowed p (ua_funding req) db = Ok tt ∧
    match ps_reservations row !! ua_fact_id req with
    | Some rs => db' = db ∧ admit_replay req rs = Ok r
    | None =>
        (∃ w, db' = db ∧ r = Denied_ w ∧ admit_verdict req db = Ok (inl w)) ∨
        (∃ card reserved bounded, admit_verdict req db = Ok (inr (card, reserved, bounded)) ∧
           r = Admitted_ (mkUsageReservation (ua_fact_id req) reserved
                            (default "" (r_currency <$> card)) bounded Held) ∧
           db' = db <| db_personas := <[p := row <| ps_reservations ::=
                   <[ua_fact_id req := new_reservation now req card reserved bounded]> |>]>
                   (db_personas db) |>)
    end.
Proof.
  unfold AdmitUsage. destruct (_ || _); [done|]. intros H.
  apply bind_ok in H as (u & db0 & Hf & H).
  apply fenced_ok in Hf as (row & row0 & Hp & Hg & _ & [= _ <-] & Hdb).
  rewrite (insert_id (db_personas db)) in Hdb by done.
  assert (db0 = db) as -> by by rewrite Hdb; destruct db. clear Hdb.
  apply bind_ok in H as (al & db1 & [= <- <-] & H). apply bind_ok in H as ([] & db1 & Hal & H).
  apply lift_ok in Hal as [Hal ->]. apply bind_ok in H as (u2 & db1 & [_ ->]%guard_ok & H).
  apply bind_ok in H as (ex & db1 & [= <- <-] & H). rewrite Hp in H. simpl in H.
  exists row. split_and!; [done|done|done|].
  destruct (ps_reservations row !! ua_fact_id req) as [rs|].
  { apply lift_ok in H as [H ->]. done. }
  apply bind_ok in H as (v & db1 & [= <- <-] & H). apply bind_ok in H as (v & db1 & Hv & H).
  apply lift_ok in Hv as [Hv ->]. destruct v as [w|[[card reserved] bounded]].
  { injection H as <- <-. left. eauto. }
  right. exists card, reserved, bounded. split; [done|].
  apply with_persona_ok in H as (row1 & row' & Hp1 & H & ->). rewrite Hp in Hp1.
  injection Hp1 as <-. unfold admit_insert in H. destruct (texts_ok _); [|done].
  by injection H as <- <-.
Qed.

Lemma AdmitUsage_evolves now p req : steps db_evolves (AdmitUsage now p req).
Proof.
  intros db r db' (row & Hp & _ & _ & H)%AdmitUsage_ok.
  destruct (ps_reservations row !! _) as [rs|]; [by destruct H as [-> _]|].
  destruct H as [(w & -> & _)|(card & reserved & bounded & Hv & _ & ->)]; [done|].
  apply admit_verdict_inr in Hv as [Hr _]. apply (row_db_evolves db p row _ Hp).
  apply side_evolves; try done. intros [Ha Hf]. split; [|done].
  simpl. intros k rs [[<- <-]|[_ Hk]]%lookup_insert_Some; [done|by eapply Ha].
Qed.

(** ** Recording *)

Lemma priceRecord_nonneg req st card snap reserved c n :
  (∀ r, reserved = Some r → 0 ≤ r) →
  priceRecord req st card snap reserved = Ok c → c_minor c = Some n → 0 ≤ n.
Proof.
  intros Hr H Hn. unfold priceRecord, mbind, res_bind in H. destruct st; simplify_eq; try done.
  - destruct card as [card|]; [|by simplify_eq].
    destruct (priceReported _ _ _ _ _) as [[m|]|] eqn:Hp; simplify_eq.
    apply priceReported_range in Hp. simpl in Hn. simplify_eq. lia.
  - destruct reserved as [r|]; [|by simplify_eq]. destruct snap as [sn|]; [|by simplify_eq].
    case_bool_decide; simplify_eq. simpl in Hn. simplify_eq. by apply Hr.
Qed.

Lemma record_cost_nonneg p req st r c n db :
  db_inv db → record_payer p req db = Ok r → record_cost req st r db = Ok c →
  c_minor c = Some n → 0 ≤ n.
Proof.
  intros HI Hpay Hc. eapply priceRecord_nonneg; [|exact Hc]. intros m Hm.
  destruct r as [r|]; [|done]. injection Hm as <-. unfold record_payer in Hpay.
  destruct (db_personas db !! p) as [row|] eqn:Hp; simpl in Hpay.
  - destruct (ps_reservations row !! _) as [rs|] eqn:Hrs.
    + case_bool_decide; simplify_eq. destruct (ri_amounts _ (HI p row Hp)) as [Ha _]. by eapply Ha.
    + by repeat case_match.
  - by repeat case_match.
Qed.

Lemma record_new_evolves now req st c :
  (∀ n, c_minor c = Some n → 0 ≤ n) →
  ∀ row f row', ps_facts row !! ud_fact_id req = None →
  record_new now req st c row = Ok (f, row') → evolves row row'.
Proof.
  intros Hc row f row' Hnone H. unfold record_new in H. destruct (record_texts_ok req); [|done].
  injection H as _ <-. apply side_evolves; try done.
  - intros [Ha Hf]. split; simpl.
    + intros k r Hk. destruct (decide (ud_fact_id req = k)) as [<-|Hne].
      * rewrite lookup_alter_eq in Hk. apply fmap_Some in Hk as (r0 & Hr0 & ->).
        unfold settle_held. case_bool_decide; [exact (Ha _ _ Hr0)|exact (Ha _ _ Hr0)].
      * rewrite lookup_alter_ne in Hk by done. by eapply Ha.
    + intros k x n [[<- <-]|[_ Hk]]%lookup_insert_Some Hn; [by apply Hc|by eapply Hf].
  - simpl. apply (table_hist_insert fact_hist). intros x Hx. congruence.
Qed.

(** Only upgrades change a fact, and they raise its rank. *)
Lemma redelivery_rank f req st :
  record_status (ud_status req) = Some st → redelivery f req st = Ok true →
  fact_rank (uf_status f) < fact_rank st ∧ sameCallIdentity f req = true.
Proof.
  unfold redelivery, record_status. intros Hst H.
  destruct (sameCallIdentity f req); [|done]. simpl in H. split; [|done].
  repeat case_bool_decide; simplify_eq; simpl in *;
    destruct (uf_status f); simpl in *; repeat case_match; simplify_eq; try lia; try done.
Qed.

Lemma record_upgrade_evolves now req st c f :
  (∀ n, c_minor c = Some n → 0 ≤ n) → fact_rank (uf_status f) < fact_rank st →
  ∀ row f' row', ps_facts row !! ud_fact_id req = Some f →
  record_upgrade now req st c f row = Ok (f', row') → evolves row row'.
Proof.
  intros Hc Hrank row f' row' Hf0 H. unfold record_upgrade in H.
  destruct (jsonb_ok _); [|done].
  assert (∀ F R, F = <[ud_fact_id req := upgraded_fact req st c f]> (ps_facts row) →
    (R = ps_reservations row ∨
     R = alter (settle now Released) (ud_fact_id req) (ps_reservations row)) →
    evolves row (row <| ps_facts := F |> <| ps_reservations := R |>)) as Hgen.
  { intros F R -> HR. apply side_evolves; try done.
    - intros [Ha Hf]. split; simpl.
      + destruct HR as [-> | ->]; [done|]. intros k r Hk.
        destruct (decide (ud_fact_id req = k)) as [<-|Hne].
        * rewrite lookup_alter_eq in Hk. apply fmap_Some in Hk as (r0 & Hr0 & ->).
          exact (Ha _ _ Hr0).
        * rewrite lookup_alter_ne in Hk by done. by eapply Ha.
      + intros k x n [[<- <-]|[_ Hk]]%lookup_insert_Some Hn; [by apply Hc|by eapply Hf].
    - simpl. apply (table_hist_insert fact_hist). intros x Hx. rewrite Hf0 in Hx.
      injection Hx as <-. split; [by split_and!|]. by right. }
  injection H as _ <-. case_bool_decide.
  - apply (Hgen _ _ eq_refl). by right.
  - apply (Hgen _ _ eq_refl). by left.
Qed.

Lemma validateRecord_status req st :
  validateRecord req = Ok st → record_status (ud_status req) = Some st.
Proof. unfold validateRecord. intros H. repeat case_match; by simplify_eq. Qed.

(** A record that succeeds leaves an existing fact alone, upgrades it, or
    is the first of its call. *)
Lemma RecordUsage_ok now p req db r db' :
  RecordUsage now p req db = Ok (r, db') →
  ∃ st payer c, validateRecord req = Ok st ∧ record_payer p req db = Ok payer ∧
    record_cost req st payer db = Ok c ∧
    match db_personas db !! p ≫= λ row, ps_facts row !! ud_fact_id req with
    | Some f =>
        (redelivery f req st = Ok false ∧ r = (f, false) ∧ db' = db) ∨
        (redelivery f req st = Ok true ∧ ∃ f' db1 n,
           with_persona p ErrPersonaNotFound (record_upgrade now req st c f) db = Ok (f', db1) ∧
           resumeFundingWaitsTx now (f_kind (uf_funding f)) (f_id (uf_funding f)) db1
             = Ok (n, db') ∧ r = (f', false))
    | None => ∃ f' db1,
        with_persona p (PgError "usage_facts_persona_id_fkey") (record_new now req st c) db
          = Ok (f', db1) ∧ r = (f', true) ∧
        match payer with
        | Some rs => ∃ n, resumeFundingWaitsTx now (f_kind (rs_funding rs)) (f_id (rs_funding rs))
                            db1 = Ok (n, db')
        | None => db' = db1
        end
    end.
Proof.
  unfold RecordUsage. intros H. apply bind_ok in H as (st & db0 & [Hst ->]%lift_ok & H).
  apply bind_ok in H as (u0 & db0 & [_ ->]%guard_ok & H).
  apply bind_ok in H as (py & db0 & [= <- <-] & H).
  apply bind_ok in H as (payer & db0 & [Hpay ->]%lift_ok & H).
  apply bind_ok in H as (ct & db0 & [= <- <-] & H).
  apply bind_ok in H as (c & db0 & [Hc ->]%lift_ok & H).
  apply bind_ok in H as (ex & db0 & [= <- <-] & H).
  exists st, payer, c. split_and!; [done..|].
  destruct (db_personas db !! p ≫= _) as [f|].
  - apply bind_ok in H as (u & db0 & [_ ->]%guard_ok & H).
    apply bind_ok in H as (up & db0 & [Hup ->]%lift_ok & H). destruct up.
    + right. split; [done|]. apply bind_ok in H as (f' & db1 & Hw & H).
      apply bind_ok in H as (n & db2 & Hres & [= <- <-]). eauto 10.
    + left. by injection H as <- <-.
  - apply bind_ok in H as (f' & db1 & Hw & H). apply bind_ok in H as (u & db2 & Hres & [= <- <-]).
    exists f', db1. split_and!; [done|done|]. destruct payer as [rs|].
    + apply bind_ok in Hres as (n & db3 & Hr & [= _ <-]). eauto.
    + by injection Hres as _ <-.
Qed.

(** The fact a database holds for a call. *)
Definition fact_at (p k : string) (db : DB) : option UsageFact :=
  db_personas db !! p ≫= λ row, ps_facts row !! k.

(** A record first lands its fact, at least as certain as what was
    reported, then releases what waited. *)
Lemma RecordUsage_stages now p req db r db' :
  db_inv db → RecordUsage now p req db = Ok (r, db') →
  ∃ st db1 f, validateRecord req = Ok st ∧ db_evolves db db1 ∧ db_evolves db1 db' ∧
    fact_at p (ud_fact_id req) db1 = Some f ∧ fact_rank st ≤ fact_rank (uf_status f).
Proof.
  intros HI (st & payer & c & Hst & Hpay & Hc & H)%RecordUsage_ok.
  assert (∀ n, c_minor c = Some n → 0 ≤ n) as Hnn by by intros n; eapply record_cost_nonneg.
  exists st. destruct (db_personas db !! p ≫= _) as [f|] eqn:Hf.
  - destruct H as [(Hrep & _ & ->)|(Hup & f' & db1 & n & Hw & Hres & _)].
    { exists db, f. split_and!; try done. unfold redelivery in Hrep.
      destruct (sameCallIdentity f req); [|done]. simpl in Hrep.
      destruct (factMatches f req st) eqn:Hm.
      { unfold factMatches in Hm. reflect_bools. subst st. done. }
      destruct (_ && suppliedAgree f req) eqn:Hs; [|by repeat case_match].
      reflect_bools. subst st. by rewrite (ltac:(done) : uf_status f = Reported). }
    apply redelivery_rank in Hup as [Hrank _]; [|by apply validateRecord_status].
    apply bind_Some in Hf as (row & Hp & Hfact). exists db1, (upgraded_fact req st c f).
    apply with_persona_ok in Hw as (row1 & row' & Hp1 & Hu & ->). rewrite Hp in Hp1.
    injection Hp1 as <-. split_and!; [done| |by eapply resumeFundingWaitsTx_evolves| |done].
    + apply (row_db_evolves db p row row' Hp). by eapply record_upgrade_evolves.
    + unfold fact_at. simpl. rewrite lookup_insert_eq. simpl. unfold record_upgrade in Hu.
      destruct (jsonb_ok _); [|done]. injection Hu as _ <-. case_bool_decide; apply lookup_insert_eq.
  - destruct H as (f' & db1 & Hw & _ & Hres).
    apply with_persona_ok in Hw as (row1 & row' & Hp1 & Hu & ->). rewrite Hp1 in Hf. simpl in Hf.
    eexists _, (new_fact now req st c). split_and!; [done| | | |done].
    + apply (row_db_evolves db p row1 row' Hp1). by eapply record_new_evolves.
    + destruct payer as [rs|]; [|by subst]. destruct Hres as [n Hres].
      by eapply resumeFundingWaitsTx_evolves.
    + unfold fact_at. simpl. rewrite lookup_insert_eq. simpl. unfold record_new in Hu.
      destruct (record_texts_ok req); [|done]. injection Hu as _ <-. apply lookup_insert_eq.
Qed.

Lemma RecordUsage_evolves now p req : steps db_evolves (RecordUsage now p req).
Proof.
  intros db r db' H HI.
  destruct (RecordUsage_stages _ _ _ _ _ _ HI H) as (st & db1 & f & _ & H1 & H2 & _).
  exact (transitivity H1 H2 HI).
Qed.

(** ** What a record of usage may change

    [RecordUsage] carries no generation: a call that was sent must be paid
    for even when its writer has lost the lease since.  What it writes is
    the usage ledger and what waited for money. *)
Record billed (row row' : PersonaRow) : Prop := {
  bl_rest : row' = row <| ps_facts := ps_facts row' |> <| ps_reservations := ps_reservations row' |>
                       <| ps_waits := ps_waits row' |> <| ps_inputs := ps_inputs row' |>
                       <| ps_chunks := ps_chunks row' |>;
  bl_inputs : ∀ k, ps_inputs row' !! k = ps_inputs row !! k ∨
    ∃ i now, ps_inputs row !! k = Some i ∧ in_status i = Waiting ∧
      ps_inputs row' !! k = Some (resumed now i);
  bl_chunks : ps_chunks row' = ps_chunks row ∨ ps_chunks row' = unpark_chunk <$> ps_chunks row
}.

Lemma unpark_chunk_idem c : unpark_chunk (unpark_chunk c) = unpark_chunk c.
Proof.
  unfold unpark_chunk at 2 3. destruct (_ && _) eqn:H; unfold unpark_chunk; simpl; by rewrite H.
Qed.

#[export] Instance billed_preorder : PreOrder billed.
Proof.
  split.
  - intros row. split; [by destruct row|by left|by left].
  - intros r1 r2 r3 [Hr Hi Hc] [Kr Ki Kc]. split.
    + rewrite Kr, Hr. by destruct r1.
    + intros k. destruct (Ki k) as [->|(i & now & Hk & Hw & Hk')]; [done|].
      destruct (Hi k) as [He|(j & now' & Hj & Hw' & Hj')]; [right; rewrite <-He; eauto|].
      rewrite Hj' in Hk. by injection Hk as <-.
    + destruct Hc as [Hc|Hc], Kc as [Kc|Kc]; rewrite Kc, Hc; auto. right.
      rewrite <-map_fmap_compose. apply map_fmap_ext. intros k c _. apply unpark_chunk_idem.
Qed.

Definition billed_db (db db' : DB) : Prop :=
  db' = db <| db_personas := db_personas db' |> ∧
  ∀ p, option_Forall2 billed (db_personas db !! p) (db_personas db' !! p).

#[export] Instance billed_db_preorder : PreOrder billed_db.
Proof.
  split.
  - intros db. split; [by destruct db|]. intros p. reflexivity.
  - intros d1 d2 d3 [H1 H2] [K1 K2]. split; [rewrite K1, H1; by destruct d1|].
    intros p. specialize (K2 p). destruct (H2 p) as [r1 r2 Hr|]; inversion K2; constructor.
    by etrans.
Qed.

Lemma with_persona_billed {A} p e (m : ptx A) :
  steps billed m → steps billed_db (with_persona p e m).
Proof.
  intros Hm db a db' (row & row' & Hp & Hrow & ->)%with_persona_ok. split; [by destruct db|].
  intros q. simpl. destruct (decide (p = q)) as [<-|Hne].
  - rewrite Hp, lookup_insert_eq. constructor. by eapply Hm.
  - by rewrite lookup_insert_ne.
Qed.

Lemma requeue_parked_billed now k : steps billed (requeue_parked now k).
Proof.
  intros row b row' H. unfold requeue_parked in H.
  destruct (ps_inputs row !! k) as [i|] eqn:Hi; [|by simplify_eq].
  destruct (_ && _) eqn:Hw; [|by simplify_eq]. injection H as _ <-. reflect_bools.
  split; [by destruct row| |by left]. intros j. unfold upd_input. simpl.
  destruct (decide (k = j)) as [<-|Hne]; [right|left; by rewrite lookup_alter_ne].
  exists i, now. by rewrite lookup_alter_eq, Hi.
Qed.

Lemma resume_wait_billed now room w : steps billed (resume_wait now room w).
Proof.
  unfold resume_wait. destruct (fit room _) as [[[] needed]|e]; tx_steps; try apply requeue_parked_billed;
    match goal with |- billed ?row _ => split; [by destruct row|by left|by left] end.
Qed.

Lemma resume_row_billed now room kind id : steps billed (resume_row now room kind id).
Proof. unfold resume_row. tx_steps. intros w. apply resume_wait_billed. Qed.

Lemma unpark_chunks_billed hs : steps billed (unpark_chunks hs).
Proof.
  intros row n row' H. unfold unpark_chunks in H. repeat case_match; simplify_eq; try done.
  split; [by destruct row|by left|by right].
Qed.

Lemma for_personas_billed (m : ptx Z) : steps billed m → steps billed_db (for_personas m).
Proof.
  intros Hm db n db'. unfold for_personas. generalize (fst <$> map_to_list (db_personas db)).
  intros l. revert db n db'. change (steps billed_db (run_personas m l)).
  induction l as [|p l IH]; simpl; tx_steps. by apply with_persona_billed.
Qed.

Lemma resumeFundingWaitsTx_billed now kind id : steps billed_db (resumeFundingWaitsTx now kind id).
Proof.
  unfold resumeFundingWaitsTx. tx_steps.
  - apply for_personas_billed, resume_row_billed.
  - apply for_personas_billed, unpark_chunks_billed.
Qed.

Lemma record_upgrade_billed now req st c f : steps billed (record_upgrade now req st c f).
Proof.
  intros row a row' H. unfold record_upgrade in H. destruct (jsonb_ok _); [|done].
  injection H as _ <-. case_bool_decide; (split; [by destruct row|by left|by left]).
Qed.

Lemma record_new_billed now req st c : steps billed (record_new now req st c).
Proof.
  intros row a row' H. unfold record_new in H. destruct (record_texts_ok _); [|done].
  injection H as _ <-. split; [by destruct row|by left|by left].
Qed.

Lemma RecordUsage_billed now p req : steps billed_db (RecordUsage now p req).
Proof.
  unfold RecordUsage. tx_steps;
    eauto using with_persona_billed, record_upgrade_billed, record_new_billed, resumeFundingWaitsTx_billed.
Qed.

(** ** Budgets *)

Lemma then_resume_evolves now kind id m :
  steps db_evolves m → call_evolves (then_resume now kind id m).
Proof.
  intros Hm. apply then_call_evolves; [by apply commit_call_evolves|]. intros _.
  apply then_call_evolves; [|intros _; apply ret_call_evolves].
  apply commit_call_evolves, resumeFundingWaitsTx_evolves.
Qed.

Lemma install_budget_evolves now kind id b : steps db_evolves (install_budget now kind id b).
Proof. unfold install_budget. tx_steps. intros db. by apply outer_db_evolves. Qed.

Lemma SetBudget_evolves now h kind id b : call_evolves (SetBudget now h kind id b).
Proof.
  apply then_call_evolves; [apply read_call_evolves|]. intros _.
  apply then_resume_evolves, install_budget_evolves.
Qed.
Lemma SetBudgetAdmin_evolves now kind id b : call_evolves (SetBudgetAdmin now kind id b).
Proof.
  unfold SetBudgetAdmin. destruct (admin_kind kind); [|apply ret_call_evolves].
  apply then_resume_evolves, install_budget_evolves.
Qed.
Lemma clearBudget_evolves now kind id : call_evolves (clearBudget now kind id).
Proof. apply then_resume_evolves. tx_steps. intros db. by apply outer_db_evolves. Qed.
Lemma ClearBudget_evolves now h kind id : call_evolves (ClearBudget now h kind id).
Proof.
  apply then_call_evolves; [apply read_call_evolves|]. intros _. apply clearBudget_evolves.
Qed.
Lemma ClearBudgetAdmin_evolves now kind id : call_evolves (ClearBudgetAdmin now kind id).
Proof.
  unfold ClearBudgetAdmin. destruct (admin_kind kind);
    [apply clearBudget_evolves|apply ret_call_evolves].
Qed.
End usage_facts.
