(* ===== verification/TurnFacts.v ===== *)
(** * Turns keep the invariant

    [LoadTurn], [CommitTurn] and [Recover] of [Turns.v] move a persona along
    [evolves]. *)

From Stdlib Require Import ZArith Lia.
From stdpp Require Import sorting.
From S2P Require Import Prelude Json State Personas Inputs Journal Plans Pricing Usage Approvals.
From S2P Require Import Jobs Turns Machine History Ledger Invariant Database.
Local Open Scope string_scope.
Local Open Scope list_scope.
Local Open Scope Z_scope.

(** ** Starting *)

Lemma oldest_elem l ki : oldest l = Some ki → ki ∈ l.
Proof.
  revert ki. induction l as [|x l IH]; intros ki; simpl; [done|].
  destruct (oldest l) as [y|]; [case_match|]; intros [= <-]; [left|right|left].
  by apply IH.
Qed.

Lemma oldest_least l ki x :
  oldest l = Some ki → x ∈ l → in_admission_seq ki.2 ≤ in_admission_seq x.2.
Proof.
  revert ki. induction l as [|y l IH]; intros ki; simpl; [by intros ? ?%not_elem_of_nil|].
  destruct (oldest l) as [z|] eqn:Hz.
  - destruct (_ <=? _) eqn:Hle; reflect_bools; intros [= <-] [->|Hx]%elem_of_cons; try lia.
    + specialize (IH z eq_refl Hx). lia.
    + by apply IH.
  - intros [= <-] [->|Hx]%elem_of_cons; [lia|].
    destruct l as [|w l]; [by apply not_elem_of_nil in Hx|].
    simpl in Hz. destruct (oldest l); [destruct (_ <=? _)|]; done.
Qed.

Lemma oldest_None l : oldest l = None → l = [].
Proof.
  destruct l as [|x l]; simpl; [done|]. destruct (oldest l); [destruct (_ <=? _)|]; done.
Qed.

Lemma next_input_Some now row k i :
  next_input now row = Some (k, i) →
  ps_inputs row !! k = Some i ∧ claimable_input now i = true ∧
  ∀ k' i', ps_inputs row !! k' = Some i' → claimable_input now i' = true →
    in_admission_seq i ≤ in_admission_seq i'.
Proof.
  unfold next_input. intros H. pose proof (oldest_elem _ _ H) as Hin.
  apply list_elem_of_filter in Hin as [Hc Hin]. apply elem_of_map_to_list in Hin.
  split_and!; [done|done|]. intros k' i' Hi' Hc'.
  apply (oldest_least _ (k, i) (k', i') H). apply list_elem_of_filter. split; [done|].
  by apply elem_of_map_to_list.
Qed.

Lemma next_input_None now row k i :
  next_input now row = None → ps_inputs row !! k = Some i → claimable_input now i = false.
Proof.
  unfold next_input. intros H%oldest_None Hi. apply not_true_iff_false. intros Hc.
  assert ((k, i) ∈ filter (λ ki, claimable_input now ki.2 = true) (map_to_list (ps_inputs row)))
    as Hin.
  { apply list_elem_of_filter. split; [done|]. by apply elem_of_map_to_list. }
  rewrite H in Hin. by apply not_elem_of_nil in Hin.
Qed.

(** The state after a turn begins. *)
Definition begun (now g : Z) (tid : string) (k : string) (row : PersonaRow) : PersonaRow :=
  upd_input k (λ i, claim_input g i <| in_turn_id := Some tid |>)
    (row <| ps_turns ::= <[tid := new_turn now tid k g (attempts k row)]> |>).

Lemma load_tx_ok now g turnID freshID row r row' :
  load_tx now g turnID freshID row = Ok (r, row') →
  row' = row ∨
  ∃ k i tid, running_turn row = None ∧ next_input now row = Some (k, i) ∧
    ps_turns row !! tid = None ∧ row' = begun now g tid k row ∧
    tid = (if bool_decide (turnID = "") then freshID else turnID) ∧
    lr_turn r = Some (new_turn now tid k g (attempts k row)) ∧
    lr_input r = Some (claim_input g i).
Proof.
  unfold load_tx. destruct (running_turn row) as [[tid t]|] eqn:Hrun.
  - intros H. left. repeat case_match; by simplify_eq.
  - destruct (next_input now row) as [[k i]|] eqn:Hn; [|by intros [= _ <-]; left].
    unfold begin_turn. destruct (ps_turns row !! _) eqn:Ht; [done|].
    destruct (contains_nul _); [done|]. intros [= <- <-]. right.
    eexists k, i, _. by split_and!.
Qed.

Lemma begun_evolves now g tid k i row :
  lease_gen row = Some g → running_turn row = None → ps_inputs row !! k = Some i →
  in_status i = Queued → ps_turns row !! tid = None → evolves row (begun now g tid k row).
Proof.
  intros Hg Hrun Hi Hq Ht [H1 H2 H3 H4 H5 H6 H7 H8 H9 H10 H11 H12 H13].
  set (row1 := row <| ps_turns ::= <[tid := new_turn now tid k g (attempts k row)]> |>).
  assert (views (begun now g tid k row) = <[k := mkView Claimed (Some g) (Some tid)]> (views row))
    as HV by by unfold begun; rewrite (views_upd_Some row1 k _ i) by done.
  assert (tviews (begun now g tid k row) = <[tid := mkTView k g TurnRunning]> (tviews row)) as HT.
  { unfold tviews, begun. simpl. by rewrite fmap_insert. }
  assert (views row !! k = Some (view i)) as Hvk by (apply views_lookup; eauto).
  assert (tviews row !! tid = None) as Htk by (unfold tviews; by rewrite lookup_fmap, Ht).
  assert (∀ j, is_Some (<[k := mkView Claimed (Some g) (Some tid)]> (views row) !! j)
               ↔ is_Some (views row !! j)) as Hdom by (apply insert_dom; eauto).
  split.
  - split; rewrite ?HV, ?HT; try done.
    + eapply journal_inv_frame; [|done]. split; [done| |].
      * intros j. unfold received, begun, upd_input. simpl.
        destruct (decide (k = j)) as [<-|]; [by rewrite lookup_alter_eq, Hi|].
        by rewrite lookup_alter_ne by done.
      * intros t x Hx. exists x. split; [|done]. simpl. rewrite lookup_insert_ne; [done|].
        intros ->. congruence.
    + eapply machine_inv_begin; try done.
      intros t x Hx. unfold tviews in Hx. rewrite lookup_fmap in Hx.
      apply fmap_Some in Hx as (y & Hy & ->). by eapply running_turn_None.
    + intros j v [[<- <-]|[_ Hv]]%lookup_insert_Some; [done|]. by eapply H3.
    + apply terminal_inv_insert; [|done]. split; [done|]. intros (v & Hv & Hd).
      rewrite Hvk in Hv. injection Hv as <-. simpl in Hd. congruence.
    + eapply ledger_inv_grow; [|reflexivity|done]. by apply lineages_insert_new.
    + by eapply slot_inv_dom.
    + by eapply slot_inv_dom.
    + keep_terms row.
  - solve_hist.
    + apply (table_hist_alter input_hist). intros x Hx. rewrite Hi in Hx. injection Hx as <-.
      split; try done. simpl. congruence.
    + apply (table_hist_insert turn_hist). intros x Hx. congruence.
Qed.

Lemma load_tx_evolves now g turnID freshID : fenced_evolves g (load_tx now g turnID freshID).
Proof.
  intros row r row' Hg [->|(k & i & tid & Hrun & Hn & Ht & -> & _)]%load_tx_ok; [done|].
  apply next_input_Some in Hn as (Hi & Hc & _).
  eapply begun_evolves; try done. unfold claimable_input in Hc. by reflect_bools.
Qed.

(** ** Finishing *)

Lemma append_outbox_ok now kind payload row n row' :
  append_outbox now kind payload row = Ok (n, row') →
  row' = row <| ps_outbox := ps_outbox row ++ [mkOutbox n kind payload now None] |>
  ∧ n = max_seq ob_seq (ps_outbox row) + 1.
Proof. unfold append_outbox. destruct (jsonb_ok _); [|done]. intros [= <- <-]. done. Qed.

Lemma outbox_numbered O n kind payload now :
  numbered ob_seq O → n = max_seq ob_seq O + 1 →
  numbered ob_seq (O ++ [mkOutbox n kind payload now None]).
Proof.
  intros HO ->. apply numbered_snoc. split; [done|]. simpl. rewrite numbered_max by done. lia.
Qed.

(** What the outbox gained tells which input ended, if any. *)
Record outbox_ext (row : PersonaRow) (O' : list OutboxEntry) (ended : list string) : Prop := {
  ox_numbered : numbered ob_seq (ps_outbox row) → numbered ob_seq O';
  ox_prefix : ps_outbox row `prefix_of` O';
  ox_terminals : omap terminal_of O' = terminals row ++ ended
}.

Lemma outbox_ext_refl row : outbox_ext row (ps_outbox row) [].
Proof. split; [done|done|]. by rewrite app_nil_r. Qed.

Lemma outbox_ext_snoc row n kind payload now ended :
  n = max_seq ob_seq (ps_outbox row) + 1 →
  option_list (terminal_of (mkOutbox n kind payload now None)) = ended →
  outbox_ext row (ps_outbox row ++ [mkOutbox n kind payload now None]) ended.
Proof.
  intros Hn He. split.
  - intros HO. by apply outbox_numbered.
  - by apply prefix_app_r.
  - unfold terminals. rewrite omap_app. f_equal. rewrite <-He. csimpl.
    by destruct (terminal_of _).
Qed.

(** A running turn ends: its row is finished, its input leaves the claimed
    state, a wait row and outbox entries may be added. *)
Section finish.
Context (row : PersonaRow) (tid : string) (t : Turn) (i : Input).
Context (f : Turn → Turn) (h : Input → Input).
Context (W' : gmap string BudgetWaitRow) (O' : list OutboxEntry).
Context (Ht : ps_turns row !! tid = Some t) (Hrun : tu_status t = TurnRunning)
  (Hi : ps_inputs row !! tu_input_id t = Some i)
  (Hf : tu_input_id (f t) = tu_input_id t ∧ tu_generation (f t) = tu_generation t
        ∧ tu_attempt (f t) = tu_attempt t) (Hst : tu_status (f t) ≠ TurnRunning)
  (Hh : input_hist i (h i)) (Hrec : in_received_seq (h i) = in_received_seq i)
  (Hnc : in_status (h i) ≠ Claimed) (Hq : in_status (h i) = Queued → view (h i) = queued_view)
  (HW : ∀ k, is_Some (ps_waits row !! k) → is_Some (W' !! k))
  (Hpark : in_status (h i) = Waiting → parked (ps_approvals row) W' (tu_input_id t))
  (HO : outbox_ext row O' (if bool_decide (in_status (h i) = InputDone)
                           then [tu_input_id t] else [])).

Definition finished : PersonaRow :=
  upd_input (tu_input_id t) h (upd_turn tid f row)
    <| ps_waits := W' |> <| ps_outbox := O' |>.

Lemma finished_views : views finished = <[tu_input_id t := view (h i)]> (views row).
Proof. exact (views_upd_Some (upd_turn tid f row) (tu_input_id t) h i Hi). Qed.

Lemma finished_tviews :
  tviews finished = <[tid := mkTView (tu_input_id t) (tu_generation t) (tu_status (f t))]>
                      (tviews row).
Proof.
  destruct Hf as (H1 & H2 & _).
  change (tviews finished) with (tviews (upd_turn tid f row)).
  rewrite (tviews_upd row tid f t Ht). unfold tview. by rewrite H1, H2.
Qed.

Lemma finished_hist : row_hist row finished.
Proof.
  destruct Hf as (H1 & H2 & H3). solve_hist.
  - apply (table_hist_alter input_hist). intros x Hx. simpl in Hx. congruence.
  - apply (table_hist_alter turn_hist). intros x Hx. rewrite Ht in Hx. injection Hx as <-.
    by split.
  - apply HO.
Qed.

Lemma finish_evolves : evolves row finished.
Proof.
  intros [H1 H2 H3 H4 H5 H6 H7 H8 H9 H10 H11 H12 H13]. split; [|apply finished_hist].
  assert (tviews row !! tid = Some (tview t)) as Htv.
  { unfold tviews. by rewrite lookup_fmap, Ht. }
  assert (views row !! tu_input_id t = Some (view i)) as Hvk by (apply views_lookup; eauto).
  assert (∀ j, is_Some (<[tu_input_id t := view (h i)]> (views row) !! j)
               ↔ is_Some (views row !! j)) as Hdom by (apply insert_dom; eauto).
  assert (¬ view_done (views row) (tu_input_id t)) as Hnd.
  { intros (v & Hv & Hd). pose proof (mi_running _ _ _ H2 _ _ Htv Hrun) as Hc.
    simpl in Hc. rewrite Hc in Hv. by injection Hv as <-. }
  assert (lineages_kept (tviews row) (tviews finished)) as Hlin.
  { rewrite finished_tviews. by eapply lineages_insert_same. }
  split; rewrite ?finished_views; try done.
  - eapply journal_inv_frame; [|done]. split; [done| |].
    + intros j. unfold received, finished, upd_input. simpl.
      destruct (decide (tu_input_id t = j)) as [<-|].
      * by rewrite lookup_alter_eq, Hi.
      * by rewrite lookup_alter_ne by done.
    + intros t' x Hx. unfold finished, upd_turn. simpl.
      destruct (decide (tid = t')) as [<-|].
      * rewrite lookup_alter_eq, Hx. eexists. split; [done|]. simplify_eq. by destruct Hf.
      * rewrite lookup_alter_ne by done. eauto.
  - rewrite finished_tviews.
    apply (machine_inv_finish _ _ _ tid (tview t) _ (view (h i))); done.
  - intros j v [[<- <-]|[_ Hv]]%lookup_insert_Some Hw; [by apply Hpark|].
    destruct (H3 _ _ Hv Hw) as [?|?]; [by left|right; by apply HW].
  - by apply HO.
  - change (terminals finished) with (omap terminal_of O').
    rewrite (ox_terminals _ _ _ HO).
    case_bool_decide as Hd.
    + by apply terminal_inv_resolve.
    + rewrite app_nil_r. apply terminal_inv_insert; [|done]. split; done.
  - by eapply ledger_inv_grow.
  - by eapply slot_inv_dom.
  - by eapply slot_inv_dom.
  - keep_terms row.
Qed.

(** The same with the end state left to unification. *)
Lemma finish_to row' : row' = finished → evolves row row'.
Proof. intros ->. apply finish_evolves. Qed.
End finish.

Ltac finish_with t f h :=
  lazymatch goal with |- evolves ?row ?row' =>
    eapply (finish_to row _ t _ f h (ps_waits row') (ps_outbox row') ); [..|reflexivity];
    simpl; try done
  end.

Lemma pendingApprovals_parked i row W :
  pendingApprovalsForInput i row ≠ [] → parked (ps_approvals row) W i.
Proof.
  unfold pendingApprovalsForInput. intros H. left.
  destruct (merge_sort _ _) as [|[[j n] a] l] eqn:Hs; [done|].
  assert (((j, n), a) ∈ merge_sort call_le
    (filter (λ ka, ka.1.1 = i ∧ ap_status ka.2 = Pending) (map_to_list (ps_approvals row)))) as Hin.
  { rewrite Hs. left. }
  rewrite merge_sort_Permutation in Hin.
  apply list_elem_of_filter in Hin as [[Hj Hp] Hin%elem_of_map_to_list].
  simpl in *. subst j. eauto.
Qed.

(** The entry of an end names its input. *)
Lemma terminal_of_end n kind tid i now rest :
  kind = "turn_completed" ∨ kind = "turn_failed" →
  terminal_of (mkOutbox n kind
    (list_to_map (("turn_id", JStr tid) :: ("input_id", JStr i) :: rest)) now None) = Some i.
Proof.
  intros Hk. unfold terminal_of. simpl. rewrite bool_decide_eq_true_2 by done.
  rewrite !list_to_map_cons, lookup_insert_ne, lookup_insert_eq; done.
Qed.
Lemma terminal_of_other n kind payload now :
  kind ≠ "turn_completed" → kind ≠ "turn_failed" →
  terminal_of (mkOutbox n kind payload now None) = None.
Proof.
  intros H1 H2. unfold terminal_of. simpl. by rewrite bool_decide_eq_false_2 by naive_solver.
Qed.

Section outcomes.
Context `{GL : !GoLib} (now : Z) (tid : string) (req : CommitRequest) (t : Turn).

(** The state an outcome starts from. *)
Definition live (row : PersonaRow) (i : Input) : Prop :=
  ps_turns row !! tid = Some t ∧ tu_status t = TurnRunning ∧
  ps_inputs row !! tu_input_id t = Some i ∧ in_status i = Claimed.

Lemma requeue_hist nb i : in_status i = Claimed → input_hist i (requeue nb i).
Proof. intros Hs. split; try done. simpl. congruence. Qed.
Lemma park_hist i : in_status i = Claimed → input_hist i (park now i).
Proof. intros Hs. split; try done. simpl. congruence. Qed.
Lemma resolve_hist i : input_hist i (resolve now i).
Proof. by split. Qed.

Lemma requeue_evolves row i f nb :
  live row i →
  tu_input_id (f t) = tu_input_id t ∧ tu_generation (f t) = tu_generation t
    ∧ tu_attempt (f t) = tu_attempt t →
  tu_status (f t) ≠ TurnRunning →
  evolves row (upd_input (tu_input_id t) (requeue nb) (upd_turn tid f row)).
Proof.
  intros (Ht & Hr & Hi & Hc) Hf Hst.
  apply (finish_evolves row tid t i f (requeue nb) (ps_waits row) (ps_outbox row));
    try done.
  - by apply requeue_hist.
  - rewrite bool_decide_eq_false_2 by done. apply outbox_ext_refl.
Qed.

Lemma commit_await_budget_evolves w stale room row a row' i :
  live row i → commit_await_budget now tid req w stale room t row = Ok (a, row') →
  evolves row row'.
Proof.
  intros Hl H. pose proof Hl as (Ht & Hr & Hi & Hc). unfold commit_await_budget in H.
  inv_tx; [by eapply requeue_evolves|].
  match goal with H : append_outbox _ _ _ _ = _ |- _ => apply append_outbox_ok in H as [-> Hn] end.
  finish_with t (finish_turn now TurnAwaiting req) (park now).
  - by apply park_hist.
  - intros k Hk. simpl. rewrite lookup_insert. case_decide; [by eexists|done].
  - intros _. right. simpl. rewrite lookup_insert_eq. by eexists.
  - apply outbox_ext_snoc; [done|]. by rewrite terminal_of_other.
Qed.

Lemma commit_await_approval_evolves row a row' i :
  live row i → commit_await_approval now tid req t row = Ok (a, row') → evolves row row'.
Proof.
  intros Hl H. pose proof Hl as (Ht & Hr & Hi & Hc). unfold commit_await_approval in H.
  inv_tx; [by eapply requeue_evolves|].
  match goal with H : append_outbox _ _ _ _ = _ |- _ => apply append_outbox_ok in H as [-> Hn] end.
  finish_with t (finish_turn now TurnAwaiting req) (park now).
  - by apply park_hist.
  - intros _. apply pendingApprovals_parked. congruence.
  - apply outbox_ext_snoc; [done|]. by rewrite terminal_of_other.
Qed.

Lemma commit_complete_evolves row a row' i :
  live row i → commit_complete now tid req t row = Ok (a, row') → evolves row row'.
Proof.
  intros Hl H. pose proof Hl as (Ht & Hr & Hi & Hc). unfold commit_complete in H.
  inv_tx.
  match goal with H : append_outbox _ _ _ _ = _ |- _ => apply append_outbox_ok in H as [-> Hn] end.
  finish_with t (complete_turn now req) (resolve now).
  apply outbox_ext_snoc; [done|]. by rewrite terminal_of_end by auto.
Qed.

Lemma commit_fail_evolves row a row' i :
  live row i → commit_fail now tid req t row = Ok (a, row') → evolves row row'.
Proof.
  intros Hl H. pose proof Hl as (Ht & Hr & Hi & Hc). unfold commit_fail in H.
  inv_tx; [by eapply requeue_evolves|].
  match goal with H : append_outbox _ _ _ _ = _ |- _ => apply append_outbox_ok in H as [-> Hn] end.
  finish_with t (fail_turn now req) (resolve now).
  apply outbox_ext_snoc; [done|]. by rewrite terminal_of_end by auto.
Qed.

Lemma commit_outcome_evolves blocker row a row' i :
  live row i → commit_outcome now tid req blocker t row = Ok (a, row') → evolves row row'.
Proof.
  intros Hl. unfold commit_outcome. repeat case_match.
  - by eapply commit_await_budget_evolves.
  - by eapply commit_await_approval_evolves.
  - by eapply commit_complete_evolves.
  - by eapply commit_fail_evolves.
Qed.

Lemma commit_events_journals row u row' :
  commit_events now tid (tu_input_id t) req row = Ok (u, row') → journals row row'.
Proof.
  unfold commit_events. intros H. inv_tx.
  match goal with H : appendEventsTx _ _ _ _ = Ok _ |- _ =>
    apply appendEventsTx_journals in H end.
  etrans; [done|]. apply link_receipts_journals.
Qed.

Lemma commit_events_evolves row u row' :
  ps_turns row !! tid = Some t →
  commit_events now tid (tu_input_id t) req row = Ok (u, row') → evolves row row'.
Proof.
  intros Ht H. apply journals_evolves; [by eapply commit_events_journals|].
  intros HJ. unfold commit_events in H. inv_tx.
  by eapply commit_events_inv.
Qed.

(** The end-of-turn write. *)
Lemma commit_row_evolves blocker row a row' :
  ps_turns row !! tid = Some t → tu_status t = TurnRunning →
  commit_row now tid req blocker t row = Ok (a, row') → evolves row row'.
Proof.
  intros Ht Hr H HI. unfold commit_row in H.
  apply bind_ok in H as (u & row1 & He & H). apply bind_ok in H as (u2 & row2 & Hg & H).
  apply guard_ok in Hg as [_ ->].
  pose proof (commit_events_evolves _ _ _ Ht He HI) as [HI1 Hh1].
  pose proof (commit_events_journals _ _ _ He) as Hjo.
  assert (ps_turns row1 !! tid = Some t) as Ht1 by by rewrite (jo_rest _ _ Hjo).
  assert (∃ i, ps_inputs row1 !! tu_input_id t = Some i ∧ in_status i = Claimed)
    as (i & Hi & Hc).
  { assert (tviews row1 !! tid = Some (tview t)) as Htv.
    { unfold tviews. by rewrite lookup_fmap, Ht1. }
    pose proof (mi_running _ _ _ (ri_machine _ HI1) _ _ Htv Hr) as Hv.
    apply views_lookup in Hv as (i & Hi & Hv). exists i. split; [done|]. by injection Hv. }
  destruct (commit_outcome_evolves blocker row1 a row' i) as [HI2 Hh2]; [by split_and!|done..|].
  split; [done|]. by etrans.
Qed.
End outcomes.

(** ** Recovering *)

Lemma reconcile_evolves now turnID below :
  steps evolves (reconcileHeldReservations now turnID below).
Proof.
  intros row u row' [= _ <-]. apply side_evolves; try done; simpl.
  - intros [Hr Hf]. split; simpl.
    + intros k r [Hk|[_ Hk]]%lookup_union_Some_raw; [|by eapply Hr].
      rewrite lookup_fmap in Hk. apply fmap_Some in Hk as (r0 & Hr0 & ->).
      apply map_lookup_filter_Some in Hr0 as [Hr0 _]. exact (Hr k r0 Hr0).
    + intros k f c [Hk|[_ Hk]]%lookup_union_Some_raw Hc; [by eapply Hf|].
      rewrite lookup_fmap in Hk. apply fmap_Some in Hk as (r0 & Hr0 & ->).
      apply map_lookup_filter_Some in Hr0 as [Hr0 _]. simpl in Hc.
      destruct (rs_currency r0); [|done]. injection Hc as <-. by apply (Hr k).
  - intros k f Hf. exists f. split; [|done]. by apply lookup_union_Some_l.
Qed.

(** A turn update commutes with the journaling that follows it. *)
Lemma journals_before_turn tid f row row2 :
  (∀ t, ps_turns row !! tid = Some t → tu_input_id (f t) = tu_input_id t) →
  journals (upd_turn tid f row) row2 →
  (journal_inv (upd_turn tid f row) → journal_inv row2) →
  ∃ rowj, row2 = upd_turn tid f rowj ∧ journals row rowj ∧ (journal_inv row → journal_inv rowj).
Proof.
  intros Hf [He Hi Hr] HJ. exists (row2 <| ps_turns := ps_turns row |>). split_and!.
  - rewrite Hr. by destruct row2.
  - split; [done|done|]. rewrite Hr. by destruct row, row2.
  - intros HJ0. eapply journal_inv_frame; [|apply HJ; eapply journal_inv_frame; [|exact HJ0]].
    + split; [done|done|]. intros t x Hx. simpl. rewrite Hr in Hx. simpl in Hx.
      destruct (decide (tid = t)) as [<-|].
      * rewrite lookup_alter_eq in Hx. apply fmap_Some in Hx as (y & Hy & ->). exists y.
        split; [done|]. symmetry. by apply Hf.
      * rewrite lookup_alter_ne in Hx by done. eauto.
    + split; [done|done|]. intros t x Hx. simpl. destruct (decide (tid = t)) as [<-|].
      * rewrite lookup_alter_eq, Hx. eexists. split; [done|]. simpl. by apply Hf.
      * rewrite lookup_alter_ne by done. eauto.
Qed.

(** At most one running turn, so at most one stale one. *)
Lemma stale_turns_one g row :
  row_inv row →
  stale_turns g row = [] ∨
  ∃ tid t, stale_turns g row = [(tid, t)] ∧ ps_turns row !! tid = Some t ∧
    tu_status t = TurnRunning ∧ tu_generation t ≠ g.
Proof.
  intros HI. assert (∀ kt, kt ∈ stale_turns g row → ps_turns row !! kt.1 = Some kt.2 ∧
    tu_status kt.2 = TurnRunning ∧ tu_generation kt.2 ≠ g) as Hin.
  { intros [k t] [Hg Hin]%list_elem_of_filter.
    apply list_elem_of_filter in Hin as [Hr Hin%elem_of_map_to_list]. done. }
  assert (NoDup (stale_turns g row)) as Hnd.
  { apply NoDup_filter, NoDup_filter, NoDup_map_to_list. }
  destruct (stale_turns g row) as [|[k1 t1] l]; [by left|right]. exists k1, t1.
  destruct (Hin (k1, t1)) as (H1 & Hr1 & Hg1); [left|]. simpl in *.
  destruct l as [|[k2 t2] l]; [done|]. destruct (Hin (k2, t2)) as (H2 & Hr2 & Hg2).
  { right. left. }
  exfalso. simpl in *. assert (k1 = k2) as <-.
  { eapply (mi_one _ _ _ (ri_machine _ HI) k1 k2 (tview t1) (tview t2));
      unfold tviews; rewrite ?lookup_fmap, ?H1, ?H2; done. }
  apply NoDup_cons in Hnd as [Hnd _]. apply Hnd. assert (t2 = t1) as -> by congruence. left.
Qed.

(** Under the invariant, the claims recovery requeues are those of the turns
    it interrupts. *)
Lemma stale_claims g row k i :
  row_inv row → ps_inputs row !! k = Some i → in_status i = Claimed →
  ∃ tid t, ps_turns row !! tid = Some t ∧ tu_status t = TurnRunning ∧ tu_input_id t = k ∧
    in_claimed_generation i = Some (tu_generation t) ∧
    (tu_generation t ≠ g → (tid, t) ∈ stale_turns g row).
Proof.
  intros HI Hi Hc. assert (views row !! k = Some (view i)) as Hv by (apply views_lookup; eauto).
  destruct (mi_claimed _ _ _ (ri_machine _ HI) _ _ Hv Hc) as (tid & x & Htid & Hg & Hx & Hk & Hr).
  unfold tviews in Hx. rewrite lookup_fmap in Hx. apply fmap_Some in Hx as (t & Ht & ->).
  exists tid, t. split_and!; try done. intros Hne. apply list_elem_of_filter. split; [done|].
  apply list_elem_of_filter. split; [done|]. by apply elem_of_map_to_list.
Qed.

Lemma requeue_stale_none g row :
  row_inv row → stale_turns g row = [] → requeue_stale g [] (ps_inputs row) = ps_inputs row.
Proof.
  intros HI Hs. apply map_eq. intros k. unfold requeue_stale. rewrite map_lookup_imap.
  destruct (ps_inputs row !! k) as [i|] eqn:Hi; simpl; [|done].
  unfold stale_claim. destruct (bool_decide_reflect (in_status i = Claimed)) as [Hc|]; [|done].
  destruct (stale_claims g row k i HI Hi Hc) as (tid & t & _ & _ & _ & -> & Hin).
  rewrite Hs in Hin. destruct (Z.eqb_spec (tu_generation t) g) as [_|Hne]; simpl.
  - done.
  - by apply Hin, not_elem_of_nil in Hne.
Qed.

Lemma requeue_stale_one g row tid t :
  row_inv row → stale_turns g row = [(tid, t)] → ps_turns row !! tid = Some t →
  tu_status t = TurnRunning → tu_generation t ≠ g →
  requeue_stale g [tu_input_id t] (ps_inputs row)
    = alter unclaim (tu_input_id t) (ps_inputs row).
Proof.
  intros HI Hs Ht Hr Hg. apply map_eq. intros k. unfold requeue_stale. rewrite map_lookup_imap.
  assert (tviews row !! tid = Some (tview t)) as Htv by (unfold tviews; by rewrite lookup_fmap, Ht).
  destruct (decide (tu_input_id t = k)) as [<-|Hne].
  - pose proof (mi_running _ _ _ (ri_machine _ HI) _ _ Htv Hr) as Hv.
    apply views_lookup in Hv as (i & Hi & [= Hc _ _]). simpl in Hi.
    rewrite lookup_alter_eq, Hi. simpl. unfold stale_claim.
    rewrite (bool_decide_eq_true_2 (in_status i = Claimed)) by done.
    rewrite (bool_decide_eq_true_2 (_ ∈ _)) by left. by rewrite orb_true_r.
  - rewrite lookup_alter_ne by done. destruct (ps_inputs row !! k) as [i|] eqn:Hi; simpl; [|done].
    unfold stale_claim. destruct (bool_decide_reflect (in_status i = Claimed)) as [Hc|]; [|done].
    destruct (stale_claims g row k i HI Hi Hc) as (tid' & t' & _ & _ & Hk & -> & Hin).
    rewrite Hs in Hin. rewrite (bool_decide_eq_false_2 (_ ∈ _)).
    + destruct (Z.eqb_spec (tu_generation t') g) as [_|Hg']; simpl; [done|].
      apply Hin, list_elem_of_singleton in Hg'. simplify_eq.
    + intros ->%list_elem_of_singleton. done.
Qed.

Lemma release_none g row :
  row_inv row → release_schedule g <$> ps_schedules row = ps_schedules row.
Proof.
  intros HI. apply map_eq. intros k. rewrite lookup_fmap.
  destruct (ps_schedules row !! k) as [s|] eqn:Hs; simpl; [|done]. f_equal.
  unfold release_schedule, stale_schedule.
  destruct (ri_schedules _ HI k s Hs) as [-> | ->]; done.
Qed.

Section recover.
Context (now g : Z).

(** One stale turn: interrupted, its input back in the queue. *)
Lemma recover_one_evolves row tid t u row2 :
  row_inv row → stale_turns g row = [(tid, t)] → ps_turns row !! tid = Some t →
  tu_status t = TurnRunning → tu_generation t ≠ g →
  markInterruptedTx now tid (tu_input_id t) (upd_turn tid (interrupt now) row) = Ok (u, row2) →
  let row3 := row2 <| ps_inputs ::= requeue_stale g [tu_input_id t] |> in
  row_inv row3 ∧ row_hist row row3 ∧ row3 = upd_input (tu_input_id t) unclaim row2.
Proof.
  intros HI Hs Ht Hr Hg Hm row3.
  destruct (journals_before_turn tid (interrupt now) row row2) as (rowj & -> & Hjo & HJ).
  { done. }
  { by eapply markInterruptedTx_journals. }
  { eapply (markInterruptedTx_inv _ _ (interrupt now t)); [|done].
    unfold upd_turn. simpl. by rewrite lookup_alter_eq, Ht. }
  destruct (journals_evolves _ _ Hjo HJ HI) as [HIj Hhj].
  assert (ps_turns rowj = ps_turns row) as HTj by by rewrite (jo_rest _ _ Hjo).
  assert (ps_turns rowj !! tid = Some t) as Htj by by rewrite HTj.
  assert (stale_turns g rowj = [(tid, t)]) as Hsj.
  { rewrite <-Hs. unfold stale_turns, running_turns. by rewrite HTj. }
  assert (row3 = upd_input (tu_input_id t) unclaim (upd_turn tid (interrupt now) rowj)) as Heq.
  { unfold row3. simpl. unfold upd_input, upd_turn. simpl.
    rewrite (requeue_stale_one g rowj tid t HIj Hsj Htj Hr Hg). done. }
  assert (tviews rowj !! tid = Some (tview t)) as Htv
    by (unfold tviews; by rewrite lookup_fmap, Htj).
  pose proof (mi_running _ _ _ (ri_machine _ HIj) _ _ Htv Hr) as Hv.
  apply views_lookup in Hv as (i & Hi & [= Hc _ _]). simpl in Hi.
  destruct (finish_evolves rowj tid t i (interrupt now) unclaim (ps_waits rowj) (ps_outbox rowj))
    as [HI3 Hh3]; try done.
  { split; try done. simpl. congruence. }
  { rewrite bool_decide_eq_false_2 by done. apply outbox_ext_refl. }
  rewrite Heq. split_and!; [done|by etrans|done].
Qed.

Lemma recover_idle row :
  row_inv row → stale_turns g row = [] →
  row <| ps_inputs ::= requeue_stale g [] |>
      <| ps_schedules ::= fmap (release_schedule g) |> = row.
Proof.
  intros HI Hs. simpl. rewrite requeue_stale_none, release_none by done. by destruct row.
Qed.

(** What recovery does under the invariant: reconciliation, after at most
    one turn was interrupted and its input requeued. *)
Lemma recover_tx_shape row r row' :
  row_inv row → recover_tx now g row = Ok (r, row') →
  rr_interrupted r = (stale_turns g row).*1 ∧
  ∃ row3, row_inv row3 ∧ row_hist row row3 ∧
    reconcileHeldReservations now "" (Some g) row3 = Ok (tt, row') ∧
    ((stale_turns g row = [] ∧ row3 = row) ∨
     ∃ tid t i, stale_turns g row = [(tid, t)] ∧ ps_turns row !! tid = Some t ∧
       ps_turns row3 = <[tid := interrupt now t]> (ps_turns row) ∧
       ps_inputs row3 !! tu_input_id t = Some i ∧ in_status i = Queued).
Proof.
  intros HI H. unfold recover_tx in H.
  apply bind_ok in H as (st & s & Hst & H). injection Hst as <- <-.
  destruct (stale_turns_one g row HI) as [Hs|(tid & t & Hs & Ht & Hr & Hg)]; rewrite Hs in *.
  - simpl in H. pose proof (recover_idle row HI Hs) as Heq. inv_tx. rewrite Heq in *.
    split; [done|]. eexists. split_and!; [done|done| |by left].
    match goal with H : reconcileHeldReservations _ _ _ _ = Ok (?u, _) |- _ => by destruct u end.
  - cbn [for_each map fst snd] in H. inv_tx.
    match goal with H : markInterruptedTx _ _ _ _ = Ok (_, ?x) |- _ =>
      rename x into row2; pose proof (markInterruptedTx_journals _ _ _ _ _ _ H) as Hjo;
      destruct (recover_one_evolves row tid t _ _ HI Hs Ht Hr Hg H) as (HI3 & Hh3 & Heq) end.
    split; [done|].
    pose proof (release_none g _ HI3) as Hrel. simpl in Hrel, HI3, Hh3, Heq. rewrite Hrel in *.
    eexists. split_and!; [exact HI3|exact Hh3| |].
    { match goal with H : reconcileHeldReservations _ _ _ _ = Ok (?u, _) |- _ => by destruct u end. }
    right. assert (∃ i, ps_inputs row2 !! tu_input_id t = Some i) as (i & Hi).
    { destruct (mi_inputs _ _ _ (ri_machine _ HI) tid (tview t)) as [v Hv].
      { unfold tviews. by rewrite lookup_fmap, Ht. }
      apply views_lookup in Hv as (i & Hi & _). simpl in Hi.
      pose proof (jo_inputs _ _ Hjo (tu_input_id t)) as Hin. simpl in Hin. rewrite Hi in Hin.
      inversion Hin; eauto. }
    exists tid, t, (unclaim i). split_and!; [done|done| | |done].
    + simpl. rewrite (jo_rest _ _ Hjo). simpl. by rewrite (alter_found _ _ _ t Ht).
    + apply (f_equal ps_inputs) in Heq. simpl in *. rewrite Heq. unfold upd_input. simpl.
      by rewrite lookup_alter_eq, Hi.
Qed.

Lemma recover_tx_evolves row r row' :
  recover_tx now g row = Ok (r, row') → evolves row row'.
Proof.
  intros H HI. destruct (recover_tx_shape _ _ _ HI H) as (_ & row3 & HI3 & Hh3 & Hrec & _).
  destruct (reconcile_evolves _ _ _ _ _ _ Hrec HI3) as [HI4 Hh4]. split; [done|]. by etrans.
Qed.
End recover.

Section commit_turn.
Context `{GL : !GoLib}.

(** A commit that succeeds either replays the recorded one or ends the
    running turn of the caller's generation. *)
Lemma CommitTurn_ok now p turnID g req0 db t' db' :
  CommitTurn now p turnID g req0 db = Ok (t', db') →
  let req := clean_request req0 in
  ∃ row t, db_personas db !! p = Some row ∧ lease_gen row = Some g ∧
    p_authority (ps_persona row) = Active ∧ ps_turns row !! turnID = Some t ∧
    tu_generation t = g ∧
    ((tu_status t ≠ TurnRunning ∧ tu_commit_request t = Some req ∧ t' = t ∧ db' = db) ∨
     (tu_status t = TurnRunning ∧ outcome_ok (cr_outcome req) = true ∧
      ∃ row1 blocker row', reconcileHeldReservations now turnID None row = Ok (tt, row1) ∧
        commit_row now turnID req blocker t row1 = Ok (t', row') ∧
        db' = db <| db_personas := <[p := row']> (db_personas db) |>)).
Proof.
  intros H req. unfold CommitTurn in H. destruct (outcome_ok (cr_outcome req0)) eqn:Hout; [|done].
  simpl in H. change (clean_request req0) with req in H.
  apply bind_ok in H as (t & db1 & Hf & H).
  apply fenced_ok in Hf as (row & row0 & Hp & Hg & Hact & Ht & Hdb1).
  unfold get_turn in Ht. destruct (ps_turns row !! turnID) as [x|] eqn:Hx; [|done].
  injection Ht as -> <-. rewrite (insert_id (db_personas db)) in Hdb1 by done.
  assert (db1 = db) as -> by by rewrite Hdb1; destruct db.
  exists row, t. split_and!; try done.
  - destruct (bool_decide _) in H; simpl in H;
      [destruct (Z.eqb_spec (tu_generation t) g); [done|]; done|].
    apply lift_ok in H as [H _]. unfold replay_commit in H.
    destruct (Z.eqb_spec (tu_generation t) g); done.
  - destruct (bool_decide_reflect (tu_status t = TurnRunning)) as [Hr|Hr]; simpl in H.
    + right. destruct (tu_generation t =? g) eqn:Hgen; [|done]. simpl in H.
      apply bind_ok in H as (u & db2 & Hrec & H).
      apply with_persona_ok in Hrec as (rowa & row1 & Hpa & Hrec & ->).
      rewrite Hp in Hpa. injection Hpa as <-.
      apply bind_ok in H as (b & db3 & [= Hb <-] & H). apply bind_ok in H as (b' & db4 & Hl & H).
      apply lift_ok in Hl as [_ ->].
      apply with_persona_ok in H as (rowb & row' & Hpb & Hc & ->). simpl in Hpb.
      rewrite lookup_insert_eq in Hpb. injection Hpb as <-. destruct u.
      split_and!; [done|done|]. exists row1, b', row'. split_and!; [done|done|].
      simpl. by rewrite insert_insert_eq.
    + left. apply lift_ok in H as [H ->]. unfold replay_commit in H.
      repeat case_match; simplify_eq. by reflect_bools.
Qed.

Lemma reconcile_keeps now turnID below row row1 :
  reconcileHeldReservations now turnID below row = Ok (tt, row1) →
  ps_turns row1 = ps_turns row ∧ ps_inputs row1 = ps_inputs row ∧ ps_outbox row1 = ps_outbox row
  ∧ ps_events row1 = ps_events row.
Proof. by intros [= <-]. Qed.

Lemma CommitTurn_evolves now p turnID g req : steps db_evolves (CommitTurn now p turnID g req).
Proof.
  intros db t' db' (row & t & Hp & _ & _ & Ht & _ & [(_ & _ & _ & ->)|Hlive])%CommitTurn_ok;
    [done|]. destruct Hlive as (Hr & _ & row1 & b & row' & Hrec & Hc & ->).
  apply (row_db_evolves db p row row' Hp). etrans; [by eapply reconcile_evolves|].
  apply reconcile_keeps in Hrec as (HT & _). eapply commit_row_evolves; [by rewrite HT|done|done].
Qed.

(** What each outcome writes, input and outbox. *)
Record outcome_spec (now : Z) (req : CommitRequest) (row row' : PersonaRow) (t : Turn)
    (i i' : Input) : Prop := {
  os_complete : cr_outcome req = "complete" →
    i' = resolve now i ∧ ∃ e, ps_outbox row' = ps_outbox row ++ [e] ∧
      ob_kind e = "turn_completed" ∧ terminal_of e = Some (tu_input_id t);
  os_fail : cr_outcome req = "fail" → cr_retryable req = false →
    i' = resolve now i ∧ ∃ e, ps_outbox row' = ps_outbox row ++ [e] ∧
      ob_kind e = "turn_failed" ∧ terminal_of e = Some (tu_input_id t);
  os_retry : cr_outcome req = "fail" → cr_retryable req = true →
    ps_outbox row' = ps_outbox row ∧
    i' = requeue (Some (now + Z.quot (retry_delay (tu_attempt t) (cr_retry_after_ms req))
                                Millisecond * 1000)) i;
  os_approval : cr_outcome req = "await" → cr_wait req = None →
    if decide (pendingApprovalsForInput (tu_input_id t) row = [])
    then i' = requeue None i ∧ ps_outbox row' = ps_outbox row
    else i' = park now i ∧ ∃ e, ps_outbox row' = ps_outbox row ++ [e] ∧
           ob_kind e = "approval_requested";
  os_budget : ∀ w, cr_outcome req = "await" → cr_wait req = Some w →
    (i' = requeue None i ∧ ps_outbox row' = ps_outbox row ∧ ps_waits row' = ps_waits row) ∨
    (i' = park now i ∧ is_Some (ps_waits row' !! tu_input_id t) ∧
     ∃ e, ps_outbox row' = ps_outbox row ++ [e] ∧ ob_kind e = "budget_wait")
}.

(** The turn a commit leaves behind. *)
Definition finished_as (req : CommitRequest) (t t' : Turn) : Prop :=
  tu_status t' ≠ TurnRunning ∧ tu_commit_request t' = Some req ∧
  tu_generation t' = tu_generation t ∧ tu_input_id t' = tu_input_id t.

Lemma commit_outcome_ok now tid req b t row i t' row' :
  ps_turns row !! tid = Some t → ps_inputs row !! tu_input_id t = Some i →
  outcome_ok (cr_outcome req) = true →
  commit_outcome now tid req b t row = Ok (t', row') →
  ps_turns row' = <[tid := t']> (ps_turns row) ∧ finished_as req t t' ∧
  ∃ i', ps_inputs row' = <[tu_input_id t := i']> (ps_inputs row) ∧
    outcome_spec now req row row' t i i'.
Proof.
  intros Ht Hi Hout H. unfold outcome_ok in Hout. apply bool_decide_eq_true_1 in Hout.
  unfold commit_outcome in H.
  destruct (bool_decide_reflect (cr_outcome req = "await")) as [Ha|Ha].
  { destruct (cr_wait req) as [w|] eqn:Hw.
    - unfold commit_await_budget in H. inv_tx.
      + split; [by apply alter_found|]. split; [done|].
        eexists. split; [by apply alter_found|]. split; try congruence. intros w' _ _. by left.
      + match goal with H : append_outbox _ _ _ _ = _ |- _ => apply append_outbox_ok in H as [-> _] end.
        split; [by apply alter_found|]. split; [done|].
        eexists. split; [by apply alter_found|]. split; try congruence. intros w' _ _. right.
        split; [done|]. simpl. rewrite lookup_insert_eq. split; [done|]. eexists. done.
    - unfold commit_await_approval in H.
      apply bind_ok in H as (pend & s & [= <- <-] & H). inv_tx.
      + split; [by apply alter_found|]. split; [done|].
        eexists. split; [by apply alter_found|]. split; try congruence. intros _ _.
        by rewrite decide_True by congruence.
      + match goal with H : append_outbox _ _ _ _ = _ |- _ => apply append_outbox_ok in H as [-> _] end.
        split; [by apply alter_found|]. split; [done|].
        eexists. split; [by apply alter_found|]. split; try congruence. intros _ _.
        rewrite decide_False by congruence. split; [done|]. eexists. done. }
  destruct (bool_decide_reflect (cr_outcome req = "complete")) as [Hc|Hc].
  { unfold commit_complete in H. inv_tx.
    match goal with H : append_outbox _ _ _ _ = _ |- _ => apply append_outbox_ok in H as [-> _] end.
    split; [by apply alter_found|]. split; [done|].
    eexists. split; [by apply alter_found|]. split; try congruence. intros _. split; [done|].
    eexists. split; [done|]. split; [done|]. by apply terminal_of_end; left. }
  assert (cr_outcome req = "fail") as Hf by naive_solver.
  unfold commit_fail in H. inv_tx.
  - split; [by apply alter_found|]. split; [done|].
    eexists. split; [by apply alter_found|]. split; try congruence. done.
  - match goal with H : append_outbox _ _ _ _ = _ |- _ => apply append_outbox_ok in H as [-> _] end.
    split; [by apply alter_found|]. split; [done|].
    eexists. split; [by apply alter_found|]. split; try congruence. intros _ _. split; [done|].
    eexists. split; [done|]. split; [done|]. by apply terminal_of_end; right.
Qed.
End commit_turn.
