(* ===== verification/System.v ===== *)
(** * The store as a transition system

    [Call] lists the state-changing operations of the store with their
    arguments, [exec] is the database a call leaves behind, [step] adds what
    other components do to the rows the store shares with them.  Every step
    keeps [db_inv] and respects [db_hist], but for a transfer's re-pending of
    unspent grants ([db_moves]); so every reachable database satisfies the
    invariant, and along every run nothing settled is undone. *)

From Stdlib Require Import ZArith Lia.
From S2P Require Import Prelude Json TerminalState MemoryState State Personas Memory Inputs Journal Plans Pricing.
From S2P Require Import Usage Approvals MemoryBranch Jobs JobDiscovery Terminals Turns Operations Schedules Machine History Ledger Invariant Database.
From S2P Require Import JobFacts DiscoveryFacts ScheduleFacts EffectFacts TerminalFacts MemoryFrames OperationFacts UsageFacts TurnFacts.
Local Open Scope string_scope.
Local Open Scope list_scope.
Local Open Scope Z_scope.

Section calls.
Context `{GL : !GoLib} (tl : Tools).

Inductive Call :=
| CEnsurePersona (now : Z) (p : string) (h : option string) (name : string)
| CClearModelIntent (p : string)
| CAcquireWriter (now : Z) (p holder : string) (ttl : Z)
| CRenewWriter (now : Z) (p holder : string) (generation ttl : Z)
| CReleaseWriter (p holder : string) (generation : Z)
| CSubmitInput (now : Z) (p : string) (r : InputReq)
| CLoadTurn (now : Z) (p : string) (generation : Z) (turnID freshID : string)
| CSavePlan (now : Z) (p turnID : string) (generation round : Z) (d : DecisionReq)
| CClaimOperation (now nanos : Z) (p turnID : string) (generation : Z)
    (operationID tool : string) (callIndex : Z) (request : option obj)
| CCompleteOperation (now : Z) (p operationID : string) (generation : Z)
    (response : option obj) (failed : bool)
| CCommitTurn (now : Z) (p turnID : string) (generation : Z) (req : CommitRequest)
| CRecover (now : Z) (p : string) (generation : Z)
| CResolveApproval (now : Z) (p apprID : string) (req : ApprovalDecision)
| CDispatchDueSchedules (now : Z) (p : string) (generation hint limit : Z)
| CSubmitJob (now : Z) (p jobID kind : string) (request : option obj) (createdBy : string)
| CCancelJob (now : Z) (p jobID : string)
| CClaimJobs (now : Z) (p runnerID : string) (kinds : list string) (lease limit : Z)
    (backend : string)
| CHeartbeatJob (now : Z) (p jobID runnerID : string) (lease : Z)
| CNoteWait (now : Z) (p jobID runnerID : string) (lease : Z) (cause : string)
| CClearWait (p jobID runnerID : string)
| CCompleteJob (now : Z) (p jobID runnerID status : string) (result : option obj)
    (jobError : string)
| CAttachLostOutcome (p jobID runnerID : string) (outcome : option obj)
| CAdmitUsage (now : Z) (p : string) (req : UsageAdmitRequest)
| CRecordUsage (now : Z) (p : string) (req : UsageRecordRequest)
| CReconcileRetired (now : Z) (p : string)
| CSetBudget (now : Z) (h kind id : string) (b : UsageBudget)
| CSetBudgetAdmin (now : Z) (kind id : string) (b : UsageBudget)
| CClearBudget (now : Z) (h kind id : string)
| CClearBudgetAdmin (now : Z) (kind id : string)
| CResumeWaitsForFunding (now : Z) (kind id : string)
| CResumeWaitsForHuman (now : Z) (h : string)
| CCreateTerminalSession (cfg : TerminalConfig) (now : Z) (newID p name requestedBy
    createdBy : string)
| CSubmitTerminalInput (now : Z) (newID p sessionID source kind : string) (payload : obj)
| CSetTerminalControl (now : Z) (p sessionID : string) (hold : bool) (lease : Z)
| CCloseTerminalSession (now : Z) (p sessionID reason : string)
| CClaimTerminalSessions (now : Z) (p runnerID backend : string) (lease limit : Z)
| CSweepExpiredTerminalClaims (now : Z) (p : string)
| CHeartbeatTerminalSession (now : Z) (p sessionID runnerID : string) (epoch lease : Z)
| CResolveDequeuedTerminalInputs (now : Z) (p sessionID runnerID : string) (epoch : Z)
| CReportTerminalInputDisposition (now : Z) (p sessionID inputID runnerID : string) (epoch : Z)
    (status : string) (detail : option obj)
| CAppendTerminalOutput (now : Z) (p sessionID runnerID : string) (epoch : Z)
    (chunks : list OutputReq)
| CReportTerminalStatus (now : Z) (p sessionID runnerID : string) (epoch : Z)
    (status reason : string) (exitCode : option Z) (exitSignal operationID : string)
| CMemoryMaintain (now : Z) (p : string) (generation : Z)
| CClaimMemoryBranch (now : Z) (p : string) (generation : Z) (snapshot : option BranchSnapshot)
    (policy : option json)
| CSaveMemoryBranch (now : Z) (p : string) (generation seq expected : Z) (raw : option json)
| CSweepExpiredJobs (now : Z) (kinds : list string) (limit : Z).

(** The database after a call, whatever it answered. *)
Definition exec (c : Call) (db : DB) : DB :=
  match c with
  | CEnsurePersona now p h name => (commit (EnsurePersona now p h name) db).1
  | CClearModelIntent p => (commit (with_persona p ErrPersonaNotFound ClearModelIntent) db).1
  | CAcquireWriter now p h ttl =>
      (commit (with_persona p ErrPersonaNotFound (AcquireWriter now h ttl)) db).1
  | CRenewWriter now p h g ttl =>
      (commit (with_persona p ErrGenerationFence (RenewWriter now h g ttl)) db).1
  | CReleaseWriter p h g =>
      (commit (with_persona p ErrGenerationFence (ReleaseWriter h g)) db).1
  | CSubmitInput now p r => (commit (SubmitInput now p r) db).1
  | CLoadTurn now p g t f => (commit (LoadTurn now p g t f) db).1
  | CSavePlan now p t g round d => (commit (SavePlan now p t g round d) db).1
  | CClaimOperation now nanos p t g o tool n r =>
      (ClaimOperation tl now nanos p t g o tool n r db).1
  | CCompleteOperation now p o g resp failed =>
      (commit (CompleteOperation now p o g resp failed) db).1
  | CCommitTurn now p t g req => (commit (CommitTurn now p t g req) db).1
  | CRecover now p g => (commit (Recover now p g) db).1
  | CResolveApproval now p a req => (commit (ResolveApproval now p a req) db).1
  | CDispatchDueSchedules now p g hint limit =>
      (commit (DispatchDueSchedules now p g hint limit) db).1
  | CSubmitJob now p j kind r by_ => (commit (SubmitJob (tl_config tl) now p j kind r by_) db).1
  | CCancelJob now p j => (commit (CancelJob now p j) db).1
  | CClaimJobs now p r kinds lease limit backend =>
      (commit (ClaimJobs now p r kinds lease limit backend) db).1
  | CHeartbeatJob now p j r lease => (commit (HeartbeatJob now p j r lease) db).1
  | CNoteWait now p j r lease cause => (commit (NoteWait now p j r lease cause) db).1
  | CClearWait p j r => (commit (ClearWait p j r) db).1
  | CCompleteJob now p j r st result e => (commit (CompleteJob now p j r st result e) db).1
  | CAttachLostOutcome p j r o => (commit (AttachLostOutcome p j r o) db).1
  | CAdmitUsage now p req => (commit (AdmitUsage now p req) db).1
  | CRecordUsage now p req => (commit (RecordUsage now p req) db).1
  | CReconcileRetired now p =>
      (commit (with_persona p ErrPersonaNotFound (ReconcileRetiredReservations now)) db).1
  | CSetBudget now h kind id b => (SetBudget now h kind id b db).1
  | CSetBudgetAdmin now kind id b => (SetBudgetAdmin now kind id b db).1
  | CClearBudget now h kind id => (ClearBudget now h kind id db).1
  | CClearBudgetAdmin now kind id => (ClearBudgetAdmin now kind id db).1
  | CResumeWaitsForFunding now kind id => (commit (ResumeWaitsForFunding now kind id) db).1
  | CResumeWaitsForHuman now h => (commit (ResumeWaitsForHuman now h) db).1
  | CCreateTerminalSession cfg now id p name rb cb =>
      (commit (CreateTerminalSession cfg now id p name rb cb) db).1
  | CSubmitTerminalInput now id p sid src kind payload =>
      (commit (SubmitTerminalInput now id p sid src kind payload) db).1
  | CSetTerminalControl now p sid hold lease => (commit (SetTerminalControl now p sid hold lease) db).1
  | CCloseTerminalSession now p sid reason => (commit (CloseTerminalSession now p sid reason) db).1
  | CClaimTerminalSessions now p r b lease limit =>
      (commit (ClaimTerminalSessions now p r b lease limit) db).1
  | CSweepExpiredTerminalClaims now p => (commit (SweepExpiredTerminalClaims now p) db).1
  | CHeartbeatTerminalSession now p sid r e lease =>
      (commit (HeartbeatTerminalSession now p sid r e lease) db).1
  | CResolveDequeuedTerminalInputs now p sid r e =>
      (commit (ResolveDequeuedTerminalInputs now p sid r e) db).1
  | CReportTerminalInputDisposition now p sid i r e st d =>
      (commit (ReportTerminalInputDisposition now p sid i r e st d) db).1
  | CAppendTerminalOutput now p sid r e chunks =>
      (commit (AppendTerminalOutput now p sid r e chunks) db).1
  | CReportTerminalStatus now p sid r e st reason code sig op =>
      (commit (ReportTerminalStatus now p sid r e st reason code sig op) db).1
  | CMemoryMaintain now p g => (commit (MemoryMaintain now p g) db).1
  | CClaimMemoryBranch now p g snap policy => (commit (ClaimMemoryBranch now p g snap policy) db).1
  | CSaveMemoryBranch now p g seq expected raw =>
      (commit (SaveMemoryBranch now p g seq expected raw) db).1
  | CSweepExpiredJobs now kinds limit => (commit (SweepExpiredJobs now kinds limit) db).1
  end.

(** What the rest of the system does to shared rows: a persona's binding,
    placement and model intent; what other programs do to sessions, memory
    and jobs within the frame of an effect (the tools of the browser and of
    connections, the browser's host); the tables of humans, connections,
    grants and selections; and what a transfer does to a persona: sealing
    takes the writer's lease and drops the budget waits, an abort expires the
    lease ([portable/service.go]), and an import under another human re-pends
    the unspent grants ([portable/bundle.go]).  Reading a persona's rows from
    another placement's bundle, and deleting those it replaces, is not a step:
    a run is what happens to a persona's rows between such imports. *)
Inductive outside (db : DB) : DB → Prop :=
| outside_persona p row per :
    db_personas db !! p = Some row →
    outside db (db <| db_personas := <[p := row <| ps_persona := per |>]> (db_personas db) |>)
| outside_effect p row row' :
    db_personas db !! p = Some row → effect_frame row row' →
    outside db (db <| db_personas := <[p := row']> (db_personas db) |>)
| outside_lease p row l :
    db_personas db !! p = Some row → lease_mono row (row <| ps_lease := Some l |>) →
    outside db (db <| db_personas := <[p := row <| ps_lease := Some l |>]> (db_personas db) |>)
| outside_unpark p row now n row' :
    db_personas db !! p = Some row → release_waits now row = Ok (n, row') →
    outside db (db <| db_personas := <[p := row']> (db_personas db) |>)
| outside_tables db' :
    db_personas db' = db_personas db → db_budgets db' = db_budgets db → outside db db'.

(** A transfer's import of [p] under another human. *)
Definition repends (p : string) (db db' : DB) : Prop :=
  ∃ row, db_personas db !! p = Some row ∧
    db' = db <| db_personas := <[p := repend_grants row]> (db_personas db) |>.

Inductive step (db : DB) : DB → Prop :=
| step_call c : step db (exec c db)
| step_outside db' : outside db db' → step db db'
| step_repend p db' : repends p db db' → step db db'.

(** Runs, from any database and from an empty one. *)
Inductive run : DB → DB → Prop :=
| run_refl db : run db db
| run_step db db1 db2 : step db db1 → run db1 db2 → run db db2.
Definition no_personas (db : DB) : Prop := db_personas db = ∅.
Definition reachable (db : DB) : Prop := ∃ db0, no_personas db0 ∧ run db0 db.
End calls.

Section system.
Context `{GL : !GoLib} (tl : Tools) `{!EffectFrame tl}.

Lemma SubmitInput_evolves now p r : steps db_evolves (SubmitInput now p r).
Proof.
  unfold SubmitInput. destruct (reserved_input_id (ir_id r)) eqn:Hres; [apply steps_throw|].
  by apply with_persona_evolves, submit_tx_evolves.
Qed.

Lemma SavePlan_evolves now p t g round d : steps db_evolves (SavePlan now p t g round d).
Proof.
  unfold SavePlan. destruct (round <? 0) eqn:Hr; [apply steps_throw|]. reflect_bools.
  destruct (normalise d) as [d'|]; [|apply steps_throw].
  destruct (hasNUL _); [apply steps_throw|].
  by apply fenced_db_evolves, steps_fenced, save_tx_evolves.
Qed.

Lemma ClaimOperation_evolves now nanos p t g o tool n r :
  call_evolves (ClaimOperation tl now nanos p t g o tool n r).
Proof.
  intros db. unfold ClaimOperation.
  assert (steps db_evolves (claimOperation tl now nanos p t g o tool n r)) as Hc.
  { unfold claimOperation. repeat (case_match; [apply steps_throw|]).
    apply fenced_db_evolves, steps_fenced. by apply claim_tx_evolves. }
  pose proof (steps_commit db_evolves _ db Hc) as H1.
  destruct (commit (claimOperation _ _ _ _ _ _ _ _ _ _) db) as [db1 [a|e]]; [done|].
  destruct (claimRejected e); [|done]. etrans; [exact H1|].
  pose proof (steps_commit db_evolves
    (fenced p g (journalRejectedClaim now t g n tool r e)) db1) as H2.
  destruct (commit (fenced _ _ _) db1) as [db2 []]; apply H2;
    apply fenced_db_evolves, steps_fenced, rejected_evolves.
Qed.

Lemma CompleteOperation_evolves now p o g resp failed :
  steps db_evolves (CompleteOperation now p o g resp failed).
Proof.
  apply fenced_db_evolves, steps_fenced. intros row a row' H HI.
  by apply complete_op_tx_stored in H as [-> _].
Qed.

Lemma ResolveApproval_evolves now p a req : steps db_evolves (ResolveApproval now p a req).
Proof.
  intros db r db' H. unfold ResolveApproval in H.
  apply bind_ok in H as ([] & db1 & [Hd ->]%lift_ok & H).
  eapply with_persona_evolves; [|exact H]. by apply resolve_tx_evolves.
Qed.

Lemma CompleteJob_evolves now p j r status result e :
  steps db_evolves (CompleteJob now p j r status result e).
Proof.
  unfold CompleteJob. destruct (complete_status status) as [st|] eqn:Hst; [|apply steps_throw].
  tx_steps. apply with_persona_evolves, complete_tx_evolves.
  unfold complete_status in Hst. repeat case_match; by simplify_eq.
Qed.

(** An operation on terminal sessions or memory. *)
Lemma framed_steps {A} (m : ptx A) : steps effect_frame m → steps evolves m.
Proof. intros Hm row a row' H. by eapply beside_evolves, effect_frame_beside, Hm. Qed.
Lemma framed_evolves {A} p e (m : ptx A) :
  steps effect_frame m → steps db_evolves (with_persona p e m).
Proof. intros Hm. by apply with_persona_evolves, framed_steps. Qed.

(** Every operation of the store. *)
Lemma exec_evolves c db : db_evolves db (exec tl c db).
Proof.
  destruct c; simpl; try (apply (steps_commit db_evolves)).
  - apply EnsurePersona_evolves.
  - apply with_persona_evolves, ClearModelIntent_evolves.
  - apply with_persona_evolves, AcquireWriter_evolves.
  - apply with_persona_evolves, RenewWriter_evolves.
  - apply with_persona_evolves, ReleaseWriter_evolves.
  - apply SubmitInput_evolves.
  - apply fenced_db_evolves, load_tx_evolves.
  - apply SavePlan_evolves.
  - apply ClaimOperation_evolves.
  - apply CompleteOperation_evolves.
  - apply CommitTurn_evolves.
  - apply fenced_db_evolves, steps_fenced. intros row a row'. apply recover_tx_evolves.
  - apply ResolveApproval_evolves.
  - apply fenced_db_evolves, steps_fenced, dispatch_tx_evolves.
  - unfold SubmitJob. tx_steps. apply with_persona_evolves. intros row ? row' H.
    by eapply beside_evolves, submitJobTx_beside.
  - unfold CancelJob. tx_steps. apply with_persona_evolves, cancelJobTx_evolves.
  - unfold ClaimJobs. tx_steps. apply with_persona_or_evolves, claim_jobs_tx_evolves.
  - unfold HeartbeatJob. tx_steps. apply with_persona_evolves, heartbeat_tx_evolves.
  - unfold NoteWait. tx_steps. apply with_persona_evolves, note_tx_evolves.
  - unfold ClearWait. tx_steps. apply with_persona_or_evolves, clear_wait_evolves.
  - apply CompleteJob_evolves.
  - unfold AttachLostOutcome. tx_steps. apply with_persona_evolves, attach_tx_evolves.
  - apply AdmitUsage_evolves.
  - apply RecordUsage_evolves.
  - apply with_persona_evolves, reconcile_evolves.
  - apply SetBudget_evolves.
  - apply SetBudgetAdmin_evolves.
  - apply ClearBudget_evolves.
  - apply ClearBudgetAdmin_evolves.
  - apply resumeFundingWaitsTx_evolves.
  - apply ResumeWaitsForHuman_evolves.
  - apply framed_evolves, create_frame.
  - unfold SubmitTerminalInput. tx_steps. apply framed_evolves, submit_frame.
  - apply framed_evolves, control_frame.
  - apply framed_evolves, close_frame.
  - apply framed_evolves, claim_frame.
  - apply with_persona_or_evolves, framed_steps, sweep_frame.
  - apply framed_evolves, heartbeat_frame.
  - apply framed_evolves, resolve_frame.
  - apply framed_evolves, dispose_frame.
  - apply framed_evolves, append_frame.
  - apply framed_evolves, report_frame.
  - apply fenced_db_evolves, steps_fenced, framed_steps. tx_steps. apply maintain_frame.
  - apply framed_evolves, claim_branch_frame.
  - unfold SaveMemoryBranch. destruct (parse_checkpoint raw) as [doc|]; [|apply steps_throw].
    apply framed_evolves, save_branch_frame.
  - apply SweepExpiredJobs_evolves.
Qed.

Lemma outside_evolves db db' : outside db db' → db_evolves db db'.
Proof.
  intros [p row per Hp|p row row' Hp Hf|p row l Hp Hl|p row now n row' Hp Hr|db2 H _].
  - apply (row_db_evolves db p row); [done|apply persona_evolves].
  - apply (row_db_evolves db p row); [done|]. by apply beside_evolves, effect_frame_beside.
  - apply (row_db_evolves db p row); [done|by apply lease_evolves].
  - apply (row_db_evolves db p row); [done|by eapply release_waits_evolves].
  - by apply outer_db_evolves.
Qed.

(** Every step but a re-pending moves the database along [db_evolves]. *)
Lemma step_cases db db' : step tl db db' → db_evolves db db' ∨ ∃ p, repends p db db'.
Proof.
  intros [c|db1 Ho|p db1 Hr]; [left; apply exec_evolves|left; by apply outside_evolves|eauto].
Qed.

Lemma repends_moves p db db' : repends p db db' → db_moves db db'.
Proof.
  intros (row & Hp & ->) HI. destruct (repend_grants_moves row (HI p row Hp)) as [HR Hh]. split.
  - intros q r. simpl. intros [[<- <-]|[_ Hq]]%lookup_insert_Some; [done|by apply (HI q)].
  - apply (table_hist_insert row_moves). intros r Hr. rewrite Hp in Hr. by injection Hr as <-.
Qed.
Lemma step_moves db db' : step tl db db' → db_moves db db'.
Proof.
  intros [H|[p H]]%step_cases; [by apply db_evolves_moves|by eapply repends_moves].
Qed.

Lemma run_moves db db' : run tl db db' → db_moves db db'.
Proof.
  induction 1 as [|db db1 db2 Hs _ IH]; [done|]. etrans; [by apply step_moves|done].
Qed.

Lemma no_personas_inv db : no_personas db → db_inv db.
Proof. intros H. unfold db_inv. rewrite H. apply map_Forall_empty. Qed.

Lemma reachable_inv db : reachable tl db → db_inv db.
Proof.
  intros (db0 & H0 & Hrun). by apply (run_moves _ _ Hrun), no_personas_inv.
Qed.

Lemma reachable_row db p row : reachable tl db → db_personas db !! p = Some row → row_inv row.
Proof. intros H Hp. by apply (reachable_inv _ H p). Qed.

Lemma run_reachable db db' : reachable tl db → run tl db db' → reachable tl db'.
Proof.
  intros (db0 & H0 & H1) H2. exists db0. split; [done|]. clear H0.
  induction H1; [done|]. econstructor; eauto.
Qed.

(** Along a run a persona's history only moves forward. *)
Lemma run_hist db db' p row :
  db_inv db → run tl db db' → db_personas db !! p = Some row →
  ∃ row', db_personas db' !! p = Some row' ∧ row_inv row' ∧ row_moves row row'.
Proof.
  intros HI Hrun Hp. destruct (run_moves _ _ Hrun HI) as [HI' Hh].
  destruct (Hh p row Hp) as (row' & Hp' & Hr). exists row'. split_and!; [done| |done].
  by apply (HI' p).
Qed.
End system.
