(* ===== verification/Samples.v ===== *)
(** * A concrete deployment

    One instance of the parameters — a library, a set of tools with one
    delegated effect — and a few short histories of the store under it.  The
    theorems of the files that follow are applied to them. *)

From Stdlib Require Import ZArith Lia.
From S2P Require Import Prelude Json MemoryState State Personas Inputs Journal Plans Pricing Usage Approvals MemoryBranch.
From S2P Require Import Jobs Turns Operations Schedules Machine History Ledger Invariant Database.
From S2P Require Import EffectFacts MemoryFrames System.
Local Open Scope string_scope.
Local Open Scope list_scope.
Local Open Scope Z_scope.

#[export] Instance sample_lib : GoLib := {|
  sha256_hex := strip_nul;
  json_Marshal := λ _, "{}";
  time_Marshal := λ t, itoa t;
  time_Parse := λ s, if bool_decide (s = "") then None else Some (Z.of_nat (String.length s) * 1000000);
  strconv_Quote := λ s, s;
  fmt_Sprint := λ _, "";
  strings_TrimSpace := λ s, s;
  pg_uuid := λ s, Some s
|}.

Definition sample_effect : ToolEffect :=
  mkEffect None (λ _ _ r row, (row, Ok r)) (Some (λ _, true)).
(** As the tools of the browser and of connections do: a job queued within
    the effect. *)
Definition queue_effect : ToolEffect :=
  mkEffect None (λ _ key r row,
    match EffectJobID key with
    | Err e => (row, Err e)
    | Ok id =>
        match ps_jobs row !! id with
        | None => (row <| ps_jobs ::= <[id := mkJob id "browser" r JobQueued None None ("tool:" +:+ key)
                     0 None None None None None None]> |>, Ok r)
        | Some _ => (row, Err (PgError "core_jobs_pkey"))
        end
    end) None.
Definition sample_tools : Tools :=
  mkTools (mkConfig "" (λ _, false))
    (<["browser.observe" := queue_effect]> {["messaging.history" := sample_effect]})
    (λ _ _ _ _ row, (row, Ok (Some ∅))) (λ now _ r, commit (resumeMemory now r)) (λ _ _ _, Ok ∅).

#[export] Instance sample_frame : EffectFrame sample_tools.
Proof.
  split; intros *; [|reflexivity|].
  - simpl. intros [[_ <-]|[_ [_ <-]%lookup_singleton_Some]]%lookup_insert_Some; [|reflexivity].
    simpl. destruct (EffectJobID key) as [id|]; [|reflexivity].
    destruct (ps_jobs row !! id) eqn:Hj; [reflexivity|]. by apply queued_job_frame.
  - apply internalMemoryTool_frame.
Qed.

Definition empty_db : DB := mkDB ∅ {["h1"]} ∅ {["c1" := "h1"]} ∅ ∅.

(** The database after a list of calls. *)
Definition play (cs : list Call) (db : DB) : DB := foldl (λ db c, exec sample_tools c db) db cs.

Lemma play_run cs db : run sample_tools db (play cs db).
Proof.
  revert db. induction cs as [|c cs IH]; intros db; [constructor|].
  econstructor; [apply step_call|apply IH].
Qed.
Lemma play_further a c db : take (length a) c = a → run sample_tools (play a db) (play c db).
Proof.
  intros H. rewrite <-(take_drop (length a) c), H. unfold play. rewrite foldl_app. apply play_run.
Qed.
Lemma play_reachable cs : reachable sample_tools (play cs empty_db).
Proof. exists empty_db. split; [done|]. apply play_run. Qed.

Definition row_of (db : DB) : PersonaRow :=
  default (empty_row (mkPersona None "" 0 Active None None)) (db_personas db !! "p").

(** What a successful transaction answered. *)
Definition answer {A} (d : A) (m : tx A) (db : DB) : A :=
  match m db with Ok (a, _) => a | Err _ => d end.

(** ** Evaluating histories

    [vm_eq] closes an equation by evaluation; [succeeds] and [look] name what
    a call or a lookup on a concrete history answers. *)
Lemma row_found db :
  match db_personas db !! "p" with Some _ => true | None => false end = true →
  db_personas db !! "p" = Some (row_of db).
Proof. unfold row_of. by destruct (db_personas db !! "p"). Qed.

Ltac by_evaluation :=
  match goal with
  | |- _ = ?b => tryif has_evar b then (vm_compute; reflexivity) else vm_cast_no_check (eq_refl b)
  end.
Ltac vm_eq :=
  lazymatch goal with
  | |- db_personas _ !! _ = Some (row_of _) => apply row_found; by_evaluation
  | |- _ => by_evaluation
  end.

Definition is_Ok {A} (r : res err A) : bool := match r with Ok _ => true | Err _ => false end.
Lemma succeeds {A} (m : tx A) db :
  is_Ok (m db) = true → ∃ a db', m db = Ok (a, db') ∧ (commit m db).1 = db'.
Proof.
  unfold commit. destruct (m db) as [[a db']|e]; [|discriminate]. intros _. by exists a, db'.
Qed.
Lemma answered {A} (d : A) (m : tx A) db :
  is_Ok (m db) = true → m db = Ok (answer d m db, (commit m db).1).
Proof. unfold commit, answer. destruct (m db) as [[a db']|e]; [done|discriminate]. Qed.
Lemma found {A} (o : option A) : match o with Some _ => true | None => false end = true → ∃ a, o = Some a.
Proof. destruct o as [a|]; [|discriminate]. intros _. exists a. reflexivity. Qed.
Lemma look {A B} (f : A → B) (o : option A) a v : o = Some a → f <$> o = Some v → f a = v.
Proof. intros -> [= H]. exact H. Qed.

(** ** A history *)

Definition hello : InputReq :=
  mkInputReq "i1" "message" (Some {["text" := JStr "hello"]}) "human" "h1" "chat" "" None "".
Definition note : PlanCallReq :=
  mkCallReq "c0" "journal.note" "normal" (Some {["text" := JStr "noted"]}).
Definition send : PlanCallReq :=
  mkCallReq "c1" "message.send" "elevated" (Some {["text" := JStr "hi"]}).
Definition start : PlanCallReq :=
  mkCallReq "c2" "script.start" "normal" (Some {["code" := JStr "export run"]}).
Definition wake : PlanCallReq :=
  mkCallReq "c3" "schedule.set" "normal"
    (Some (list_to_map [("schedule_id", JStr "s1"); ("wake_at", JStr "12345")])).
Definition plan : DecisionReq :=
  mkDecisionReq "thinking" (Some [note; send; start; wake]) None None.

Definition opened : list Call :=
  [CEnsurePersona 1 "p" (Some "h1") "Sumi"; CAcquireWriter 2 "p" "w1" 1000;
   CSubmitInput 3 "p" hello; CLoadTurn 4 "p" 1 "t1" ""; CSavePlan 5 "p" "t1" 1 0 plan].
Definition taken_over : list Call := opened ++ [CAcquireWriter 5000 "p" "w2" 1000].
Definition claim (op tool : string) (n : Z) (r : PlanCallReq) : Call :=
  CClaimOperation 6 6 "p" "t1" 1 op tool n (pr_request r).
Definition worked : list Call :=
  opened ++ [claim "o0" "journal.note" 0 note; claim "o1" "message.send" 1 send;
             claim "o2" "script.start" 2 start; claim "o3" "schedule.set" 3 wake].

Definition commit_as (outcome : string) : CommitRequest :=
  mkCommit outcome None None None "" false "" 0 None.
Definition appr : string := approvalID "p" "i1" 1.
Definition approve : ApprovalDecision := mkApprovalDecision "approve_once" "d1" "human" "h1".
Definition deny : ApprovalDecision := mkApprovalDecision "deny_once" "d1" "human" "h1".

Definition parked_run : list Call := worked ++ [CCommitTurn 7 "p" "t1" 1 (commit_as "await")].
Definition approved_run : list Call :=
  parked_run ++ [CResolveApproval 8 "p" appr approve; CLoadTurn 9 "p" 1 "t2" "";
                 CClaimOperation 10 10 "p" "t2" 1 "o1" "message.send" 1 (pr_request send)].
Definition denied_run : list Call := parked_run ++ [CResolveApproval 8 "p" appr deny].
Definition done_run : list Call :=
  approved_run ++ [CCommitTurn 11 "p" "t2" 1 (commit_as "complete")].

Example opened_runs : ps_plans (row_of (play opened empty_db)) !! "i1" ≠ None.
Proof. vm_compute. discriminate. Qed.
Example worked_runs :
  (op_status <$> (ps_ops (row_of (play worked empty_db)) !! "o0"),
   op_status <$> (ps_ops (row_of (play worked empty_db)) !! "o1"),
   op_status <$> (ps_ops (row_of (play worked empty_db)) !! "o2"),
   op_status <$> (ps_ops (row_of (play worked empty_db)) !! "o3"))
  = (Some OpDone, Some OpAwaitingApproval, Some OpDone, Some OpDone).
Proof. vm_compute. reflexivity. Qed.
Example done_runs :
  (in_status <$> (ps_inputs (row_of (play done_run empty_db)) !! "i1"),
   op_status <$> (ps_ops (row_of (play done_run empty_db)) !! "o1"),
   terminals (row_of (play done_run empty_db)), length (ps_events (row_of (play done_run empty_db))))
  = (Some InputDone, Some OpDone, ["i1"], 13%nat).
Proof. vm_compute. reflexivity. Qed.
