(* ===== verification/MemorySamples.v ===== *)
(** * A deployment with a long journal

    The sample deployment with records large enough to be sealed, and a
    history that takes one range through its life: sealed, claimed, reviewed,
    prepared and applied. *)

From Stdlib Require Import ZArith Lia.
From S2P Require Import Prelude Json MemoryState State Personas Memory Inputs Journal Plans Usage.
From S2P Require Import Approvals MemoryBranch Jobs Turns Operations EffectFacts MemoryFrames System Samples.
Local Open Scope string_scope.
Local Open Scope list_scope.
Local Open Scope Z_scope.

(** Every document takes 12 KiB. *)
Definition bulk : string := Nat.iter 11 (λ s, s +:+ s) "xxxxxx".
Definition bulky_lib : GoLib := {|
  sha256_hex := strip_nul;
  json_Marshal := λ _, bulk;
  time_Marshal := λ t, itoa t;
  time_Parse := λ s, Some 0;
  strconv_Quote := λ s, s;
  fmt_Sprint := λ _, "";
  strings_TrimSpace := λ s, s;
  pg_uuid := λ s, Some s
|}.
#[local] Existing Instance bulky_lib.

Definition bulky_tools : Tools :=
  mkTools (mkConfig "" (λ _, false)) ∅ (λ _ _ _ _ row, (row, Ok (Some ∅)))
    (λ now _ r, commit (resumeMemory now r)) (λ _ _ _, Ok ∅).
#[export] Instance bulky_frame : EffectFrame bulky_tools.
Proof.
  split; intros *; [simpl; by rewrite lookup_empty|reflexivity|apply internalMemoryTool_frame].
Qed.

Definition live (cs : list Call) (db : DB) : DB := foldl (λ db c, exec bulky_tools c db) db cs.
Lemma live_run cs db : run bulky_tools db (live cs db).
Proof.
  revert db. induction cs as [|c cs IH]; intros db; [constructor|].
  econstructor; [apply step_call|apply IH].
Qed.
Lemma live_reachable cs : reachable bulky_tools (live cs empty_db).
Proof. exists empty_db. split; [done|]. apply live_run. Qed.

(** A turn that notes something: five records. *)
Definition told (n : Z) (id turn : string) : list Call :=
  [CSubmitInput n "p" (mkInputReq id "message" (Some {["text" := JStr "hello"]}) "human" "h1" "chat" ""
     None "");
   CLoadTurn n "p" 1 turn "";
   CSavePlan n "p" turn 1 0 (mkDecisionReq "thinking" (Some [note]) None None);
   CClaimOperation n n "p" turn 1 ("o" +:+ id) "journal.note" 0 (pr_request note);
   CCommitTurn n "p" turn 1 (commit_as "complete")].
Definition lived : list Call :=
  [CEnsurePersona 1 "p" (Some "h1") "Sumi"; CAcquireWriter 2 "p" "w1" 100000]
  ++ told 3 "i1" "t1" ++ told 4 "i2" "t2" ++ told 5 "i3" "t3".

Definition say (text : string) : json :=
  JObj (list_to_map [("role", JStr "user"); ("content", JStr text)]).
(** The live context at the claim: the first turn is one message. *)
Definition shown : BranchSnapshot :=
  mkSnapshot [mkRaw (say "so far") 30] [] [mkRange 1 5 (Some 0) None None; mkRange 6 15 None None None]
    None.
Definition draft : json :=
  JObj (list_to_map [("text", JStr "in short"); ("version", jint 1); ("sha256", JStr "in short")]).
Definition opened_review : json :=
  JObj (list_to_map [("kind", JStr "replace"); ("version", jint 1); ("sha256", JStr "in short");
                     ("token", JStr "k"); ("opened_round", jint 1)]).
Definition checkpoint (status : string) (rounds : Z) (messages : list json) (more : list (string * json))
    : json :=
  JObj (list_to_map ([("status", JStr status); ("messages", JArr messages); ("rounds", jint rounds);
                      ("candidate", draft)] ++ more)).
Definition reviewing : json := checkpoint "running" 1 [say "draft"] [("review", opened_review)].
Definition verdict : json := checkpoint "prepared" 2 [say "draft"; say "yes"] [("final", opened_review)].
Definition pausing : json := checkpoint "paused" 1 [say "draft"] [("review", opened_review)].
Definition spoilt : json := checkpoint "running" 1 [say (String Ascii.zero EmptyString)] [].
Definition resume_request : obj :=
  list_to_map [("chunk_seq", jint 1); ("mode", JStr "resume"); ("additional_rounds", jint 3)].

Definition at_rest : DB := live lived empty_db.
Definition at_sealed : DB := live [CMemoryMaintain 6 "p" 1] at_rest.
Definition at_claimed : DB := live [CClaimMemoryBranch 7 "p" 1 (Some shown) None] at_sealed.
Definition at_review : DB := live [CSaveMemoryBranch 8 "p" 1 1 0 (Some reviewing)] at_claimed.
Definition at_prepared : DB := live [CSaveMemoryBranch 9 "p" 1 1 1 (Some verdict)] at_review.
Definition at_applied : DB := live [CMemoryMaintain 10 "p" 1] at_prepared.
Definition at_pause : DB := live [CSaveMemoryBranch 8 "p" 1 1 0 (Some pausing)] at_claimed.

Lemma later_reachable cs db : reachable bulky_tools db → reachable bulky_tools (live cs db).
Proof. intros H. eapply run_reachable; [done|]. apply live_run. Qed.
Lemma at_sealed_reachable : reachable bulky_tools at_sealed.
Proof. apply later_reachable, live_reachable. Qed.
Lemma at_claimed_reachable : reachable bulky_tools at_claimed.
Proof. apply later_reachable, at_sealed_reachable. Qed.
Lemma at_prepared_reachable : reachable bulky_tools at_prepared.
Proof. do 2 apply later_reachable. apply at_claimed_reachable. Qed.
Lemma at_applied_reachable : reachable bulky_tools at_applied.
Proof. apply later_reachable, at_prepared_reachable. Qed.

Example memory_life :
  (mc_status <$> (ps_chunks (row_of at_sealed) !! 1), mc_status <$> (ps_chunks (row_of at_claimed) !! 1),
   mc_status <$> (ps_chunks (row_of at_prepared) !! 1), mc_status <$> (ps_chunks (row_of at_applied) !! 1),
   mc_status <$> (ps_chunks (row_of at_applied) !! 2))
  = (Some ChSealed, Some ChPreparing, Some ChPrepared, Some ChApplied, Some ChSealed).
Proof. vm_compute. reflexivity. Qed.
