(* ===== verification/WriterTheorems.v ===== *)
(** * Writers: leases, generations and the fence

    What makes the single-writer discipline of [store.go] correct. *)

From Stdlib Require Import ZArith Lia.
From S2P Require Import Prelude Json State Personas Inputs Journal Plans Pricing Usage Approvals.
From S2P Require Import Jobs Turns Operations Schedules Machine History Ledger Invariant Database.
From S2P Require Import Memory MemoryBranch UsageFacts EffectFacts System Samples.
Local Open Scope string_scope.
Local Open Scope list_scope.
Local Open Scope Z_scope.

(** The calls for persona [p] that carry the generation [g] of a writer. *)
Definition made_by (p : string) (g : Z) (c : Call) : Prop :=
  match c with
  | CRenewWriter _ p' _ g' _ | CReleaseWriter p' _ g' | CLoadTurn _ p' g' _ _
  | CSavePlan _ p' _ g' _ _ | CClaimOperation _ _ p' _ g' _ _ _ _
  | CCompleteOperation _ p' _ g' _ _ | CCommitTurn _ p' _ g' _ | CRecover _ p' g'
  | CDispatchDueSchedules _ p' g' _ _ | CMemoryMaintain _ p' g'
  | CClaimMemoryBranch _ p' g' _ _ | CSaveMemoryBranch _ p' g' _ _ _ => p' = p ∧ g' = g
  | CAdmitUsage _ p' req => p' = p ∧ ua_generation req = g
  | _ => False
  end.

Section writers.
Context `{GL : !GoLib} (tl : Tools) `{!EffectFrame tl}.

Lemma fenced_err {A} p g (m : ptx A) db row :
  db_personas db !! p = Some row → lease_gen row ≠ Some g →
  fenced p g m db = Err ErrGenerationFence.
Proof.
  intros Hp Hg. unfold fenced, with_persona. rewrite Hp. unfold mbind, M_bind.
  by rewrite requireGeneration_err by auto.
Qed.

(** Under another generation nothing passes the fence. *)
Lemma refused db p row g c :
  db_personas db !! p = Some row → lease_gen row ≠ Some g → made_by p g c → exec tl c db = db.
Proof.
  intros Hp Hg Hc.
  assert (∀ h, lease_matches h g row = false) as Hm.
  { intros h. unfold lease_matches, lease_gen in *. destruct (ps_lease row) as [l|]; [|done].
    apply andb_false_iff. left. apply Z.eqb_neq. intros <-. by apply Hg. }
  destruct c; simpl in Hc; try done; destruct Hc as [-> Hgen]; try subst generation; simpl;
    try (unfold LoadTurn, CompleteOperation, Recover, DispatchDueSchedules, MemoryMaintain;
         by rewrite (fenced_refused p g _ db row Hp Hg)).
  - unfold commit, with_persona, RenewWriter. rewrite Hp. rewrite (Hm holder).
    by destruct (ps_lease row).
  - unfold commit, with_persona, ReleaseWriter. rewrite Hp. rewrite (Hm holder).
    by destruct (ps_lease row).
  - unfold SavePlan. destruct (round <? 0); [done|]. destruct (normalise d); [|done].
    destruct (hasNUL _); [done|]. by rewrite (fenced_refused p g _ db row Hp Hg).
  - unfold ClaimOperation.
    assert (∃ e, commit (claimOperation tl now nanos p turnID g operationID tool callIndex request)
                   db = (db, Err e)) as [e ->].
    { unfold claimOperation, commit. destruct (negb _); [by eexists|].
      destruct (hasNUL _); [by eexists|]. rewrite (fenced_err p g _ db row Hp Hg). by eexists. }
    destruct (claimRejected e); [|done]. by rewrite (fenced_refused p g _ db row Hp Hg).
  - unfold commit, CommitTurn. destruct (negb _); [done|]. unfold mbind, M_bind.
    by rewrite (fenced_err p g _ db row Hp Hg).
  - unfold commit, AdmitUsage. rewrite Hgen. destruct (_ || _); [done|]. unfold mbind, M_bind.
    by rewrite (fenced_err p g _ db row Hp Hg).
  - unfold commit, ClaimMemoryBranch, with_persona, claim_branch_tx. rewrite Hp.
    unfold requireMemoryGeneration, mbind, M_bind. by rewrite requireGeneration_err by auto.
  - unfold SaveMemoryBranch. destruct (parse_checkpoint raw) as [doc|]; [|done].
    unfold commit, with_persona, save_branch_tx. rewrite Hp. destruct doc as [[? ?] ?].
    unfold requireMemoryGeneration, mbind, M_bind. by rewrite requireGeneration_err by auto.
Qed.

(** C1: fencing.  Once a persona's lease has moved past generation [g], no
    call that carries generation [g] — loading, planning, claiming,
    completing or committing work, recovering, dispatching schedules,
    admitting usage, maintaining memory, claiming or saving a branch,
    renewing or releasing — changes the database, in that state or in any
    state any sequence of operations leads to.  The one call of a writer
    that carries no generation, a usage record for a call already sent, is
    still accepted and writes only the ledger and what waited for money:
    the usage facts and holds, the budget waits, parked inputs that are
    requeued and shelved memory chunks that become eligible again; the
    lease, turns, plans, operations, approvals, journal, outbox, jobs,
    schedules, branches and sessions of every persona stay as they are. *)
Theorem stale_writer_powerless db db' p row g g' :
  reachable tl db → db_personas db !! p = Some row → lease_gen row = Some g' → g < g' →
  run tl db db' →
  (∀ c, made_by p g c → exec tl c db' = db') ∧
  (∀ now req, billed_db db' (exec tl (CRecordUsage now p req) db')).
Proof.
  intros Hreach Hp Hg Hlt Hrun. split; [intros c Hc|intros now req].
  - destruct (run_hist tl db db' p row (reachable_inv tl _ Hreach) Hrun Hp) as (row' & Hp' & _ & Hh).
    destruct (rh_lease _ _ Hh g' Hg) as (g'' & Hg'' & ?).
    apply (refused db' p row' g); [done| |done]. rewrite Hg''. intros [= ->]. lia.
  - apply (steps_commit billed_db), RecordUsage_billed.
Qed.

(** Generations are never reused.  Of two leases of a persona acquired
    one after the other, whatever ran in between and whoever acquired
    them, the later one has the larger generation. *)
Theorem generations_never_reused db p now1 h1 ttl1 l1 db1 db2 now2 h2 ttl2 l2 db3 :
  reachable tl db →
  with_persona p ErrPersonaNotFound (AcquireWriter now1 h1 ttl1) db = Ok (l1, db1) →
  run tl db1 db2 →
  with_persona p ErrPersonaNotFound (AcquireWriter now2 h2 ttl2) db2 = Ok (l2, db3) →
  l_generation l1 < l_generation l2.
Proof.
  intros Hreach H1 Hrun H2. pose proof H1 as Hok.
  apply with_persona_ok in H1 as (row & row1 & Hp & Ha & Hdb1).
  apply AcquireWriter_gen in Ha as [Hg1 _].
  assert (db_personas db1 !! p = Some row1) as Hp1 by (rewrite Hdb1; apply lookup_insert_eq).
  assert (db_inv db1) as HI1.
  { eapply (with_persona_evolves p ErrPersonaNotFound); [|exact Hok|by apply (reachable_inv tl)].
    apply AcquireWriter_evolves. }
  destruct (run_hist tl db1 db2 p row1 HI1 Hrun Hp1) as (row2 & Hp2 & _ & Hh).
  destruct (rh_lease _ _ Hh _ Hg1) as (g & Hg & ?).
  apply with_persona_ok in H2 as (row2' & row3 & Hp2' & Ha2 & _). rewrite Hp2 in Hp2'.
  injection Hp2' as <-. apply AcquireWriter_gen in Ha2 as [_ Hn]. rewrite (Hn g Hg). lia.
Qed.

(** Hand-over.  A lease its holder releases can be acquired by any
    other holder at any later time after the epoch, under the next
    generation, so the released generation is never handed out again. *)
Theorem release_hands_over h g h' now ttl row u row' :
  p_authority (ps_persona row) = Active → 0 < now → g < MaxInt64 →
  ReleaseWriter h g row = Ok (u, row') →
  lease_gen row = Some g ∧ ∃ l, AcquireWriter now h' ttl row' = Ok (l, row' <| ps_lease := Some l |>)
    ∧ l_generation l = g + 1 ∧ l_holder_id l = h'.
Proof.
  intros Hact Hnow Hg H. unfold ReleaseWriter in H. destruct (ps_lease row) as [l|] eqn:Hl; [|done].
  destruct (lease_matches h g row) eqn:Hm; [|done]. injection H as _ <-.
  unfold lease_matches in Hm. rewrite Hl in Hm. reflect_bools. unfold lease_gen. rewrite Hl. simpl.
  split; [congruence|]. exists (mkLease (g + 1) h' now (now + ttl)).
  unfold AcquireWriter. simpl. rewrite (bool_decide_eq_true_2 (p_authority _ = _)) by done.
  rewrite (bool_decide_eq_true_2 (0 < now)) by done. simpl.
  destruct (Z.eqb_spec (l_generation l) MaxInt64); [lia|]. split_and!; [|done|done]. congruence.
Qed.
End writers.

(** *** On a concrete history *)

Lemma stale_writer_powerless_witness :
  lease_gen (row_of (play taken_over empty_db)) = Some 2 ∧
  exec sample_tools (CCommitTurn 5001 "p" "t1" 1 (commit_as "complete"))
    (play [CRecover 5001 "p" 2] (play taken_over empty_db))
  = play [CRecover 5001 "p" 2] (play taken_over empty_db).
Proof.
  split; [vm_eq|].
  apply (stale_writer_powerless sample_tools (play taken_over empty_db)
           (play [CRecover 5001 "p" 2] (play taken_over empty_db)) "p"
           (row_of (play taken_over empty_db)) 1 2).
  - apply play_reachable.
  - vm_eq.
  - vm_eq.
  - lia.
  - apply play_run.
  - split; reflexivity.
Defined.

Lemma generations_never_reused_witness :
  ∃ l1 db1 l2 db3,
    with_persona "p" ErrPersonaNotFound (AcquireWriter 2000 "w2" 10) (play opened empty_db)
      = Ok (l1, db1) ∧
    with_persona "p" ErrPersonaNotFound (AcquireWriter 3000 "w1" 10)
      (play [CRecover 2001 "p" 2; CReleaseWriter "p" "w2" 2] db1) = Ok (l2, db3) ∧
    l_generation l1 < l_generation l2.
Proof.
  do 4 eexists. split; [vm_eq|]. split; [vm_eq|].
  eapply (generations_never_reused sample_tools (play opened empty_db) "p" 2000 "w2" 10 _ _ _ 3000
            "w1" 10).
  - apply play_reachable.
  - vm_eq.
  - apply (play_run [CRecover 2001 "p" 2; CReleaseWriter "p" "w2" 2]).
  - vm_eq.
Defined.

Lemma release_hands_over_witness :
  ∃ row', ReleaseWriter "w1" 1 (row_of (play opened empty_db)) = Ok (tt, row') ∧
    ∃ l, AcquireWriter 9 "w2" 1000 row' = Ok (l, row' <| ps_lease := Some l |>)
      ∧ l_generation l = 2 ∧ l_holder_id l = "w2".
Proof.
  eexists. split; [vm_eq|].
  eapply (release_hands_over "w1" 1 "w2" 9 1000 (row_of (play opened empty_db)) tt).
  - vm_eq.
  - lia.
  - unfold MaxInt64. lia.
  - vm_eq.
Defined.
