(* ===== verification/TurnTheorems.v ===== *)
(** * Inputs and turns

    The guarantees of [SubmitInput], [LoadTurn], [CommitTurn] and [Recover],
    and the invariants of a persona's inputs, turns, journal and outbox on
    every reachable state. *)

From Stdlib Require Import ZArith Lia.
From S2P Require Import Prelude Json State Personas Inputs Journal Plans Pricing Usage Approvals.
From S2P Require Import Jobs Turns Operations Schedules Machine History Ledger Invariant Database.
From S2P Require Import EffectFacts TurnFacts System Samples.
Local Open Scope string_scope.
Local Open Scope list_scope.
Local Open Scope Z_scope.

Section turns.
Context `{GL : !GoLib} (tl : Tools) `{!EffectFrame tl}.

(** ** What holds of every reachable state *)

(** C6: one worker.  In every reachable state a persona has at most one
    running turn; the running turn's input is claimed by that turn under
    its generation, every claimed input belongs to the running turn, and a
    queued input carries no claim. *)
Theorem one_worker db p row :
  reachable tl db → db_personas db !! p = Some row →
  (∀ t x, ps_turns row !! t = Some x → tu_status x = TurnRunning →
     ∃ i, ps_inputs row !! tu_input_id x = Some i ∧ in_status i = Claimed
       ∧ in_claimed_generation i = Some (tu_generation x) ∧ in_turn_id i = Some t) ∧
  (∀ k i, ps_inputs row !! k = Some i → in_status i = Claimed →
     ∃ t x, in_turn_id i = Some t ∧ ps_turns row !! t = Some x ∧ tu_input_id x = k
       ∧ tu_status x = TurnRunning) ∧
  (∀ t t' x x', ps_turns row !! t = Some x → ps_turns row !! t' = Some x' →
     tu_status x = TurnRunning → tu_status x' = TurnRunning → t = t') ∧
  (∀ k i, ps_inputs row !! k = Some i → in_status i = Queued →
     in_claimed_generation i = None ∧ in_turn_id i = None).
Proof.
  intros Hreach Hp. pose proof (ri_machine _ (reachable_row tl _ _ _ Hreach Hp)) as HM.
  assert (∀ t x, ps_turns row !! t = Some x → tviews row !! t = Some (tview x)) as HT.
  { intros t x Hx. unfold tviews. by rewrite lookup_fmap, Hx. }
  assert (∀ k i, ps_inputs row !! k = Some i → views row !! k = Some (view i)) as HV.
  { intros k i Hi. apply views_lookup. eauto. }
  split_and!.
  - intros t x Hx Hr. pose proof (mi_running _ _ _ HM _ _ (HT _ _ Hx) Hr) as Hv.
    apply views_lookup in Hv as (i & Hi & [= Hs Hg Ht]). exists i. by split_and!.
  - intros k i Hi Hc. destruct (mi_claimed _ _ _ HM _ _ (HV _ _ Hi) Hc)
      as (t & y & Ht & _ & Hy & Hk & Hr).
    unfold tviews in Hy. rewrite lookup_fmap in Hy. apply fmap_Some in Hy as (x & Hx & ->).
    by exists t, x.
  - intros t t' x x' Hx Hx'. by apply (mi_one _ _ _ HM _ _ _ _ (HT _ _ Hx) (HT _ _ Hx')).
  - intros k i Hi Hq. pose proof (mi_queued _ _ _ HM _ _ (HV _ _ Hi) Hq) as Hv.
    unfold view, queued_view in Hv. by injection Hv as _ -> ->.
Qed.

(** C7: nothing waits for no reason.  In every reachable state an input
    that is parked has a pending approval of its own to be decided, or a
    recorded budget wait to be resumed: no operation strands it. *)
Theorem waiting_has_cause db p row k i :
  reachable tl db → db_personas db !! p = Some row → ps_inputs row !! k = Some i →
  in_status i = Waiting →
  (∃ n a, ps_approvals row !! (k, n) = Some a ∧ ap_status a = Pending) ∨
  is_Some (ps_waits row !! k).
Proof.
  intros Hreach Hp Hi Hw. apply (ri_waiting _ (reachable_row tl _ _ _ Hreach Hp) k (view i)); [|done].
  apply views_lookup. eauto.
Qed.

(** C8: every input is resolved at most once, and not silently.  In every
    reachable state the outbox entries that report an end
    (turn_completed, turn_failed) name exactly the inputs that are done,
    each of them once. *)
Theorem resolved_exactly_once db p row :
  reachable tl db → db_personas db !! p = Some row →
  NoDup (terminals row) ∧
  ∀ k, k ∈ terminals row ↔ ∃ i, ps_inputs row !! k = Some i ∧ in_status i = InputDone.
Proof.
  intros Hreach Hp.
  destruct (ri_terminal _ (reachable_row tl _ _ _ Hreach Hp)) as [Hnd Hiff].
  split; [done|]. intros k. rewrite Hiff. unfold view_done. setoid_rewrite views_lookup. split.
  - intros (v & (i & Hi & ->) & Hd). eauto.
  - intros (i & Hi & Hd). eauto.
Qed.

(** C9: the journal.  In every reachable state the events are numbered
    1, 2, 3, ... without gap, each under a recorded turn; an input's
    receipt marker is exactly the number of the receipt event naming it,
    of which there is at most one; and from its receipt on no experience
    record (message, call, result, approval request) of an input is
    journaled twice, whichever of its turns wrote it. *)
Theorem journal_wellformed db p row :
  reachable tl db → db_personas db !! p = Some row →
  (ev_seq <$> ps_events row = seqZ 1 (length (ps_events row))) ∧
  (∀ e, e ∈ ps_events row → is_Some (ps_turns row !! ev_turn_id e)) ∧
  (∀ k n, received row k = Some n ↔ ∃ e, e ∈ ps_events row ∧ ev_seq e = n
     ∧ receipt_of (ev_kind e) (ev_payload e) = Some k) ∧
  (∀ k e e', e ∈ ps_events row → e' ∈ ps_events row →
     receipt_of (ev_kind e) (ev_payload e) = Some k →
     receipt_of (ev_kind e') (ev_payload e') = Some k → e = e') ∧
  (∀ k, NoDup (journaled_keys row k)).
Proof.
  intros Hreach Hp. pose proof (ri_journal _ (reachable_row tl _ _ _ Hreach Hp)) as HJ.
  pose proof HJ as [H1 H2 H3 H4]. split_and!; [done..| |done].
  intros k e e' He He' Hk Hk'. by eapply (receipt_unique row k).
Qed.

(** C10: history is append-only.  Whatever operations run, the events and
    the outbox of a persona only grow at the end, a finished turn stays
    exactly as it finished, and a done input stays done. *)
Theorem history_append_only db db' p row :
  reachable tl db → db_personas db !! p = Some row → run tl db db' →
  ∃ row', db_personas db' !! p = Some row' ∧
    ps_events row `prefix_of` ps_events row' ∧ ps_outbox row `prefix_of` ps_outbox row' ∧
    (∀ t x, ps_turns row !! t = Some x → tu_status x ≠ TurnRunning →
       ps_turns row' !! t = Some x) ∧
    (∀ k i, ps_inputs row !! k = Some i → in_status i = InputDone →
       ∃ i', ps_inputs row' !! k = Some i' ∧ in_status i' = InputDone).
Proof.
  intros Hreach Hp Hrun.
  destruct (run_hist tl _ _ _ _ (reachable_inv tl _ Hreach) Hrun Hp) as (row' & Hp' & _ & Hh).
  exists row'. split_and!; [done|apply Hh|apply Hh| |].
  - intros t x Hx Hs. apply (rh_turns _ _ Hh) in Hx as (x' & Hx' & Ht).
    by rewrite Hx', (th_final _ _ Ht).
  - intros k i Hi Hs. apply (rh_inputs _ _ Hh) in Hi as (i' & Hi' & Hin).
    exists i'. split; [done|]. by apply (ih_done _ _ Hin).
Qed.

(** ** Submitting *)

Lemma submit_fresh now r row i row' :
  submit_tx now r row = Ok ((i, true), row') →
  params_ok r = true ∧ attention_ok (req_attention r) = true ∧
  ps_inputs row' !! ir_id r = Some i ∧ same_request r i = true.
Proof.
  intros H. pose proof H as Hok. unfold submit_tx, submit_replay in H.
  apply submit_tx_ok in Hok as [(_ & j & _ & [=] & _)|(_ & [= ->] & ->)].
  assert (params_ok r && attention_ok (req_attention r) = true) as [??]%andb_true_iff.
  { repeat case_match; simplify_eq. by apply negb_false_iff. }
  split_and!; [done|done|apply lookup_insert_eq|apply same_request_new].
Qed.

(** An id taken by the same request, or by another one. *)
Lemma submit_taken now p r db row i :
  db_personas db !! p = Some row → ps_inputs row !! ir_id r = Some i →
  reserved_input_id (ir_id r) = false →
  params_ok r = true → attention_ok (req_attention r) = true →
  commit (SubmitInput now p r) db
    = (db, if same_request r i then Ok (i, false) else Err ErrTurnConflict).
Proof.
  intros Hp Hi Hres Hpar Hatt. unfold commit, SubmitInput. rewrite Hres. unfold with_persona.
  rewrite Hp. unfold submit_tx, insert_input, submit_replay. simpl. rewrite Hi, Hpar, Hatt. simpl.
  assert (db <| db_personas := <[p := row]> (db_personas db) |> = db) as Hdb.
  { simpl. rewrite insert_id by done. by destruct db. }
  simpl in Hdb. destruct (bool_decide _), (same_request r i); simpl; try done; by rewrite Hdb.
Qed.

(** C31: submission is idempotent for ever.  After a new input was
    accepted, submitting the same request again — at any later time, in
    any state any operations lead to, even when the persona has become
    inactive — answers the stored input as not new and changes nothing. *)
Theorem submit_replays_forever now now' p r i db db1 db2 :
  reachable tl db → SubmitInput now p r db = Ok ((i, true), db1) → run tl db1 db2 →
  ∃ i', input_hist i i' ∧ commit (SubmitInput now' p r) db2 = (db2, Ok (i', false)).
Proof.
  intros Hreach H Hrun. pose proof H as Hsub. unfold SubmitInput in H.
  destruct (reserved_input_id (ir_id r)) eqn:Hres; [done|].
  apply with_persona_ok in H as (row & row1 & Hp & Htx & Hdb1).
  assert (db_personas db1 !! p = Some row1) as Hp1 by (rewrite Hdb1; apply lookup_insert_eq).
  assert (db_inv db1) as HI1.
  { eapply SubmitInput_evolves; [exact Hsub|]. by apply (reachable_inv tl). }
  apply submit_fresh in Htx as (Hpar & Hatt & Hi & Hsame).
  destruct (run_hist tl _ _ _ _ HI1 Hrun Hp1) as (row2 & Hp2 & _ & Hh).
  destruct (rh_inputs _ _ Hh _ _ Hi) as (i' & Hi' & Hih). exists i'. split; [done|].
  rewrite (submit_taken now' p r db2 row2 i') by done. by rewrite (same_request_hist r i i' Hih), Hsame.
Qed.

(** A taken id is not reused.  Submitting a different request under
    the id of a stored input is a conflict and changes nothing; the ids of
    job and schedule notifications are refused outright. *)
Theorem submit_conflicts now p r db row :
  db_personas db !! p = Some row →
  (∀ i, ps_inputs row !! ir_id r = Some i → same_request r i = false →
     params_ok r = true → attention_ok (req_attention r) = true →
     reserved_input_id (ir_id r) = false →
     commit (SubmitInput now p r) db = (db, Err ErrTurnConflict)) ∧
  (∀ x, ir_id r = schedInputPrefix +:+ x ∨ ir_id r = jobInputPrefix +:+ x →
     (commit (SubmitInput now p r) db).1 = db ∧ (commit (SubmitInput now p r) db).2
       = Err (reserved_error (ir_id r))).
Proof.
  intros Hp. split.
  - intros i Hi Hdiff Hpar Hatt Hres. by rewrite (submit_taken now p r db row i), Hdiff.
  - intros x Hx. unfold commit, SubmitInput, reserved_input_id.
    destruct Hx as [-> | ->]; rewrite prefix_app, ?orb_true_r; done.
Qed.

(** ** Loading *)

(** Work in order.  When a load begins a turn, no turn was running,
    the input taken was queued with its pacing passed and is the earliest
    admitted of all such inputs, and exactly it becomes claimed by the new
    turn under the caller's generation; when a load answers no turn,
    nothing was claimable and nothing changed. *)
Theorem load_oldest_first now p g turnID freshID db r db' row :
  reachable tl db → db_personas db !! p = Some row →
  LoadTurn now p g turnID freshID db = Ok (r, db') → running_turn row = None →
  match lr_turn r with
  | None => db' = db ∧ ∀ k i, ps_inputs row !! k = Some i → claimable_input now i = false
  | Some t => ∃ k i row', ps_inputs row !! k = Some i ∧ claimable_input now i = true ∧
      (∀ k' i', ps_inputs row !! k' = Some i' → claimable_input now i' = true →
         in_admission_seq i ≤ in_admission_seq i') ∧
      tu_input_id t = k ∧ tu_generation t = g ∧ tu_status t = TurnRunning ∧
      db_personas db' = <[p := row']> (db_personas db) ∧
      ps_turns row' = <[tu_id t := t]> (ps_turns row) ∧
      ps_inputs row' = <[k := claim_input g i <| in_turn_id := Some (tu_id t) |>]> (ps_inputs row)
  end.
Proof.
  intros Hreach Hp H Hrun. unfold LoadTurn in H.
  apply fenced_ok in H as (row0 & row' & Hp0 & _ & _ & H & ->). rewrite Hp in Hp0.
  injection Hp0 as <-. unfold load_tx in H. rewrite Hrun in H.
  destruct (next_input now row) as [[k i]|] eqn:Hn.
  - unfold begin_turn in H. set (tid := if bool_decide (turnID = "") then _ else _) in H.
    destruct (ps_turns row !! tid); [done|]. destruct (contains_nul tid); [done|].
    simpl in H. injection H as <- <-. apply next_input_Some in Hn as (Hi & Hc & Hmin).
    exists k, i. eexists. split_and!; try done. unfold upd_input. simpl.
    by rewrite (alter_found _ _ _ i Hi).
  - injection H as <- <-. simpl. split; [rewrite insert_id by done; by destruct db|].
    intros k i. by apply next_input_None.
Qed.

Lemma running_turn_unique row tid t :
  row_inv row → ps_turns row !! tid = Some t → tu_status t = TurnRunning →
  running_turn row = Some (tid, t).
Proof.
  intros HI Ht Hr. destruct (running_turn row) as [[tid' t']|] eqn:Hrun.
  - apply running_turn_Some in Hrun as [Ht' Hr'].
    assert (tid' = tid) as ->; [|congruence].
    eapply (mi_one _ _ _ (ri_machine _ HI)); unfold tviews; rewrite ?lookup_fmap, ?Ht, ?Ht'; done.
  - by eapply running_turn_None in Hrun.
Qed.

(** Loading is idempotent.  When a load answered a turn, loading again
    under the same generation — with whatever turn id, at any time —
    answers the same turn on the same input and changes nothing. *)
Theorem load_resumes now now' p g turnID freshID turnID' freshID' db r t db1 :
  reachable tl db → LoadTurn now p g turnID freshID db = Ok (r, db1) → lr_turn r = Some t →
  ∃ r', commit (LoadTurn now' p g turnID' freshID') db1 = (db1, Ok r') ∧ lr_turn r' = Some t
    ∧ in_id <$> lr_input r' = in_id <$> lr_input r.
Proof.
  intros Hreach H Hr. pose proof H as Hload.
  apply fenced_ok in H as (row & row1 & Hp & Hg & Hact & H & Hdb1).
  assert (db_personas db1 !! p = Some row1) as Hp1 by (rewrite Hdb1; apply lookup_insert_eq).
  assert (row_inv row1) as HI1.
  { eapply (fenced_db_evolves p g _ (load_tx_evolves _ _ _ _)); [exact Hload| |exact Hp1].
    by apply (reachable_inv tl). }
  assert (∃ tid i, ps_turns row1 !! tid = Some t ∧ tu_status t = TurnRunning ∧ tu_generation t = g ∧
    ps_inputs row1 !! tu_input_id t = Some i ∧ in_id <$> lr_input r = Some (in_id i) ∧
    lease_gen row1 = Some g ∧ p_authority (ps_persona row1) = Active)
    as (tid & i & Ht & Hrun & Hgen & Hi & Hid & Hg1 & Hact1).
  { pose proof H as Hok. apply load_tx_ok in Hok
      as [->|(k & i & tid & _ & Hn & Ht & -> & _ & Hlr & Hli)].
    - unfold load_tx in H. destruct (running_turn row) as [[tid x]|] eqn:Hrun.
      + destruct (tu_generation x =? g) eqn:Hgen; [|done]. simpl in H.
        destruct (ps_inputs row !! tu_input_id x) as [i|] eqn:Hi; [|done].
        injection H as <-. simpl in Hr. injection Hr as <-.
        apply running_turn_Some in Hrun as [? ?]. reflect_bools. exists tid, i. by split_and!.
      + destruct (next_input now row) as [[k i]|] eqn:Hn; [|injection H as <-; done].
        exfalso. unfold begin_turn in H. set (tid := if bool_decide (turnID = "") then _ else _) in H.
        destruct (ps_turns row !! tid) eqn:Hx; [done|]. destruct (contains_nul tid); [done|].
        simpl in H. injection H as _ Heq. apply (f_equal ps_turns) in Heq. simpl in Heq.
        rewrite <-Heq, lookup_insert_eq in Hx. done.
    - rewrite Hlr in Hr. injection Hr as <-. rewrite Hli.
      apply next_input_Some in Hn as (Hi & _ & _). exists tid. eexists.
      unfold begun, upd_input. simpl.
      split_and!; [apply lookup_insert_eq|done|done|by rewrite lookup_alter_eq, Hi|done..]. }
  assert (db1 <| db_personas := <[p := row1]> (db_personas db1) |> = db1) as Hsame.
  { simpl. rewrite insert_id by done. by destruct db1. }
  unfold commit, LoadTurn, fenced, with_persona. rewrite Hp1. unfold mbind, M_bind.
  destruct (requireGeneration g row1) as [[u s]|e] eqn:Hreq.
  2: { rewrite (proj2 (requireGeneration_ok g row1 tt row1)) in Hreq by done. done. }
  apply requireGeneration_ok in Hreq as (_ & -> & _). unfold load_tx.
  rewrite (running_turn_unique row1 tid t HI1 Ht Hrun), Hgen, Z.eqb_refl. simpl. rewrite Hi.
  simpl in Hsame. rewrite Hsame. eexists. split; [done|]. split; [done|]. by rewrite Hid.
Qed.

(** ** Committing *)

Lemma commit_row_ok now tid req b t row i t' row' :
  ps_turns row !! tid = Some t → ps_inputs row !! tu_input_id t = Some i →
  outcome_ok (cr_outcome req) = true →
  commit_row now tid req b t row = Ok (t', row') →
  request_ok req = true ∧ ∃ row1 i1 i', journals row row1 ∧ input_marked i i1 ∧
    ps_inputs row1 !! tu_input_id t = Some i1 ∧
    ps_turns row' = <[tid := t']> (ps_turns row) ∧ finished_as req t t' ∧
    ps_inputs row' = <[tu_input_id t := i']> (ps_inputs row1) ∧
    outcome_spec now req row1 row' t i1 i'.
Proof.
  intros Ht Hi Hout H. unfold commit_row in H.
  apply bind_ok in H as (u & row1 & He & H). apply bind_ok in H as (u2 & s & Hg & H).
  apply guard_ok in Hg as [Hreq ->]. split; [done|].
  pose proof (commit_events_journals _ _ _ _ _ _ _ He) as Hjo.
  pose proof (jo_inputs _ _ Hjo (tu_input_id t)) as Hmark. rewrite Hi in Hmark.
  inversion Hmark as [? i1 Hm Heq Hi1|]; subst. symmetry in Hi1.
  assert (ps_turns row1 = ps_turns row) as HT by by rewrite (jo_rest _ _ Hjo).
  apply (commit_outcome_ok now tid req b t row1 i1) in H as (Ht' & Hfin & i' & Hi' & Hspec);
    [|by rewrite HT|done|done].
  exists row1, i1, i'. rewrite <-HT. by split_and!.
Qed.

(** Inverting a commit to the turn it leaves. *)
Lemma commit_finished now p turnID g req0 db t' db1 :
  db_inv db → CommitTurn now p turnID g req0 db = Ok (t', db1) →
  ∃ row1, db_personas db1 !! p = Some row1 ∧ ps_turns row1 !! turnID = Some t' ∧
    tu_status t' ≠ TurnRunning ∧ tu_generation t' = g ∧
    tu_commit_request t' = Some (clean_request req0) ∧ request_ok (clean_request req0) = true ∧
    outcome_ok (cr_outcome req0) = true.
Proof.
  intros HI H. assert (outcome_ok (cr_outcome req0) = true) as Hout.
  { unfold CommitTurn in H. by destruct (outcome_ok _). }
  pose proof H as Hc. apply CommitTurn_ok in H
    as (row & t & Hp & Hg & Hact & Ht & Hgen & [(Hs & Hreq & -> & ->)|Hlive]).
  - exists row. split_and!; try done. unfold CommitTurn in Hc. rewrite Hout in Hc. simpl in Hc.
    apply bind_ok in Hc as (x & db2 & Hf & Hc). apply fenced_ok in Hf
      as (rowb & rowc & Hpb & _ & _ & Hx & _). rewrite Hp in Hpb. injection Hpb as <-.
    unfold get_turn in Hx. rewrite Ht in Hx. injection Hx as <- <-.
    rewrite (bool_decide_eq_false_2 (tu_status t = TurnRunning)) in Hc by done. simpl in Hc.
    apply lift_ok in Hc as [Hc _]. unfold replay_commit in Hc. destruct (negb _); [done|].
    by destruct (request_ok _).
  - destruct Hlive as (Hr & _ & row1 & b & row' & Hrec & Hcom & ->).
    apply reconcile_keeps in Hrec as (HT & HIn & _).
    pose proof (mi_running _ _ _ (ri_machine _ (HI p row Hp)) turnID (tview t)) as Hv.
    destruct (proj1 (views_lookup row (tu_input_id t) (mkView Claimed (Some (tu_generation t)) (Some turnID))))
      as (i & Hi & _). { apply Hv; [|done]. unfold tviews. by rewrite lookup_fmap, Ht. }
    destruct (commit_row_ok now turnID (clean_request req0) b t row1 i t' row')
      as (Hok & _ & _ & _ & _ & _ & _ & HT' & (? & ? & Hgt & _) & _); try done.
    { by rewrite HT. } { by rewrite HIn. }
    exists row'. split_and!; try done; [apply lookup_insert_eq| |congruence].
    by rewrite HT', lookup_insert_eq.
Qed.

(** Commits replay for ever.  After a commit succeeded, committing the
    same request for that turn again under the same, still current
    generation answers the recorded turn and changes nothing, in any state
    any operations lead to; any other well-formed request for that turn is
    a conflict and changes nothing. *)
Theorem commit_replays_forever now now' p turnID g req db t db1 db2 row2 :
  reachable tl db → CommitTurn now p turnID g req db = Ok (t, db1) → run tl db1 db2 →
  db_personas db2 !! p = Some row2 → lease_gen row2 = Some g →
  p_authority (ps_persona row2) = Active →
  commit (CommitTurn now' p turnID g req) db2 = (db2, Ok t) ∧
  ∀ req', outcome_ok (cr_outcome req') = true → request_ok (clean_request req') = true →
    clean_request req' ≠ clean_request req →
    commit (CommitTurn now' p turnID g req') db2 = (db2, Err ErrTurnConflict).
Proof.
  intros Hreach H Hrun Hp2 Hg2 Hact2.
  assert (db_inv db1) as HI1.
  { eapply CommitTurn_evolves; [exact H|]. by apply (reachable_inv tl). }
  apply commit_finished in H as (row1 & Hp1 & Ht & Hs & Hgen & Hreq & Hok & Hout);
    [|by apply (reachable_inv tl)].
  destruct (run_hist tl _ _ _ _ HI1 Hrun Hp1) as (row2' & Hp2' & _ & Hh).
  rewrite Hp2 in Hp2'. injection Hp2' as <-.
  apply (rh_turns _ _ Hh) in Ht as (t2 & Ht2 & Hth). rewrite (th_final _ _ Hth Hs) in Ht2.
  assert (db2 <| db_personas := <[p := row2]> (db_personas db2) |> = db2) as Hsame.
  { simpl. rewrite insert_id by done. by destruct db2. }
  simpl in Hsame.
  assert (∀ req', outcome_ok (cr_outcome req') = true → CommitTurn now' p turnID g req' db2
    = match replay_commit g (clean_request req') t with Ok x => Ok (x, db2) | Err e => Err e end)
    as Hcom.
  { intros req' Hout'. unfold CommitTurn. rewrite Hout'. simpl. unfold fenced, with_persona, mbind, M_bind.
    rewrite Hp2. rewrite (proj2 (requireGeneration_ok g row2 tt row2)) by done.
    unfold get_turn. rewrite Ht2. simpl.
    rewrite (bool_decide_eq_false_2 (tu_status t = TurnRunning)) by done. simpl.
    rewrite Hsame. unfold lift. done. }
  unfold commit. split.
  - rewrite Hcom by done. unfold replay_commit. rewrite Hgen, Z.eqb_refl, Hok. simpl.
    by rewrite bool_decide_eq_true_2.
  - intros req' Hout' Hok' Hne. rewrite Hcom by done. unfold replay_commit.
    rewrite Hgen, Z.eqb_refl, Hok'. simpl. rewrite bool_decide_eq_false_2; [done|].
    rewrite Hreq. congruence.
Qed.

Lemma retry_delay_range attempt after :
  200 * Millisecond ≤ retry_delay attempt after ≤ 2 * Minute.
Proof.
  unfold retry_delay. pose proof (retryBackoff_bounds attempt) as Hb. cbv zeta.
  unfold Millisecond, Second, Minute in *.
  repeat case_match; reflect_bools; lia.
Qed.

(** What a commit does.  A commit of the running turn finishes it with
    the request recorded, and moves its input by the outcome: "complete"
    and a final "fail" resolve it and append its one terminal outbox entry;
    a retryable "fail" requeues it, not before 200 ms and at most two
    minutes from now; "await" parks it exactly when an approval of its own
    is pending and requeues it otherwise; a budget "await"
    parks it with a recorded wait or requeues it. *)
Theorem commit_moves_input now p turnID g req0 db t' db' row t i :
  reachable tl db → db_personas db !! p = Some row → ps_turns row !! turnID = Some t →
  tu_status t = TurnRunning → ps_inputs row !! tu_input_id t = Some i →
  CommitTurn now p turnID g req0 db = Ok (t', db') →
  let req := clean_request req0 in
  ∃ row' i', db_personas db' = <[p := row']> (db_personas db) ∧
    ps_turns row' = <[turnID := t']> (ps_turns row) ∧ finished_as req t t' ∧
    ps_inputs row' !! tu_input_id t = Some i' ∧
    (cr_outcome req = "complete" ∨ (cr_outcome req = "fail" ∧ cr_retryable req = false) →
       in_status i' = InputDone ∧ in_done_at i' = Some now ∧
       ∃ e, ps_outbox row' = ps_outbox row ++ [e] ∧ terminal_of e = Some (tu_input_id t)) ∧
    (cr_outcome req = "fail" → cr_retryable req = true →
       in_status i' = Queued ∧ ps_outbox row' = ps_outbox row ∧
       ∃ nb, in_not_before i' = Some nb ∧ now + 200000 ≤ nb ≤ now + 120000000) ∧
    (cr_outcome req = "await" → cr_wait req = None →
       (in_status i' = Waiting ↔ pendingApprovalsForInput (tu_input_id t) row ≠ []) ∧
       (in_status i' = Waiting ∨ in_status i' = Queued)) ∧
    (∀ w, cr_outcome req = "await" → cr_wait req = Some w →
       (in_status i' = Waiting ∧ is_Some (ps_waits row' !! tu_input_id t)) ∨
       in_status i' = Queued).
Proof.
  intros Hreach Hp Ht Hr Hi H req.
  pose proof H as Hok. apply CommitTurn_ok in Hok
    as (row0 & t0 & Hp0 & _ & _ & Ht0 & _ & Hcase). rewrite Hp in Hp0. injection Hp0 as <-.
  rewrite Ht in Ht0. injection Ht0 as <-.
  destruct Hcase as [(Hs & _)|(_ & Hout & row1 & b & row' & Hrec & Hc & ->)]; [done|].
  pose proof Hrec as Hrec0. injection Hrec0 as Hrow1. apply reconcile_keeps in Hrec as (HT & HIn & HO & _).
  destruct (commit_row_ok now turnID req b t row1 i t' row')
    as (_ & row2 & i1 & i' & Hjo & Hm & Hi1 & HT' & Hfin & Hi' & [Hcomp Hfail Hretry Happ Hbud]);
    [by rewrite HT|by rewrite HIn|done|done|].
  assert (ps_outbox row2 = ps_outbox row) as HO2 by (rewrite (jo_rest _ _ Hjo); done).
  exists row', i'. split_and!; try done; rewrite <-?HO2.
  - congruence.
  - by rewrite Hi', lookup_insert_eq.
  - intros [Ho|[Ho Hnr]].
    + destruct (Hcomp Ho) as (-> & e & He & _ & Hterm). eauto 10.
    + destruct (Hfail Ho Hnr) as (-> & e & He & _ & Hterm). eauto 10.
  - intros Ho Hre. destruct (Hretry Ho Hre) as [He ->]. split_and!; [done|done|].
    eexists. split; [done|].
    pose proof (retry_delay_range (tu_attempt t) (cr_retry_after_ms req)) as Hrange.
    unfold Millisecond, Minute in *. rewrite Z.quot_div_nonneg by lia.
    pose proof (Z.div_mod (retry_delay (tu_attempt t) (cr_retry_after_ms req)) 1000000 ltac:(lia)).
    pose proof (Z.mod_pos_bound (retry_delay (tu_attempt t) (cr_retry_after_ms req)) 1000000 ltac:(lia)).
    lia.
  - intros Ho Hw. specialize (Happ Ho Hw).
    assert (pendingApprovalsForInput (tu_input_id t) row2 = pendingApprovalsForInput (tu_input_id t) row)
      as Hpend.
    { unfold pendingApprovalsForInput. rewrite (jo_rest _ _ Hjo). rewrite <-Hrow1. done. }
    rewrite Hpend in Happ. destruct (decide _) as [Hnil|Hnil].
    + destruct Happ as [-> _]. simpl. split; [|by right]. split; [done|]. by intros.
    + destruct Happ as [-> _]. simpl. split; [|by left]. done.
  - intros w Ho Hw. destruct (Hbud w Ho Hw) as [(-> & _)|(-> & ? & _)]; [by right|by left].
Qed.

(** ** Recovering *)

(** Recovery.  After a successful recovery under generation [g] every
    running turn and every claim of an input is of generation [g]; each
    turn another generation left running is interrupted and its input is
    back in the queue; and no usage hold of an older generation remains
    held. *)
Theorem recover_reclaims now p g db r db' row :
  reachable tl db → db_personas db !! p = Some row → Recover now p g db = Ok (r, db') →
  ∃ row', db_personas db' = <[p := row']> (db_personas db) ∧
    (∀ t x, ps_turns row' !! t = Some x → tu_status x = TurnRunning → tu_generation x = g) ∧
    (∀ k i, ps_inputs row' !! k = Some i → in_status i = Claimed →
       in_claimed_generation i = Some g) ∧
    (∀ t x, ps_turns row !! t = Some x → tu_status x = TurnRunning → tu_generation x ≠ g →
       t ∈ rr_interrupted r ∧
       ∃ x' i, ps_turns row' !! t = Some x' ∧ tu_status x' = TurnInterrupted ∧
         ps_inputs row' !! tu_input_id x = Some i ∧ in_status i = Queued) ∧
    (∀ f rs, ps_reservations row' !! f = Some rs → rs_generation rs < g → rs_status rs ≠ Held).
Proof.
  intros Hreach Hp H. pose proof (reachable_row tl _ _ _ Hreach Hp) as HI.
  apply fenced_ok in H as (row0 & row' & Hp0 & _ & _ & H & ->). rewrite Hp in Hp0.
  injection Hp0 as <-. pose proof (recover_tx_evolves now g _ _ _ H HI) as [HI' _].
  destruct (recover_tx_shape now g _ _ _ HI H) as (Hint & row3 & HI3 & _ & Hrec & Hcase).
  pose proof (reconcile_keeps _ _ _ _ _ Hrec) as (HT & HIn & _).
  assert (∀ t x, ps_turns row' !! t = Some x → tu_status x = TurnRunning → tu_generation x = g)
    as Hgen.
  { intros t x Hx Hr. destruct (decide (tu_generation x = g)) as [|Hne]; [done|exfalso].
    rewrite HT in Hx.
    assert (∀ y, ps_turns row !! t = Some y → y = x → (t, x) ∈ stale_turns g row) as Hst.
    { intros y Hy ->. apply list_elem_of_filter. split; [done|]. apply list_elem_of_filter.
      split; [done|]. by apply elem_of_map_to_list. }
    destruct Hcase as [[Hs ->]|(tid & t0 & i & Hs & Ht0 & HT3 & _)].
    - rewrite Hs in Hst. by apply (Hst x), not_elem_of_nil in Hx.
    - rewrite HT3 in Hx. apply lookup_insert_Some in Hx as [[_ <-]|[Hn Hx]]; [done|].
      rewrite Hs in Hst. apply (Hst x) in Hx as [= ->]%list_elem_of_singleton; done. }
  exists row'. split_and!; [done|done| | |].
  - intros k i Hi Hc. destruct (stale_claims g row' k i HI' Hi Hc)
      as (tid & t & Ht & Hr & _ & -> & _). by rewrite (Hgen tid t).
  - intros t x Hx Hr Hne. rewrite Hint.
    assert ((t, x) ∈ stale_turns g row) as Hin.
    { apply list_elem_of_filter. split; [done|]. apply list_elem_of_filter.
      split; [done|]. by apply elem_of_map_to_list. }
    split; [by apply (list_elem_of_fmap_2 fst _ (t, x))|].
    destruct Hcase as [[Hs ->]|(tid & t0 & i & Hs & Ht0 & HT3 & Hi & Hq)].
    + rewrite Hs in Hin. by apply not_elem_of_nil in Hin.
    + rewrite Hs in Hin. apply list_elem_of_singleton in Hin as [= -> ->].
      exists (interrupt now t0), i. rewrite HT, HIn, HT3, lookup_insert_eq. done.
  - injection Hrec as <-. simpl. intros f rs Hrs Hlt Hheld.
    apply lookup_union_Some_raw in Hrs as [Hrs|[Hnone Hrs]].
    + rewrite lookup_fmap in Hrs. apply fmap_Some in Hrs as (r0 & _ & ->). done.
    + rewrite lookup_fmap in Hnone. apply fmap_None in Hnone.
      apply map_lookup_filter_None_1 in Hnone as [?|Hf]; [congruence|].
      apply (Hf rs Hrs). simpl. unfold reconciled. rewrite !bool_decide_eq_true_2 by done.
      simpl. by apply Z.ltb_lt.
Qed.

(** Pacing of retries.  Whatever attempt number and whatever
    Retry-After a provider sent, the requeue delay is at least the
    exponential backoff's 200 ms and at most two minutes; and a
    Retry-After that fits an int64 duration and is at most two minutes is
    honoured in full. *)
Theorem retry_delay_bounds attempt after :
  200 * Millisecond ≤ retry_delay attempt after ≤ 2 * Minute ∧
  (0 ≤ after ≤ 120000 → after * Millisecond ≤ retry_delay attempt after).
Proof.
  split; [apply retry_delay_range|]. intros Ha. unfold retry_delay. cbv zeta.
  unfold Millisecond, Minute in *.
  rewrite int64_id by (unfold is_int64, MinInt64, MaxInt64; lia).
  repeat case_match; reflect_bools; lia.
Qed.
End turns.

(** *** On a concrete history *)

Definition at_work : DB := play opened empty_db.
Definition at_rest : DB := play parked_run empty_db.
Definition at_end : DB := play done_run empty_db.

Lemma one_worker_witness :
  ∃ i, ps_inputs (row_of at_work) !! "i1" = Some i ∧ in_status i = Claimed
    ∧ in_claimed_generation i = Some 1 ∧ in_turn_id i = Some "t1".
Proof.
  destruct (one_worker sample_tools at_work "p" (row_of at_work)) as (H & _).
  - apply (play_reachable opened).
  - vm_eq.
  - exact (H "t1" (new_turn 4 "t1" "i1" 1 1) ltac:(vm_eq) ltac:(reflexivity)).
Defined.

Lemma waiting_has_cause_witness :
  ∃ i, ps_inputs (row_of at_rest) !! "i1" = Some i ∧ in_status i = Waiting ∧
    ((∃ n a, ps_approvals (row_of at_rest) !! ("i1", n) = Some a ∧ ap_status a = Pending) ∨
     is_Some (ps_waits (row_of at_rest) !! "i1")).
Proof.
  eexists. split; [vm_eq|]. split; [vm_eq|].
  eapply (waiting_has_cause sample_tools at_rest "p" (row_of at_rest)).
  - apply (play_reachable parked_run).
  - vm_eq.
  - vm_eq.
  - vm_eq.
Defined.

Lemma resolved_exactly_once_witness :
  NoDup (terminals (row_of at_end)) ∧ "i1" ∈ terminals (row_of at_end).
Proof.
  destruct (resolved_exactly_once sample_tools at_end "p" (row_of at_end)) as [Hnd H].
  - apply (play_reachable done_run).
  - vm_eq.
  - split; [exact Hnd|]. apply H. eexists. split; vm_eq.
Defined.

Lemma journal_wellformed_witness :
  length (ps_events (row_of at_end)) = 13%nat ∧
  ev_seq <$> ps_events (row_of at_end) = seqZ 1 13 ∧ NoDup (journaled_keys (row_of at_end) "i1").
Proof.
  destruct (journal_wellformed sample_tools at_end "p" (row_of at_end)) as (Hn & _ & _ & _ & Hk).
  - apply (play_reachable done_run).
  - vm_eq.
  - split; [vm_eq|]. split; [exact Hn|exact (Hk "i1")].
Defined.

Lemma history_append_only_witness :
  ∃ row', db_personas at_end !! "p" = Some row' ∧
    ps_events (row_of at_work) `prefix_of` ps_events row'.
Proof.
  destruct (history_append_only sample_tools at_work at_end "p" (row_of at_work))
    as (row' & Hp & He & _).
  - apply (play_reachable opened).
  - vm_eq.
  - apply play_further. vm_eq.
  - exists row'. split; [exact Hp|exact He].
Defined.

Definition ready : list Call :=
  [CEnsurePersona 1 "p" (Some "h1") "Sumi"; CAcquireWriter 2 "p" "w1" 1000].

Lemma submit_replays_forever_witness :
  ∃ i db1 i', SubmitInput 3 "p" hello (play ready empty_db) = Ok ((i, true), db1) ∧
    commit (SubmitInput 99 "p" hello) (play [CLoadTurn 4 "p" 1 "t1" ""] db1)
      = (play [CLoadTurn 4 "p" 1 "t1" ""] db1, Ok (i', false)) ∧ input_hist i i'.
Proof.
  eexists _, _. destruct (submit_replays_forever sample_tools 3 99 "p" hello
    (new_input 3 hello 1) (play ready empty_db) (play [CSubmitInput 3 "p" hello] (play ready empty_db))
    (play [CLoadTurn 4 "p" 1 "t1" ""] (play [CSubmitInput 3 "p" hello] (play ready empty_db))))
    as (i' & Hh & H).
  - apply play_reachable.
  - vm_eq.
  - apply play_run.
  - exists i'. split; [vm_eq|]. split; [exact H|exact Hh].
Defined.

Lemma submit_conflicts_witness :
  commit (SubmitInput 99 "p"
      (mkInputReq "i1" "message" (Some {["text" := JStr "other"]}) "human" "h1" "chat" "" None ""))
    at_work = (at_work, Err ErrTurnConflict).
Proof.
  destruct (submit_conflicts 99 "p"
    (mkInputReq "i1" "message" (Some {["text" := JStr "other"]}) "human" "h1" "chat" "" None "")
    at_work (row_of at_work)) as [H _].
  - vm_eq.
  - eapply H; vm_eq.
Defined.

Definition queued : DB := play (ready ++ [CSubmitInput 3 "p" hello]) empty_db.

Lemma load_oldest_first_witness :
  ∃ r db', LoadTurn 4 "p" 1 "t1" "" queued = Ok (r, db') ∧
    ∃ k i row', ps_inputs (row_of queued) !! k = Some i ∧
      ps_inputs row' = <[k := claim_input 1 i <| in_turn_id := Some "t1" |>]>
                         (ps_inputs (row_of queued)).
Proof.
  eexists _, _. split; [vm_eq|].
  pose proof (load_oldest_first sample_tools 4 "p" 1 "t1" "" queued _ _ (row_of queued)
    (play_reachable (ready ++ [CSubmitInput 3 "p" hello])) ltac:(vm_eq)
    ltac:(vm_eq) ltac:(vm_eq))
    as (k & i & row' & Hi & _ & _ & _ & _ & _ & _ & _ & Hin).
  exists k, i, row'. split; [exact Hi|exact Hin].
Defined.

Definition no_load : LoadResult := mkLoad None None (renderedContext "" (row_of empty_db)) None.
Definition first_load : tx LoadResult := LoadTurn 4 "p" 1 "t1" "".

Lemma load_resumes_witness :
  ∃ r', commit (LoadTurn 5 "p" 1 "t9" "") at_work = (at_work, Ok r') ∧
    lr_turn r' = Some (new_turn 4 "t1" "i1" 1 1).
Proof.
  destruct (load_resumes sample_tools 4 5 "p" 1 "t1" "" "t9" "" at_work
    (answer no_load first_load at_work) (new_turn 4 "t1" "i1" 1 1) at_work) as (r' & H & Ht & _).
  - apply (play_reachable opened).
  - vm_eq.
  - vm_eq.
  - exists r'. split; [exact H|exact Ht].
Defined.

Definition parks : tx Turn := CommitTurn 7 "p" "t1" 1 (commit_as "await").
Definition parked_turn : Turn := answer (new_turn 0 "" "" 0 0) parks (play worked empty_db).

Definition now_parked : DB := (commit parks (play worked empty_db)).1.

Lemma commit_replays_forever_witness :
  let later := play [CResolveApproval 8 "p" appr approve] now_parked in
  commit (CommitTurn 9 "p" "t1" 1 (commit_as "await")) later = (later, Ok parked_turn).
Proof.
  apply (commit_replays_forever sample_tools 7 9 "p" "t1" 1 (commit_as "await")
    (play worked empty_db) parked_turn now_parked
    (play [CResolveApproval 8 "p" appr approve] now_parked)
    (row_of (play [CResolveApproval 8 "p" appr approve] now_parked))).
  - apply play_reachable.
  - apply (answered (new_turn 0 "" "" 0 0) parks). vm_eq.
  - apply play_run.
  - vm_eq.
  - vm_eq.
  - vm_eq.
Defined.

Lemma commit_moves_input_witness :
  ∃ row' i', ps_inputs row' !! "i1" = Some i' ∧ in_status i' = Waiting.
Proof.
  destruct (found (ps_inputs (row_of (play worked empty_db)) !! "i1") ltac:(vm_eq)) as [i Hin].
  destruct (commit_moves_input sample_tools 7 "p" "t1" 1 (commit_as "await") (play worked empty_db)
    parked_turn now_parked (row_of (play worked empty_db)) (new_turn 4 "t1" "i1" 1 1)
    i) as (row' & i' & _ & _ & _ & Hi & _ & _ & Hpark & _).
  - apply play_reachable.
  - vm_eq.
  - vm_eq.
  - reflexivity.
  - exact Hin.
  - apply (answered (new_turn 0 "" "" 0 0) parks). vm_eq.
  - exists row', i'. split; [exact Hi|].
    apply (Hpark ltac:(reflexivity) ltac:(reflexivity)). vm_compute. discriminate.
Defined.

Lemma recover_reclaims_witness :
  ∃ r db' row' x' i, Recover 5001 "p" 2 (play taken_over empty_db) = Ok (r, db') ∧
    ps_turns row' !! "t1" = Some x' ∧ tu_status x' = TurnInterrupted ∧
    ps_inputs row' !! "i1" = Some i ∧ in_status i = Queued ∧ "t1" ∈ rr_interrupted r.
Proof.
  destruct (succeeds (Recover 5001 "p" 2) (play taken_over empty_db) ltac:(vm_eq))
    as (r & db' & Hr & _).
  destruct (recover_reclaims sample_tools 5001 "p" 2 (play taken_over empty_db) r db'
    (row_of (play taken_over empty_db))) as (row' & _ & _ & _ & H & _).
  - apply play_reachable.
  - vm_eq.
  - exact Hr.
  - destruct (H "t1" (new_turn 4 "t1" "i1" 1 1) ltac:(vm_eq) ltac:(reflexivity)
      ltac:(discriminate)) as (Hin & x' & i & Hx & Hs & Hi & Hq).
    exists r, db', row', x', i. split; [exact Hr|]. repeat split; assumption.
Defined.

Lemma retry_delay_bounds_witness : 60000 * Millisecond ≤ retry_delay 3 60000.
Proof. apply (retry_delay_bounds 3 60000). lia. Defined.
