(* ===== verification/OperationTheorems.v ===== *)
(** * Plans, operations and approvals

    A planned call takes effect at most once, an elevated one only under a
    human's grant, and a decision is final. *)

From Stdlib Require Import ZArith Lia.
From S2P Require Import Prelude Json State Personas Inputs Journal Plans Pricing Usage Approvals.
From S2P Require Import Jobs Turns Operations Schedules Machine History Ledger Invariant Database.
From S2P Require Import JobFacts EffectFacts OperationFacts System Samples.
Local Open Scope string_scope.
Local Open Scope list_scope.
Local Open Scope Z_scope.

Lemma elevated_requires tool : approvalRequirement tool "elevated" ≠ "".
Proof.
  unfold approvalRequirement. rewrite (bool_decide_eq_true_2 ("elevated" = "elevated")) by done.
  by repeat case_match.
Qed.

Section operations.
Context `{GL : !GoLib} (tl : Tools) `{!EffectFrame tl}.

(** C2: no effect without consent.  In every reachable state a completed
    operation is a call of its input's recorded plan, with that tool and
    request; and when the call was made on the elevated route, or its tool
    may only run elevated, there is an approval of exactly this call that
    a human approved and that was spent on this operation. *)
Theorem gated_calls_need_grant db p row k o :
  reachable tl db → db_personas db !! p = Some row →
  ps_ops row !! k = Some o → op_status o = OpDone →
  ∃ i n c, op_idempotency_key o = idem_key i n ∧ plan_call (ps_plans row) i n = Some c ∧
    pc_tool c = op_tool o ∧ pc_request c = op_request o ∧
    (pc_route c = "elevated" ∨ elevatedOnlyTool (op_tool o) = true →
     ∃ a, ps_approvals row !! (i, n) = Some a ∧ ap_status a = Approved ∧
       is_Some (ap_consumed_at a) ∧ ap_operation_id a = k ∧
       ap_tool a = op_tool o ∧ ap_request a = op_request o).
Proof.
  intros Hreach Hp Ho Hd. pose proof (ri_ledger _ (reachable_row tl _ _ _ Hreach Hp)) as HL.
  destruct (li_call _ _ _ _ HL k o Ho) as (i & n & [Hk Hn (c & Hc & Ht & Hr)] & _).
  exists i, n, c. split_and!; [done..|]. intros Hgate.
  assert (needs_grant c) as Hneed.
  { destruct Hgate as [He|He]; [left; rewrite He; apply elevated_requires|right; by rewrite Ht]. }
  destruct (li_gate _ _ _ _ HL k o i n c Ho Hk Hn Hc Hneed Hd) as (a & Ha & Hs & Hcon).
  destruct (li_approval _ _ _ _ HL i n a Ha) as [_ _ (o' & Ho' & Hk' & Ht' & Hr' & _) _].
  assert (ap_operation_id a = k) as Heq by (eapply (li_unique _ _ _ _ HL); [done..|congruence]).
  exists a. rewrite Heq, Ho in Ho'. injection Ho' as <-. by split_and!.
Qed.

(** A claim at the level of the database. *)
Lemma claimOperation_ok now nanos p turnID g opID tool n request db c db' :
  claimOperation tl now nanos p turnID g opID tool n request db = Ok (c, db') →
  ∃ row row', db_personas db !! p = Some row ∧ lease_gen row = Some g ∧
    claim_tx tl now nanos p turnID g opID tool n (default ∅ request) row = Ok (c, row') ∧
    db' = db <| db_personas := <[p := row']> (db_personas db) |>.
Proof.
  unfold claimOperation. destruct (negb _); [done|]. destruct (hasNUL _); [done|].
  intros (row & row' & Hp & Hg & _ & H & ->)%fenced_ok. eauto 10.
Qed.

(** C5: at most once.  Once a planned call's operation is settled, every
    later claim of that call that succeeds — whatever ran in between, by
    whichever writer, from whichever turn of the input — answers the
    recorded operation as not fresh and changes nothing but the journal:
    no effect runs again.  The receipt is the recorded one, except that a
    job tool's gains the job's current state. *)
Theorem settled_call_never_reruns db db2 p row k o i n now nanos turnID x g opID tool request c db3 row2 :
  reachable tl db → db_personas db !! p = Some row → ps_ops row !! k = Some o → op_settled o →
  op_idempotency_key o = idem_key i n → 0 ≤ n → run tl db db2 →
  db_personas db2 !! p = Some row2 → ps_turns row2 !! turnID = Some x → tu_input_id x = i →
  claimOperation tl now nanos p turnID g opID tool n request db2 = Ok (c, db3) →
  ∃ row3, db3 = db2 <| db_personas := <[p := row3]> (db_personas db2) |> ∧ journals row2 row3 ∧
    c.2 = false ∧ c.1.1 = o <| op_response := op_response c.1.1 |> ∧
    (is_job_tool tool = false → c.1.1 = o).
Proof.
  intros Hreach Hp Ho Hset Hkey Hn Hrun Hp2 Hx Hi H.
  destruct (run_hist tl _ _ _ _ (reachable_inv tl _ Hreach) Hrun Hp) as (row2' & Hp2' & HI2 & Hh).
  rewrite Hp2 in Hp2'. injection Hp2' as <-.
  apply (rh_ops _ _ Hh) in Ho as (o2 & Ho2 & Hoh). rewrite (oh_final _ _ Hoh Hset) in Ho2.
  apply claimOperation_ok in H as (rowb & row3 & Hpb & _ & H & ->). rewrite Hp2 in Hpb.
  injection Hpb as <-. exists row3. split; [done|].
  apply claim_tx_inv in H as (x' & pos & Hx' & _ & Hpos & Ht & Hr & H).
  rewrite Hx in Hx'. injection Hx' as <-. rewrite Hi in *.
  pose proof (plan_call_position _ _ _ _ Hpos) as (Hc & Hidx & _).
  destruct (li_call _ _ _ _ (ri_ledger _ HI2) k o Ho2) as (j & m & [Hk Hm (c' & Hc' & Ht' & _)] & _).
  rewrite Hkey in Hk. apply idem_key_inj in Hk as [<- <-]; [|done|done].
  rewrite Hc in Hc'. injection Hc' as <-.
  unfold claim_position in H. apply bind_ok in H as (stored & s & Hins & H). rewrite Hidx in *.
  apply insert_op_ok in Hins as [(k' & o' & -> & -> & Hby)|(-> & -> & _ & Hby)].
  - apply operationByKey_Some in Hby as (Ho' & _ & Hk'). simpl in Hk'.
    assert (k' = k) as -> by (eapply (li_unique _ _ _ _ (ri_ledger _ HI2)); [done|done|congruence]).
    rewrite Ho2 in Ho'. injection Ho' as <-.
    apply claim_stored_settled in H as (Hjo & Hf & _ & Hop & Hresp); [|done].
    split_and!; [done..|]. intros Hj. rewrite Hop, (Hresp Hj). by destruct o.
  - eapply operationByKey_None in Hby; [|exact Ho2|]; simpl in *; congruence.
Qed.

(** Plan positions.  The call found at an index of a recorded plan is
    the one at that position in the plan's calls laid end to end, round
    after round, and its record carries that index. *)
Theorem plan_position_is_flat plan n :
  (ce_call <$> planPosition (Some plan) n)
    = (if decide (0 ≤ n) then flat (tp_plan plan) !! Z.to_nat n else None) ∧
  ∀ pos, planPosition (Some plan) n = Some pos → ce_index pos = n.
Proof.
  unfold planPosition. destruct (decide (0 ≤ n)) as [Hn|Hn].
  - destruct (Z.ltb_spec n 0); [lia|]. split; [|by intros pos [_ ?]%plan_position_flat].
    destruct (flat (tp_plan plan) !! Z.to_nat n) as [c|] eqn:Hc.
    + apply (plan_position_complete 0 _ n) in Hc as (pos & -> & <- & _). done.
    + destruct (plan_position_from 0 (Z.to_nat n) n (tp_plan plan)) as [pos|] eqn:Hp; [|done].
      apply plan_position_flat in Hp as [Hp _]. congruence.
  - destruct (Z.ltb_spec n 0); [done|lia].
Qed.

(** C40: identities.  The key of a planned call determines the input and
    the index; the index is read back from the key, whatever the input id
    contains; a delegated effect gets the same job id from the key that
    the job tools compute from the call; and distinct calls get distinct
    job ids. *)
Theorem call_identities i n i' n' :
  0 ≤ n → 0 ≤ n' →
  operationCallIndex (idem_key i n) = Some n ∧
  (i ≠ "" → EffectJobID (idem_key i n) = Ok (tool_job_id i n)) ∧
  (idem_key i n = idem_key i' n' → i = i' ∧ n = n') ∧
  (i ≠ "" → i' ≠ "" → tool_job_id i n = tool_job_id i' n' → i = i' ∧ n = n').
Proof.
  intros Hn Hn'. split_and!.
  - by apply operationCallIndex_idem_key.
  - intros Hi. unfold EffectJobID. rewrite idem_key_last by done.
    destruct (String.length i) as [|l] eqn:Hl; [by destruct i|].
    rewrite <-Hl, idem_key_suffix, itoa_canonical, itoa_digits by done.
    rewrite bool_decide_eq_false_2 by by apply itoa_nonempty. simpl.
    unfold idem_key, tool_job_id. by rewrite str_take_app.
  - by apply idem_key_inj.
  - intros Hi Hi' H. unfold tool_job_id in H. apply str_app_inj in H.
    assert (∀ a b, 0 ≤ b → last_index ":" (a +:+ ":" +:+ itoa b) = Some (String.length a)) as Hlast.
    { intros a b Hb. rewrite (last_index_app _ _ _ 0); [by rewrite Nat.add_0_r|].
      pose proof (itoa_digits b Hb) as Hd. generalize dependent (itoa b). intros d Hd.
      simpl. rewrite last_index_digits by done. unfold HasPrefix. simpl. by destruct d. }
    assert (String.length i = String.length i') as Hlen.
    { pose proof (Hlast i n Hn) as H1. rewrite H, Hlast in H1 by done. by injection H1. }
    assert (i = i') as <-.
    { rewrite <-(str_take_app i (":" +:+ itoa n)), <-(str_take_app i' (":" +:+ itoa n')).
      by rewrite Hlen, H. }
    split; [done|]. apply str_app_inj, str_app_inj in H.
    assert (Some n = Some n') as [= <-]; [|done].
    rewrite <-(atoi_itoa n Hn), H. by apply atoi_itoa.
Qed.

(** *** Where a claim leaves its operation *)

Definition recorded (c : Claim) (row : PersonaRow) (i : string) (n : Z) (tool : string) (r : obj)
    : Prop :=
  ∃ o, ps_ops row !! op_id c.1.1 = Some o ∧ op_idempotency_key o = idem_key i n ∧
    op_tool o = tool ∧ op_request o = r ∧ op_status o = op_status c.1.1.

Lemma finished_recorded now st resp op row_n op' row1 t i pos a u row' :
  ps_ops row_n !! op_id op = Some op → finish_op now st resp op row_n = Ok (op', row1) →
  journalOutcomeTx now t i pos op' a row1 = Ok (u, row') → ps_ops row' !! op_id op' = Some op'.
Proof.
  intros Ho [-> ->]%finish_op_ok Hj%journalOutcomeTx_journals.
  rewrite (jo_rest _ _ Hj). simpl. by rewrite lookup_alter_eq, Ho.
Qed.

Lemma effect_ops now nanos p t i tool n key r row :
  in_turn t i row → ids_ok row →
  ps_ops (internalToolResponse tl now nanos p t i tool n key r row).1 = ps_ops row.
Proof. intros Hin Hids. by apply bs_ops, internalToolResponse_beside. Qed.

Lemma run_approved_recorded now nanos p turnID i n pos op a row c row' :
  row_inv row → ps_ops row !! op_id op = Some op → op_idempotency_key op = idem_key i n → 0 ≤ n →
  in_turn turnID i row →
  run_approved tl now nanos p turnID i pos op a row = Ok (c, row') →
  ps_ops row' !! op_id c.1.1 = Some c.1.1 ∧ op_id c.1.1 = op_id op ∧
  op_idempotency_key c.1.1 = op_idempotency_key op ∧ op_tool c.1.1 = op_tool op ∧
  op_request c.1.1 = op_request op.
Proof.
  intros HI Hop Hkey Hn Ht H. unfold run_approved in H.
  apply bind_ok in H as (u & s & [= _ Hs] & H). apply bind_ok in H as (u1 & s1 & Hexp & H).
  apply bind_ok in H as (out & s2 & Heff & H).
  assert (beside s s1) as Hb1.
  { eapply journalExperienceTx_beside; [|apply erec_decided|exact Hexp]. by rewrite <-Hs. }
  assert (ps_ops s2 !! op_id op = Some op) as Hs2.
  { pose proof (effect_ops now nanos p (op_turn_id op) i (op_tool op) (ce_index pos)
      (op_idempotency_key op) (op_request op) s1) as He.
    destruct (internalToolResponse _ _ _ _ _ _ _ _ _ _ s1) as [s' r]. injection Heff as _ <-.
    simpl in He. rewrite He, (bs_ops _ _ Hb1), <-Hs; [done| |].
    - eapply in_turn_beside; [done|]. rewrite <-Hs.
      exact (stored_turn row op i n HI Hop Hkey Hn).
    - eapply (beside_ids _ _ (ps_ops row) (ps_approvals row)); [done|]. rewrite <-Hs.
      by destruct row. }
  assert (∀ st resp op' s3 u a' s4, finish_op now st resp op s2 = Ok (op', s3) →
    journalOutcomeTx now turnID i pos op' a' s3 = Ok (u, s4) →
    ps_ops s4 !! op_id op' = Some op' ∧ op' = settle_op now st resp op) as Hend.
  { intros. split; [by eapply finished_recorded|].
    by match goal with H : finish_op _ _ _ _ _ = _ |- _ => apply finish_op_ok in H as [-> _] end. }
  destruct out as [[response|]|[]]; inv_tx;
    match goal with
    | H1 : finish_op _ _ _ _ _ = _, H2 : journalOutcomeTx _ _ _ _ _ _ _ = _ |- _ =>
        destruct (Hend _ _ _ _ _ _ _ H1 H2) as [Hl ->]; by split_and!
    end.
Qed.

Lemma claim_fresh_recorded now nanos p turnID i pos op key row c row' :
  row_inv row → in_turn turnID i row →
  claim_fresh tl now nanos p turnID i pos op key (with_op row op) = Ok (c, row') →
  ps_ops row' !! op_id c.1.1 = Some c.1.1 ∧
  ∃ st resp, c.1.1 = settle_op now st resp op.
Proof.
  intros HI Ht H.
  assert (∀ st resp op' s2 s3 u a' s4, ps_ops s2 !! op_id op = Some op →
    finish_op now st resp op s2 = Ok (op', s3) →
    journalOutcomeTx now turnID i pos op' a' s3 = Ok (u, s4) →
    ps_ops s4 !! op_id op' = Some op' ∧ ∃ st resp, op' = settle_op now st resp op) as Hend.
  { intros. split; [by eapply finished_recorded|].
    match goal with H : finish_op _ _ _ _ _ = _ |- _ => apply finish_op_ok in H as [-> _] end.
    eauto. }
  assert (ps_ops (with_op row op) !! op_id op = Some op) as H0 by apply lookup_insert_eq.
  unfold claim_fresh in H. apply bind_ok in H as (denied & s & [= <- <-] & H).
  destruct (deniedIdenticalCall _ _ _ _) as [a|]; [inv_tx; eapply Hend; [|eassumption..]; exact H0|].
  destruct (elevatedOnlyTool _ && _); [inv_tx; eapply Hend; [|eassumption..]; exact H0|].
  apply bind_ok in H as (u & s1 & Hexp & H). apply bind_ok in H as (resp & s2 & Heff & H).
  destruct resp as [response|]; [|done]. inv_tx.
  assert (beside (with_op row op) s1) as Hb1.
  { eapply journalExperienceTx_beside; [|apply erec_decided|exact Hexp]. exact Ht. }
  eapply Hend; [|eassumption..]. unfold of_call in Heff.
  pose proof (effect_ops now nanos p turnID i (op_tool op) (ce_index pos) key (op_request op) s1) as He.
  destruct (internalToolResponse _ _ _ _ _ _ _ _ _ _ s1) as [s' []]; simplify_eq. simpl in He.
  rewrite He, (bs_ops _ _ Hb1); [done|by eapply in_turn_beside|].
  eapply (beside_ids (with_op row op) _ (ps_ops row) (ps_approvals row)); [done|].
  unfold with_op. by destruct row.
Qed.

Lemma claimGated_recorded now nanos p turnID i n pos op route req fresh row rowo c row' :
  row_inv row → ps_ops rowo !! op_id op = Some op → op_idempotency_key op = idem_key i n → 0 ≤ n →
  in_turn turnID i rowo → (fresh = false → rowo = row) →
  (fresh = true → op_status op = OpAwaitingApproval ∧ ps_approvals rowo !! (i, ce_index pos) = None) →
  claimGated tl now nanos p turnID i pos op route req fresh rowo = Ok (c, row') →
  ps_ops row' !! op_id c.1.1 = Some c.1.1 ∧ op_id c.1.1 = op_id op ∧
  op_idempotency_key c.1.1 = op_idempotency_key op ∧ op_tool c.1.1 = op_tool op ∧
  op_request c.1.1 = op_request op.
Proof.
  intros HI Ho Hkey Hn Ht Hold Hnew H. unfold claimGated in H.
  assert (∀ u a s s', journalOutcomeTx now turnID i pos op a s = Ok (u, s') → ps_ops s' = ps_ops s)
    as Hjo.
  { intros u a s s' Hj%journalOutcomeTx_journals. by rewrite (jo_rest _ _ Hj). }
  destruct (bool_decide_reflect (op_status op = OpAwaitingApproval)) as [Hst|Hst]; simpl in H.
  2:{ inv_tx. erewrite Hjo by eassumption. by split_and!. }
  destruct fresh.
  - destruct (Hnew eq_refl) as [_ Hnone].
    destruct (validate_gated _ _ _); [|inv_tx].
    + apply bind_ok in H as (u & s & Hrec & H). unfold record_approval in Hrec. simpl in Hrec.
      rewrite Hnone in Hrec. destruct (approval_by_id _ _); [done|]. injection Hrec as _ <-.
      unfold gated_decision in H. apply bind_ok in H as (found & s & [= <- <-] & H).
      unfold approvalForCall in H. simpl in H. rewrite lookup_insert_eq in H. simpl in H. inv_tx.
      match goal with H : journalExperienceTx _ _ _ _ _ = _ |- _ =>
        apply journalExperienceTx_journals in H; rewrite (jo_rest _ _ H) end.
      by split_and!.
    + match goal with H1 : finish_op _ _ _ _ _ = _, H2 : journalOutcomeTx _ _ _ _ _ _ _ = _ |- _ =>
        pose proof (finished_recorded _ _ _ _ _ _ _ _ _ _ _ _ _ Ho H1 H2);
        apply finish_op_ok in H1 as [-> _] end.
      by split_and!.
  - specialize (Hold eq_refl) as ->. unfold gated_decision in H.
    apply bind_ok in H as (found & s & [= <- <-] & H).
    destruct (approvalForCall _ _ _) as [a|]; [|done].
    destruct (ap_status a).
    + inv_tx. match goal with H : journalExperienceTx _ _ _ _ _ = _ |- _ =>
        apply journalExperienceTx_journals in H; rewrite (jo_rest _ _ H) end.
      by split_and!.
    + destruct (ap_consumed_at a).
      * inv_tx. erewrite Hjo by eassumption. by split_and!.
      * by eapply run_approved_recorded.
    + inv_tx. erewrite Hjo by eassumption. by split_and!.
Qed.

Lemma claim_stored_recorded now nanos p turnID i n tool g r pos req op row c row' :
  row_inv row → ps_ops row !! op_id op = Some op → op_idempotency_key op = idem_key i n → 0 ≤ n →
  op_tool op = tool → in_turn turnID i row →
  claim_stored tl now nanos p turnID i tool g r pos req op row = Ok (c, row') →
  recorded c row' i n tool r.
Proof.
  intros HI Ho Hkey Hn Htool Ht H.
  assert (op_settled op ∨ op_status op = OpAwaitingApproval) as [Hset|Hst].
  { pose proof (li_settled _ _ _ _ (ri_ledger _ HI) _ _ Ho) as Hnr. unfold op_settled.
    destruct (op_status op); auto. done. }
  - apply claim_stored_settled in H as (Hjo & _ & Hr & Hop & _); [|done].
    exists op. rewrite (jo_rest _ _ Hjo), Hop. by split_and!.
  - unfold claim_stored in H. destruct (jsonbEqual _ _) eqn:Heq; [|done]. simpl in H.
    unfold jsonbEqual in Heq. apply bool_decide_eq_true_1 in Heq.
    rewrite Hst in H. simpl in H. rewrite andb_false_r in H.
    apply bind_ok in H as (cur & s & [= <- <-] & H). case_bool_decide.
    + inv_tx. match goal with H : journalOutcomeTx _ _ _ _ _ _ _ = _ |- _ =>
        apply journalOutcomeTx_journals in H; rename H into Hjo end.
      exists op. rewrite (jo_rest _ _ Hjo). by split_and!.
    + eapply claimGated_recorded in H as (H1 & H2 & H3 & H4 & H5); try done.
      exists c.1.1. split_and!; congruence.
Qed.

Lemma claim_position_recorded now nanos p turnID x g opID tool r pos n row c row' :
  row_inv row → ps_turns row !! turnID = Some x →
  planPosition (planForInput (tu_input_id x) row) n = Some pos →
  pc_tool (ce_call pos) = tool →
  claim_position tl now nanos p turnID (tu_input_id x) g opID tool r pos row = Ok (c, row') →
  recorded c row' (tu_input_id x) n tool r.
Proof.
  intros HI Hx Hpos Htool H. set (i := tu_input_id x) in *.
  pose proof (plan_call_position _ _ _ _ Hpos) as (Hc & Hidx & Hn).
  assert (in_turn turnID i row) as Ht by by exists x.
  unfold claim_position in H. rewrite Hidx in H.
  set (req := approvalRequirement _ _) in H. set (st := if bool_decide _ then _ else _) in H.
  set (op := new_op _ _ _ _ _ _ _ _) in H.
  apply bind_ok in H as (stored & s & Hins & H).
  apply insert_op_ok in Hins as [(k & o & -> & -> & Hby)|(-> & -> & Hk & Hby)].
  - apply operationByKey_Some in Hby as (Ho & Hto & Hkey).
    pose proof (li_id _ _ _ _ (ri_ledger _ HI) _ _ Ho) as Hid. rewrite <-Hid in Ho.
    exact (claim_stored_recorded _ _ _ _ i n _ _ _ _ _ _ _ _ _ HI Ho Hkey Hn Hto Ht H).
  - simpl in Hk, Hby. rewrite <-Htool in Hby.
    pose proof (fresh_key _ _ _ _ HI Hpos Hby) as Hfresh.
    assert (ps_ops (with_op row op) !! op_id op = Some op) as Ho by apply lookup_insert_eq.
    unfold st in *. destruct (bool_decide_reflect (req = "")) as [Hun|Hgated].
    + apply claim_fresh_recorded in H as (Hl & st' & resp & Hop); [|done|done].
      exists c.1.1. rewrite Hop in *. by split_and!.
    + eapply (claimGated_recorded _ _ _ _ i n) in H as (H1 & H2 & H3 & H4 & H5);
        [|exact HI|exact Ho|done|done|exact Ht|done|].
      * exists c.1.1. rewrite H3, H4, H5. by split_and!.
      * intros _. split; [done|]. rewrite Hidx.
        destruct (ps_approvals row !! (i, n)) as [a|] eqn:Ha; [|done].
        destruct (li_approval _ _ _ _ (ri_ledger _ HI) i n a Ha) as [_ _ (o & Ho' & Hok & _) _].
        by apply Hfresh in Ho'.
Qed.

(** A claim is recorded with its outcome.  A claim that succeeds names
    a call of the live turn's recorded plan, and leaves exactly one
    operation for that call: it has the call's tool and request, the
    status the claim answered, and is completed, failed or awaiting a
    human's decision — never left running. *)
Theorem claim_is_recorded now nanos p turnID g opID tool n request db c db' :
  reachable tl db →
  claimOperation tl now nanos p turnID g opID tool n request db = Ok (c, db') →
  ∃ row row' x call o, db_personas db !! p = Some row ∧ ps_turns row !! turnID = Some x ∧
    tu_status x = TurnRunning ∧ tu_generation x = g ∧
    plan_call (ps_plans row) (tu_input_id x) n = Some call ∧
    pc_tool call = tool ∧ pc_request call = default ∅ request ∧
    db' = db <| db_personas := <[p := row']> (db_personas db) |> ∧
    ps_ops row' !! op_id c.1.1 = Some o ∧ op_status o = op_status c.1.1 ∧
    op_idempotency_key o = idem_key (tu_input_id x) n ∧ op_tool o = tool ∧
    op_request o = default ∅ request ∧
    (op_status o = OpDone ∨ op_status o = OpFailed ∨ op_status o = OpAwaitingApproval) ∧
    (∀ k o', ps_ops row' !! k = Some o' →
       op_idempotency_key o' = idem_key (tu_input_id x) n → k = op_id c.1.1).
Proof.
  intros Hreach H. apply claimOperation_ok in H as (row & row' & Hp & Hg & H & ->).
  pose proof (reachable_row tl _ _ _ Hreach Hp) as HI.
  destruct (claim_tx_evolves tl _ _ _ _ _ _ _ _ _ _ _ _ H HI) as [HI' _].
  apply claim_tx_inv in H as (x & pos & Hx & Hlive & Hpos & Ht & Hr & H).
  pose proof (plan_call_position _ _ _ _ Hpos) as (Hc & _ & _).
  destruct (claim_position_recorded _ _ _ _ _ _ _ _ _ _ _ _ _ _ HI Hx Hpos Ht H)
    as (o & Ho & Hkey & Hto & Hreq & Hst).
  unfold live_turn in Hlive. reflect_bools.
  exists row, row', x, (ce_call pos), o. split_and!; try done.
  - pose proof (li_settled _ _ _ _ (ri_ledger _ HI') _ _ Ho). destruct (op_status o); auto. done.
  - intros k o' Ho' Hk'. eapply (li_unique _ _ _ _ (ri_ledger _ HI')); [done|done|congruence].
Qed.

(** ** Plans *)

Lemma SavePlan_ok now p turnID g round req db r db' :
  SavePlan now p turnID g round req db = Ok (r, db') →
  0 ≤ round ∧ ∃ d row row', normalise req = Ok d ∧ db_personas db !! p = Some row ∧
    save_tx now turnID g round d row = Ok (r, row') ∧
    db' = db <| db_personas := <[p := row']> (db_personas db) |>.
Proof.
  unfold SavePlan. destruct (Z.ltb_spec round 0); [done|]. destruct (normalise req) as [d|]; [|done].
  destruct (hasNUL _); [done|]. intros (row & row' & Hp & _ & _ & H' & ->)%fenced_ok.
  split; [done|]. by exists d, row, row'.
Qed.

Lemma db_insert_id p row db :
  db_personas db !! p = Some row → db <| db_personas := <[p := row]> (db_personas db) |> = db.
Proof. intros Hp. rewrite insert_id by done. by destruct db. Qed.

(** Decisions are durable.  After a round of decisions was saved for
    a turn's input, whatever runs in between and in whichever turn of that
    input, the record still has that decision at that round with all
    earlier rounds before it, and saving the round again succeeds only for
    the same decision: it answers the record as not new and changes
    nothing.  So a retried turn can neither lose nor rewrite what its
    first attempt decided. *)
Theorem plan_append_only now p turnID g round req db plan created db1 row1 x db2
    now' turnID' g' req' plan' created' db3 row2 x' :
  reachable tl db → SavePlan now p turnID g round req db = Ok ((plan, created), db1) →
  db_personas db1 !! p = Some row1 → ps_turns row1 !! turnID = Some x →
  run tl db1 db2 → db_personas db2 !! p = Some row2 →
  ps_turns row2 !! turnID' = Some x' → tu_input_id x' = tu_input_id x →
  SavePlan now' p turnID' g' round req' db2 = Ok ((plan', created'), db3) →
  ∃ d, normalise req = Ok d ∧ normalise req' = Ok d ∧ created' = false ∧ db3 = db2 ∧
    planForInput (tu_input_id x) row2 = Some plan' ∧ tp_plan plan `prefix_of` tp_plan plan' ∧
    tp_plan plan' !! Z.to_nat round = Some d.
Proof.
  intros Hreach H Hp1 Hx Hrun Hp2 Hx' Hsame H2. pose proof H as Hsave.
  apply SavePlan_ok in H as (Hround & d & row & row1' & Hd & Hp & Htx & ->).
  simpl in Hp1. rewrite lookup_insert_eq in Hp1. injection Hp1 as ->.
  apply save_tx_ok in Htx as (y & Hy & _ & Hrow & Hplan & Hat & _ & _ & _); [|done].
  rewrite Hrow in Hx. simpl in Hx. rewrite Hy in Hx. injection Hx as <-.
  assert (db_inv (db <| db_personas := <[p := row1]> (db_personas db) |>)) as HI1.
  { eapply SavePlan_evolves; [exact Hsave|]. by apply (reachable_inv tl). }
  destruct (run_hist tl _ _ p row1 HI1 Hrun) as (row2' & Hp2' & _ & Hh); [apply lookup_insert_eq|].
  rewrite Hp2 in Hp2'. injection Hp2' as <-.
  destruct (rh_plans _ _ Hh _ _ Hplan) as (pl & Hpl & Hgrow).
  assert (tp_plan pl !! Z.to_nat round = Some d) as Hat2 by by eapply prefix_lookup_Some.
  apply SavePlan_ok in H2 as (_ & d' & rowb & row3 & Hd' & Hpb & Htx & ->).
  rewrite Hp2 in Hpb. injection Hpb as <-. unfold save_tx in Htx. rewrite Hx' in Htx.
  destruct (live_turn g' x'); [|done]. simpl in Htx. unfold planForInput in *.
  rewrite Hsame, Hpl in Htx. unfold save_next in Htx.
  destruct (Z.ltb_spec round (Z.of_nat (length (tp_plan pl)))) as [_|Hge].
  2:{ apply lookup_lt_Some in Hat2. lia. }
  destruct (jsonb_ok _); [|done]. case_bool_decide as Heq; [|done]. injection Htx as <- <- <-.
  rewrite Hat2 in Heq. injection Heq as <-. rewrite db_insert_id by done. by exists d.
Qed.

(** ** Decisions *)

Lemma ResolveApproval_ok now p aid req db a db' :
  ResolveApproval now p aid req db = Ok (a, db') →
  ∃ row row', decision_ok req = Ok tt ∧ db_personas db !! p = Some row ∧
    p_human_id (ps_persona row) = Some (ad_decided_by_id req) ∧
    db' = db <| db_personas := <[p := row']> (db_personas db) |> ∧
    ∃ k a0, approval_by_id aid row = Some (k, a0) ∧
      (ap_status a0 = Pending ∧ resolve_pending now req k a0 row = Ok (a, row') ∨
       ap_status a0 ≠ Pending ∧ same_decision req a0 = true ∧ a = a0 ∧ row' = row).
Proof.
  intros H. unfold ResolveApproval in H. apply bind_ok in H as ([] & db1 & [Hd ->]%lift_ok & H).
  apply with_persona_ok in H as (row & row' & Hp & H & ->). exists row, row'.
  unfold resolve_tx in H. apply bind_ok in H as (per & s & [= <- <-] & H).
  apply bind_ok in H as ([] & s & [Hdec ->]%lift_ok & H).
  apply bind_ok in H as (u & s & [_ ->]%guard_ok & H).
  apply bind_ok in H as (found & s & [= <- <-] & H).
  assert (p_human_id (ps_persona row) = Some (ad_decided_by_id req)) as Hh.
  { unfold decider_ok in Hdec. destruct (negb _); [done|].
    destruct (p_human_id _) as [h|]; [|done]. case_bool_decide; [congruence|done]. }
  split_and!; [done..|]. destruct (approval_by_id aid row) as [[k a0]|]; [|done].
  exists k, a0. split; [done|]. case_bool_decide as Hs; [by left|]. right.
  destruct (same_decision req a0); [|done]. injection H as <- <-. done.
Qed.

(** What the row says after a decision. *)
Lemma resolved_as now p aid req db a db' :
  reachable tl db → ResolveApproval now p aid req db = Ok (a, db') →
  ∃ row' k, db_personas db' !! p = Some row' ∧ ps_approvals row' !! k = Some a ∧ ap_id a = aid ∧
    ap_status a ≠ Pending ∧ same_decision req a = true.
Proof.
  intros Hreach H. apply ResolveApproval_ok in H as (row & row' & Hd & Hp & _ & -> & k & a0 & Ha & H).
  apply approval_by_id_Some in Ha as [Ha Hid]. exists row', k. simpl. rewrite lookup_insert_eq.
  destruct H as [[Hs H]|(Hs & Hsame & -> & ->)]; [|by split_and!].
  pose proof (ri_ledger _ (reachable_row tl _ _ _ Hreach Hp)) as HL. destruct k as [i n].
  destruct (li_approval _ _ _ _ HL i n a0 Ha) as [_ _ (o & Ho & _) _].
  destruct (resolve_pending_ok _ _ _ _ _ _ _ H o Ho) as (-> & u & row1 & _ & ->).
  unfold decided_row, swap. simpl. rewrite lookup_insert_eq. split_and!; [done..| |].
  - by destruct (bool_decide (ad_decision req = "approve_once")).
  - unfold same_decision, decide_approval. simpl. by rewrite !bool_decide_eq_true_2.
Qed.

Lemma same_decision_inj req req' a :
  same_decision req a = true → same_decision req' a = true → req = req'.
Proof.
  unfold same_decision. intros H H'. reflect_bools. destruct req, req'. simpl in *. congruence.
Qed.

(** A decided approval stays as it is, spent or not, until a transfer
    re-pends it; only an unspent approval is. *)
Lemma decided_until_repended db1 db2 p row k a :
  db_inv db1 → run tl db1 db2 → db_personas db1 !! p = Some row →
  ps_approvals row !! k = Some a → ap_status a ≠ Pending →
  (∃ row2 a2, db_personas db2 !! p = Some row2 ∧ ps_approvals row2 !! k = Some a2 ∧
     a2 = a <| ap_consumed_at := ap_consumed_at a2 |>) ∨
  (ap_status a = Approved ∧ ap_consumed_at a = None ∧ ∃ dbm dbm' rowm,
     run tl db1 dbm ∧ repends p dbm dbm' ∧ run tl dbm' db2 ∧
     db_personas dbm !! p = Some rowm ∧ ps_approvals rowm !! k = Some a).
Proof.
  intros HI Hrun. revert row a HI. induction Hrun as [db|db1 dbs db2 Hs Hrun IH]; intros row a HI Hp Ha Hd.
  { left. exists row, a. split_and!; [done..|]. by destruct a. }
  assert (db_inv dbs) as HIs by by apply (step_moves tl _ _ Hs).
  destruct (step_cases tl _ _ Hs) as [He|(q & rowq & Hq & Hdb)].
  - destruct (proj2 (He HI) p row Hp) as (row1 & Hp1 & Hh).
    destruct (rh_approvals _ _ Hh k a Ha) as (a1 & Ha1 & Hah). pose proof (ah_decided _ _ Hah Hd) as Heq.
    assert (ap_status a1 = ap_status a) as Hst by (rewrite Heq; done).
    destruct (IH row1 a1 HIs Hp1 Ha1) as [(row2 & a2 & Hp2 & Ha2 & E)|(Hap & Hun & dbm & dbm' & rowm & Hm & Hre & Hm' & Hpm & Ham)];
      [congruence|left|right].
    + exists row2, a2. split_and!; [done..|]. rewrite E, Heq. by destruct a, a2.
    + assert (ap_consumed_at a = None) as Ha0.
      { destruct (ap_consumed_at a) as [t|] eqn:Ht; [|done]. by rewrite (ah_consumed _ _ Hah t Ht) in Hun. }
      assert (a1 = a) as -> by (rewrite Heq, Hun, <-Ha0; by destruct a).
      split_and!; [done..|]. exists dbm, dbm', rowm. split_and!; try done. by econstructor.
  - destruct (decide (ap_status a = Approved ∧ ap_consumed_at a = None ∧ q = p)) as [(Hap & Hun & ->)|Hno].
    { right. split_and!; [done..|]. exists db1, dbs, row. split_and!; try done; [constructor|].
      rewrite Hp in Hq. injection Hq as <-. by exists row. }
    assert (∃ row1, db_personas dbs !! p = Some row1 ∧ ps_approvals row1 !! k = Some a) as (row1 & Hp1 & Ha1).
    { rewrite Hdb. simpl. destruct (decide (q = p)) as [->|Hne]; [|rewrite lookup_insert_ne by done; eauto].
      rewrite Hp in Hq. injection Hq as <-. exists (repend_grants row). rewrite lookup_insert_eq.
      split; [done|]. simpl. rewrite lookup_fmap, Ha. simpl.
      destruct (repend_cases a) as [[-> _]|(? & ? & _)]; [done|naive_solver]. }
    destruct (IH row1 a HIs Hp1 Ha1 Hd) as [?|(Hap & Hun & dbm & dbm' & rowm & Hm & Hrest)]; [by left|right].
    split_and!; [done..|]. exists dbm, dbm', rowm. split; [by econstructor|done].
Qed.

(** C32: a decision is final, and it is the human's.  A decision succeeds
    only when it names the persona's own human; and after one did, whatever
    runs in between, deciding the same approval again succeeds only for
    the very same decision — same verdict, same decision id, same human —
    and then changes nothing; unless the decision was an approval not yet
    spent and, at some point in between, a transfer of the persona to another
    human's authority re-pended it.  So a denial and a spent approval are
    final for ever, and an unspent approval for the persona's stay with the
    human who gave it. *)
Theorem approval_decision_final now p aid req db a db1 db2 now' req' a' db3 :
  reachable tl db → ResolveApproval now p aid req db = Ok (a, db1) →
  run tl db1 db2 → ResolveApproval now' p aid req' db2 = Ok (a', db3) →
  (∃ row, db_personas db !! p = Some row ∧
     p_human_id (ps_persona row) = Some (ad_decided_by_id req)) ∧
  ((req' = req ∧ db3 = db2 ∧ ap_status a' = ap_status a ∧ ap_decided_at a' = ap_decided_at a) ∨
   (ap_status a = Approved ∧ ap_consumed_at a = None ∧ ∃ dbm dbm' rowm k,
      run tl db1 dbm ∧ repends p dbm dbm' ∧ run tl dbm' db2 ∧
      db_personas dbm !! p = Some rowm ∧ ps_approvals rowm !! k = Some a)).
Proof.
  intros Hreach H Hrun H2. pose proof H as Hres.
  apply (resolved_as _ _ _ _ _ _ _ Hreach) in H as (row1 & k & Hp1 & Ha & Hid & Hs & Hsame).
  split.
  { apply ResolveApproval_ok in Hres as (row & _ & _ & Hp & Hh & _). by exists row. }
  assert (db_inv db1) as HI1.
  { eapply ResolveApproval_evolves; [exact Hres|]. by apply (reachable_inv tl). }
  destruct (decided_until_repended db1 db2 p row1 k a HI1 Hrun Hp1 Ha Hs)
    as [(row2 & a2 & Hp2 & Ha2 & Heq)|(Hap & Hun & dbm & dbm' & rowm & Hrest)];
    [left|right; split_and!; [done..|]; by exists dbm, dbm', rowm, k].
  pose proof (proj1 (run_moves tl _ _ Hrun HI1) p row2 Hp2) as HI2.
  assert (ap_id a2 = ap_id a) as Hid2 by (rewrite Heq; done).
  apply ResolveApproval_ok in H2 as (rowb & row3 & _ & Hpb & _ & -> & k' & a0 & Hby & H2).
  rewrite Hp2 in Hpb. injection Hpb as <-. apply approval_by_id_Some in Hby as [Ha0 Hid0].
  assert (k' = k) as -> by (eapply (li_ids _ _ _ _ (ri_ledger _ HI2)); [done|done|congruence]).
  rewrite Ha2 in Ha0. injection Ha0 as <-.
  assert (ap_status a2 = ap_status a) as Hst by (rewrite Heq; done).
  assert (same_decision req a2 = true) as Hs2 by (rewrite Heq; done).
  destruct H2 as [[Hpend _]|(_ & Hs3 & -> & ->)]; [congruence|]. rewrite db_insert_id by done.
  split_and!; [by eapply same_decision_inj|done|done|]. by rewrite Heq.
Qed.

(** A denial is final for the call.  The operation of a denied call is
    recorded as failed, and in every later state, whatever runs, the
    approval is still denied, unspent or not as it was, and the operation
    is the same record: a denied call never completes. *)
Theorem denied_call_stays_failed db p row i n a db' row' :
  reachable tl db → db_personas db !! p = Some row →
  ps_approvals row !! (i, n) = Some a → ap_status a = Denied →
  run tl db db' → db_personas db' !! p = Some row' →
  ∃ o a', ps_ops row !! ap_operation_id a = Some o ∧ op_status o = OpFailed ∧
    op_idempotency_key o = idem_key i n ∧ op_tool o = ap_tool a ∧ op_request o = ap_request a ∧
    ps_approvals row' !! (i, n) = Some a' ∧ ap_status a' = Denied ∧
    (∀ k o', ps_ops row' !! k = Some o' → op_idempotency_key o' = idem_key i n → o' = o).
Proof.
  intros Hreach Hp Ha Hs Hrun Hp'. pose proof (ri_ledger _ (reachable_row tl _ _ _ Hreach Hp)) as HL.
  destruct (li_approval _ _ _ _ HL i n a Ha) as [_ _ (o & Ho & Hkey & Ht & Hr & _ & _ & Hden) _].
  destruct (run_hist tl _ _ p row (reachable_inv tl _ Hreach) Hrun Hp) as (row2 & Hp2 & HI2 & Hh).
  rewrite Hp' in Hp2. injection Hp2 as <-.
  destruct (rh_approvals _ _ Hh _ _ Ha) as (a' & Ha' & Hah).
  destruct (rh_ops _ _ Hh _ _ Ho) as (o2 & Ho2 & Hoh).
  assert (o2 = o) as -> by (apply (oh_final _ _ Hoh); right; by apply Hden).
  exists o, a'. split_and!; auto.
  - destruct (am_decided _ _ Hah) as [->|[? _]]; [congruence|done|congruence].
  - intros k o' Ho' Hk.
    assert (k = ap_operation_id a) as -> by (eapply (li_unique _ _ _ _ (ri_ledger _ HI2)); [done|done|congruence]).
    congruence.
Qed.

Lemma lowest_call_found f l ka : In ka l → f ka = true → ∃ kb, lowest_call f l = Some kb ∧ f kb = true.
Proof.
  induction l as [|kc l IH]; simpl; [done|]. intros [->|Hin] Hf.
  - rewrite Hf. destruct (lowest_call f l) as [kb|] eqn:Hl; [|eauto]. simpl.
    destruct (_ <=? _); [eauto|]. exists kb. split; [done|].
    clear IH. revert kb Hl. induction l as [|kd l IH]; intros kb; simpl; [done|].
    destruct (lowest_call f l) as [ke|]; [|by case_match; intros [= <-]].
    destruct (f kd && _) eqn:H; [|by apply IH]. intros [= <-]. by reflect_bools.
  - destruct (IH Hin Hf) as (kb & -> & Hb). destruct (f kc && _) eqn:H; [|eauto].
    reflect_bools. eauto.
Qed.

Lemma deniedIdenticalCall_Some i m a row :
  ps_approvals row !! (i, m) = Some a → ap_status a = Denied →
  ∃ a', deniedIdenticalCall i (ap_tool a) (ap_request a) row = Some a'.
Proof.
  intros Ha Hs. unfold deniedIdenticalCall.
  set (f := λ ka, _ && bool_decide (ap_status ka.2 = Denied)).
  destruct (lowest_call_found f (map_to_list (ps_approvals row)) ((i, m), a)) as (kb & -> & _).
  - by apply list_elem_of_In, elem_of_map_to_list.
  - unfold f. simpl. by rewrite !bool_decide_eq_true_2.
  - by eexists.
Qed.

(** A denial also covers the same action asked again.  When a human
    denied a call of this input, a further planned call with the same tool
    and request on the route that asks no one is recorded as failed on its
    first claim: the claim adds that failed operation and journal entries,
    and nothing else — no effect runs. *)
Theorem denied_action_not_retried now nanos p turnID g opID tool n request db c db' row x m a call :
  reachable tl db → db_personas db !! p = Some row → ps_turns row !! turnID = Some x →
  ps_approvals row !! (tu_input_id x, m) = Some a → ap_status a = Denied →
  ap_tool a = tool → ap_request a = default ∅ request →
  plan_call (ps_plans row) (tu_input_id x) n = Some call →
  approvalRequirement tool (pc_route call) = "" →
  (∀ k o, ps_ops row !! k = Some o → op_idempotency_key o ≠ idem_key (tu_input_id x) n) →
  claimOperation tl now nanos p turnID g opID tool n request db = Ok (c, db') →
  ∃ o row', c.1.1 = o ∧ op_status o = OpFailed ∧ op_id o = opID ∧
    op_idempotency_key o = idem_key (tu_input_id x) n ∧
    db' = db <| db_personas := <[p := row']> (db_personas db) |> ∧
    journals (row <| ps_ops := <[opID := o]> (ps_ops row) |>) row'.
Proof.
  intros Hreach Hp Hx Ha Hs Hta Hra Hc Hreq Hnew H.
  apply claimOperation_ok in H as (rowb & row' & Hpb & _ & H & ->). rewrite Hp in Hpb.
  injection Hpb as <-. apply claim_tx_inv in H as (x' & pos & Hx' & _ & Hpos & Ht & Hr & H).
  rewrite Hx in Hx'. injection Hx' as <-. set (i := tu_input_id x) in *.
  pose proof (plan_call_position _ _ _ _ Hpos) as (Hc' & Hidx & _).
  rewrite Hc in Hc'. injection Hc' as Hcall.
  unfold claim_position in H. rewrite Hidx, <-Hcall, Hreq in H. simpl in H.
  apply bind_ok in H as (stored & s & Hins & H).
  apply insert_op_ok in Hins as [(k & o & -> & -> & Hby)|(-> & -> & _ & Hby)].
  { apply operationByKey_Some in Hby as (Ho & _ & Hk). by apply Hnew in Ho. }
  simpl in H. unfold claim_fresh in H. apply bind_ok in H as (den & s & [= <- <-] & H). simpl in H.
  assert (∀ O, ∃ a', deniedIdenticalCall i tool (default ∅ request) (row <| ps_ops := O |>) = Some a')
    as Hden.
  { intros O. rewrite <-Hta, <-Hra. by apply (deniedIdenticalCall_Some i m a). }
  match goal with H : context [deniedIdenticalCall _ _ _ ?r] |- _ =>
    destruct (Hden (ps_ops r)) as [a' Ha']; replace (deniedIdenticalCall _ _ _ r) with (Some a') in H
      by (symmetry; exact Ha') end.
  apply bind_ok in H as (op' & s1 & [-> ->]%finish_op_ok & H).
  apply bind_ok in H as (u & s2 & Hj%journalOutcomeTx_journals & [= <- <-]).
  eexists _, s2. split; [reflexivity|]. split_and!; [done..|]. unfold upd_op in Hj. simpl in Hj.
  rewrite alter_insert_eq in Hj. exact Hj.
Qed.
End operations.

(** *** On a concrete history *)

Definition at_approved : DB := play approved_run empty_db.
Definition at_parked : DB := play parked_run empty_db.
Definition at_denied : DB := play denied_run empty_db.

Lemma gated_calls_need_grant_witness :
  ∃ o a, ps_ops (row_of at_approved) !! "o1" = Some o ∧ op_status o = OpDone ∧
    op_tool o = "message.send" ∧ ps_approvals (row_of at_approved) !! ("i1", 1) = Some a ∧
    ap_status a = Approved ∧ is_Some (ap_consumed_at a) ∧ ap_operation_id a = "o1".
Proof.
  destruct (found (ps_ops (row_of at_approved) !! "o1") ltac:(vm_eq)) as [o Ho].
  destruct (gated_calls_need_grant sample_tools at_approved "p" (row_of at_approved) "o1" o)
    as (i & n & c & Hk & Hc & Ht & Hr & Hgate).
  - apply play_reachable.
  - vm_eq.
  - exact Ho.
  - exact (look _ _ _ _ Ho ltac:(vm_eq)).
  - assert (op_idempotency_key o = idem_key "i1" 1) as Hkey
      by (exact (look _ _ _ _ Ho ltac:(vm_eq))).
    assert (op_tool o = "message.send") as Htool
      by (exact (look _ _ _ _ Ho ltac:(vm_eq))).
    assert (op_status o = OpDone) as Hs by (exact (look _ _ _ _ Ho ltac:(vm_eq))).
    exists o. assert (0 ≤ n) as Hn.
    { unfold plan_call, planPosition in Hc. destruct (Z.ltb_spec n 0); [|assumption].
      destruct (ps_plans _ !! i); discriminate Hc. }
    rewrite Hk in Hkey. destruct (idem_key_inj i n "i1" 1 Hn ltac:(lia) Hkey) as [-> ->].
    destruct Hgate as (a & Ha & Hst & Hcon & Hop & _).
    { left. exact (look _ _ _ _ Hc ltac:(vm_eq)). }
    exists a. split_and!; assumption.
Defined.

Lemma settled_call_never_reruns_witness :
  ∃ o c db3 row3,
    ps_ops (row_of (play worked empty_db)) !! "o0" = Some o ∧
    claimOperation sample_tools 10 10 "p" "t2" 1 "o9" "journal.note" 0 (pr_request note) at_approved
      = Ok (c, db3) ∧
    db3 = at_approved <| db_personas := <["p" := row3]> (db_personas at_approved) |> ∧
    journals (row_of at_approved) row3 ∧ c.1.1 = o.
Proof.
  destruct (found (ps_ops (row_of (play worked empty_db)) !! "o0") ltac:(vm_eq)) as [o Ho].
  destruct (succeeds (claimOperation sample_tools 10 10 "p" "t2" 1 "o9" "journal.note" 0
              (pr_request note)) at_approved ltac:(vm_eq)) as (c & db3 & Hc & _).
  destruct (found (ps_turns (row_of at_approved) !! "t2") ltac:(vm_eq)) as [x Hx].
  destruct (settled_call_never_reruns sample_tools (play worked empty_db) at_approved "p"
    (row_of (play worked empty_db)) "o0" o "i1" 0 10 10 "t2" x 1 "o9" "journal.note" (pr_request note)
    c db3 (row_of at_approved)) as (row3 & Hdb & Hj & _ & _ & Hsame).
  - apply play_reachable.
  - vm_eq.
  - exact Ho.
  - left. exact (look _ _ _ _ Ho ltac:(vm_eq)).
  - exact (look _ _ _ _ Ho ltac:(vm_eq)).
  - lia.
  - apply play_further. vm_eq.
  - vm_eq.
  - exact Hx.
  - exact (look _ _ _ _ Hx ltac:(vm_eq)).
  - exact Hc.
  - exists o, c, db3, row3. split; [exact Ho|]. split; [exact Hc|]. split; [exact Hdb|].
    split; [exact Hj|]. apply Hsame. reflexivity.
Defined.

Lemma plan_position_is_flat_witness :
  ∃ pl pos, ps_plans (row_of (play opened empty_db)) !! "i1" = Some pl ∧
    planPosition (Some pl) 2 = Some pos ∧ ce_index pos = 2 ∧
    flat (tp_plan pl) !! 2%nat = Some (ce_call pos).
Proof.
  destruct (found (ps_plans (row_of (play opened empty_db)) !! "i1") ltac:(vm_eq)) as [pl Hp].
  destruct (planPosition (Some pl) 2) as [pos|] eqn:Hpos.
  - destruct (plan_position_is_flat pl 2) as [Hflat Hidx]. exists pl, pos.
    rewrite Hpos in Hflat. simpl in Hflat. split; [exact Hp|]. split; [exact Hpos|].
    split; [exact (Hidx pos Hpos)|]. symmetry. exact Hflat.
  - exfalso. revert Hp Hpos. vm_compute. intros [= <-]. discriminate.
Defined.

Lemma call_identities_witness :
  operationCallIndex (idem_key "a:tool:1" 12) = Some 12 ∧
  EffectJobID (idem_key "a:tool:1" 12) = Ok (tool_job_id "a:tool:1" 12).
Proof.
  destruct (call_identities "a:tool:1" 12 "a" 1) as (H1 & H2 & _); [lia|lia|].
  split; [exact H1|]. apply H2. discriminate.
Defined.

Lemma claim_is_recorded_witness :
  ∃ c db' row' o,
    claimOperation sample_tools 6 6 "p" "t1" 1 "o0" "journal.note" 0 (pr_request note)
      (play opened empty_db) = Ok (c, db') ∧
    db' = (play opened empty_db) <| db_personas := <["p" := row']> (db_personas (play opened empty_db)) |> ∧
    ps_ops row' !! op_id c.1.1 = Some o ∧ op_tool o = "journal.note" ∧
    op_request o = {["text" := JStr "noted"]}.
Proof.
  destruct (succeeds (claimOperation sample_tools 6 6 "p" "t1" 1 "o0" "journal.note" 0
              (pr_request note)) (play opened empty_db) ltac:(vm_eq)) as (c & db' & Hc & _).
  destruct (claim_is_recorded sample_tools 6 6 "p" "t1" 1 "o0" "journal.note" 0 (pr_request note)
    (play opened empty_db) c db')
    as (row & row' & x & call & o & _ & _ & _ & _ & _ & _ & _ & Hdb & Ho & _ & _ & Ht & Hr & _).
  - apply play_reachable.
  - exact Hc.
  - exists c, db', row', o. split; [exact Hc|]. split; [exact Hdb|]. split; [exact Ho|].
    split; [exact Ht|exact Hr].
Defined.

Lemma plan_append_only_witness :
  ∃ pl c1 db1 pl2 db3,
    SavePlan 5 "p" "t1" 1 0 plan (play (firstn 4 opened) empty_db) = Ok ((pl, c1), db1) ∧
    SavePlan 99 "p" "t2" 1 0 plan at_approved = Ok ((pl2, false), db3) ∧ db3 = at_approved ∧
    tp_plan pl `prefix_of` tp_plan pl2.
Proof.
  destruct (succeeds (SavePlan 5 "p" "t1" 1 0 plan) (play (firstn 4 opened) empty_db) ltac:(vm_eq))
    as ([pl c1] & db1 & Hs & Hdb1).
  assert (play opened empty_db = db1) as <- by (rewrite <-Hdb1; vm_eq).
  destruct (found (ps_turns (row_of (play opened empty_db)) !! "t1") ltac:(vm_eq)) as [x Hx].
  destruct (found (ps_turns (row_of at_approved) !! "t2") ltac:(vm_eq)) as [x' Hx'].
  destruct (succeeds (SavePlan 99 "p" "t2" 1 0 plan) at_approved ltac:(vm_eq))
    as ([pl2 c2] & db3 & Hs2 & _).
  destruct (plan_append_only sample_tools 5 "p" "t1" 1 0 plan (play (firstn 4 opened) empty_db) pl c1
    (play opened empty_db)    (row_of (play opened empty_db)) x at_approved 99 "t2" 1 plan pl2 c2 db3 (row_of at_approved) x')
    as (d & _ & _ & Hc2 & Hdb3 & _ & Hpre & _).
  - apply play_reachable.
  - exact Hs.
  - vm_eq.
  - exact Hx.
  - apply (play_further opened). vm_eq.
  - vm_eq.
  - exact Hx'.
  - rewrite (look tu_input_id _ _ "i1" Hx ltac:(vm_eq)). exact (look _ _ _ _ Hx' ltac:(vm_eq)).
  - exact Hs2.
  - exists pl, c1, (play opened empty_db), pl2, db3. split; [exact Hs|]. rewrite Hc2 in Hs2.
    split; [exact Hs2|]. split; [exact Hdb3|exact Hpre].
Defined.

Definition loaded_run : list Call := denied_run ++ [CLoadTurn 9 "p" 1 "t2" ""].
Definition status_in {A} (f : A → ApprovalStatus) (r : res err (A * DB)) : ApprovalStatus :=
  match r with Ok (a, _) => f a | Err _ => Pending end.
Lemma approval_decision_final_witness :
  ∃ a db1 a' db3,
    ResolveApproval 8 "p" appr deny at_parked = Ok (a, db1) ∧
    ResolveApproval 99 "p" appr deny (play loaded_run empty_db) = Ok (a', db3) ∧
    db3 = play loaded_run empty_db ∧ ap_status a' = ap_status a.
Proof.
  destruct (succeeds (ResolveApproval 8 "p" appr deny) at_parked ltac:(vm_eq))
    as (a & db1 & H1 & Hdb1).
  destruct (succeeds (ResolveApproval 99 "p" appr deny) (play loaded_run empty_db) ltac:(vm_eq))
    as (a' & db3 & H2 & _).
  assert (status_in ap_status (ResolveApproval 8 "p" appr deny at_parked) = Denied) as Hden by vm_eq.
  rewrite H1 in Hden. simpl in Hden.
  assert (play denied_run empty_db = db1) as <- by (rewrite <-Hdb1; vm_eq).
  destruct (approval_decision_final sample_tools 8 "p" appr deny at_parked a
    (play denied_run empty_db) (play loaded_run empty_db) 99 deny a' db3)
    as (_ & [(_ & Hdb3 & Hs & _)|(Hap & _)]).
  - apply play_reachable.
  - exact H1.
  - apply play_further. vm_eq.
  - exact H2.
  - exists a, (play denied_run empty_db), a', db3.
    split; [exact H1|]. split; [exact H2|]. split; [exact Hdb3|exact Hs].
  - rewrite Hden in Hap. discriminate.
Defined.

(** The exception: approved, not yet spent, then re-pended by a transfer, the
    grant is denied by the persona's human and the call fails. *)
Definition at_granted : DB := play (parked_run ++ [CResolveApproval 8 "p" appr approve]) empty_db.
Definition at_moved : DB :=
  at_granted <| db_personas := <["p" := repend_grants (row_of at_granted)]> (db_personas at_granted) |>.
Example repended_grant_is_asked_again :
  status_in ap_status (ResolveApproval 9 "p" appr deny at_granted) = Pending ∧
  status_in ap_status (ResolveApproval 9 "p" appr deny at_moved) = Denied ∧
  (ps_approvals (row_of at_moved) !! ("i1", 1) ≫= ap_prior_decision) = Some "approve_once".
Proof. split; [vm_eq|]. split; vm_eq. Qed.

(** A plan that asks for the same note twice, once elevated, once not. *)
Definition note_elevated : PlanCallReq :=
  mkCallReq "c0" "journal.note" "elevated" (Some {["text" := JStr "noted"]}).
Definition asked_twice : list Call :=
  firstn 4 opened ++
  [CSavePlan 5 "p" "t1" 1 0 (mkDecisionReq "" (Some [note_elevated; note]) None None);
   claim "o0" "journal.note" 0 note; CCommitTurn 7 "p" "t1" 1 (commit_as "await");
   CResolveApproval 8 "p" (approvalID "p" "i1" 0) deny; CLoadTurn 9 "p" 1 "t2" ""].
Definition at_asked : DB := play asked_twice empty_db.

Lemma denied_call_stays_failed_witness :
  ∃ o, ps_ops (row_of at_denied) !! "o1" = Some o ∧ op_status o = OpFailed ∧
    ∀ k o', ps_ops (row_of (play [CLoadTurn 9 "p" 1 "t2" ""] at_denied)) !! k = Some o' →
      op_idempotency_key o' = idem_key "i1" 1 → o' = o.
Proof.
  destruct (found (ps_approvals (row_of at_denied) !! ("i1", 1)) ltac:(vm_eq)) as [a Ha].
  destruct (denied_call_stays_failed sample_tools at_denied "p" (row_of at_denied) "i1" 1 a
    (play [CLoadTurn 9 "p" 1 "t2" ""] at_denied) (row_of (play [CLoadTurn 9 "p" 1 "t2" ""] at_denied)))
    as (o & a' & Ho & Hs & _ & _ & _ & _ & _ & Hall).
  - apply play_reachable.
  - vm_eq.
  - exact Ha.
  - exact (look _ _ _ _ Ha ltac:(vm_eq)).
  - apply play_run.
  - vm_eq.
  - exists o. split; [|split; [exact Hs|exact Hall]].
    rewrite <-Ho, (look ap_operation_id _ _ "o1" Ha ltac:(vm_eq)). reflexivity.
Defined.

Lemma denied_action_not_retried_witness :
  ∃ c db' o row',
    claimOperation sample_tools 10 10 "p" "t2" 1 "o5" "journal.note" 1 (pr_request note) at_asked
      = Ok (c, db') ∧ c.1.1 = o ∧ op_status o = OpFailed ∧
    db' = at_asked <| db_personas := <["p" := row']> (db_personas at_asked) |> ∧
    journals ((row_of at_asked) <| ps_ops := <["o5" := o]> (ps_ops (row_of at_asked)) |>) row'.
Proof.
  destruct (succeeds (claimOperation sample_tools 10 10 "p" "t2" 1 "o5" "journal.note" 1
              (pr_request note)) at_asked ltac:(vm_eq)) as (c & db' & Hc & _).
  destruct (found (ps_turns (row_of at_asked) !! "t2") ltac:(vm_eq)) as [x Hx].
  assert (tu_input_id x = "i1") as Hi by (exact (look _ _ _ _ Hx ltac:(vm_eq))).
  destruct (found (ps_approvals (row_of at_asked) !! ("i1", 0)) ltac:(vm_eq)) as [a Ha].
  edestruct (denied_action_not_retried sample_tools 10 10 "p" "t2" 1 "o5" "journal.note" 1
    (pr_request note) at_asked c db' (row_of at_asked) x 0 a) as (o & row' & Ho & Hs & _ & _ & Hdb & Hj).
  - apply play_reachable.
  - vm_eq.
  - exact Hx.
  - rewrite Hi. exact Ha.
  - exact (look _ _ _ _ Ha ltac:(vm_eq)).
  - exact (look _ _ _ _ Ha ltac:(vm_eq)).
  - exact (look _ _ _ _ Ha ltac:(vm_eq)).
  - rewrite Hi. vm_eq.
  - reflexivity.
  - rewrite Hi. intros k o Ho.
    assert (k = "o0") as ->.
    { revert Ho. destruct (decide (k = "o0")); [intros _; assumption|].
      intros Ho. exfalso. assert (k ∈ dom (ps_ops (row_of at_asked))) as Hk by (apply elem_of_dom; eexists; exact Ho).
      assert (dom (ps_ops (row_of at_asked)) = {["o0"]}) as Hd by (vm_eq).
      rewrite Hd in Hk. apply elem_of_singleton in Hk. contradiction. }
    rewrite (look op_idempotency_key _ _ (idem_key "i1" 0) Ho ltac:(vm_eq)). discriminate.
  - exact Hc.
  - exists c, db', o, row'. split; [exact Hc|]. split; [exact Ho|]. split; [exact Hs|].
    split; [exact Hdb|exact Hj].
Defined.
