(* ===== verification/TerminalTheorems.v ===== *)
(** * Terminals: claims, the input ledger and the end of a session

    What makes the shared terminal of [terminal.go] correct: a runner whose
    claim was superseded can do nothing, accepted input is delivered at most
    once and never stranded, a close is never undone and the end of a session
    is always told, and a person holding the keyboard is not interfered
    with. *)

From Stdlib Require Import ZArith Lia.
From Stdlib Require Import Strings.Byte.
From stdpp Require Import sorting.
From S2P Require Import Prelude Json TerminalState State Personas Inputs Journal Plans Pricing.
From S2P Require Import Usage Approvals Jobs Terminals TerminalOutput Turns Operations Schedules.
From S2P Require Import Machine History Ledger Invariant Database EffectFacts TerminalFacts.
From S2P Require Import System Samples.
Local Open Scope string_scope.
Local Open Scope list_scope.
Local Open Scope Z_scope.

(** The calls a runner makes on a session under epoch [e]. *)
Definition run_by (p sid : string) (e : Z) (c : Call) : Prop :=
  match c with
  | CHeartbeatTerminalSession _ p' sid' _ e' _ | CResolveDequeuedTerminalInputs _ p' sid' _ e'
  | CReportTerminalInputDisposition _ p' sid' _ _ e' _ _ | CAppendTerminalOutput _ p' sid' _ e' _
  | CReportTerminalStatus _ p' sid' _ e' _ _ _ _ _ => p' = p ∧ sid' = sid ∧ e' = e
  | _ => False
  end.

Section terminals.
Context `{GL : !GoLib} (tl : Tools) `{!EffectFrame tl}.

(** A session of a reachable database later in a run. *)
Lemma term_later db db' p row sid t :
  reachable tl db → db_personas db !! p = Some row → ps_terms row !! sid = Some t →
  run tl db db' → ∃ row' t', db_personas db' !! p = Some row' ∧ ps_terms row' !! sid = Some t' ∧
    terms_ok row' ∧ term_ok t' ∧ term_hist t t'.
Proof.
  intros Hreach Hp Ht Hrun.
  destruct (run_hist tl db db' p row (reachable_inv tl _ Hreach) Hrun Hp) as (row' & Hp' & HI & Hh).
  destruct (rh_terms _ _ Hh sid t Ht) as (t' & Ht' & Hth). exists row', t'.
  split_and!; try done; [by apply ri_terms|]. by apply (ri_terms _ HI sid).
Qed.

Lemma fence_refused {A} now sid r e (fn : Term → ptx A) row t :
  ps_terms row !! sid = Some t → ts_epoch (tm_session t) ≠ e →
  ∃ er, terminalClaimTx now sid r e fn row = Err er.
Proof.
  intros Ht He. unfold terminalClaimTx, lockTerminalSessionTx, mbind, M_bind.
  destruct (negb (uuidv7Re sid)); [by eexists|]. rewrite Ht. unfold holds_claim.
  apply Z.eqb_neq in He. rewrite He. by eexists.
Qed.
Lemma refused_unchanged {A B} db p e row (m : ptx A) (k : A → ptx B) :
  db_personas db !! p = Some row → (∃ er, m row = Err er) →
  (commit (with_persona p e (m ≫= k)) db).1 = db.
Proof.
  intros Hp [er Hm]. unfold commit, with_persona. rewrite Hp. unfold mbind, M_bind. by rewrite Hm.
Qed.

(** C19: superseded runners.  Once a session's epoch has moved past [e], no
    call a runner makes under epoch [e] — heartbeat, input disposition,
    resolution of taken input, output, status report — changes the database,
    in that state or in any state any sequence of operations leads to; the
    session's pending input is not served to it either. *)
Theorem stale_runner_powerless db db' p row sid t e :
  reachable tl db → db_personas db !! p = Some row → ps_terms row !! sid = Some t →
  e < ts_epoch (tm_session t) → run tl db db' →
  (∀ c, run_by p sid e c → exec tl c db' = db') ∧
  (∀ now r l db'', PendingTerminalInputs now p sid r e db' ≠ Ok (l, db'')).
Proof.
  intros Hreach Hp Ht He Hrun.
  destruct (term_later _ _ _ _ _ _ Hreach Hp Ht Hrun) as (row' & t' & Hp' & Ht' & _ & _ & Hh).
  pose proof (tmh_epoch _ _ Hh) as Hle.
  assert (∀ A now r (fn : Term → ptx A), ∃ er, terminalClaimTx now sid r e fn row' = Err er) as Hf.
  { intros A now r fn. eapply fence_refused; [exact Ht'|]. lia. }
  split.
  - intros c Hc. destruct c; simpl in Hc; try done; destruct Hc as (-> & -> & ->); simpl.
    + by eapply refused_unchanged.
    + by eapply refused_unchanged.
    + unfold ReportTerminalInputDisposition, ReportTerminalInputDisposition_tx.
      destruct (disposition status); [by eapply refused_unchanged|].
      unfold commit, with_persona. by rewrite Hp'.
    + by eapply refused_unchanged.
    + unfold ReportTerminalStatus, ReportTerminalStatus_tx.
      destruct (report_status status); [by eapply refused_unchanged|].
      unfold commit, with_persona. by rewrite Hp'.
  - intros now r l db'' H. apply with_persona_ok in H as (row1 & row2 & Hp1 & H & _).
    rewrite Hp' in Hp1. injection Hp1 as <-. unfold PendingTerminalInputs_tx in H.
    destruct (Hf _ now r (λ t, mret (pending_inputs e t))) as [er Her].
    apply bind_ok in H as (x & row3 & H & _). congruence.
Qed.

Lemma pending_ok db p sid now r e l db' :
  PendingTerminalInputs now p sid r e db = Ok (l, db') →
  ∃ row t, db_personas db !! p = Some row ∧ ps_terms row !! sid = Some t ∧ db' = db ∧
    holds_claim now r e (tm_session t) = true ∧ l = pending_inputs e t.
Proof.
  intros H. apply with_persona_ok in H as (row & row' & Hp & H & ->).
  unfold PendingTerminalInputs_tx in H. apply bind_ok in H as ([l' s] & row1 & H & Hr).
  apply fence_ok in H as (t & Ht & Hc & H). inv_tx. eexists _, t. split_and!; try done.
  rewrite insert_id by done. by destruct db.
Qed.

(** C20: delivered at most once.  An input of a session's ledger that has once
    been taken for delivery — whatever was reported about it since — is never
    served again: no list of pending inputs in any later state contains it,
    to whichever runner and under whichever epoch, and its row keeps its
    place, content and, once settled, its outcome. *)
Theorem taken_input_never_reserved db db' p row sid t k i now r e l db'' :
  reachable tl db → db_personas db !! p = Some row → ps_terms row !! sid = Some t →
  tm_inputs t !! k = Some i → ti_status i ≠ TiIntended → run tl db db' →
  PendingTerminalInputs now p sid r e db' = Ok (l, db'') →
  (∀ j, j ∈ l → ti_seq j ≠ ti_seq i) ∧
  ∃ row' t' i', db_personas db' !! p = Some row' ∧ ps_terms row' !! sid = Some t' ∧
    tm_inputs t' !! k = Some i' ∧ tinput_hist i i'.
Proof.
  intros Hreach Hp Ht Hi Hst Hrun H.
  destruct (term_later _ _ _ _ _ _ Hreach Hp Ht Hrun) as (row' & t' & Hp' & Ht' & _ & Hok & Hh).
  apply pending_ok in H as (row1 & t1 & Hp1 & Ht1 & -> & Hc & ->).
  rewrite Hp' in Hp1. injection Hp1 as <-. rewrite Ht' in Ht1. injection Ht1 as <-.
  destruct (tmh_inputs _ _ Hh) as (a & b & Hab & HF).
  destruct (Forall2_lookup_l _ _ _ _ _ HF Hi) as (i' & Hi' & Hii').
  assert (tm_inputs t' !! k = Some i') as Hk by (rewrite Hab; by apply lookup_app_l_Some).
  split; [|eauto 10].
  intros j [[_ Hint] Hj]%list_elem_of_filter Hseq.
  assert (j = i') as ->.
  { eapply (numbered_inj ti_seq (tm_inputs t')); [by apply tmo_ledger|done|by eapply list_elem_of_lookup_2|].
    rewrite (tih_seq _ _ Hii'). done. }
  by destruct (tih_taken _ _ Hii' Hst).
Qed.

(** C34: nothing accepted is stranded.  What the holder of a session's claim
    is served is exactly the inputs of the ledger that nobody has taken yet —
    also those accepted under earlier epochs or while no runner held the
    session — in the order they were accepted, and serving them changes
    nothing. *)
Theorem claimant_is_served_all db p sid now r e l db' :
  reachable tl db → PendingTerminalInputs now p sid r e db = Ok (l, db') →
  db' = db ∧ ∃ row t, db_personas db !! p = Some row ∧ ps_terms row !! sid = Some t ∧
    l = filter (λ i, ti_status i = TiIntended) (tm_inputs t) ∧
    numbered ti_seq (tm_inputs t).
Proof.
  intros Hreach (row & t & Hp & Ht & -> & Hc & ->)%pending_ok. split; [done|].
  exists row, t. apply holds_claim_live in Hc as (He & _).
  destruct (ri_terms _ (reachable_row tl _ _ _ Hreach Hp) _ _ Ht) as (_ & Hok & _).
  split_and!; [done|done| |by apply tmo_ledger].
  unfold pending_inputs. pose proof (tmo_inputs _ Hok) as HF.
  apply filter_ext_Forall. eapply Forall_impl; [exact HF|]. intros i [_ Ho].
  split; [tauto|]. intros Hi. rewrite Hi in Ho. destruct (Ho eq_refl). split; congruence.
Qed.

(** A session's course.  Whatever runs after it, a session keeps its
    identity and its epoch and output offsets never fall; once a close was
    accepted it is never open again; and when it has ended or was lost, the
    session, its ledger and its output stay exactly as they are. *)
Theorem session_course db db' p row sid t :
  reachable tl db → db_personas db !! p = Some row → ps_terms row !! sid = Some t →
  run tl db db' →
  ∃ row' t', db_personas db' !! p = Some row' ∧ ps_terms row' !! sid = Some t' ∧
    ts_name (tm_session t') = ts_name (tm_session t) ∧
    ts_epoch (tm_session t) ≤ ts_epoch (tm_session t') ∧
    ts_output_bytes (tm_session t) ≤ ts_output_bytes (tm_session t') ∧
    ts_output_base (tm_session t) ≤ ts_output_base (tm_session t') ∧
    (term_closing (ts_status (tm_session t)) = true →
     term_closing (ts_status (tm_session t')) = true) ∧
    (term_over (ts_status (tm_session t)) = true → t' = t).
Proof.
  intros Hreach Hp Ht Hrun.
  destruct (term_later _ _ _ _ _ _ Hreach Hp Ht Hrun) as (row' & t' & Hp' & Ht' & _ & _ & Hh).
  exists row', t'. destruct Hh as [(_ & Hn & _) He Hy Hb Hc Ho _]. split_and!; done.
Qed.

(** The end is told.  Every session that has ended or was lost — closed
    by a person, by a tool or reported by its runner — has its slot among the
    persona's inputs filled, holds no claim, and leaves no input of its
    ledger undecided. *)
Theorem ended_session_settled db p row sid t :
  reachable tl db → db_personas db !! p = Some row → ps_terms row !! sid = Some t →
  term_over (ts_status (tm_session t)) = true →
  is_Some (ps_inputs row !! (terminalInputPrefix +:+ sid)) ∧
  ts_claimed_by (tm_session t) = None ∧ is_Some (ts_ended_at (tm_session t)) ∧
  Forall (λ i, tinput_open (ti_status i) = false) (tm_inputs t).
Proof.
  intros Hreach Hp Ht Ho.
  destruct (ri_terms _ (reachable_row tl _ _ _ Hreach Hp) _ _ Ht) as (_ & Hok & Hs).
  split_and!; [auto| |by apply tmo_over|].
  - pose proof (tmo_claim _ Hok) as Hc. unfold claim_ok in Hc.
    destruct (ts_status (tm_session t)); try done; tauto.
  - eapply Forall_impl; [by apply tmo_inputs|]. intros i [_ Hi].
    destruct (tinput_open (ti_status i)); [|done]. destruct (Hi eq_refl). congruence.
Qed.
End terminals.

(** What a submission does, on a session that is there. *)
Lemma submit_input_runs now id p sid src kind payload db row t :
  db_personas db !! p = Some row → ps_terms row !! sid = Some t → uuidv7Re sid = true →
  src = "agent" ∨ src = "human" →
  SubmitTerminalInput now id p sid src kind payload db =
  match input_refused (ts_status (tm_session t)) with
  | Some e => Err e
  | None =>
      if bool_decide (src = "agent") && control_held now (tm_session t) then Err ErrTerminalControl
      else match validateTerminalInput kind payload with
      | Err e => Err e
      | Ok _ =>
          let i := new_tinput now id (ts_epoch (tm_session t))
                     (max_seq ti_seq (tm_inputs t) + 1) kind payload src in
          if jsonb_ok (JObj payload)
          then Ok (i, db <| db_personas := <[p := put_term sid
                        (t <| tm_inputs ::= λ l, l ++ [i] |>) row]> (db_personas db) |>)
          else Err (dataErr nul_error)
      end
  end.
Proof.
  intros Hp Ht Hu Hs. unfold SubmitTerminalInput, guard_or. rewrite bool_decide_eq_true_2 by done.
  unfold with_persona, mbind, M_bind. simpl. rewrite Hp.
  unfold submitTerminalInputTx, lockTerminalSessionTx, mbind, M_bind. rewrite Hu, Ht. simpl.
  destruct (input_refused _); [done|]. destruct (_ && _); [done|].
  unfold lift. destruct (validateTerminalInput kind payload) as [[]|]; [|done].
  unfold guard_or. by destruct (jsonb_ok _).
Qed.

(** The person's hold.  While a person holds a session's keyboard, every
    input the agent submits is refused whatever it is, the hold lasts the
    whole seconds asked for and never more than five minutes, and the
    person's own valid input is accepted as the ledger's next row. *)
Theorem control_excludes_agent now now' p sid lease s db db1 id kind payload :
  SetTerminalControl now p sid true lease db = Ok (s, db1) →
  ts_control_until s = Some (now + Z.quot (control_lease lease) 1000000000 * 1000000) ∧
  (0 < lease ≤ 300000000000 → control_lease lease = lease) ∧
  Z.quot (control_lease lease) 1000000000 ≤ 300 ∧
  (input_refused (ts_status s) = None →
   (now' < now + Z.quot (control_lease lease) 1000000000 * 1000000 →
    SubmitTerminalInput now' id p sid "agent" kind payload db1 = Err ErrTerminalControl) ∧
   (validateTerminalInput kind payload = Ok tt → jsonb_ok (JObj payload) = true →
    ∃ i db2, SubmitTerminalInput now' id p sid "human" kind payload db1 = Ok (i, db2) ∧
      ti_status i = TiIntended ∧ ti_epoch i = ts_epoch s)).
Proof.
  intros H. apply with_persona_ok in H as (row & row1 & Hp & H & Hdb).
  assert (db_personas db1 !! p = Some row1) as Hp1 by (rewrite Hdb; apply lookup_insert_eq).
  clear Hdb. unfold SetTerminalControl_tx in H. apply bind_ok in H as (t & row2 & Hl & H).
  pose proof Hl as [Ht ->]%lock_ok.
  assert (uuidv7Re sid = true) as Hu.
  { unfold lockTerminalSessionTx in Hl. by destruct (uuidv7Re sid). }
  destruct (term_over _); [done|]. inv_tx. split_and!; [done| | |].
  - intros Hle. unfold control_lease, terminalMaxControlSecs.
    destruct (_ || _) eqn:Hb; [|done]. apply orb_true_iff in Hb as [Hb|Hb]; reflect_bools; lia.
  - unfold control_lease, terminalMaxControlSecs. simpl.
    destruct (_ || _) eqn:Hb; [by compute|]. reflect_bools.
    apply Z.quot_le_upper_bound; lia.
  - intros Hr. set (t1 := set_session _ t) in *.
    assert (ps_terms (put_term sid t1 row) !! sid = Some t1) as Ht1 by apply lookup_insert_eq.
    split.
    + intros Hlt. rewrite (submit_input_runs _ _ _ _ _ _ _ _ _ _ Hp1 Ht1 Hu) by auto.
      change (ts_status (tm_session t1)) with (ts_status (tm_session t)). rewrite Hr.
      unfold control_held. simpl. apply Z.ltb_lt in Hlt. by rewrite Hlt.
    + intros Hv Hj. rewrite (submit_input_runs _ _ _ _ _ _ _ _ _ _ Hp1 Ht1 Hu) by auto.
      change (ts_status (tm_session t1)) with (ts_status (tm_session t)).
      rewrite Hr, Hv, Hj. simpl. by eexists _, _.
Qed.

(** ** The output window *)

Lemma append_call now p sid r e chunks db x db' row t :
  AppendTerminalOutput now p sid r e chunks db = Ok (x, db') →
  db_personas db !! p = Some row → ps_terms row !! sid = Some t →
  ∃ row' t', db_personas db' !! p = Some row' ∧ ps_terms row' !! sid = Some t' ∧
    append_output now chunks t = Ok t'.
Proof.
  intros H Hp Ht. apply with_persona_ok in H as (row0 & row' & Hp0 & H & ->).
  rewrite Hp in Hp0. injection Hp0 as <-. unfold AppendTerminalOutput_tx in H.
  apply bind_ok in H as ([u s] & row1 & H & Hr). apply fence_ok in H as (t0 & Ht0 & _ & H).
  rewrite Ht in Ht0. injection Ht0 as <-. apply bind_ok in H as (t' & row2 & Hl & H).
  unfold lift in Hl. destruct (append_output now chunks t) as [t''|] eqn:Ha; [|done]. inv_tx.
  exists (put_term sid t' row2), t'. split_and!; [apply lookup_insert_eq| |done].
  apply lookup_insert_eq.
Qed.

(** C21: output is a stream.  Against an abstract stream of bytes at absolute
    offsets: a new session represents the empty stream, and when a session
    represents a stream and a runner's report is accepted, the session
    represents afterwards the stream with the chunks written to it — bytes
    below the mark dropped, however the report overlaps earlier ones — less a
    forgotten prefix that ends at the session's new base. *)
Theorem output_refines_stream now p sid r e chunks db x db' row t s :
  AppendTerminalOutput now p sid r e chunks db = Ok (x, db') →
  db_personas db !! p = Some row → ps_terms row !! sid = Some t →
  output_ok t → represents t s → Forall fits chunks →
  ∃ row' t', db_personas db' !! p = Some row' ∧ ps_terms row' !! sid = Some t' ∧ output_ok t' ∧
    represents t' (forget_below (ts_output_base (tm_session t')) (write_chunks s chunks)) ∧
    ts_output_base (tm_session t) ≤ ts_output_base (tm_session t') ∧
    (StronglySorted rises (tm_output t) → skips_ahead s chunks →
     StronglySorted rises (tm_output t')).
Proof.
  intros H Hp Ht Hok Hrep Hf.
  destruct (append_call _ _ _ _ _ _ _ _ _ _ _ H Hp Ht) as (row' & t' & Hp' & Ht' & Ha).
  exists row', t'. apply (append_output_ok _ _ _ _ s) in Ha as (t1 & -> & Hok1 & Hr1 & _ & Hb & Hri);
    [|done..].
  destruct (prune_refines t1 _ Hok1 Hr1) as (Hok' & Hr' & Hle & _ & _ & _ & Hri').
  split_and!; try done; [lia|auto].
Qed.

(** C35: bounded scrollback.  After an accepted report, whose offsets fit 64
    bits, to a session whose window is well formed, the session retains at most
    the cap of output bytes, whatever it held and whatever was
    reported, and what it retains is a suffix: with the window and the report
    together holding the bytes [write_chunks s chunks], the bytes stored
    afterwards are exactly those at and above the window's new base.  A window
    within the cap is not cut, so its base stays; one that is cut keeps
    exactly 3 MiB, the newest of its bytes. *)
Theorem scrollback_bounded now p sid r e chunks db x db' row t s :
  AppendTerminalOutput now p sid r e chunks db = Ok (x, db') →
  db_personas db !! p = Some row → ps_terms row !! sid = Some t →
  output_ok t → represents t s → Forall fits chunks →
  ∃ row' t', db_personas db' !! p = Some row' ∧ ps_terms row' !! sid = Some t' ∧
    retained (tm_output t') ≤ terminalScrollbackCap ∧
    (∀ o b, stores (tm_output t') o b ↔
       st_byte (write_chunks s chunks) o = Some b ∧ ts_output_base (tm_session t') ≤ o) ∧
    (ts_output_base (tm_session t') = ts_output_base (tm_session t) ∨
     retained (tm_output t') = terminalScrollbackKeep).
Proof.
  intros H Hp Ht Hok Hrep Hf.
  destruct (append_call _ _ _ _ _ _ _ _ _ _ _ H Hp Ht) as (row' & t' & Hp' & Ht' & Ha).
  exists row', t'. apply (append_output_ok _ _ _ _ s) in Ha as (t1 & -> & Hok1 & Hr1 & _ & Hb & _);
    [|done..].
  destruct (prune_refines t1 _ Hok1 Hr1) as (_ & [_ Hst] & _ & Hsmall & Hbig & _ & _).
  split_and!; try done.
  - destruct (decide (retained (tm_output t1) ≤ terminalScrollbackCap)) as [Hle|Hgt].
    + by rewrite Hsmall.
    + rewrite Hbig by lia. done.
  - intros o b. rewrite Hst. simpl. destruct (o <? _) eqn:Ho; reflect_bools; [|tauto].
    split; [done|lia].
  - destruct (decide (retained (tm_output t1) ≤ terminalScrollbackCap)) as [Hle|Hgt].
    + left. by rewrite Hsmall.
    + right. apply Hbig. lia.
Qed.

(** A repeated drain adds nothing.  A runner that did not hear whether its
    report was stored and sends it again — also after the window was pruned in
    between — leaves every row, offset and byte as the first report left
    them. *)
Theorem redrain_adds_nothing now now' p sid r e r' e' chunks db x y db1 db2 row t s :
  db_personas db !! p = Some row → ps_terms row !! sid = Some t →
  output_ok t → represents t s → Forall fits chunks →
  AppendTerminalOutput now p sid r e chunks db = Ok (x, db1) →
  AppendTerminalOutput now' p sid r' e' chunks db1 = Ok (y, db2) →
  ∃ row1 row2 t1 t2, db_personas db1 !! p = Some row1 ∧ ps_terms row1 !! sid = Some t1 ∧
    db_personas db2 !! p = Some row2 ∧ ps_terms row2 !! sid = Some t2 ∧
    t2 = set_session (λ s, s <| ts_updated_at := now' |>) t1.
Proof.
  intros Hp Ht Hok Hrep Hf H1 H2.
  destruct (append_call _ _ _ _ _ _ _ _ _ _ _ H1 Hp Ht) as (row1 & t1 & Hp1 & Ht1 & Ha1).
  destruct (append_call _ _ _ _ _ _ _ _ _ _ _ H2 Hp1 Ht1) as (row2 & t2 & Hp2 & Ht2 & Ha2).
  exists row1, row2, t1, t2. split_and!; try done.
  by apply (append_twice now now' chunks t t1 t2 s).
Qed.

(** C22: what a reader sees.  A reader of a well-formed window that starts
    afresh and asks again from the cursors of each answer receives, for
    whatever page size and after at most as many reads as there are rows, rows
    of the table in their order and none twice: every data row, every loss
    marker, and every gap that ends above the base of the window and above all
    rows before it.  Only rows of these ends or markers are served, so a gap
    below the base is not; and a gap that ends no further than a row before it
    may be passed over, its range lying below the cursor.  When every gap skips
    ahead, as the rows of a runner that reports each gap once do, the drain is
    exactly the markers and the rows that end above the base. *)
Theorem reader_sees_all t n limit :
  output_ok t → (length (tm_output t) ≤ n)%nat →
  let out := tm_output t in let base := ts_output_base (tm_session t) in
  let seen := drain n 0 0 limit t in
  seen `sublist_of` out ∧ NoDup seen ∧
  (∀ c, c ∈ data_rows out → c ∈ seen) ∧
  (∀ c, c ∈ out → marker c → c ∈ seen) ∧
  (∀ c, c ∈ out → base < chunk_end c → leads out c → c ∈ seen) ∧
  (∀ c, c ∈ seen → marker c ∨ base < chunk_end c) ∧
  (StronglySorted rises out → seen = filter (λ c, marker c ∨ base < chunk_end c) out).
Proof.
  intros Hok Hn out base seen. pose proof (ro_offsets _ _ _ Hok) as Ho.
  destruct (drain_spec n base 0 limit t Hok) as [Hsub Hin]; [lia|done|by apply fresh_reader| |].
  { etransitivity; [apply length_filter|done]. }
  unfold base in Hsub, Hin. rewrite <-(drain_fresh n limit t) in Hsub, Hin by lia.
  rewrite wanted_fresh in Hsub, Hin by done.
  fold out base seen in Hsub, Hin.
  assert (NoDup out) as Hnd by apply (seq_nodup out), (ro_seq _ _ _ Hok).
  assert (∀ c, c ∈ out → marker c ∨ base < chunk_end c → marker c ∨ leads out c → c ∈ seen) as Hget.
  { intros c Hc Hw Hl. apply Hin; [|done]. by apply list_elem_of_filter. }
  split_and!.
  - etrans; [exact Hsub|apply sublist_filter].
  - eapply sublist_NoDup; [|exact Hsub]. by apply NoDup_filter.
  - intros c Hc. pose proof (data_leads t c Hok Hc) as Hl. apply data_row_elem in Hc as [Hc Hk].
    apply Hget; [done| |by right]. right.
    pose proof (ro_rows _ _ _ Hok) as Hr. rewrite Forall_forall in Hr. specialize (Hr c Hc).
    unfold row_ok, chunk_end in *. rewrite Hk in *. unfold base. lia.
  - auto.
  - auto.
  - intros c Hc. apply (sublist_mem _ _ _ Hsub) in Hc. by apply list_elem_of_filter in Hc as [].
  - intros Hri. apply sublist_all; [done|by apply NoDup_filter|].
    intros c [Hw Hc]%list_elem_of_filter. apply Hget; [done..|]. by apply rises_leads.
Qed.

(** ** The theorems on a history

    A person opens a session and types; a runner claims it, takes the first
    input and reports output; its claim expires, a second runner takes over
    and the session is closed and ends. *)

Definition tsid : string := "0198f0f4-9b72-7000-8000-0000000000aa".
Definition in1 : string := "0198f0f4-9b72-7000-8000-0000000000b1".
Definition in2 : string := "0198f0f4-9b72-7000-8000-0000000000b2".
Definition term_cfg : TerminalConfig := mkTermConfig "" (λ b, bool_decide (b = "local")).
Definition typed : obj := {["data" := JStr "ls"]}.
Definition minute : Z := 60000000000.

Definition t_claimed : list Call :=
  [CEnsurePersona 1 "p" (Some "h1") "Sumi";
   CCreateTerminalSession term_cfg 2 tsid "p" "main" "human" "h1";
   CSubmitTerminalInput 3 in1 "p" tsid "human" "stdin" typed;
   CSubmitTerminalInput 4 in2 "p" tsid "human" "stdin" typed;
   CClaimTerminalSessions 5 "p" "r1" "local" minute 4].
Definition t_taken : list Call :=
  t_claimed ++ [CReportTerminalInputDisposition 6 "p" tsid in1 "r1" 1 "dequeued" None].
Definition report : list OutputReq :=
  [mkOutReq "data" 0 None [x61; x62; x63]; mkOutReq "gap" 3 (Some 10) [];
   mkOutReq "data" 8 None [x64; x65; x66; x67]].
Definition t_written : list Call :=
  t_taken ++ [CAppendTerminalOutput 7 "p" tsid "r1" 1 report].
Definition t_over_taken : list Call :=
  t_written ++ [CClaimTerminalSessions 100000000 "p" "r2" "local" minute 4].
Definition t_ended : list Call :=
  t_over_taken ++ [CCloseTerminalSession 100000001 "p" tsid "done";
                   CReportTerminalStatus 100000002 "p" tsid "r2" 2 "ended" "exit" (Some 0) "" ""].
Definition after (cs : list Call) : DB := play cs empty_db.

Lemma report_fits : Forall fits report.
Proof. repeat constructor; simpl; unfold MaxInt64; lia. Qed.

Lemma stale_runner_powerless_witness :
  exec sample_tools (CHeartbeatTerminalSession 8 "p" tsid "r1" 1 minute) (after t_ended) = after t_ended.
Proof.
  destruct (found (ps_terms (row_of (after t_over_taken)) !! tsid) ltac:(vm_eq)) as [t Ht].
  destruct (stale_runner_powerless sample_tools (after t_over_taken) (after t_ended) "p"
    (row_of (after t_over_taken)) tsid t 1) as [H _].
  - apply (play_reachable t_over_taken).
  - vm_eq.
  - exact Ht.
  - rewrite (look (λ t, ts_epoch (tm_session t)) _ _ 2 Ht); [reflexivity|vm_eq].
  - apply play_further. vm_eq.
  - apply H. repeat split.
Defined.

Definition served : tx (list TerminalInput) := PendingTerminalInputs 100000001 "p" tsid "r2" 2.
Lemma taken_input_never_reserved_witness :
  ∃ l db, served (after t_over_taken) = Ok (l, db) ∧ ∀ j, j ∈ l → ti_seq j ≠ 1.
Proof.
  destruct (found (ps_terms (row_of (after t_taken)) !! tsid) ltac:(vm_eq)) as [t Ht].
  destruct (found (tm_inputs t !! 0%nat)) as [i Hi].
  { rewrite (look (λ t, match tm_inputs t !! 0%nat with Some _ => true | None => false end) _ _ true Ht);
      [reflexivity|vm_eq]. }
  destruct (succeeds served (after t_over_taken) ltac:(vm_eq)) as (l & db & H & _).
  assert (tm_inputs t !! 0%nat = ps_terms (row_of (after t_taken)) !! tsid ≫= (λ t, tm_inputs t !! 0%nat))
    as Hbind by (rewrite Ht; reflexivity).
  rewrite Hbind in Hi.
  assert (ti_status i = TiDequeued ∧ ti_seq i = 1) as [Hs Hq].
  { split; [exact (look ti_status _ _ _ Hi ltac:(vm_eq))|exact (look ti_seq _ _ _ Hi ltac:(vm_eq))]. }
  destruct (taken_input_never_reserved sample_tools (after t_taken) (after t_over_taken) "p"
    (row_of (after t_taken)) tsid t 0 i 100000001 "r2" 2 l db) as [Hl _].
  - apply (play_reachable t_taken).
  - vm_eq.
  - exact Ht.
  - rewrite Hbind. exact Hi.
  - rewrite Hs. discriminate.
  - apply play_further. vm_eq.
  - exact H.
  - exists l, db. split; [exact H|]. rewrite Hq in Hl. exact Hl.
Defined.

Lemma claimant_is_served_all_witness :
  ∃ l db, served (after t_over_taken) = Ok (l, db) ∧ db = after t_over_taken.
Proof.
  destruct (succeeds served (after t_over_taken) ltac:(vm_eq)) as (l & db & H & _).
  destruct (claimant_is_served_all sample_tools (after t_over_taken) "p" tsid 100000001 "r2" 2 l db)
    as [Hdb _].
  - apply (play_reachable t_over_taken).
  - exact H.
  - exists l, db. split; [exact H|exact Hdb].
Defined.

Lemma session_course_witness :
  ∃ t row' t', ps_terms (row_of (after t_claimed)) !! tsid = Some t ∧
    db_personas (after t_ended) !! "p" = Some row' ∧ ps_terms row' !! tsid = Some t' ∧
    ts_epoch (tm_session t) ≤ ts_epoch (tm_session t').
Proof.
  destruct (found (ps_terms (row_of (after t_claimed)) !! tsid) ltac:(vm_eq)) as [t Ht].
  destruct (session_course sample_tools (after t_claimed) (after t_ended) "p"
    (row_of (after t_claimed)) tsid t) as (row' & t' & Hp' & Ht' & _ & He & _).
  - apply (play_reachable t_claimed).
  - vm_eq.
  - exact Ht.
  - apply play_further. vm_eq.
  - exists t, row', t'. split; [exact Ht|]. split; [exact Hp'|]. split; [exact Ht'|exact He].
Defined.

Lemma ended_session_settled_witness :
  is_Some (ps_inputs (row_of (after t_ended)) !! (terminalInputPrefix +:+ tsid)).
Proof.
  destruct (found (ps_terms (row_of (after t_ended)) !! tsid) ltac:(vm_eq)) as [t Ht].
  apply (ended_session_settled sample_tools (after t_ended) "p" (row_of (after t_ended)) tsid t).
  - apply (play_reachable t_ended).
  - vm_eq.
  - exact Ht.
  - exact (look (λ t, term_over (ts_status (tm_session t))) _ _ _ Ht ltac:(vm_eq)).
Defined.

Lemma control_excludes_agent_witness :
  ∃ s db, SetTerminalControl 10 "p" tsid true minute (after t_claimed) = Ok (s, db) ∧
    SubmitTerminalInput 11 in1 "p" tsid "agent" "stdin" typed db = Err ErrTerminalControl.
Proof.
  destruct (succeeds (SetTerminalControl 10 "p" tsid true minute) (after t_claimed) ltac:(vm_eq))
    as (s & db & H & _).
  destruct (control_excludes_agent 10 11 "p" tsid minute s (after t_claimed) db in1 "stdin" typed)
    as (_ & _ & _ & Hr).
  - exact H.
  - assert (input_refused (ts_status s) = None) as Hn.
    { assert (input_refused (ts_status (answer (new_session 0 "" "" "" "" "")
        (SetTerminalControl 10 "p" tsid true minute) (after t_claimed))) = None) as Ha by vm_eq.
      unfold answer in Ha. rewrite H in Ha. exact Ha. }
    exists s, db. split; [exact H|]. apply (Hr Hn). vm_compute. reflexivity.
Defined.

Definition writes (now : Z) : tx TerminalSession := AppendTerminalOutput now "p" tsid "r1" 1 report.
Lemma fresh_in_sample t :
  ps_terms (row_of (after t_taken)) !! tsid = Some t →
  output_ok t ∧ represents t no_output ∧ StronglySorted rises (tm_output t).
Proof.
  intros Ht. apply fresh_output_ok.
  - exact (look (λ t, ts_output_base (tm_session t)) _ _ _ Ht ltac:(vm_eq)).
  - exact (look (λ t, ts_output_bytes (tm_session t)) _ _ _ Ht ltac:(vm_eq)).
  - exact (look tm_output _ _ _ Ht ltac:(vm_eq)).
Qed.

Lemma output_refines_stream_witness :
  ∃ x db row' t', writes 7 (after t_taken) = Ok (x, db) ∧ db_personas db !! "p" = Some row' ∧
    ps_terms row' !! tsid = Some t' ∧ represents t'
      (forget_below (ts_output_base (tm_session t')) (write_chunks no_output report)).
Proof.
  destruct (found (ps_terms (row_of (after t_taken)) !! tsid) ltac:(vm_eq)) as [t Ht].
  destruct (succeeds (writes 7) (after t_taken) ltac:(vm_eq)) as (x & db & H & _).
  destruct (fresh_in_sample t Ht) as (Hok & Hrep & _).
  destruct (output_refines_stream 7 "p" tsid "r1" 1 report (after t_taken) x db
    (row_of (after t_taken)) t no_output) as (row' & t' & Hp' & Ht' & _ & Hr & _).
  - exact H.
  - vm_eq.
  - exact Ht.
  - exact Hok.
  - exact Hrep.
  - exact report_fits.
  - exists x, db, row', t'. split; [exact H|]. split; [exact Hp'|]. split; [exact Ht'|exact Hr].
Defined.

Lemma scrollback_bounded_witness :
  ∃ x db row' t', writes 7 (after t_taken) = Ok (x, db) ∧ db_personas db !! "p" = Some row' ∧
    ps_terms row' !! tsid = Some t' ∧ retained (tm_output t') ≤ terminalScrollbackCap.
Proof.
  destruct (found (ps_terms (row_of (after t_taken)) !! tsid) ltac:(vm_eq)) as [t Ht].
  destruct (succeeds (writes 7) (after t_taken) ltac:(vm_eq)) as (x & db & H & _).
  destruct (fresh_in_sample t Ht) as (Hok & Hrep & _).
  destruct (scrollback_bounded 7 "p" tsid "r1" 1 report (after t_taken) x db
    (row_of (after t_taken)) t no_output) as (row' & t' & Hp' & Ht' & Hr & _).
  - exact H.
  - vm_eq.
  - exact Ht.
  - exact Hok.
  - exact Hrep.
  - exact report_fits.
  - exists x, db, row', t'. split; [exact H|]. split; [exact Hp'|]. split; [exact Ht'|exact Hr].
Defined.

Lemma redrain_adds_nothing_witness :
  ∃ x y db1 db2 row1 row2 t1 t2, writes 7 (after t_taken) = Ok (x, db1) ∧ writes 8 db1 = Ok (y, db2) ∧
    ps_terms row1 !! tsid = Some t1 ∧ ps_terms row2 !! tsid = Some t2 ∧
    t2 = set_session (λ s, s <| ts_updated_at := 8 |>) t1.
Proof.
  destruct (found (ps_terms (row_of (after t_taken)) !! tsid) ltac:(vm_eq)) as [t Ht].
  destruct (succeeds (writes 7) (after t_taken) ltac:(vm_eq)) as (x & db1 & H1 & Hdb1).
  destruct (succeeds (writes 8) db1) as (y & db2 & H2 & _); [rewrite <-Hdb1; vm_eq|].
  destruct (fresh_in_sample t Ht) as (Hok & Hrep & _).
  destruct (redrain_adds_nothing 7 8 "p" tsid "r1" 1 "r1" 1 report (after t_taken) x y db1 db2
    (row_of (after t_taken)) t no_output) as (row1 & row2 & t1 & t2 & _ & Ht1 & _ & Ht2 & Heq).
  - vm_eq.
  - exact Ht.
  - exact Hok.
  - exact Hrep.
  - exact report_fits.
  - exact H1.
  - exact H2.
  - exists x, y, db1, db2, row1, row2, t1, t2. split; [exact H1|]. split; [exact H2|].
    split; [exact Ht1|]. split; [exact Ht2|exact Heq].
Defined.

Definition read_back : Term :=
  mkTerm ((new_session 0 "" "" "" "" "") <| ts_output_bytes := 12 |>) []
    [mkOut 1 CkData 0 None [x61; x62; x63] 7; mkOut 2 CkGap 3 (Some 10) [] 7;
     mkOut 3 CkData 10 None [x66; x67] 7; mkOut 4 CkGap 12 (Some 12) [] 8].
Lemma read_back_ok : output_ok read_back ∧ StronglySorted rises (tm_output read_back).
Proof.
  split.
  - split.
    + repeat constructor.
    + repeat constructor.
    + repeat constructor; unfold before, oc_size; simpl; lia.
    + repeat constructor; unfold row_ok, oc_size; simpl; try lia; try done.
      * exists 10. split_and!; done || lia.
      * exists 12. split_and!; done || lia.
    + repeat constructor; unfold climbs, chunk_end, oc_size; simpl; first [by left | right; done].
    + simpl. unfold MaxInt64. lia.
  - repeat constructor; unfold rises, marker, chunk_end; simpl; first [by left | right; done].
Qed.
Lemma reader_sees_all_witness : drain 4 0 0 1 read_back = tm_output read_back.
Proof.
  destruct read_back_ok as [Hok Hri].
  transitivity (filter (λ c, marker c ∨ ts_output_base (tm_session read_back) < chunk_end c)
    (tm_output read_back)); [|vm_compute; reflexivity].
  apply (reader_sees_all read_back 4 1 Hok); [vm_compute; repeat constructor|exact Hri].
Defined.

(** A gap that ends where a page of rows before it ended is passed over: two
    data rows of one byte, then the gap over the second of them. *)
Example passed_gap :
  ∃ t, append_output 7 [mkOutReq "data" 0 None [x61]; mkOutReq "data" 1 None [x62];
                        mkOutReq "gap" 1 (Some 2) []]
         (mkTerm (new_session 0 "" "" "" "" "") [] []) = Ok t ∧
    length (tm_output t) = 3%nat ∧ length (drain 3 0 0 1 t) = 2%nat.
Proof. eexists. split; [vm_compute; reflexivity|]. vm_compute. by split. Qed.

(** A gap reported again from the same offset but further — its first report
    was stored, the answer lost, and more was compacted meanwhile — finds the
    stored row and is dropped, while the session's byte count moves to the new
    end: the bytes in between are told by no row, and a reader of the ended
    session that has seen everything is never told so. *)
Definition gap_to (n : Z) : list OutputReq := [mkOutReq "gap" 0 (Some n) []].
Example widened_gap_hides_eof :
  ∃ t1 t2, append_output 7 (gap_to 10) (mkTerm (new_session 0 "" "" "" "" "") [] []) = Ok t1 ∧
    append_output 8 (gap_to 20) t1 = Ok t2 ∧ tm_output t2 = tm_output t1 ∧
    ts_output_bytes (tm_session t2) = 20 ∧
    let r := read_term 10 1 32 (set_session (λ s, s <| ts_status := TsEnded |>) t2) in
    rd_chunks r = [] ∧ rd_next_cursor r = 10 ∧ rd_eof r = false.
Proof.
  eexists _, _. split; [vm_compute; reflexivity|]. split; [vm_compute; reflexivity|].
  vm_compute. repeat split.
Qed.
