(* ===== verification/MemoryTheorems.v ===== *)
(** * What the memory layer promises

    The context shown to the model shares the journal out between raw
    records and applied blocks; maintenance seals self-contained ranges and
    relieves the raw context no more than needed; memory is never undone; a
    branch only grows and settles on a verdict it confirmed. *)

From Stdlib Require Import ZArith Lia.
From stdpp Require Import sorting.
From S2P Require Import Prelude Json MemoryState MemoryShape State Personas Memory MemoryFacts.
From S2P Require Import MemoryLive Inputs Journal Usage Approvals MemoryBranch Jobs Turns Operations.
From S2P Require Import Machine History Invariant ContextFacts Database EffectFacts MemoryFrames System Samples MemorySamples.
Local Open Scope string_scope.
Local Open Scope list_scope.
Local Open Scope Z_scope.

Section theorems.
Context `{GL : !GoLib} (tl : Tools) `{!EffectFrame tl}.

(** C11: the rendered context is a partition of the journal.  Every record
    outside the excluded input's turns is either rendered raw and shown by no
    memory block, or left out and shown by exactly one; raw records keep the
    journal's order, blocks stand in the order of their disjoint ranges, and
    each block's text is estimated shorter than what it stands for. *)
Theorem context_partition db p row exclude :
  reachable tl db → db_personas db !! p = Some row →
  let rc := renderedContext exclude row in
  (∀ e, e ∈ ps_events row → in_lineage row exclude (ev_turn_id e) = false →
     (e ∈ rc_events rc ∧ (∀ b, b ∈ rc_memory rc → ¬ shown_by b e)) ∨
     ((e ∉ rc_events rc) ∧ ∃ b, b ∈ rc_memory rc ∧ shown_by b e ∧
        ∀ b', b' ∈ rc_memory rc → shown_by b' e → b' = b)) ∧
  rc_events rc `sublist_of` ps_events row ∧
  StronglySorted before_block (rc_memory rc) ∧
  Forall (λ b, ∃ text c, mb_text b = Some text ∧ mb_est_tokens b = Some (estTextTokens text) ∧
            ps_chunks row !! mb_chunk_seq b = Some c ∧ estTextTokens text < mc_est_tokens c)
    (rc_memory rc).
Proof.
  intros Hreach Hp. pose proof (reachable_row tl _ _ _ Hreach Hp) as HI.
  pose proof (ji_numbered _ (ri_journal _ HI)) as Hn. destruct (ri_memory _ HI) as [Hm _]. simpl.
  split_and!.
  - intros e He Hl. pose proof (represented_shown row Hn Hm e) as Hrep. unfold unrepresented.
    rewrite list_elem_of_filter. destruct (existsb _ _).
    + destruct Hrep as [Hrep _]. destruct (Hrep eq_refl) as (b & Hb & Hs). right. split; [by intros [[? _] _]|].
      exists b. split_and!; [done|done|]. intros b' Hb' Hs'. by eapply shown_unique.
    + left. split; [done|]. intros b Hb Hs. destruct Hrep as [_ Hrep]. by discriminate Hrep; eauto.
  - apply sublist_filter.
  - by apply blocks_ordered.
  - by apply blocks_smaller.
Qed.

Lemma maintain_ok now p g db st db' :
  MemoryMaintain now p g db = Ok (st, db') →
  ∃ row row', db_personas db !! p = Some row ∧ maintain_tx now row = Ok (tt, row') ∧
    st = get_MemoryStatus now row' ∧ db' = db <| db_personas := <[p := row']> (db_personas db) |>.
Proof.
  intros (row & row' & Hp & _ & _ & H & ->)%fenced_ok.
  apply bind_ok in H as ([] & s & Hm & [= <- <-]). by exists row, s.
Qed.

(** C14: what maintenance seals stands on its own.  Every layer-1 chunk a
    [MemoryMaintain] adds lies beyond what was covered, holds at least the
    minimum estimate, which is exactly that of its records, and cuts nothing
    apart: a tool call in it has its result in it, later, and a decision
    round known by then is in it whole or not at all. *)
Theorem sealed_ranges_closed db p row now g st db' :
  reachable tl db → db_personas db !! p = Some row → MemoryMaintain now p g db = Ok (st, db') →
  ∃ row', db_personas db' !! p = Some row' ∧ ps_events row' = ps_events row ∧
    ∀ k c, ps_chunks row !! k = None → ps_chunks row' !! k = Some c → mc_layer c = 1 →
      let seg := records_of row c in
      covered (ps_chunks row) < mc_first_seq c ∧ seg ≠ [] ∧ mc_est_tokens c = est_sum seg ∧
      L0ChunkMinTokens ≤ mc_est_tokens c ∧
      (∀ x id, x ∈ seg → calls x id → ∃ y, y ∈ seg ∧ answers y id ∧ ev_seq x < ev_seq y) ∧
      (∀ x y key, x ∈ seg → y ∈ unsealed row → roundKey x = Some key → roundKey y = Some key → y ∈ seg).
Proof.
  intros Hreach Hp (row0 & row' & Hp0 & H & _ & ->)%maintain_ok. rewrite Hp in Hp0. injection Hp0 as <-.
  pose proof (reachable_row tl _ _ _ Hreach Hp) as HI.
  pose proof (ji_numbered _ (ri_journal _ HI)) as Hn.
  destruct (maintain_tx_pass _ _ _ _ Hn (ri_memory _ HI) H) as (Hr & l & w & C1 & C2 & Hpass).
  exists row'. split; [apply lookup_insert_eq|]. split; [by rewrite Hr|].
  intros k c Hk Hk' Hl.
  destruct (pass_segment _ now row l w C1 C2 _ eq_refl Hn (proj1 (ri_memory _ HI)) Hpass k c Hk' Hl Hk)
    as (? & ? & ? & [? ?] & ?). by split_and!.
Qed.

(** C15: maintenance relieves the raw context, oldest first and no more than
    needed.  Afterwards the live raw estimate the status reports is within
    the limit or no prepared layer-1 chunk is left; a chunk taken out of the
    raw context had every older prepared one taken out with it; and without
    the newest one taken out the estimate would still exceed the limit. *)
Theorem maintain_relieves db p row now g st db' :
  reachable tl db → db_personas db !! p = Some row → MemoryMaintain now p g db = Ok (Ok st, db') →
  ∃ row', db_personas db' !! p = Some row' ∧
    (st_live_raw_tokens st ≤ L0LiveLimitTokens ∨
     ∀ k c, ps_chunks row' !! k = Some c → mc_layer c = 1 → mc_status c ≠ ChPrepared) ∧
    (∀ j k c d, taken row (ps_chunks row') k c → j ≤ k → ps_chunks row !! j = Some d →
       mc_layer d = 1 → mc_status d = ChPrepared → taken row (ps_chunks row') j d) ∧
    (∀ k c, taken row (ps_chunks row') k c → (∀ j d, taken row (ps_chunks row') j d → j ≤ k) →
       L0LiveLimitTokens < st_live_raw_tokens st + mc_est_tokens c).
Proof.
  intros Hreach Hp (row0 & row' & Hp0 & H & Hst & ->)%maintain_ok. rewrite Hp in Hp0. injection Hp0 as <-.
  pose proof (reachable_row tl _ _ _ Hreach Hp) as HI.
  pose proof (ji_numbered _ (ri_journal _ HI)) as Hn. pose proof (proj1 (ri_memory _ HI)) as Hm.
  destruct (maintain_tx_pass _ _ _ _ Hn (ri_memory _ HI) H) as (Hr & l & w & C1 & C2 & Hpass).
  destruct (pass_applied _ now row l w C1 C2 _ Hpass) as (a & live & Ha).
  assert (st_live_raw_tokens st = live) as ->.
  { unfold get_MemoryStatus in Hst. destruct (forallb _ _); [|done]. injection Hst as ->. simpl.
    rewrite <-(pass_live_raw _ now row l w C1 C2 _ Hpass live a Ha). f_equal.
    rewrite <-(pass_tail _ now row l w C1 C2 _ eq_refl Hn Hm Hpass), <-Hr. done. }
  assert (∀ c, mc_layer c = 1 → mc_status c = ChPrepared → is_prepared true c = true) as Hprep.
  { intros c Hl Hs. unfold is_prepared. by rewrite Hl, Hs. }
  exists row'. split; [apply lookup_insert_eq|]. split_and!.
  - destruct (pass_enough _ now row l w C1 C2 _ Hpass live a Ha) as [?|Hno]; [by left|right].
    intros k c Hk Hl Hs. specialize (Hno k c Hk). rewrite Hprep in Hno; done.
  - intros j k c d Hk Hle Hj Hl Hs. eapply (pass_oldest _ now row l w C1 C2); eauto.
  - intros k c Hk Hmax. eapply (pass_needed _ now row l w C1 C2); eauto.
Qed.

(** C17: every reachable memory is well formed.  Chunks lie in the journal;
    layer 1 tiles it from the start without gap or overlap; a layer-2 target
    spans exactly the chunks it names; applied blocks are disjoint; a
    prepared, applied or superseded chunk has a text estimated shorter than
    its range; and at most one chunk is in preparation, on its branch. *)
Theorem memory_wellformed db p row :
  reachable tl db → db_personas db !! p = Some row →
  mem_ok (length (ps_events row)) (ps_chunks row) ∧ prep_ok (ps_chunks row) (ps_branches row).
Proof. intros Hreach Hp. apply (ri_memory _ (reachable_row tl _ _ _ Hreach Hp)). Qed.

(** C16: memory is never undone.  Along every run a chunk keeps its range,
    its sources and its estimate, an applied one its text, a superseded one
    everything; and a record once shown by a block is never rendered raw
    again but shown by a block of every later context. *)
Theorem memory_never_undone db db' p row exclude :
  reachable tl db → db_personas db !! p = Some row → run tl db db' →
  ∃ row', db_personas db' !! p = Some row' ∧
    (∀ k c, ps_chunks row !! k = Some c → ∃ c', ps_chunks row' !! k = Some c' ∧ chunk_hist c c') ∧
    ∀ e b, e ∈ ps_events row → b ∈ rc_memory (renderedContext exclude row) → shown_by b e →
      (e ∉ rc_events (renderedContext exclude row')) ∧
      ∃ b', b' ∈ rc_memory (renderedContext exclude row') ∧ shown_by b' e.
Proof.
  intros Hreach Hp Hrun. pose proof (reachable_row tl _ _ _ Hreach Hp) as HI.
  destruct (run_hist tl db db' p row (reachable_inv tl _ Hreach) Hrun Hp) as (row' & Hp' & HI' & Hh).
  exists row'. split; [done|]. pose proof (rh_memory _ _ Hh) as Hmh. split; [done|].
  intros e b He Hb Hs. destruct (block_chunk row b Hb) as (c & Hc & Ha & _ & Ef & El & _).
  destruct (Hmh _ _ Hc) as (c' & Hc' & Hch). destruct (ch_applied _ _ Hch Ha) as [Hst _].
  assert (existsb (λ kc, represented kc.2 && covers kc.2 (ev_seq e)) (map_to_list (ps_chunks row')) = true)
    as Hrep.
  { apply existsb_exists. exists (mb_chunk_seq b, c'). rewrite <-list_elem_of_In, elem_of_map_to_list.
    split; [done|]. simpl. unfold represented, covers. rewrite (ch_first _ _ Hch), (ch_last _ _ Hch).
    unfold shown_by in Hs. apply andb_true_iff. split.
    - destruct Hst as [->| ->]; reflexivity.
    - apply andb_true_iff. split; apply Z.leb_le; lia. }
  split.
  - simpl. unfold unrepresented. rewrite list_elem_of_filter. intros [[Hno _] _]. congruence.
  - apply represented_shown; [apply (ji_numbered _ (ri_journal _ HI'))|apply (ri_memory _ HI')|done].
Qed.

(** ** Branches *)

(** What a checkpoint may do to the one before it. *)
Record grows (old next : branchCheckpoint) : Prop := {
  gr_messages : ck_messages old `prefix_of` ck_messages next;
  gr_rounds : ck_rounds old ≤ ck_rounds next;
  gr_calls : ck_model_calls old ≤ ck_model_calls next;
  gr_tokens : ck_tokens old ≤ ck_tokens next;
  gr_candidate : ∀ c c', ck_candidate old = Some c → ck_candidate next = Some c' →
    cd_version c < cd_version c' ∨ cd_version c = cd_version c' ∧ cd_sha256 c = cd_sha256 c'
}.

Lemma check_progress_grows old next : check_progress old next = Ok tt → grows old next.
Proof.
  unfold check_progress, conflict, mbind, res_bind. intros H.
  destruct (_ || _) eqn:H1; [done|]. destruct (negb _) eqn:H2; [done|].
  repeat (apply orb_false_iff in H1 as [H1 ?]). reflect_bools.
  split; [done|lia..|]. intros c c' Hc Hc'. rewrite Hc, Hc' in H.
  destruct (_ || _) eqn:Hstale; [done|]. apply orb_false_iff in Hstale as [Hlt Hsame].
  apply Z.ltb_ge in Hlt. destruct (cd_version c' =? cd_version c) eqn:Hv; reflect_bools; [right|left; lia].
  simpl in Hsame. reflect_bools. done.
Qed.

(** A checkpoint that is stored, and what it met. *)
Record saved (now seq expected : Z) (v : json) (next : branchCheckpoint) (st : BranchStatus)
    (row row' : PersonaRow) : Prop := {
  sv_old : ∃ r c old c', ps_branches row !! seq = Some r ∧ ps_chunks row !! seq = Some c ∧
    mc_status c = ChPreparing ∧ br_revision r = expected ∧ stored_checkpoint (br_state r) = Ok old ∧
    grows old next ∧ settle_chunk now old next st c = Ok c' ∧
    ps_chunks row' = <[seq := c']> (ps_chunks row) ∧
    ps_branches row' = <[seq := checkpoint_branch now v (branchHash (json_Marshal v)) next st r]>
                         (ps_branches row)
}.

Lemma save_branch_ok now g seq expected v next st row b row' :
  save_branch_tx now g seq expected (v, next, st) row = Ok (b, row') →
  readMemoryBranch seq row' = Ok b ∧
  ((row' = row ∧ br_revision <$> ps_branches row !! seq = Some (int64 (expected + 1)) ∧
    br_checkpoint_hash <$> ps_branches row !! seq = Some (branchHash (json_Marshal v))) ∨
   saved now seq expected v next st row row').
Proof.
  unfold save_branch_tx, mbind, res_bind. intros H. destruct (requireMemoryGeneration now g row); [|done].
  destruct (readMemoryBranch seq row) as [b0|] eqn:Hb; [|done].
  pose proof (readMemoryBranch_ok _ _ _ Hb) as (Hc & r & Hr & _ & Est & Erev).
  destruct (_ && _) eqn:Hre.
  { injection H as <- <-. split; [done|]. left. apply andb_true_iff in Hre as [H1 H2]. reflect_bools.
    rewrite Hr in H2 |- *. split_and!; [done| |done]. simpl. by rewrite <-H1, Erev. }
  destruct (negb (bn_revision b0 =? expected)) eqn:Hrev; [done|].
  destruct (negb (bool_decide (mc_status _ = _))) eqn:Hp; [done|].
  apply negb_false_iff, bool_decide_eq_true in Hp. apply negb_false_iff, Z.eqb_eq in Hrev.
  destruct (stored_checkpoint _) as [old|] eqn:Hold; [|done].
  destruct (check_progress old next) as [[]|] eqn:Hprog; [|done].
  destruct (settle_chunk now old next st (bn_chunk b0)) as [c'|] eqn:Hst; [|done].
  destruct (notify_issue _ _ _ _ _ _) as [row1|] eqn:Hn; [|done]. apply notify_frame in Hn as (_ & HB & HC).
  destruct (negb (issue_castable _)); [done|].
  destruct (readMemoryBranch seq (upd_branch _ _ _)) as [b1|] eqn:Hb1; [|done]. injection H as <- <-.
  split; [done|]. right. split. exists r, (bn_chunk b0), old, c'. simpl in HB, HC.
  split_and!; try done; [congruence|by rewrite <-Est|by apply check_progress_grows|].
  simpl. by rewrite HB, (alter_found _ _ _ r).
Qed.

Lemma SaveMemoryBranch_ok now p g seq expected raw db b db' :
  SaveMemoryBranch now p g seq expected raw db = Ok (b, db') →
  ∃ v next st row row', raw = Some v ∧ parse_checkpoint (Some v) = Ok (v, next, st) ∧
    dec_checkpoint v = Some next ∧ db_personas db !! p = Some row ∧
    save_branch_tx now g seq expected (v, next, st) row = Ok (b, row') ∧
    db' = db <| db_personas := <[p := row']> (db_personas db) |>.
Proof.
  unfold SaveMemoryBranch. destruct raw as [v|]; [|done].
  destruct (parse_checkpoint (Some v)) as [[[v' next] st]|] eqn:Hparse; [|done].
  intros (row & row' & Hp & H & ->)%with_persona_ok.
  assert (v' = v ∧ dec_checkpoint v = Some next) as [-> Hd].
  { unfold parse_checkpoint in Hparse. by repeat case_match; simplify_eq. }
  by exists v, next, st, row, row'.
Qed.

(** C18: a branch only grows.  A checkpoint that is stored continues the one
    the branch holds: same snapshot and history, the transcript extended at
    its end, no counter lower, no candidate older or of the same version
    with another text, the revision one higher; one that is not stored
    repeats the stored one and changes nothing. *)
Theorem checkpoint_extends db p now g seq expected raw b db' :
  SaveMemoryBranch now p g seq expected raw db = Ok (b, db') →
  ∃ v next row row', raw = Some v ∧ dec_checkpoint v = Some next ∧
    db_personas db !! p = Some row ∧ db_personas db' !! p = Some row' ∧
    ((db' = db ∧ br_checkpoint_hash <$> ps_branches row !! seq = Some (branchHash (json_Marshal v))) ∨
     ∃ r r' old, ps_branches row !! seq = Some r ∧ ps_branches row' !! seq = Some r' ∧
       stored_checkpoint (br_state r) = Ok old ∧ grows old next ∧
       br_state r' = Some v ∧ br_revision r = expected ∧ br_revision r' = expected + 1 ∧
       br_snapshot r' = br_snapshot r ∧ br_previous_attempts r' = br_previous_attempts r ∧
       ∀ k, k ≠ seq → ps_branches row' !! k = ps_branches row !! k ∧ ps_chunks row' !! k = ps_chunks row !! k).
Proof.
  intros (v & next & st & row & row' & -> & _ & Hd & Hp & H & ->)%SaveMemoryBranch_ok.
  exists v, next, row, row'. split_and!; [done|done|done|apply lookup_insert_eq|].
  apply save_branch_ok in H as [_ [(-> & _ & Hh)|[(r & c & old & c' & Hr & _ & _ & Hrev & Hold & Hg & _ & HC & HB)]]].
  - left. split; [|done]. rewrite insert_id by done. by destruct db.
  - right. exists r, (checkpoint_branch now v (branchHash (json_Marshal v)) next st r), old.
    rewrite HB, lookup_insert_eq. split_and!; try done; [simpl; lia|].
    intros k Hk. by rewrite HC, !lookup_insert_ne.
Qed.

(** C12: no replacement without a confirmation made in an earlier round.  A
    [SaveMemoryBranch] that leaves a chunk prepared found it in preparation,
    and the checkpoint stored before already held the candidate, whose text
    becomes the replacement, and the open review the new one confirms: for
    this candidate's version and digest, in a later round than it was
    opened.  The text is estimated shorter than the range. *)
Theorem prepared_was_confirmed db p row now g seq expected raw b db' c :
  db_personas db !! p = Some row → ps_chunks row !! seq = Some c → mc_status c = ChPreparing →
  SaveMemoryBranch now p g seq expected raw db = Ok (b, db') → mc_status (bn_chunk b) = ChPrepared →
  ∃ r old next cand rev, ps_branches row !! seq = Some r ∧ stored_checkpoint (br_state r) = Ok old ∧
    raw ≫= dec_checkpoint = Some next ∧
    ck_candidate old = Some cand ∧ ck_candidate next = Some cand ∧
    ck_review old = Some rev ∧ ck_final next = Some rev ∧ rv_kind rev = "replace" ∧
    rv_version rev = cd_version cand ∧ rv_sha256 rev = cd_sha256 cand ∧
    cd_sha256 cand = branchHash (cd_text cand) ∧ rv_opened_round rev < ck_rounds next ∧
    mc_replacement (bn_chunk b) = Some (cd_text cand) ∧
    estTextTokens (cd_text cand) < mc_est_tokens c.
Proof.
  intros Hp Hc Hs (v & next & st & row0 & row' & -> & Hparse & Hd & Hp0 & H & ->)%SaveMemoryBranch_ok Hprep.
  rewrite Hp in Hp0. injection Hp0 as <-.
  apply save_branch_ok in H as [Hread Hcase]. apply readMemoryBranch_ok in Hread as [Hcb _].
  destruct Hcase as [(-> & _)|[(r & c0 & old & c' & Hr & Hc0 & _ & _ & Hold & _ & Hst & HC & _)]].
  { rewrite Hc in Hcb. injection Hcb as ->. congruence. }
  rewrite Hc in Hc0. injection Hc0 as <-. rewrite HC, lookup_insert_eq in Hcb. injection Hcb as ->.
  unfold settle_chunk in Hst. destruct st; [congruence|congruence| |].
  2: { destruct (confirmed old next); [|done]. rewrite bool_decide_eq_false_2 in Hst by done.
       destruct (negb _); [done|]. injection Hst as Hst. by rewrite <-Hst in Hprep. }
  destruct (confirmed old next) as [f|] eqn:Hf; [|done].
  destruct (bool_decide (BrPrepared = BrPrepared)) eqn:Hb; [|done].
  destruct (confirmed_candidate old next f) as [cand|] eqn:Hcand; [|done].
  destruct (_ <=? _) eqn:Hest; [done|]. destruct (contains_nul _); [done|]. injection Hst as Hst.
  unfold confirmed in Hf. destruct (ck_final next) as [f'|] eqn:Efin; [|done].
  destruct (ck_review old) as [rv|] eqn:Erev; [|done]. destruct (_ && _) eqn:Hr1; [|done].
  injection Hf as ->. apply andb_true_iff in Hr1 as [Hr1 Hr2]. reflect_bools. subst rv.
  unfold confirmed_candidate in Hcand. destruct (ck_candidate next) as [cn|] eqn:Ecn; [|done].
  destruct (ck_candidate old) as [co|] eqn:Eco; [|done]. destruct (_ && _) eqn:Hr3; [|done].
  injection Hcand as ->. repeat (apply andb_true_iff in Hr3 as [Hr3 ?]). reflect_bools. subst co.
  assert (candidate_ok cand = true) as Hok.
  { unfold parse_checkpoint in Hparse. rewrite Hd in Hparse. destruct (branch_status _); [|done].
    destruct (_ || _); [done|]. rewrite Ecn in Hparse. by destruct (candidate_ok cand). }
  unfold candidate_ok in Hok. apply andb_true_iff in Hok as [_ Hok]. reflect_bools.
  exists r, old, next, cand, f. rewrite <-Hst. split_and!; try done.
Qed.

Lemma memory_fence_ok now g row u s :
  requireMemoryGeneration now g row = Ok (u, s) →
  s = row ∧ ∃ l, ps_lease row = Some l ∧ l_generation l = g ∧ now < l_expires_at l.
Proof.
  intros ([] & s1 & H1 & H2)%bind_ok. apply requireGeneration_ok in H1 as (_ & -> & Hg & _).
  unfold lease_live in H2. destruct (ps_lease row) as [l|] eqn:Hl; [|done].
  destruct (now <? l_expires_at l) eqn:Hlive; [|done]. injection H2 as _ <-. split; [done|].
  exists l. unfold lease_gen in Hg. rewrite Hl in Hg. injection Hg as Hg. reflect_bools. done.
Qed.
Lemma memory_fence_later now now' g row row' u s l :
  requireMemoryGeneration now g row = Ok (u, s) → ps_lease row' = ps_lease row →
  ps_persona row' = ps_persona row → ps_lease row = Some l → now' < l_expires_at l →
  requireMemoryGeneration now' g row' = Ok (tt, row').
Proof.
  intros H Hl Hper Hlease Hlive. apply bind_ok in H as ([] & s1 & H1 & _).
  unfold requireMemoryGeneration, mbind, M_bind, requireGeneration, lease_live in *.
  rewrite Hl, Hper, Hlease in *. destruct (negb _); [done|]. destruct (bool_decide _); [done|].
  rewrite ?Hl, ?Hlease. by rewrite (proj2 (Z.ltb_lt _ _) Hlive).
Qed.

(** A checkpoint repeated is answered again.  After a successful
    [SaveMemoryBranch] the same call, made while the lease still lives,
    returns the same branch and writes nothing. *)
Theorem save_replays db p row l now now' g seq expected raw b db' :
  db_personas db !! p = Some row → ps_lease row = Some l → now' < l_expires_at l →
  is_int64 (expected + 1) → SaveMemoryBranch now p g seq expected raw db = Ok (b, db') →
  commit (SaveMemoryBranch now' p g seq expected raw) db' = (db', Ok b).
Proof.
  intros Hp Hl Hlive Hint (v & next & st & row0 & row' & -> & Hparse & _ & Hp0 & H & ->)%SaveMemoryBranch_ok.
  rewrite Hp in Hp0. injection Hp0 as <-. pose proof (save_branch_frame _ _ _ _ _ _ _ _ H) as [Hr _ _ _ _ _].
  assert (requireMemoryGeneration now' g row' = Ok (tt, row')) as Hfence.
  { unfold save_branch_tx in H. destruct (requireMemoryGeneration now g row) as [[u s]|] eqn:Hf; [|done].
    eapply memory_fence_later; [exact Hf|by rewrite Hr|by rewrite Hr|done|done]. }
  apply save_branch_ok in H as [Hread Hcase].
  assert (save_branch_tx now' g seq expected (v, next, st) row' = Ok (b, row')) as Hagain.
  { unfold save_branch_tx, mbind, res_bind. rewrite Hfence, Hread.
    apply readMemoryBranch_ok in Hread as (_ & x & Hx & _ & _ & Erev). rewrite Hx, Erev. simpl.
    assert (br_revision x = int64 (expected + 1) ∧ br_checkpoint_hash x = branchHash (json_Marshal v))
      as [-> ->].
    { destruct Hcase as [(-> & H1 & H2)|[(r & _ & _ & _ & _ & _ & _ & Hrev & _ & _ & _ & _ & HB)]].
      - rewrite Hx in H1, H2. by injection H1 as ->; injection H2 as ->.
      - rewrite HB, lookup_insert_eq in Hx. injection Hx as <-. simpl. rewrite int64_id by done.
        split; [lia|done]. }
    repeat rewrite bool_decide_eq_true_2 by done. done. }
  unfold commit, SaveMemoryBranch. rewrite Hparse. unfold with_persona.
  match goal with |- context [db_personas ?d !! p] =>
    rewrite (lookup_insert_eq (db_personas db) p row' : db_personas d !! p = Some row') end.
  rewrite Hagain. simpl. rewrite insert_insert. by rewrite decide_True.
Qed.

(** A memory branch reopened from a pause starts its confirmation over.
    [memory.resume], in either mode, drops the open review; so the next
    checkpoint of that branch, whatever it claims, leaves the chunk in
    preparation with nothing settled. *)
Theorem resume_needs_new_confirmation now request row o row' :
  resumeMemory now request row = Ok (o, row') →
  ∃ r, parseMemoryResumeRequest request = Ok r ∧
    (∃ c, ps_chunks row !! mr_chunk r = Some c ∧ mc_status c = ChPreparing) ∧
    ∀ now' g expected v next st b row'',
      save_branch_tx now' g (mr_chunk r) expected (v, next, st) row' = Ok (b, row'') →
      ps_chunks row'' = ps_chunks row.
Proof.
  intros H. unfold resumeMemory, mbind, res_bind in H.
  destruct (parseMemoryResumeRequest request) as [r|]; [|done]. exists r. split; [done|].
  destruct (readMemoryBranch (mr_chunk r) row) as [b0|] eqn:Hb; [|done].
  apply readMemoryBranch_ok in Hb as (Hc & x & Hx & _ & Est & _).
  destruct (bn_state b0) as [[| | | | |st]|]; try done.
  destruct (negb _) eqn:Hg; [done|]. apply negb_false_iff, andb_true_iff in Hg as [_ Hs].
  apply bool_decide_eq_true in Hs. split; [by exists (bn_chunk b0)|].
  destruct (if bool_decide _ then _ else _) as [st'|] eqn:Hst; [|done]. injection H as _ <-.
  assert (st' !! "review" = Some JNull) as Hrev.
  { unfold rebranch_state, resume_state, cleared in Hst.
    repeat case_match; simplify_eq; repeat (rewrite lookup_insert_ne by done); by rewrite lookup_insert_eq. }
  intros now' g expected v next bst b row'' [_ [(-> & _)|[Hsv]]]%save_branch_ok; [done|].
  destruct Hsv as (y & c & old & c' & Hy & Hc' & Hpr & _ & Hold & _ & Hset & HC & _).
  unfold upd_branch in Hy. simpl in Hy. rewrite (alter_found _ _ _ x), lookup_insert_eq in Hy by done.
  injection Hy as <-. simpl in Hold.
  assert (ck_review old = None) as Hno.
  { unfold dec_checkpoint, dec_struct in Hold.
    destruct (_ ≫= _) as [o'|] eqn:Hdec in Hold; [|done]. injection Hold as ->.
    repeat (apply bind_Some in Hdec as (? & ? & Hdec)). injection Hdec as <-. simpl.
    match goal with H : dec_ptr dec_review _ "review" = Some _ |- _ => rename H into Hd end.
    unfold dec_ptr, dec_field, struct_field, add_note in Hd.
    rewrite lookup_insert_ne, Hrev in Hd by done. by injection Hd as <-. }
  rewrite HC. simpl in Hc' |- *. apply insert_id. rewrite Hc'. f_equal.
  unfold settle_chunk, confirmed in Hset. rewrite Hno in Hset.
  by destruct bst, (ck_final next); simplify_eq.
Qed.

(** ** Claims *)

(** The new attempt of a branch the secretary asked to start over. *)
Definition restarted (snap : option BranchSnapshot) (r r' : BranchRow) : Prop :=
  rebranch_requested r = Ok true ∧ snap = Some (br_snapshot r') ∧ br_state r' = None ∧
  ∃ a, br_previous_attempts r' = br_previous_attempts r ++ [a] ∧
    bn_state a = br_state r ∧ bn_snapshot a = br_snapshot r ∧ bn_revision a = br_revision r.

Lemma restart_ok now snap row row1 :
  restartRequestedMemory now snap row = Ok row1 →
  ps_chunks row1 = ps_chunks row ∧
  ∀ k r', ps_branches row1 !! k = Some r' →
    ∃ r, ps_branches row !! k = Some r ∧ (r' = r ∨ restarted snap r r').
Proof.
  intros H. unfold restartRequestedMemory, mbind, res_bind in H.
  assert (∀ k r', ps_branches row !! k = Some r' →
    ∃ r, ps_branches row !! k = Some r ∧ (r' = r ∨ restarted snap r r')) as Hsame by eauto.
  destruct snap as [s|]; [|by injection H as <-]. destruct (negb _); [by injection H as <-|].
  destruct (find_row _ _) as [[seq|]|] eqn:Hf; [|by injection H as <-|done].
  destruct (validateBranchSnapshot s); [|done].
  destruct (readMemoryBranch seq row) as [b|] eqn:Hb; [|done].
  destruct (snapshotMatchesChunk _ _ _) as [[]|]; [|by injection H as <-|done]. injection H as <-.
  split; [done|]. apply find_row_elem in Hf as (x & (Hx & _)%preparing_branches_elem & Hreq).
  apply readMemoryBranch_ok in Hb as (_ & r & Hr & Esn & Est & Erev). rewrite Hx in Hr. injection Hr as <-.
  intros k r'. unfold upd_branch, archiveMemoryAttempt, upd_branch. simpl.
  rewrite !lookup_alter. case_decide as Hk; [subst k|by eauto]. rewrite Hx. simpl. case_decide; [|done]. intros [= <-].
  exists x. split; [done|]. right. split_and!; try done. exists (without_previous b). by split_and!.
Qed.

Lemma take_branch_ok now g seq row b row' :
  take_branch now g seq row = Ok (Some b, row') →
  ∃ c r', ps_chunks row !! seq = Some c ∧ bn_chunk b = take_chunk now g c ∧
    ps_branches row !! seq = Some r' ∧ bn_snapshot b = br_snapshot r' ∧ bn_state b = br_state r' ∧
    ps_chunks row' !! seq = Some (bn_chunk b) ∧ ps_branches row' = ps_branches row.
Proof.
  unfold take_branch, mbind, res_bind. destruct (readMemoryBranch _ _) as [b'|] eqn:Hb; [|done].
  intros H. injection H as -> <-. apply readMemoryBranch_ok in Hb as (Hc & r & Hr & Es & Et & _).
  unfold upd_chunk in Hc, Hr. simpl in Hc, Hr. pose proof Hc as Hc0. rewrite lookup_alter in Hc0.
  rewrite decide_True in Hc0 by done. apply fmap_Some in Hc0 as (c & Hc1 & Hc2).
  exists c, r. split_and!; done.
Qed.

Definition claimed_branch (g seq : Z) (snap : option BranchSnapshot) (b : MemoryBranch)
    (row row' : PersonaRow) : Prop :=
  ∃ r', ps_branches row' !! seq = Some r' ∧ ps_chunks row' !! seq = Some (bn_chunk b) ∧
    bn_snapshot b = br_snapshot r' ∧ bn_state b = br_state r' ∧
    mc_status (bn_chunk b) = ChPreparing ∧ mc_claimed_generation (bn_chunk b) = Some g ∧
    ((∃ c r, ps_chunks row !! seq = Some c ∧ mc_status c = ChPreparing ∧ ps_branches row !! seq = Some r ∧
        (r' = r ∨ restarted snap r r')) ∨
     ((∀ k c, ps_chunks row !! k = Some c → mc_status c ≠ ChPreparing) ∧ snap = Some (bn_snapshot b) ∧
      bn_state b = None ∧
      snapshotCovers (bn_snapshot b) (mc_first_seq (bn_chunk b)) (mc_last_seq (bn_chunk b)) = true)).

Lemma claim_new_ok now g snap row0 row ob row' :
  claim_new_branch now g snap row0 row = Ok (ob, row') → ps_chunks row = ps_chunks row0 →
  match ob with None => row' = row0 | Some b => ∃ seq, claimed_branch g seq snap b row0 row' end.
Proof.
  intros H HC. unfold claim_new_branch, mbind, res_bind in H.
  destruct (existsb _ _) eqn:Hfree; [by injection H as <- <-|].
  destruct snap as [s|]; [|by injection H as <- <-]. destruct (validateBranchSnapshot s); [|done].
  destruct (reconsiderKeptMemory s row) as [row2|] eqn:Hr; [|done].
  destruct (first_match _ _ _) as [seq|] eqn:Hf; [|done].
  destruct (seq =? 0) eqn:Hz; [by injection H as <- <-|]. reflect_bools.
  apply first_match_elem in Hf as [?|Hin]; [lia|]. unfold candidates in Hin.
  apply list_elem_of_fmap in Hin as ([j c] & -> & [Hcov Hj]%list_elem_of_filter). simpl in *.
  apply chunks_where_elem in Hj as [Hj _].
  destruct ob as [b|]; [|unfold take_branch, mbind, res_bind in H; by destruct (readMemoryBranch _ _)].
  apply take_branch_ok in H as (c' & r' & Hc' & Ec & Hr' & Es & Et & Hch & HB). simpl in Hc'.
  rewrite Hj in Hc'. injection Hc' as <-. unfold open_branch in Hr'. simpl in Hr'.
  assert (br_snapshot r' = s ∧ br_state r' = None) as [E1 E2].
  { rewrite lookup_insert_eq in Hr'. injection Hr' as <-. by destruct (ps_branches row2 !! j). }
  exists j, r'. rewrite HB, Ec. unfold open_branch. simpl. rewrite E1 in Es. rewrite E2 in Et.
  split_and!; try done; try congruence. right. rewrite Es. split_and!; try done.
  intros k d Hk Hd. rewrite <-HC in Hk.
  assert (existsb (λ kc, bool_decide (mc_status kc.2 = ChPreparing)) (map_to_list (ps_chunks row)) = true)
    as Hex; [|congruence].
  apply existsb_exists. exists (k, d). rewrite <-list_elem_of_In, elem_of_map_to_list.
  split; [done|by apply bool_decide_eq_true].
Qed.

(** C13: one branch at a time, over a context that stays frozen.  A claim
    that answers nothing has changed nothing.  One that answers a branch
    leaves its chunk the only one in preparation, held by the caller's
    generation: if one was in preparation before it is this one, resumed
    exactly as stored — snapshot, state, revision and history — unless the
    secretary asked to start over, when the old attempt is archived; and only
    if none was, a new branch is opened, over the caller's snapshot, which
    covers the chunk's range. *)
Theorem claim_one_branch db p row now g snap policy ob db' :
  reachable tl db → db_personas db !! p = Some row →
  ClaimMemoryBranch now p g snap policy db = Ok (ob, db') →
  match ob with
  | None => db' = db
  | Some b => ∃ row' seq, db_personas db' !! p = Some row' ∧ claimed_branch g seq snap b row row' ∧
      ∀ k c, ps_chunks row' !! k = Some c → mc_status c = ChPreparing → k = seq ∧ c = bn_chunk b
  end.
Proof.
  intros Hreach Hp H. pose proof H as (row0 & row' & Hp0 & Htx & Hdb)%with_persona_ok.
  rewrite Hp in Hp0. injection Hp0 as <-.
  assert (match ob with None => row' = row | Some b => ∃ seq, claimed_branch g seq snap b row row' end) as Hcase.
  { unfold claim_branch_tx, mbind, res_bind in Htx. destruct (requireMemoryGeneration now g row); [|done].
    destruct (restartRequestedMemory now snap row) as [row1|] eqn:Hr; [|done].
    apply restart_ok in Hr as [HC HB]. destruct (negb _); [done|].
    destruct (match selected_fingerprint snap with Some f => _ | None => _ end); [done|].
    destruct (find_row _ _) as [[seq|]|] eqn:Hf; [| |done]; [|by eapply claim_new_ok].
    apply find_row_elem in Hf as (x & (Hx & c & Hc & Hs)%preparing_branches_elem & _).
    destruct ob as [b|]; [|unfold take_branch, mbind, res_bind in Htx; by destruct (readMemoryBranch _ _)].
    apply take_branch_ok in Htx as (c' & r' & Hc' & Ec & Hr' & Es & Et & Hch & HBr).
    rewrite Hc in Hc'. injection Hc' as <-. exists seq, r'. rewrite HBr. rewrite Ec in *.
    split_and!; try done. left. destruct (HB _ _ Hr') as (r & ? & ?). rewrite HC in Hc. exists c, r. done. }
  destruct ob as [b|]; [|subst; rewrite insert_id by done; by destruct db].
  destruct Hcase as [seq Hcase]. pose proof Hcase as (r' & _ & Hch & _ & _ & Hpr & _). exists row', seq.
  assert (db_personas db' !! p = Some row') as Hp' by (rewrite Hdb; apply lookup_insert_eq).
  split_and!; [done|done|]. intros k c Hk Hc.
  assert (reachable tl db') as Hreach'.
  { apply (run_reachable tl db); [done|]. econstructor; [|constructor].
    assert (exec tl (CClaimMemoryBranch now p g snap policy) db = db') as <-; [|apply step_call].
    simpl. unfold commit. by rewrite H. }
  destruct (ri_memory _ (reachable_row tl _ _ _ Hreach' Hp')) as [_ Hprep].
  assert (k = seq) as -> by (eapply po_one; eauto). rewrite Hch in Hk. by injection Hk as <-.
Qed.

(** The queries over a branch in preparation fail on a state they cannot
    cast. *)
Lemma uncastable_claim row seq r c now g snap policy :
  row_inv row → ps_branches row !! seq = Some r → castable (br_state r) = false →
  ps_chunks row !! seq = Some c → mc_status c = ChPreparing →
  ∃ e, claim_branch_tx now g snap policy row = Err e.
Proof.
  intros HI Hr Hcast Hc Hpr. destruct (ri_memory _ HI) as [_ Hprep].
  assert (∀ P, P r = Err nul_error → find_row P (preparing_branches row) = Err nul_error) as Hfind.
  { intros P HP. assert ((seq, r) ∈ preparing_branches row) as Hin by (apply preparing_branches_elem; eauto).
    destruct (preparing_branches row) as [|[k x] l] eqn:Hl; [by apply not_elem_of_nil in Hin|].
    assert ((k, x) ∈ preparing_branches row) as (Hx & c' & Hk & Hck)%preparing_branches_elem
      by (rewrite Hl; by left).
    assert (k = seq) as -> by (eapply po_one; eauto). rewrite Hr in Hx. injection Hx as <-.
    simpl. unfold mbind, res_bind. by rewrite HP. }
  unfold claim_branch_tx, mbind, res_bind. destruct (requireMemoryGeneration now g row); [|by eexists].
  destruct (restartRequestedMemory now snap row) as [row1|] eqn:Hrs; [|by eexists].
  assert (row1 = row) as ->.
  { unfold restartRequestedMemory, mbind, res_bind in Hrs. destruct snap as [s|]; [|congruence].
    destruct (negb _); [congruence|]. rewrite Hfind in Hrs; [done|].
    unfold rebranch_requested. by rewrite Hcast. }
  destruct (negb (castable policy)); [by eexists|].
  destruct (match selected_fingerprint snap with Some f => _ | None => _ end); [by eexists|].
  rewrite Hfind; [by eexists|]. unfold branch_due. by rewrite Hcast.
Qed.

(** C36: a checkpoint may hold what the queries over it cannot read.  A
    branch state is stored as text, so a save is not refused for a NUL in a
    string of it.  When such a checkpoint has been accepted and left the
    branch in preparation, it is in the database; and in that state and in
    every later one in which the chunk is still in preparation and the branch
    still holds that state — until a save replaces it or the branch is
    settled — every claim of the persona's memory fails and changes nothing,
    whoever makes it. *)
Theorem unreadable_checkpoint db p now g seq expected v b db' :
  reachable tl db → SaveMemoryBranch now p g seq expected (Some v) db = Ok (b, db') →
  mc_status (bn_chunk b) = ChPreparing → bn_state b = Some v → jsonb_ok v = false →
  (∃ row' r, db_personas db' !! p = Some row' ∧ ps_branches row' !! seq = Some r ∧
     br_state r = Some v ∧ ps_chunks row' !! seq = Some (bn_chunk b)) ∧
  ∀ db2 row2 r c, run tl db' db2 → db_personas db2 !! p = Some row2 →
    ps_branches row2 !! seq = Some r → br_state r = Some v →
    ps_chunks row2 !! seq = Some c → mc_status c = ChPreparing →
    ∀ now' g' snap policy, ∃ e,
      commit (ClaimMemoryBranch now' p g' snap policy) db2 = (db2, Err e).
Proof.
  intros Hreach H Hpr Hst Hnul.
  assert (reachable tl db') as Hreach'.
  { apply (run_reachable tl db); [done|]. econstructor; [|constructor].
    assert (exec tl (CSaveMemoryBranch now p g seq expected (Some v)) db = db') as <-; [|apply step_call].
    simpl. unfold commit. by rewrite H. }
  split.
  - apply SaveMemoryBranch_ok in H as (v' & next & st & row & row' & [= <-] & _ & _ & Hp & H & Hdb).
    apply save_branch_ok in H as [Hread _].
    apply readMemoryBranch_ok in Hread as (Hc & r & Hr & _ & Et & _).
    exists row', r. split_and!; [rewrite Hdb; apply lookup_insert_eq|done|congruence|done].
  - intros db2 row2 r c Hrun Hp2 Hr Hrs Hc Hpc now' g' snap policy.
    destruct (uncastable_claim row2 seq r c now' g' snap policy) as [e He]; try done.
    + eapply (reachable_row tl); [|done]. by apply (run_reachable tl db').
    + by rewrite Hrs.
    + exists e. unfold commit, ClaimMemoryBranch, with_persona. by rewrite Hp2, He.
Qed.
End theorems.

(** ** Witnesses *)

#[local] Existing Instance bulky_lib.

Lemma context_partition_witness :
  db_personas at_applied !! "p" = Some (row_of at_applied) ∧
  rc_events (renderedContext "" (row_of at_applied)) `sublist_of` ps_events (row_of at_applied) ∧
  StronglySorted before_block (rc_memory (renderedContext "" (row_of at_applied))).
Proof.
  destruct (context_partition bulky_tools at_applied "p" (row_of at_applied) "") as (_ & Hs & Hb & _).
  - apply at_applied_reachable.
  - vm_eq.
  - split; [vm_eq|]. split; [exact Hs|exact Hb].
Defined.

Lemma sealed_ranges_closed_witness :
  ∃ st db', MemoryMaintain 6 "p" 1 at_rest = Ok (st, db') ∧
  ∃ row', db_personas db' !! "p" = Some row' ∧ ps_events row' = ps_events (row_of at_rest).
Proof.
  destruct (succeeds (MemoryMaintain 6 "p" 1) at_rest ltac:(vm_eq)) as (st & db' & H & _).
  destruct (sealed_ranges_closed bulky_tools at_rest "p" (row_of at_rest) 6 1 st db')
    as (row' & Hp & He & _).
  - apply live_reachable.
  - vm_eq.
  - exact H.
  - exists st, db'. split; [exact H|]. exists row'. split; [exact Hp|exact He].
Defined.

(** A maintenance whose status could be read. *)
Lemma reported now p g db :
  match MemoryMaintain now p g db with Ok (Ok _, _) => true | _ => false end = true →
  ∃ st db', MemoryMaintain now p g db = Ok (Ok st, db').
Proof. destruct (MemoryMaintain now p g db) as [[[st|] db']|]; [|done..]. intros _. by exists st, db'. Qed.

Lemma maintain_relieves_witness :
  ∃ st db', MemoryMaintain 10 "p" 1 at_prepared = Ok (Ok st, db') ∧
  ∃ row', db_personas db' !! "p" = Some row' ∧
    (st_live_raw_tokens st ≤ L0LiveLimitTokens ∨
     ∀ k c, ps_chunks row' !! k = Some c → mc_layer c = 1 → mc_status c ≠ ChPrepared).
Proof.
  destruct (reported 10 "p" 1 at_prepared ltac:(vm_eq)) as (st & db' & H).
  destruct (maintain_relieves bulky_tools at_prepared "p" (row_of at_prepared) 10 1 st db')
    as (row' & Hp & Hr & _).
  - apply at_prepared_reachable.
  - vm_eq.
  - exact H.
  - exists st, db'. split; [exact H|]. exists row'. split; [exact Hp|exact Hr].
Defined.

Lemma memory_wellformed_witness :
  mem_ok (length (ps_events (row_of at_applied))) (ps_chunks (row_of at_applied)) ∧
  prep_ok (ps_chunks (row_of at_applied)) (ps_branches (row_of at_applied)).
Proof.
  apply (memory_wellformed bulky_tools at_applied "p"); [apply at_applied_reachable|vm_eq].
Defined.

Lemma memory_never_undone_witness :
  ∃ row', db_personas (live (told 11 "i4" "t4") at_applied) !! "p" = Some row' ∧
    ∀ k c, ps_chunks (row_of at_applied) !! k = Some c →
      ∃ c', ps_chunks row' !! k = Some c' ∧ chunk_hist c c'.
Proof.
  destruct (memory_never_undone bulky_tools at_applied (live (told 11 "i4" "t4") at_applied) "p"
    (row_of at_applied) "") as (row' & Hp & Hc & _).
  - apply at_applied_reachable.
  - vm_eq.
  - apply live_run.
  - exists row'. split; [exact Hp|exact Hc].
Defined.

Lemma checkpoint_extends_witness :
  ∃ b db', SaveMemoryBranch 8 "p" 1 1 0 (Some reviewing) at_claimed = Ok (b, db') ∧
    ∃ v next, Some reviewing = Some v ∧ dec_checkpoint v = Some next.
Proof.
  destruct (succeeds (SaveMemoryBranch 8 "p" 1 1 0 (Some reviewing)) at_claimed ltac:(vm_eq))
    as (b & db' & H & _).
  destruct (checkpoint_extends at_claimed "p" 8 1 1 0 (Some reviewing) b db' H)
    as (v & next & row & row' & Hv & Hd & _).
  exists b, db'. split; [exact H|]. exists v, next. split; [exact Hv|exact Hd].
Defined.

(** What a saved branch looks like. *)
Lemma saved_as (P : MemoryBranch → bool) now p g seq expected raw db :
  match SaveMemoryBranch now p g seq expected raw db with Ok (b, _) => P b | Err _ => false end = true →
  ∃ b db', SaveMemoryBranch now p g seq expected raw db = Ok (b, db') ∧ P b = true.
Proof.
  destruct (SaveMemoryBranch now p g seq expected raw db) as [[b db']|]; [|done].
  intros H. by exists b, db'.
Qed.
Definition in_standing (st : ChunkStatus) (b : MemoryBranch) : bool :=
  bool_decide (mc_status (bn_chunk b) = st).

Lemma prepared_was_confirmed_witness :
  ∃ b db', SaveMemoryBranch 9 "p" 1 1 1 (Some verdict) at_review = Ok (b, db') ∧
    ∃ cand, mc_replacement (bn_chunk b) = Some (cd_text cand).
Proof.
  destruct (saved_as (in_standing ChPrepared) 9 "p" 1 1 1 (Some verdict) at_review ltac:(vm_eq))
    as (b & db' & H & Hs%bool_decide_eq_true).
  destruct (found (ps_chunks (row_of at_review) !! 1) ltac:(vm_eq)) as [c Hc].
  destruct (prepared_was_confirmed at_review "p" (row_of at_review) 9 1 1 1 (Some verdict) b db' c)
    as (r & old & next & cand & rev & _ & _ & _ & _ & _ & _ & _ & _ & _ & _ & _ & _ & Hr & _).
  - vm_eq.
  - exact Hc.
  - exact (look mc_status _ _ _ Hc ltac:(vm_eq)).
  - exact H.
  - exact Hs.
  - exists b, db'. split; [exact H|]. exists cand. exact Hr.
Defined.

Lemma save_replays_witness :
  ∃ b db', SaveMemoryBranch 8 "p" 1 1 0 (Some reviewing) at_claimed = Ok (b, db') ∧
    commit (SaveMemoryBranch 20 "p" 1 1 0 (Some reviewing)) db' = (db', Ok b).
Proof.
  destruct (succeeds (SaveMemoryBranch 8 "p" 1 1 0 (Some reviewing)) at_claimed ltac:(vm_eq))
    as (b & db' & H & _).
  destruct (found (ps_lease (row_of at_claimed)) ltac:(vm_eq)) as [l Hl].
  exists b, db'. split; [exact H|].
  apply (save_replays at_claimed "p" (row_of at_claimed) l 8 20 1 1 0 (Some reviewing) b db').
  - vm_eq.
  - exact Hl.
  - apply Z.ltb_lt. exact (look (λ l, 20 <? l_expires_at l) _ _ _ Hl ltac:(vm_eq)).
  - split; discriminate.
  - exact H.
Defined.

Lemma resume_needs_new_confirmation_witness :
  ∃ o row', resumeMemory 12 resume_request (row_of at_pause) = Ok (o, row') ∧
    ∃ r, parseMemoryResumeRequest resume_request = Ok r.
Proof.
  assert (is_Ok (resumeMemory 12 resume_request (row_of at_pause)) = true) as Hok by vm_eq.
  destruct (resumeMemory 12 resume_request (row_of at_pause)) as [[o row']|e] eqn:H; [|discriminate Hok].
  destruct (resume_needs_new_confirmation 12 resume_request (row_of at_pause) o row' H) as (r & Hr & _).
  exists o, row'. split; [reflexivity|]. exists r. exact Hr.
Defined.

Lemma claim_one_branch_witness :
  ∃ ob db', ClaimMemoryBranch 7 "p" 1 (Some shown) None at_sealed = Ok (ob, db') ∧
  match ob with
  | None => db' = at_sealed
  | Some b => ∃ row' seq, db_personas db' !! "p" = Some row' ∧
      claimed_branch 1 seq (Some shown) b (row_of at_sealed) row' ∧
      ∀ k c, ps_chunks row' !! k = Some c → mc_status c = ChPreparing → k = seq ∧ c = bn_chunk b
  end.
Proof.
  destruct (succeeds (ClaimMemoryBranch 7 "p" 1 (Some shown) None) at_sealed ltac:(vm_eq))
    as (ob & db' & H & _).
  exists ob, db'. split; [exact H|].
  apply (claim_one_branch bulky_tools at_sealed "p" (row_of at_sealed) 7 1 (Some shown) None ob db').
  - apply at_sealed_reachable.
  - vm_eq.
  - exact H.
Defined.

Lemma unreadable_checkpoint_witness :
  ∃ b db', SaveMemoryBranch 8 "p" 1 1 0 (Some spoilt) at_claimed = Ok (b, db') ∧
    ∃ e, commit (ClaimMemoryBranch 9 "p" 1 None None) db' = (db', Err e).
Proof.
  destruct (saved_as (λ b, in_standing ChPreparing b && bool_decide (bn_state b = Some spoilt))
    8 "p" 1 1 0 (Some spoilt) at_claimed ltac:(vm_eq))
    as (b & db' & H & [Hs%bool_decide_eq_true Ht%bool_decide_eq_true]%andb_true_iff).
  exists b, db'. split; [exact H|].
  destruct (unreadable_checkpoint bulky_tools at_claimed "p" 8 1 1 0 spoilt b db')
    as [(row & r & Hp & Hr & Hv & Hc) Hall].
  - apply at_claimed_reachable.
  - exact H.
  - exact Hs.
  - exact Ht.
  - vm_eq.
  - apply (Hall db' row r (bn_chunk b)); [constructor|assumption..].
Defined.
