(* ===== verification/JobTheorems.v ===== *)
(** * Jobs and schedules

    Background work and timers wake the persona exactly once, a verdict is
    final, and a job runs only where it was routed. *)

From Stdlib Require Import ZArith Lia.
From stdpp Require Import sorting.
From S2P Require Import Prelude Json State Personas Inputs Journal Plans Pricing Usage Approvals.
From S2P Require Import Jobs JobDiscovery Turns Operations Schedules Machine History Ledger Invariant Database.
From S2P Require Import JobFacts DiscoveryFacts ScheduleFacts EffectFacts System Samples.
Local Open Scope string_scope.
Local Open Scope list_scope.
Local Open Scope Z_scope.

Section jobs.
Context `{GL : !GoLib} (tl : Tools) `{!EffectFrame tl}.

(** C33: exactly the promised wake-ups.  In every reachable state, whatever
    jobs the store, the effects of tools and the browser's host have queued
    and claimed, the notification input of a job in the table exists if and
    only if the job has ended, which is when it is stamped as notified; and
    the wake input of a schedule in the table exists if and only if the
    schedule has fired: no end goes unannounced, nothing is announced early,
    and since an input id names one input, nothing is announced twice.  Of
    notifications whose job stayed behind at the placement a persona was
    imported from nothing is said: such an import is not a step of a run. *)
Theorem notifications_exact db p row :
  reachable tl db → db_personas db !! p = Some row →
  (∀ x j, ps_jobs row !! x = Some j →
     (is_Some (ps_inputs row !! (jobInputPrefix +:+ x)) ↔ jobTerminal (j_status j) = true) ∧
     (is_Some (j_notified_at j) ↔ jobTerminal (j_status j) = true)) ∧
  (∀ x s, ps_schedules row !! x = Some s →
     is_Some (ps_inputs row !! (schedInputPrefix +:+ x)) ↔ sc_status s = SchFired).
Proof.
  intros Hreach Hp. pose proof (reachable_row tl _ _ _ Hreach Hp) as HI.
  assert (∀ k, is_Some (views row !! k) ↔ is_Some (ps_inputs row !! k)) as Hdom.
  { intros k. unfold views. by rewrite lookup_fmap, fmap_is_Some. }
  split; [intros x j Hj; split|intros x s Hs].
  - rewrite <-Hdom, (ri_job_slots _ HI x). unfold job_ended. rewrite Hj. naive_solver.
  - apply (jk_notified _ _ (ri_jobs _ HI x j Hj)).
  - rewrite <-Hdom, (ri_schedule_slots _ HI x). unfold schedule_fired. rewrite Hs. naive_solver.
Qed.

(** ** Schedules *)

Lemma dispatch_loop now g l row u row' :
  NoDup (l.*1) →
  (∀ ks, ks ∈ l → ps_schedules row !! ks.1 = Some ks.2 ∧ sc_status ks.2 = SchPending) →
  row_inv row → for_each l (fire_schedule now g) row = Ok (u, row') →
  (∀ ks, ks ∈ l → ps_schedules row' !! ks.1 = Some (fire now g ks.2) ∧
     ∃ seq, ps_inputs row' !! (schedInputPrefix +:+ ks.1) = Some (wake_input now ks.1 ks.2 seq)) ∧
  (∀ k, k ∉ l.*1 → ps_schedules row' !! k = ps_schedules row !! k) ∧
  (∀ k i, ps_inputs row !! k = Some i → ps_inputs row' !! k = Some i).
Proof.
  revert row. induction l as [|[x s] l IH]; intros row Hnd Hrows HI; simpl.
  - intros [= _ <-]. split_and!; auto. intros ks Hks. by apply not_elem_of_nil in Hks.
  - intros (u1 & row1 & H1 & H2)%bind_ok. apply NoDup_cons in Hnd as [Hx Hnd].
    destruct (Hrows (x, s) ltac:(left)) as [Hs Hp]. simpl in *.
    destruct (fire_schedule_ok _ _ _ _ _ _ _ Hs Hp H1) as (Hev & Hoth & Hrow).
    destruct (Hev HI) as [HI1 _]. specialize (Hrow HI).
    assert (ps_inputs row !! (schedInputPrefix +:+ x) = None) as Hnone.
    { destruct (ps_inputs row !! _) as [i|] eqn:Hi; [|done].
      destruct (proj1 (ri_schedule_slots _ HI x)) as (s' & Hs' & ?); [|congruence].
      exists (view i). apply views_lookup. eauto. }
    destruct (IH row1) as (Hin & Hout & Hkeep); [done| |done|done|].
    { intros ks Hks. rewrite Hoth; [apply Hrows; by right|].
      intros Heq. apply Hx. rewrite <-Heq. by apply list_elem_of_fmap_2. }
    split_and!.
    + intros ks [->|Hks]%elem_of_cons; [|by apply Hin]. simpl. split.
      * rewrite Hout by done. rewrite Hrow. apply lookup_insert_eq.
      * eexists. apply Hkeep. rewrite Hrow. apply lookup_insert_eq.
    + intros k [Hk1 Hk2]%not_elem_of_cons. by rewrite Hout, Hoth.
    + intros k i Hi. apply Hkeep. rewrite Hrow. simpl. rewrite lookup_insert_ne; [done|].
      intros <-. congruence.
Qed.

(** Schedules fire on time and once.  A dispatch fires only pending
    schedules whose time has come by the database's clock and by the
    caller's hint, at most 256 of them; each becomes fired with its wake
    queued, every other schedule is left alone, and when fewer than the
    limit fired none that is due is left.  A fired schedule keeps its record
    for ever after. *)
Theorem schedules_fire_once now p g hint limit db l db' db2 row2 :
  reachable tl db → DispatchDueSchedules now p g hint limit db = Ok (l, db') →
  run tl db' db2 → db_personas db2 !! p = Some row2 →
  ∃ row row' ids, db_personas db !! p = Some row ∧ db_personas db' !! p = Some row' ∧
    l = (λ ks, fire now g ks.2) <$> ids ∧ (length ids ≤ 256)%nat ∧
    (∀ k s, (k, s) ∈ ids → ps_schedules row !! k = Some s ∧ sc_status s = SchPending ∧
       sc_wake_at s ≤ now ∧ sc_wake_at s ≤ hint ∧ ps_schedules row' !! k = Some (fire now g s) ∧
       (∃ seq, ps_inputs row' !! (schedInputPrefix +:+ k) = Some (wake_input now k s seq)) ∧
       ps_schedules row2 !! k = Some (fire now g s)) ∧
    (∀ k, k ∉ ids.*1 → ps_schedules row' !! k = ps_schedules row !! k) ∧
    ((length ids < Z.to_nat (clampLimit limit 16 256))%nat →
     ∀ k s, ps_schedules row' !! k = Some s → due now hint s = false).
Proof.
  intros Hreach H Hrun Hp2.
  assert (db_inv db') as HI'.
  { eapply fenced_db_evolves; [apply steps_fenced, dispatch_tx_evolves|exact H|].
    by apply (reachable_inv tl). }
  apply fenced_ok in H as (row & row' & Hp & _ & _ & H & ->). set (n := Z.to_nat _).
  assert ((n ≤ 256)%nat) as Hn.
  { unfold n. pose proof (clampLimit_bounds limit 16 256 ltac:(lia)). lia. }
  destruct (run_hist tl _ _ p row' HI' Hrun) as (row2' & Hp2' & _ & Hh); [apply lookup_insert_eq|].
  rewrite Hp2 in Hp2'. injection Hp2' as <-.
  unfold dispatch_tx in H. apply bind_ok in H as (ids & s & [= <- <-] & H).
  apply bind_ok in H as (u & s1 & H & [= <- <-]). fold n in H.
  set (ids := due_schedules _ _ _ row) in *.
  assert (∀ k s, (k, s) ∈ ids → due now hint s = true ∧ ps_schedules row !! k = Some s) as Hids.
  { intros k s [Hd Hk%elem_of_map_to_list]%take_sorted_spec. done. }
  destruct (dispatch_loop now g ids row u s1) as (Hin & Hout & _).
  { apply take_sorted_distinct. }
  { intros [k s] [Hd Hk]%Hids. by apply due_spec in Hd as (? & _). }
  { by apply (reachable_row tl db p). }
  { exact H. }
  exists row, s1, ids. split_and!; [done|apply lookup_insert_eq|done| | | |].
  - unfold ids, due_schedules. rewrite length_take. unfold n in Hn. lia.
  - intros k s Hks. destruct (Hids k s Hks) as [Hd Hk]. apply due_spec in Hd as (Hpend & ? & ?).
    destruct (Hin _ Hks) as [Hf Hw]. split_and!; try done.
    destruct (rh_schedules _ _ Hh _ _ Hf) as (s' & Hs' & Hsh). by rewrite (sh_fired _ _ Hsh) in Hs'.
  - done.
  - intros Hlt k s Hs. destruct (due now hint s) eqn:Hd; [|done]. exfalso.
    destruct (decide (k ∈ ids.*1)) as [Hk|Hk].
    + apply list_elem_of_fmap in Hk as ([k' s'] & -> & Hk). destruct (Hin _ Hk) as [Hf _].
      simpl in *. rewrite Hf in Hs. injection Hs as <-. by apply due_spec in Hd as (? & _).
    + apply Hk. rewrite Hout in Hs by done. apply (list_elem_of_fmap_2 fst _ (k, s)).
      apply take_sorted_all; [exact Hlt|done|]. by apply elem_of_map_to_list.
Qed.

(** Setting a schedule again.  Repeating an accepted [schedule.set]
    word for word succeeds, and changes nothing, exactly when the requested
    time is a whole number of microseconds; otherwise the stored time was
    rounded down and the repetition is refused as different. *)
Theorem schedule_reset_exact now now' x w payload policy row s row' :
  ps_schedules row !! x = None → set_schedule now x w payload policy row = Ok (s, row') →
  (w mod 1000 = 0 → set_schedule now' x w payload policy row' = Ok (s, row')) ∧
  (w mod 1000 ≠ 0 → set_schedule now' x w payload policy row'
     = Err (badreq ("schedule.set schedule_id " +:+ strconv_Quote x
                    +:+ " already exists with different contents"))).
Proof.
  intros Hx H. unfold set_schedule in *. destruct (negb _); [done|]. rewrite Hx in H.
  injection H as <- <-. simpl. rewrite lookup_insert_eq. simpl.
  rewrite !bool_decide_eq_true_2 by done. rewrite !andb_true_r. unfold wake_us.
  pose proof (Z.div_mod w 1000 ltac:(lia)).
  destruct (Z.eqb_spec (w / 1000 * 1000) w); simpl; (split; [|]); intros; try done; lia.
Qed.

(** ** Jobs *)

Lemma with_persona_at {A} p missing (m : ptx A) db row a db' :
  db_personas db !! p = Some row → with_persona p missing m db = Ok (a, db') →
  ∃ row', m row = Ok (a, row') ∧ db' = db <| db_personas := <[p := row']> (db_personas db) |>.
Proof.
  intros Hp (row0 & row' & Hp0 & H & ->)%with_persona_ok. rewrite Hp in Hp0. injection Hp0 as <-.
  by exists row'.
Qed.

Lemma CompleteJob_ok now p x r status result e db row j db' :
  db_personas db !! p = Some row → CompleteJob now p x r status result e db = Ok (j, db') →
  ∃ st row', complete_status status = Some st ∧
    complete_tx now x r st (default ∅ result) e row = Ok (j, row') ∧
    db' = db <| db_personas := <[p := row']> (db_personas db) |>.
Proof.
  intros Hp. unfold CompleteJob. destruct (complete_status status) as [st|]; [|done].
  intros (u1 & s1 & [_ ->]%guard_ok & (u2 & s2 & [_ ->]%guard_ok & (u3 & s3 & [_ ->]%guard_ok
    & H)%bind_ok)%bind_ok)%bind_ok.
  apply (with_persona_at _ _ _ _ row) in H as (row' & H & ->); [|done]. by exists st, row'.
Qed.

Lemma persona_kept p row db :
  db_personas db !! p = Some row → db <| db_personas := <[p := row]> (db_personas db) |> = db.
Proof. intros Hp. rewrite insert_id by done. by destruct db. Qed.

(** A verdict is final.  Once a job has ended, in every later state its
    status, its error, when it finished and when it was announced are the
    same; completing it again succeeds only as a repeat of the recorded
    verdict and, like cancelling it, changes nothing. *)
Theorem job_verdict_final db p row x j db2 row2 :
  reachable tl db → db_personas db !! p = Some row → ps_jobs row !! x = Some j →
  jobTerminal (j_status j) = true → run tl db db2 → db_personas db2 !! p = Some row2 →
  ∃ j2, ps_jobs row2 !! x = Some j2 ∧ j_status j2 = j_status j ∧ j_error j2 = j_error j ∧
    j_finished_at j2 = j_finished_at j ∧ is_Some (j_notified_at j2) ∧
    j_notified_at j2 = j_notified_at j ∧
    (∀ now r status result e j' db3, CompleteJob now p x r status result e db2 = Ok (j', db3) →
       db3 = db2 ∧ j' = j2 ∧ complete_status status = Some (j_status j) ∧ job_error j = e ∧
       j_result j2 = Some (default ∅ result)) ∧
    (∀ now j' db3, CancelJob now p x db2 = Ok (j', db3) → db3 = db2 ∧ j' = j2).
Proof.
  intros Hreach Hp Hj Hend Hrun Hp2.
  destruct (run_hist tl _ _ p row (reachable_inv tl _ Hreach) Hrun Hp) as (row2' & Hp2' & HI2 & Hh).
  rewrite Hp2 in Hp2'. injection Hp2' as <-.
  destruct (rh_jobs _ _ Hh _ _ Hj) as (j2 & Hj2 & Hjh).
  destruct (jh_final _ _ Hjh Hend) as (Hs & He & Hf & Hn). exists j2.
  assert (jobTerminal (j_status j2) = true) as Hend2 by by rewrite Hs.
  split_and!; try done.
  - by apply (jk_notified _ _ (ri_jobs _ HI2 _ _ Hj2)).
  - intros now r status result e j' db3 H.
    apply (CompleteJob_ok _ _ _ _ _ _ _ _ row2) in H as (st & row3 & Hst & H & ->); [|done].
    unfold complete_tx in H. apply bind_ok in H as (found & s & [= <- <-] & H).
    rewrite Hj2, Hend2 in H. destruct (_ && _) eqn:Hsame; [|done]. injection H as <- <-.
    reflect_bools. rewrite persona_kept by done.
    assert (job_error j2 = job_error j) as Herr by (unfold job_error; by rewrite He).
    split_and!; [done|done|congruence|congruence|by apply jsonbEqual_spec].
  - intros now j' db3 H. unfold CancelJob in H. apply bind_ok in H as (u & s & [_ ->]%guard_ok & H).
    apply (with_persona_at _ _ _ _ row2) in H as (row3 & H & ->); [|done].
    unfold cancelJobTx in H. apply bind_ok in H as (found & s & [= <- <-] & H). rewrite Hj2 in H.
    destruct (j_status j2); try discriminate Hend2; injection H as <- <-; by rewrite persona_kept.
Qed.


(** The sweep, and the start of the batch, row by row. *)
Lemma sweep_loop now row u s :
  row_inv row → for_each (expired_jobs now row) (sweep_job now) row = Ok (u, s) →
  ∀ k, ps_jobs s !! k
    = (λ j, if claim_expired now j then notified now (lose now j) else j) <$> ps_jobs row !! k.
Proof.
  intros HI H. set (sw := expired_jobs now row) in *.
  assert (∀ kj, kj ∈ sw ↔ ps_jobs row !! kj.1 = Some kj.2 ∧ claim_expired now kj.2 = true) as Hsw.
  { intros [k j]. unfold sw, expired_jobs. rewrite list_elem_of_filter, elem_of_map_to_list.
    simpl. tauto. }
  destruct (for_each_sets ps_jobs sw (sweep_job now) (λ kj, notified now (lose now kj.2)) row u s)
    as [Hlost Hkept]; [|by intros kj [? _]%Hsw| |done|].
  { eapply sublist_NoDup; [apply (NoDup_fst_map_to_list (ps_jobs row))|].
    apply fmap_sublist, sublist_filter. }
  { intros kj r0 u0 r1 [Hkj _]%Hsw Hr0 Hs. apply (sweep_sets _ _ _ u0); [done| |done].
    by apply (ri_jobs _ HI). }
  intros k. destruct (decide (k ∈ sw.*1)) as [Hk|Hk].
  - apply list_elem_of_fmap in Hk as (kj & -> & Hk). rewrite (Hlost _ Hk).
    apply Hsw in Hk as [-> Hc]. simpl. by rewrite Hc.
  - rewrite Hkept by done. destruct (ps_jobs row !! k) as [j|] eqn:Hj; [|done]. simpl.
    destruct (claim_expired now j) eqn:Hc; [|done]. exfalso. apply Hk.
    apply (list_elem_of_fmap_2 fst _ (k, j)). by apply Hsw.
Qed.

Lemma start_loop now r lease kinds backend limit s u s' :
  let batch := claim_batch kinds backend limit s in
  for_each batch (λ kj, modify (upd_job kj.1 (start_job now r lease)) : ptx unit) s = Ok (u, s') →
  (∀ k j, (k, j) ∈ batch → ps_jobs s !! k = Some j ∧ claimable kinds backend j = true ∧
     ps_jobs s' !! k = Some (start_job now r lease j)) ∧
  (∀ k, k ∉ batch.*1 → ps_jobs s' !! k = ps_jobs s !! k).
Proof.
  intros batch H.
  assert (∀ kj, kj ∈ batch → ps_jobs s !! kj.1 = Some kj.2 ∧ claimable kinds backend kj.2 = true)
    as Hba.
  { intros [k j]. unfold batch, claim_batch. case_bool_decide; [|by intros ?%not_elem_of_nil].
    intros [Hc Hk%elem_of_map_to_list]%take_sorted_spec. done. }
  destruct (for_each_sets ps_jobs batch
    (λ kj, modify (upd_job kj.1 (start_job now r lease)) : ptx unit)
    (λ kj, start_job now r lease kj.2) s u s') as [Hrun Hrest]; [|by intros kj [? _]%Hba| |done|].
  { unfold batch, claim_batch. case_bool_decide; [apply take_sorted_distinct|constructor]. }
  { intros kj r0 u0 r1 _ Hr0 [= _ <-]. unfold upd_job. simpl. by rewrite (alter_found _ _ _ _ Hr0). }
  split; [|done]. intros k j Hk. destruct (Hba _ Hk). split_and!; [done|done|]. exact (Hrun _ Hk).
Qed.

Lemma backend_claims_cloud backend r :
  backend_claims backend r = true → backend ≠ "*" →
  json_text r "backend" = Some "cloud" ↔ backend = "cloud".
Proof.
  unfold backend_claims. intros H Hb. rewrite bool_decide_eq_false_2 in H by done.
  case_bool_decide as Hc; reflect_bools; [by rewrite H|].
  split; [|done]. intros Ht. by rewrite Ht in H.
Qed.

(** Claims are routed.  A claim hands a runner at most 32 jobs, each
    queued before, of a kind it asked for and none a browser job; unless it
    claims for every backend, a job stamped for the cloud goes to cloud
    runners only and every other job to the rest.  Each is recorded as
    running under that runner.  Jobs whose claim had expired are recorded as
    lost — they are never handed out again — and all others are untouched. *)
Theorem claim_jobs_routing now p r kinds lease limit backend db batch swept db' row :
  reachable tl db → db_personas db !! p = Some row →
  ClaimJobs now p r kinds lease limit backend db = Ok ((batch, swept), db') →
  ∃ row', db' = db <| db_personas := <[p := row']> (db_personas db) |> ∧
    (length batch ≤ 32)%nat ∧
    (∀ j, j ∈ batch → ∃ j0, ps_jobs row !! j_id j = Some j0 ∧ j_status j0 = JobQueued ∧
       j_kind j0 ∈ kinds ∧ j_kind j0 ≠ "browser" ∧
       (backend ≠ "*" → json_text (j_request j0) "backend" = Some "cloud" ↔ backend = "cloud") ∧
       j = start_job now r lease j0 ∧ ps_jobs row' !! j_id j = Some j) ∧
    (∀ k j0, ps_jobs row !! k = Some j0 → claim_expired now j0 = true →
       ps_jobs row' !! k = Some (notified now (lose now j0)) ∧
       notified now (lose now j0) ∈ swept) ∧
    (∀ k j0, ps_jobs row !! k = Some j0 → claim_expired now j0 = false →
       ps_jobs row' !! k = Some j0 ∨ (start_job now r lease j0) ∈ batch).
Proof.
  intros Hreach Hp H. pose proof (reachable_row tl _ _ _ Hreach Hp) as HI.
  unfold ClaimJobs in H. do 4 apply bind_ok in H as (? & ? & [_ ->]%lift_ok & H).
  apply bind_ok in H as (? & ? & [_ ->]%guard_ok & H). unfold with_persona_or in H. rewrite Hp in H.
  apply (with_persona_at _ _ _ _ row) in H as (row' & H & ->); [|done].
  assert (1 ≤ clampLimit limit 1 32 ≤ 32) as Hlim by (apply clampLimit_bounds; lia).
  set (lim := clampLimit _ _ _) in *. unfold claim_tx in H.
  apply bind_ok in H as (sw & s & [= <- <-] & H). apply bind_ok in H as (u & s & Hsweep & H).
  apply bind_ok in H as (ba & s1 & [= <- <-] & H). apply bind_ok in H as (u1 & s1 & Hstart & H).
  injection H as <- <- <-. exists s1. split; [done|].
  pose proof (sweep_loop _ _ _ _ HI Hsweep) as Hsw.
  destruct (start_loop _ _ _ _ _ _ _ _ _ Hstart) as [Hrun Hrest].
  set (ba := claim_batch kinds backend lim s) in *.
  assert (∀ k j, (k, j) ∈ ba → ps_jobs row !! k = Some j ∧ j_status j = JobQueued) as Hqueued.
  { intros k j (Hs & Hc & _)%Hrun. unfold claimable in Hc. reflect_bools. split; [|done].
    rewrite Hsw in Hs. apply fmap_Some in Hs as (j0 & -> & ->). by destruct (claim_expired now j0). }
  assert (∀ k j, ps_jobs row !! k = Some j → k ∈ ba.*1 → (k, j) ∈ ba) as Hin.
  { intros k j Hj Hk. apply list_elem_of_fmap in Hk as ([k' j'] & -> & Hk).
    destruct (Hqueued _ _ Hk) as [Hj' _]. simpl in *. by simplify_eq. }
  split_and!.
  - rewrite length_map. unfold ba, claim_batch. case_bool_decide; [|simpl; lia].
    rewrite length_take. lia.
  - intros j Hj. apply list_elem_of_fmap in Hj as ([k j0] & -> & Hk). simpl.
    destruct (Hqueued _ _ Hk) as [Hj0 Hq]. destruct (Hrun _ _ Hk) as (_ & Hc & Hj').
    unfold claimable in Hc. reflect_bools. rewrite (jk_id _ _ (ri_jobs _ HI _ _ Hj0)).
    exists j0. split_and!; try done. by apply backend_claims_cloud.
  - intros k j0 Hj0 Hexp. split.
    + rewrite Hrest, Hsw, Hj0; [simpl; by rewrite Hexp|]. intros Hk.
      destruct (Hqueued _ _ (Hin _ _ Hj0 Hk)) as [_ Hq]. unfold claim_expired in Hexp.
      by rewrite Hq in Hexp.
    + apply (list_elem_of_fmap_2 (λ kj, notified now (lose now kj.2)) _ (k, j0)).
      apply list_elem_of_filter. split; [done|]. by apply elem_of_map_to_list.
  - intros k j0 Hj0 Hexp. destruct (decide (k ∈ ba.*1)) as [Hk|Hk].
    + right. by apply (list_elem_of_fmap_2 (λ kj, start_job now r lease kj.2) ba (k, j0)), Hin.
    + left. rewrite Hrest, Hsw, Hj0 by done. simpl. by rewrite Hexp.
Qed.

(** The global sweep is exact.  It takes at most a page of expired
    claims of the requested kinds, over all personas, those that expired
    first; each is recorded as lost, announced and returned, every other job
    of every persona stays as it is; and a page that comes back short has left
    no expired claim of those kinds. *)
Theorem sweep_expired_exact now kinds limit db swept db' :
  reachable tl db → SweepExpiredJobs now kinds limit db = Ok (swept, db') →
  let due j := claim_expired now j = true ∧ j_kind j ∈ kinds in
  length swept ≤ page_limit limit 64 ∧
  (∀ x j, job_table db !! x = Some j →
     (job_table db' !! x = Some j ∨
      due j ∧ job_table db' !! x = Some (notified now (lose now j)) ∧ notified now (lose now j) ∈ swept)) ∧
  (∀ x y j j', job_table db !! x = Some j → job_table db !! y = Some j' → due j →
     job_table db' !! x = Some j → job_table db' !! y ≠ Some j' → expiry j' ≤ expiry j) ∧
  (length swept < page_limit limit 64 → ∀ x j, job_table db' !! x = Some j → ¬ due j).
Proof.
  intros Hreach H due. pose proof (reachable_inv tl _ Hreach) as HI. unfold SweepExpiredJobs in H.
  apply bind_ok in H as (u1 & s1 & [_ ->]%lift_ok & H).
  apply bind_ok in H as (u2 & s2 & [_ ->]%lift_ok & H).
  apply bind_ok in H as (pg & s & [= <- <-] & H). apply bind_ok in H as (u & s & Hloop & [= <- ->]).
  assert (0 < page_limit limit 64) as Hlim.
  { unfold page_limit. destruct (_ || _) eqn:E; [lia|]. apply orb_false_iff in E as [E _]. reflect_bools. lia. }
  set (n := page_limit limit 64) in *. set (pg := expired_page now kinds n db) in *.
  destruct (sweep_page_sets _ _ _ _ _ _ HI Hloop) as [Hin Hout].
  assert (∀ x j, job_table db !! x = Some j → x ∉ pg.*1 → job_table db' !! x = Some j) as Hkeep.
  { intros x j Hx Hno. by rewrite Hout. }
  assert (∀ x j, job_table db !! x = Some j → x ∈ pg.*1 → (x, j) ∈ pg) as Hmem.
  { intros x j Hx (r & -> & Hr)%list_elem_of_fmap. pose proof (expired_page_elem _ _ _ _ _ Hr) as [Ht _].
    rewrite Hx in Ht. injection Ht as ->. by destruct r. }
  split_and!.
  - rewrite length_map. unfold pg, expired_page. rewrite length_take. lia.
  - intros x j Hx. destruct (decide (x ∈ pg.*1)) as [Hpg|Hpg]; [right|left; by apply Hkeep].
    pose proof (Hmem _ _ Hx Hpg) as Hr. pose proof (expired_page_elem _ _ _ _ _ Hr) as (_ & Hc & Hk).
    split_and!; [done|by apply (Hin (x, j))|].
    apply list_elem_of_In, in_map_iff. exists (x, j). split; [done|by apply list_elem_of_In].
  - intros x y j j' Hx Hy Hdue Hx' Hy'.
    assert (y ∈ pg.*1) as Hyp by (destruct (decide (y ∈ pg.*1)); [done|]; exfalso; apply Hy'; by apply Hkeep).
    assert (x ∉ pg.*1) as Hxp.
    { intros Hxp. pose proof (Hin (x, j) (Hmem _ _ Hx Hxp)) as Hl. simpl in Hl. rewrite Hx' in Hl.
      injection Hl as Hl. destruct Hdue as [Hc _]. unfold claim_expired in Hc. rewrite Hl in Hc. done. }
    apply (expired_first now kinds n db x j (y, j')); [exact (Hmem _ _ Hy Hyp)|done|apply Hdue|apply Hdue|].
    intros Hr. apply Hxp. by apply (list_elem_of_fmap_2 fst) in Hr.
  - intros Hshort x j Hx [Hc Hk]. rewrite length_map in Hshort.
    destruct (decide (x ∈ pg.*1)) as [Hpg|Hpg].
    + apply list_elem_of_fmap in Hpg as (r & -> & Hr). rewrite (Hin r Hr) in Hx. injection Hx as <-. done.
    + rewrite Hout in Hx by done. apply Hpg. apply (list_elem_of_fmap_2 fst _ (x, j)).
      apply take_sorted_all; [|done|].
      { change (length pg < Z.to_nat n)%nat. lia. }
      destruct x as [p k]. by apply all_jobs_elem, job_table_lookup.
Qed.

(** A cursor walk sees everything once.  A caller that moves the cursor
    to the last row of each full page and stops at a short one gets, from any
    cursor and with any page size, exactly the rows after the cursor that
    match — runnable jobs, or a runner's unresolved claims — each once and in
    order. *)
Theorem discovery_walk_complete db (kinds : list string) runnerID limit after fuel :
  (length (all_jobs db) < fuel)%nat →
  ∀ P, P = runnable kinds db ∨ P = unresolved runnerID kinds →
  let w := walk fuel P after (page_limit limit 64) (all_jobs db) in
  NoDup w.*1 ∧ StronglySorted before w ∧
  ∀ r, r ∈ w ↔ r ∈ all_jobs db ∧ P r = true ∧ key_lt after r.1.
Proof.
  intros Hf P _. simpl.
  assert (0 < page_limit limit 64) as Hlim.
  { unfold page_limit. destruct (_ || _) eqn:E; [lia|]. apply orb_false_iff in E as [E _]. reflect_bools. lia. }
  rewrite (walk_rest P _ _ (all_jobs_keys db) Hlim).
  - split_and!; [apply rest_keys, all_jobs_keys|apply rest_sorted, all_jobs_keys|]. intros r. apply rest_elem.
  - eapply Nat.le_lt_trans; [|exact Hf]. unfold rest. rewrite merge_sort_Permutation. apply length_filter.
Qed.

(** Only the claimant reports.  A completion of a job that has not
    ended succeeds only for the runner that claimed it; it leaves the job
    with the reported verdict, and with it, in the same transaction, one new
    queued input that announces it.  Nothing else changes. *)
Theorem complete_job_owner db p row x j now r status result e j' db' :
  reachable tl db → db_personas db !! p = Some row → ps_jobs row !! x = Some j →
  jobTerminal (j_status j) = false → CompleteJob now p x r status result e db = Ok (j', db') →
  j_claimed_by j = Some r ∧ live_status (j_status j) = true ∧
  ∃ st, complete_status status = Some st ∧ jobTerminal (j_status j') = true ∧
    j' = notified now (complete now st (default ∅ result) e j) ∧
    db' = db <| db_personas := <[p :=
      admitted (jobInputPrefix +:+ x)
        (notification_input now (complete now st (default ∅ result) e j)
           (jobOriginTx (complete now st (default ∅ result) e j) row) (ps_next_admission row)) row
        <| ps_jobs := <[x := j']> (ps_jobs row) |>]> (db_personas db) |>.
Proof.
  intros Hreach Hp Hj Hn H. pose proof (reachable_row tl _ _ _ Hreach Hp) as HI.
  pose proof (ri_jobs _ HI _ _ Hj) as [Hid _ _ Hq].
  apply (CompleteJob_ok _ _ _ _ _ _ _ _ row) in H as (st & row' & Hst & H & ->); [|done].
  unfold complete_tx in H. apply bind_ok in H as (found & s & [= <- <-] & H).
  rewrite Hj, Hn in H. destruct (claimed_by r j) eqn:Hc; [|done]. simpl in H.
  unfold claimed_by in Hc. reflect_bools. set (c := complete now st (default ∅ result) e) in *.
  apply bind_ok in H as (u & s & [_ ->]%guard_ok & H).
  apply bind_ok in H as (u1 & s & [= _ <-] & H).
  pose proof (notify_ok _ _ _ _ _ H) as [-> Hcase]. simpl in Hcase. rewrite Hid in Hcase.
  split; [done|]. split.
  { destruct (j_status j); try done. by rewrite (Hq eq_refl) in Hc. }
  exists st. split_and!; [done| |done|].
  { unfold complete_status in Hst. repeat case_match; by simplify_eq. }
  do 2 f_equal. f_equal. destruct Hcase as [[Hnone ->]|[[i Hi] _]].
  - unfold upd_job, admitted. simpl.
    rewrite (alter_found c x _ j Hj), (alter_found _ x _ (c j)) by apply lookup_insert_eq.
    by rewrite insert_insert_eq.
  - exfalso. destruct (proj1 (ri_job_slots _ HI x)) as (j0 & Hj0 & ?); [|congruence].
    exists (view i). apply views_lookup. eauto.
Qed.

(** Submitting a job is idempotent for ever.  After a job was accepted,
    the same submission — under any creator label, at any later time, even
    when the persona has become inactive or the job has ended — answers the
    stored job as not new and changes nothing; a submission under its id
    with another kind or request is refused. *)
Theorem submit_job_replays now p x kind request by_ db j db1 db2 now' by' kind' request' r db3 :
  reachable tl db → SubmitJob (tl_config tl) now p x kind request by_ db = Ok ((j, true), db1) →
  run tl db1 db2 → SubmitJob (tl_config tl) now' p x kind' request' by' db2 = Ok (r, db3) →
  db3 = db2 ∧ r.2 = false ∧ job_hist j r.1 ∧ kind' = kind ∧
  stamp_backend (tl_config tl) kind' (default ∅ request')
    = stamp_backend (tl_config tl) kind (default ∅ request).
Proof.
  intros Hreach H Hrun H2. pose proof H as Hsub.
  assert (db_inv db1) as HI1.
  { pose proof (exec_evolves tl (CSubmitJob now p x kind request by_) db) as Hev. simpl in Hev.
    unfold commit in Hev. rewrite H in Hev. apply Hev. by apply (reachable_inv tl). }
  assert (∀ now kind request by_ db a db', SubmitJob (tl_config tl) now p x kind request by_ db
      = Ok (a, db') → ∃ row row' by', db_personas db !! p = Some row ∧
      submitJobTx (tl_config tl) now x kind (default ∅ request) by' row = Ok (a, row') ∧
      db' = db <| db_personas := <[p := row']> (db_personas db) |>) as Hok.
  { clear. intros * H. unfold SubmitJob in H. apply bind_ok in H as (? & ? & [_ ->]%lift_ok & H).
    apply bind_ok in H as (? & ? & [_ ->]%lift_ok & H).
    apply bind_ok in H as (? & ? & [_ ->]%guard_ok & H).
    apply with_persona_ok in H as (row & row' & Hp & H & ->). eauto 10. }
  apply Hok in H as (row & row1 & by1 & Hp & H & ->).
  assert (ps_jobs row1 !! x = Some j ∧ j_kind j = kind ∧
    j_request j = stamp_backend (tl_config tl) kind (default ∅ request)) as (Hj & Hk & Hr).
  { unfold submitJobTx, job_replay in H. repeat case_match; simplify_eq.
    simpl. by rewrite lookup_insert_eq. }
  destruct (run_hist tl _ _ p row1 HI1 Hrun) as (row2 & Hp2 & _ & Hh); [apply lookup_insert_eq|].
  destruct (rh_jobs _ _ Hh _ _ Hj) as (j2 & Hj2 & Hjh).
  apply Hok in H2 as (rowb & row3 & by2 & Hpb & H2 & ->). rewrite Hp2 in Hpb. injection Hpb as <-.
  assert (job_replay x kind' (stamp_backend (tl_config tl) kind' (default ∅ request')) row2
    = Ok (r, row3)) as Hrep.
  { unfold submitJobTx in H2. rewrite Hj2 in H2. repeat case_match; done. }
  unfold job_replay in Hrep. rewrite Hj2 in Hrep. destruct (_ && _) eqn:Hsame; [|done].
  injection Hrep as <- <-. reflect_bools. rewrite persona_kept by done.
  pose proof (jh_kind _ _ Hjh). pose proof (jh_request _ _ Hjh). split_and!; try done; congruence.
Qed.
End jobs.

(** *** On a concrete history *)

Definition jid : string := tool_job_id "i1" 2.
Definition claims : list Call := worked ++ [CClaimJobs 10 "p" "r1" ["script"] 100 5 "local"].
Definition ran : list Call := claims ++ [CCompleteJob 20 "p" jid "r1" "done" (Some ∅) ""].
Definition rung : list Call := ran ++ [CDispatchDueSchedules 9000000 "p" 1 9000000 10].
Definition at_claims : DB := play claims empty_db.
Definition at_ran : DB := play ran empty_db.
Definition at_rung : DB := play rung empty_db.

Lemma notifications_exact_witness :
  is_Some (ps_inputs (row_of at_rung) !! (jobInputPrefix +:+ jid)) ∧
  is_Some (ps_inputs (row_of at_rung) !! (schedInputPrefix +:+ "s1")).
Proof.
  destruct (notifications_exact sample_tools at_rung "p" (row_of at_rung)
    (play_reachable rung) ltac:(vm_eq)) as [Hj Hs].
  split.
  - destruct (found (ps_jobs (row_of at_rung) !! jid) ltac:(vm_eq)) as [j Hl].
    apply (Hj jid j Hl). exact (look (λ j, jobTerminal (j_status j)) _ _ _ Hl ltac:(vm_eq)).
  - destruct (found (ps_schedules (row_of at_rung) !! "s1") ltac:(vm_eq)) as [s Hl].
    apply (Hs "s1" s Hl). exact (look sc_status _ _ _ Hl ltac:(vm_eq)).
Defined.

Lemma schedules_fire_once_witness :
  ∃ l db' row row' (ids : list (string * Schedule)),
    DispatchDueSchedules 9000000 "p" 1 9000000 10 at_ran = Ok (l, db') ∧
    db_personas at_ran !! "p" = Some row ∧ db_personas db' !! "p" = Some row' ∧
    l = (λ ks, fire 9000000 1 ks.2) <$> ids ∧ length l = 1%nat.
Proof.
  destruct (succeeds (DispatchDueSchedules 9000000 "p" 1 9000000 10) at_ran ltac:(vm_eq))
    as (l & db' & H & Hdb).
  destruct (schedules_fire_once sample_tools 9000000 "p" 1 9000000 10 at_ran l db' db'
    (row_of db')) as (row & row' & ids & Hp & Hp' & Hl & _).
  - apply (play_reachable ran).
  - exact H.
  - constructor.
  - rewrite <-Hdb. vm_eq.
  - exists l, db', row, row', ids. split; [exact H|]. split; [exact Hp|]. split; [exact Hp'|].
    split; [exact Hl|].
    assert (length (answer [] (DispatchDueSchedules 9000000 "p" 1 9000000 10) at_ran) = 1%nat) as Hlen
      by vm_eq.
    unfold answer in Hlen. rewrite H in Hlen. exact Hlen.
Defined.

Lemma job_verdict_final_witness :
  ∃ j j2, ps_jobs (row_of at_ran) !! jid = Some j ∧ ps_jobs (row_of at_rung) !! jid = Some j2 ∧
    j_status j2 = j_status j ∧ j_finished_at j2 = j_finished_at j.
Proof.
  destruct (found (ps_jobs (row_of at_ran) !! jid) ltac:(vm_eq)) as [j Hj].
  destruct (job_verdict_final sample_tools at_ran "p" (row_of at_ran) jid j at_rung (row_of at_rung))
    as (j2 & Hj2 & Hs & _ & Hf & _).
  - apply (play_reachable ran).
  - vm_eq.
  - exact Hj.
  - exact (look (λ j, jobTerminal (j_status j)) _ _ _ Hj ltac:(vm_eq)).
  - apply play_further. vm_eq.
  - vm_eq.
  - exists j, j2. split; [exact Hj|]. split; [exact Hj2|]. split; [exact Hs|exact Hf].
Defined.

Lemma claim_jobs_routing_witness :
  ∃ batch swept db' row',
    ClaimJobs 10 "p" "r1" ["script"] 100 5 "local" (play worked empty_db) = Ok ((batch, swept), db') ∧
    db' = (play worked empty_db) <| db_personas := <["p" := row']> (db_personas (play worked empty_db)) |> ∧
    (length batch ≤ 32)%nat.
Proof.
  destruct (succeeds (ClaimJobs 10 "p" "r1" ["script"] 100 5 "local") (play worked empty_db)
    ltac:(vm_eq)) as ([batch swept] & db' & H & _).
  destruct (claim_jobs_routing sample_tools 10 "p" "r1" ["script"] 100 5 "local" (play worked empty_db)
    batch swept db' (row_of (play worked empty_db))) as (row' & Hdb & Hlen & _).
  - apply (play_reachable worked).
  - vm_eq.
  - exact H.
  - exists batch, swept, db', row'. split; [exact H|]. split; [exact Hdb|exact Hlen].
Defined.

Lemma sweep_expired_exact_witness :
  ∃ swept db', SweepExpiredJobs 100000 ["script"] 0 at_claims = Ok (swept, db') ∧
    length swept ≤ page_limit 0 64.
Proof.
  destruct (succeeds (SweepExpiredJobs 100000 ["script"] 0) at_claims ltac:(vm_eq)) as (swept & db' & H & _).
  destruct (sweep_expired_exact sample_tools 100000 ["script"] 0 at_claims swept db') as (Hlen & _).
  - apply (play_reachable claims).
  - exact H.
  - exists swept, db'. split; [exact H|exact Hlen].
Defined.

Lemma discovery_walk_complete_witness :
  let w := walk 5 (unresolved "r1" ["script"]) ("", "") (page_limit 1 64) (all_jobs at_claims) in
  NoDup w.*1 ∧ StronglySorted before w.
Proof.
  destruct (discovery_walk_complete at_claims ["script"] "r1" 1 ("", "") 5)
    with (P := unresolved "r1" ["script"]) as (Hn & Hs & _).
  - apply Nat.ltb_lt. vm_eq.
  - right. reflexivity.
  - split; [exact Hn|exact Hs].
Defined.

Lemma complete_job_owner_witness :
  ∃ j j' db', ps_jobs (row_of at_claims) !! jid = Some j ∧
    CompleteJob 20 "p" jid "r1" "done" (Some ∅) "" at_claims = Ok (j', db') ∧
    j_claimed_by j = Some "r1" ∧ live_status (j_status j) = true.
Proof.
  destruct (found (ps_jobs (row_of at_claims) !! jid) ltac:(vm_eq)) as [j Hj].
  destruct (succeeds (CompleteJob 20 "p" jid "r1" "done" (Some ∅) "") at_claims ltac:(vm_eq))
    as (j' & db' & H & _).
  destruct (complete_job_owner sample_tools at_claims "p" (row_of at_claims) jid j 20 "r1" "done"
    (Some ∅) "" j' db') as (Hc & Hl & _).
  - apply (play_reachable claims).
  - vm_eq.
  - exact Hj.
  - exact (look (λ j, jobTerminal (j_status j)) _ _ _ Hj ltac:(vm_eq)).
  - exact H.
  - exists j, j', db'. split; [exact Hj|]. split; [exact H|]. split; [exact Hc|exact Hl].
Defined.

Definition scripted : option obj := Some {["code" := JStr "export run"]}.
Definition submits : tx (Job * bool) :=
  SubmitJob (tl_config sample_tools) 30 "p" "j1" "script" scripted "".
Lemma submit_job_replays_witness :
  ∃ j db1 r db3, submits at_ran = Ok ((j, true), db1) ∧
    SubmitJob (tl_config sample_tools) 40 "p" "j1" "script" scripted "web" db1 = Ok (r, db3) ∧
    db3 = db1 ∧ r.2 = false.
Proof.
  destruct (succeeds submits at_ran ltac:(vm_eq)) as ([j b] & db1 & H & Hdb1).
  assert ((answer (j, false) submits at_ran).2 = true) as Hb.
  { transitivity (answer (new_job 0 "" "" ∅ "", false) submits at_ran).2; [|vm_eq].
    unfold answer. rewrite H. reflexivity. }
  unfold answer in Hb. rewrite H in Hb. simpl in Hb.
  destruct (succeeds (SubmitJob (tl_config sample_tools) 40 "p" "j1" "script" scripted "web") db1)
    as (r & db3 & H2 & _); [rewrite <-Hdb1; vm_eq|].
  destruct (submit_job_replays sample_tools 30 "p" "j1" "script" scripted "" at_ran j db1 db1 40 "web"
    "script" scripted r db3) as (Hdb & Hr & _).
  - apply (play_reachable ran).
  - rewrite Hb in H. exact H.
  - constructor.
  - exact H2.
  - exists j, db1, r, db3. split; [|split; [exact H2|split; [exact Hdb|exact Hr]]].
    transitivity (Ok (j, b, db1) : res err (Job * bool * DB)); [exact H|]. rewrite Hb. reflexivity.
Defined.

Lemma schedule_reset_exact_witness :
  (∃ s row', set_schedule 1 "s9" 5000 ∅ "fire_late" (row_of at_ran) = Ok (s, row') ∧
     set_schedule 2 "s9" 5000 ∅ "fire_late" row' = Ok (s, row')) ∧
  (∃ s row' e, set_schedule 1 "s9" 5001 ∅ "fire_late" (row_of at_ran) = Ok (s, row') ∧
     set_schedule 2 "s9" 5001 ∅ "fire_late" row' = Err e).
Proof.
  assert (ps_schedules (row_of at_ran) !! "s9" = None) as Hnone by vm_eq.
  split.
  - destruct (set_schedule 1 "s9" 5000 ∅ "fire_late" (row_of at_ran)) as [[s row']|e] eqn:H.
    + exists s, row'. split; [reflexivity|].
      apply (proj1 (schedule_reset_exact 1 2 "s9" 5000 ∅ "fire_late" (row_of at_ran) s row' Hnone H)).
      reflexivity.
    + exfalso. unfold set_schedule in H. rewrite Hnone in H. discriminate H.
  - destruct (set_schedule 1 "s9" 5001 ∅ "fire_late" (row_of at_ran)) as [[s row']|e] eqn:H.
    + eexists s, row', _. split; [reflexivity|].
      apply (proj2 (schedule_reset_exact 1 2 "s9" 5001 ∅ "fire_late" (row_of at_ran) s row' Hnone H)).
      discriminate.
    + exfalso. unfold set_schedule in H. rewrite Hnone in H. discriminate H.
Defined.
