(* ===== verification/UsageTheorems.v ===== *)
(** * Money

    The usage ledger prices exactly or refuses, admits within the cap, and
    neither loses nor invents committed amounts. *)

From Stdlib Require Import ZArith Lia.
From S2P Require Import Prelude Json State Personas Inputs Journal Plans Pricing Usage Approvals.
From S2P Require Import Jobs Turns Operations Schedules Machine History Ledger Invariant Database.
From S2P Require Import UsageFacts EffectFacts System Samples.
Local Open Scope string_scope.
Local Open Scope list_scope.
Local Open Scope Z_scope.

(** ** Prices *)

(** C37: a price is exact.  Pricing a token count never undercharges and
    overcharges by less than one minor unit, always within an int64; it is
    the rounded-up product computed in exact arithmetic whenever that
    computation fits an int64, and an error — never a wrapped number —
    whenever it does not or an operand is negative. *)
Theorem priceTokens_exact t r :
  (∀ c, priceTokens t r = Ok c →
     t * r ≤ c * tokensPerMTok < t * r + tokensPerMTok ∧ 0 ≤ c ≤ MaxInt64) ∧
  (0 ≤ t → 0 ≤ r → t * r + tokensPerMTok - 1 ≤ MaxInt64 → priceTokens t r = Ok (exact_cost t r)) ∧
  (t < 0 ∨ r < 0 ∨ (0 < t ∧ 0 < r ∧ MaxInt64 < t * r + tokensPerMTok - 1) →
     ∃ e, priceTokens t r = Err e).
Proof.
  split_and!.
  - intros c H. split; [|by eapply priceTokens_range].
    apply priceTokens_spec in H as (Ht & Hr & -> & _). by apply exact_cost_bounds.
  - intros. by apply priceTokens_spec.
  - intros Hbad. destruct (priceTokens t r) as [c|e] eqn:H; [|by exists e].
    apply priceTokens_spec in H as (Ht & Hr & _ & Hfit). exfalso.
    destruct Hbad as [?|[?|(? & ? & ?)]]; [lia..|]. specialize (Hfit ltac:(done) ltac:(done)). lia.
Qed.


(** A reported call costs the sum of its parts.  A reported call is
    priced if and only if each category's rounded-up cost and their running
    sums fit an int64; the price is then exactly the input at the input
    rate, the cached tokens at the cached rate — the input rate when the
    card has none — and the output at the output rate.  A call that did not
    report both counts has no price. *)
Theorem priceReported_sum i o cached card n :
  let c := default 0 cached in
  let cachedRate := default (r_input card) (r_cached card) in
  (priceReported Reported (Some i) (Some o) cached card = Ok (Some n) ↔
     ∃ ci cc co, priceTokens i (r_input card) = Ok ci ∧ priceTokens c cachedRate = Ok cc ∧
       priceTokens o (r_output card) = Ok co ∧ n = ci + cc + co ∧ n ≤ MaxInt64) ∧
  (∀ st input output, st ≠ Reported ∨ input = None ∨ output = None →
     priceReported st input output cached card = Ok None).
Proof.
  intros c cachedRate. split.
  - unfold priceReported, mbind, res_bind. fold c cachedRate. split.
    + intros H. destruct (priceTokens i _) as [ci|] eqn:Hi; [|done].
      destruct (priceTokens c _) as [cc|] eqn:Hc; [|done].
      pose proof (priceTokens_range _ _ _ Hi). pose proof (priceTokens_range _ _ _ Hc).
      destruct (addMinor ci cc) as [s|] eqn:Ha; [|done]. apply addMinor_spec in Ha as [-> ?]; [|lia..].
      destruct (priceTokens o _) as [co|] eqn:Ho; [|done]. pose proof (priceTokens_range _ _ _ Ho).
      destruct (addMinor (ci + cc) co) as [s|] eqn:Ha; [|done].
      apply addMinor_spec in Ha as [-> ?]; [|lia..]. injection H as <-. by exists ci, cc, co.
    + intros (ci & cc & co & Hi & Hc & Ho & -> & Hn). rewrite Hi, Hc, Ho.
      pose proof (priceTokens_range _ _ _ Hi). pose proof (priceTokens_range _ _ _ Hc).
      pose proof (priceTokens_range _ _ _ Ho).
      assert (addMinor ci cc = Ok (ci + cc)) as -> by (apply addMinor_spec; lia).
      assert (addMinor (ci + cc) co = Ok (ci + cc + co)) as -> by (apply addMinor_spec; lia).
      done.
  - intros st input output H. unfold priceReported.
    destruct st, input, output; naive_solver.
Qed.

(** The cap test wraps.  The admission test adds the spent and held
    totals in int64 without a check, so there are amounts that fit an int64
    each for which a call is admitted although it exceeds the limit. *)
Theorem budget_test_wraps :
  ∃ limit spent held needed,
    0 ≤ limit ≤ MaxInt64 ∧ 0 ≤ spent ≤ MaxInt64 ∧ 0 ≤ held ≤ MaxInt64 ∧ 0 ≤ needed ≤ MaxInt64 ∧
    limit < spent + held + needed ∧ budgetAdmits limit spent held needed = true.
Proof.
  exists 100, MaxInt64, 1, 1. unfold MaxInt64. split_and!; try lia. reflexivity.
Qed.

Section usage.
Context `{GL : !GoLib} (tl : Tools) `{!EffectFrame tl}.

(** ** Admission *)

Lemma total_spent_same kind id cur db p row row' :
  db_personas db !! p = Some row → ps_facts row' = ps_facts row →
  total_spent kind id cur (db <| db_personas := <[p := row']> (db_personas db) |>)
  = total_spent kind id cur db.
Proof.
  intros Hp Hf. unfold total_spent. simpl. rewrite (msum_insert _ _ _ _ _ Hp).
  unfold row_spent. rewrite Hf. lia.
Qed.

Lemma total_held_new kind id cur db p row k r :
  db_personas db !! p = Some row → ps_reservations row !! k = None →
  total_held kind id cur
    (db <| db_personas := <[p := row <| ps_reservations ::= <[k := r]> |>]> (db_personas db) |>)
  = total_held kind id cur db + reservation_hold kind id cur r.
Proof.
  intros Hp Hk. unfold total_held. simpl. rewrite (msum_insert _ _ _ _ _ Hp).
  unfold row_held. simpl. rewrite msum_insert_new by done. lia.
Qed.

(** C38: admission is exactly the cap.  While the totals of a funding source
    fit an int64 together, a new call under its budget is admitted if and
    only if what is spent, what is held and what this call may cost fit the
    limit; when it is admitted that amount is held, so spend and holds after
    the admission are still within the limit; when it is not, nothing
    changes and the answer carries the numbers. *)
Theorem admission_within_cap now p req b db r db' row :
  reachable tl db → db_personas db !! p = Some row →
  ps_reservations row !! ua_fact_id req = None →
  budgetForFunding (f_kind (ua_funding req)) (f_id (ua_funding req)) db = Some b →
  b_currency b ≠ "" → b_limit_minor b ≤ MaxInt64 →
  total_spent (f_kind (ua_funding req)) (f_id (ua_funding req)) (b_currency b) db
    + total_held (f_kind (ua_funding req)) (f_id (ua_funding req)) (b_currency b) db ≤ MaxInt64 →
  AdmitUsage now p req db = Ok (r, db') →
  let spent := total_spent (f_kind (ua_funding req)) (f_id (ua_funding req)) (b_currency b) in
  let held := total_held (f_kind (ua_funding req)) (f_id (ua_funding req)) (b_currency b) in
  ∃ needed bounded, priceEstimate (ua_estimate req) (snapshot b) = Ok (needed, bounded) ∧
    match r with
    | Admitted_ rs => spent db + held db + needed ≤ b_limit_minor b ∧
        ur_reserved_minor rs = needed ∧ spent db' = spent db ∧ held db' = held db + needed ∧
        spent db' + held db' ≤ b_limit_minor b
    | Denied_ w => b_limit_minor b < spent db + held db + needed ∧ db' = db ∧
        wa_needed w = needed ∧ wa_spent w = spent db ∧ wa_held w = held db
    end.
Proof.
  intros Hreach Hp Hnew Hb Hcur Hlim Hsum H spent held.
  destruct (totals_nonneg (f_kind (ua_funding req)) (f_id (ua_funding req)) (b_currency b) db
    (reachable_inv tl _ Hreach)) as [Hs Hh].
  apply AdmitUsage_ok in H as (row0 & Hp0 & _ & _ & H). rewrite Hp in Hp0. injection Hp0 as <-.
  rewrite Hnew in H. unfold admit_verdict in H. rewrite Hb in H. unfold mbind, res_bind in H.
  destruct (priceEstimate _ _) as [[needed bounded]|] eqn:Hpr;
    [|by destruct H as [(w & _ & _ & ?)|(? & ? & ? & ? & _)]].
  exists needed, bounded. split; [done|]. apply priceEstimate_range in Hpr as [Hn _].
  unfold fundingSpend in H. destruct (_ && _);
    [|by destruct H as [(w & _ & _ & ?)|(? & ? & ? & ? & _)]]. cbn [fst snd] in H.
  pose proof (budgetAdmits_exact (b_limit_minor b) _ _ needed Hn Hs Hh Hsum Hlim) as Hcap.
  fold spent held in Hcap, H.
  destruct H as [(w & -> & -> & Hv)|(card & reserved & bd & Hv & -> & Hdb)];
    destruct (budgetAdmits _ _ _ _); try discriminate Hv.
  - injection Hv as <-. split_and!; try done. assert (¬ (spent db + held db + needed ≤ b_limit_minor b)); [|lia].
    by intros ?%Hcap.
  - injection Hv as <- -> ->. pose proof (proj1 Hcap eq_refl) as Hfit.
    set (nr := new_reservation now req (Some (snapshot b)) reserved bd).
    assert (reservation_hold (f_kind (ua_funding req)) (f_id (ua_funding req)) (b_currency b) nr
      = reserved) as Hhold.
    { unfold reservation_hold. rewrite bool_decide_eq_true_2; [done|]. simpl. split_and!; try done.
      unfold nullif_empty. by rewrite bool_decide_eq_false_2. }
    pose proof (total_held_new (f_kind (ua_funding req)) (f_id (ua_funding req)) (b_currency b)
      db p row (ua_fact_id req) nr Hp Hnew) as Hh'. rewrite Hhold in Hh'.
    set (row1 := row <| ps_reservations ::= <[ua_fact_id req := nr]> |>) in *.
    pose proof (total_spent_same (f_kind (ua_funding req)) (f_id (ua_funding req)) (b_currency b)
      db p row row1 Hp eq_refl) as Hs'.
    fold nr row1 in Hdb. rewrite <-Hdb in Hs', Hh'. fold spent held in Hs', Hh'.
    split_and!; [done|done|done|done|lia].
Qed.

(** C39: reconciliation conserves.  Closing the holds a lost turn left
    behind turns each hold whose call has no record into spend of the same
    amount, recorded as unrecorded usage at the admission estimate; a hold
    whose call was recorded before it was admitted is closed and its record
    kept as it is.  So, per funding source and currency, the committed
    exposure is the same before and after, less exactly the holds that
    already had a record and were counted twice; and no hold it covers
    stays open. *)
Theorem reconcile_conserves_exposure now turnID below row row' kind id cur :
  reconcileHeldReservations now turnID below row = Ok (tt, row') →
  row_spent kind id cur row' + row_held kind id cur row'
    = row_spent kind id cur row + row_held kind id cur row
      - msum (reservation_hold kind id cur) (recorded_holds turnID below row) ∧
  (∀ k r, ps_reservations row' !! k = Some r → reconciled turnID below r = false) ∧
  (∀ k r, ps_reservations row !! k = Some r → reconciled turnID below r = true →
     match ps_facts row !! k with
     | Some f => ps_facts row' !! k = Some f
     | None => ps_facts row' !! k = Some (unrecorded_fact now r) ∧
         uf_cost_minor (unrecorded_fact now r) = (λ _, rs_reserved_minor r) <$> rs_currency r
     end).
Proof.
  intros H. pose proof (reconcile_spent now turnID below row kind id cur row' H) as Hs.
  pose proof (reconcile_held now turnID below row kind id cur row' H) as Hh.
  split; [lia|]. clear Hs Hh. injection H as <-. fold (covered_holds turnID below row). simpl. split.
  - intros k r. rewrite lookup_union_Some_raw, lookup_fmap. intros [Hr|[Hn Hr]].
    + apply fmap_Some in Hr as (r0 & _ & ->). done.
    + destruct (reconciled turnID below r) eqn:Hc; [|done]. exfalso. apply fmap_None in Hn.
      pose proof (proj2 (covered_holds_spec turnID below row k r) (conj Hr Hc)). congruence.
  - intros k r Hr Hc. rewrite lookup_union, lookup_fmap.
    rewrite (proj2 (covered_holds_spec turnID below row k r)) by done.
    destruct (ps_facts row !! k) as [f|]; [done|]. split; [done|].
    unfold unrecorded_fact. simpl. by destruct (rs_currency r).
Qed.

(** ** Records *)

(** A usage record only gains certainty.  Along every run a recorded
    call keeps its identity and payer, and its record is unchanged or has
    moved up from a hold that was written off to an unknown outcome to a
    reported or not-sent one; what was reported or not sent is final. *)
Theorem usage_facts_only_rise db db' p row k f :
  reachable tl db → db_personas db !! p = Some row → ps_facts row !! k = Some f → run tl db db' →
  ∃ row' f', db_personas db' !! p = Some row' ∧ ps_facts row' !! k = Some f' ∧
    uf_funding f' = uf_funding f ∧ uf_turn_id f' = uf_turn_id f ∧ uf_round f' = uf_round f ∧
    (f' = f ∨ fact_rank (uf_status f) < fact_rank (uf_status f')) ∧
    (uf_status f = Reported ∨ uf_status f = NotSent → f' = f).
Proof.
  intros Hreach Hp Hf Hrun.
  destruct (run_hist tl _ _ p row (reachable_inv tl _ Hreach) Hrun Hp) as (row' & Hp' & _ & Hh).
  destruct (rh_facts _ _ Hh _ _ Hf) as (f' & Hf' & Hfh). exists row', f'.
  pose proof (fact_hist_final _ _ Hfh). destruct Hfh as [(_ & _ & ? & _ & ? & ?) ?].
  split_and!; auto.
Qed.

Lemma fact_rises p k db db' f :
  db_inv db → db_moves db db' → fact_at p k db = Some f →
  ∃ f', fact_at p k db' = Some f' ∧ fact_rank (uf_status f) ≤ fact_rank (uf_status f').
Proof.
  intros HI Hev (row & Hp & Hf)%bind_Some. destruct (Hev HI) as [_ Hh].
  destruct (Hh p row Hp) as (row' & Hp' & Hr). destruct (rh_facts _ _ Hr _ _ Hf) as (f' & Hf' & Hfh).
  exists f'. unfold fact_at. rewrite Hp'. split; [done|].
  destruct (fh_rank _ _ Hfh) as [->|?]; lia.
Qed.

(** A record is delivered once.  After a call's record was accepted,
    whatever runs in between, delivering a record of the same call that
    claims no more than the first — the same delivery repeated, say —
    either conflicts or answers the stored record as not new and changes
    nothing: no cost is counted twice. *)
Theorem record_delivered_once now p req db r db1 db2 now' req' r' db3 st st' :
  reachable tl db → RecordUsage now p req db = Ok (r, db1) → run tl db1 db2 →
  ud_fact_id req' = ud_fact_id req → validateRecord req = Ok st → validateRecord req' = Ok st' →
  fact_rank st' ≤ fact_rank st → RecordUsage now' p req' db2 = Ok (r', db3) →
  db3 = db2 ∧ r'.2 = false ∧ fact_at p (ud_fact_id req) db2 = Some r'.1.
Proof.
  intros Hreach H Hrun Hid Hst Hst' Hle H2. pose proof (reachable_inv tl _ Hreach) as HI.
  destruct (RecordUsage_stages _ _ _ _ _ _ HI H) as (st0 & dbm & f & Hst0 & H1 & Hm & Hf & Hr).
  rewrite Hst in Hst0. injection Hst0 as <-. destruct (H1 HI) as [HIm _].
  destruct (fact_rises p (ud_fact_id req) dbm db2 f) as (f2 & Hf2 & Hr2); [done| |done|].
  { etrans; [by apply db_evolves_moves|]. by apply (run_moves tl). }
  apply RecordUsage_ok in H2 as (s & payer & c & Hs & _ & _ & H2). rewrite Hst' in Hs.
  injection Hs as <-. rewrite Hid in H2. unfold fact_at in Hf2. rewrite Hf2 in H2.
  destruct H2 as [(_ & -> & ->)|(Hup & _)]; [done|]. exfalso.
  apply redelivery_rank in Hup as [? _]; [lia|]. by apply validateRecord_status.
Qed.
End usage.

(** *** On a concrete history *)

Definition card1 : FundingRef := mkFunding "connection" "c1" "v1" "model" "prov".
Definition capped : UsageBudget := mkBudget 1000 "USD" 3000000 15000000 None "r1" 0.
Definition ask : UsageAdmitRequest :=
  mkAdmit 1 "f1" "turn" "plan" "t1" "i1" 0 card1 (mkEstimate 100 (Some 20)).
Definition big_ask : UsageAdmitRequest :=
  mkAdmit 1 "f2" "turn" "plan" "t1" "i1" 1 card1 (mkEstimate 1000 (Some 20)).
Definition report : UsageRecordRequest :=
  mkRecord "f1" "turn" "plan" "t1" "i1" 0 card1 "reported" (Some 90) (Some 10) None None.
Definition funded : list Call := opened ++ [CSetBudget 6 "h1" "connection" "c1" capped].
Definition held_run : list Call := funded ++ [CAdmitUsage 7 "p" ask].
Definition reported_run : list Call := held_run ++ [CRecordUsage 8 "p" report].
Definition at_funded : DB := play funded empty_db.
Definition at_held : DB := play held_run empty_db.
Definition at_reported : DB := play reported_run empty_db.

(** A call recorded before its admission was asked for. *)
Definition roomy : UsageBudget := mkBudget 2000 "USD" 3000000 15000000 None "r1" 0.
Definition late_run : list Call :=
  opened ++ [CSetBudget 6 "h1" "connection" "c1" roomy; CRecordUsage 7 "p" report;
             CAdmitUsage 8 "p" ask].
Definition at_late : DB := play late_run empty_db.

Lemma priceTokens_exact_witness :
  priceTokens 100 3000000 = Ok 300 ∧ ∃ e, priceTokens MaxInt64 2 = Err e.
Proof.
  destruct (priceTokens_exact 100 3000000) as (_ & H & _).
  destruct (priceTokens_exact MaxInt64 2) as (_ & _ & He). split.
  - apply H; unfold tokensPerMTok, MaxInt64; lia.
  - apply He. right. right. unfold tokensPerMTok, MaxInt64. lia.
Defined.

Lemma priceReported_sum_witness :
  priceReported Reported (Some 90) (Some 10) None (snapshot capped) = Ok (Some 420) ∧
  priceReported Unknown (Some 90) (Some 10) None (snapshot capped) = Ok None.
Proof.
  destruct (priceReported_sum 90 10 None (snapshot capped) 420) as [[_ H] H']. split.
  - apply H. exists 270, 0, 150. repeat split; try reflexivity. unfold MaxInt64. lia.
  - apply H'. left. discriminate.
Defined.

Lemma admission_within_cap_witness :
  ∃ r db' b, AdmitUsage 7 "p" ask at_funded = Ok (r, db') ∧
    db_budgets at_funded !! ("connection", "c1") = Some b ∧
    (commit (AdmitUsage 9 "p" big_ask) at_held).2
      = Ok (Denied_ (mkBudgetWait card1 3300 1000 0 600 400 "USD" "r1" true (mkEstimate 1000 (Some 20)))) ∧
    total_spent "connection" "c1" "USD" db' + total_held "connection" "c1" "USD" db' ≤ 1000.
Proof.
  destruct (succeeds (AdmitUsage 7 "p" ask) at_funded ltac:(vm_eq)) as (r & db' & H & Hdb).
  destruct (found (db_budgets at_funded !! ("connection", "c1")) ltac:(vm_eq)) as [b Hb].
  assert (b_currency b = "USD") as Hcur by exact (look b_currency _ _ _ Hb ltac:(vm_eq)).
  assert (b_limit_minor b = 1000) as Hlim by exact (look b_limit_minor _ _ _ Hb ltac:(vm_eq)).
  pose proof (admission_within_cap sample_tools 7 "p" ask b at_funded r db' (row_of at_funded)
    (play_reachable funded) ltac:(vm_eq) ltac:(vm_eq) Hb) as Hcap.
  rewrite Hcur, Hlim in Hcap.
  destruct Hcap as (needed & bounded & _ & Hr).
  - discriminate.
  - unfold MaxInt64. lia.
  - assert (total_spent "connection" "c1" "USD" at_funded = 0) as Hs by vm_eq.
    assert (total_held "connection" "c1" "USD" at_funded = 0) as Hh by vm_eq.
    change (total_spent "connection" "c1" "USD" at_funded
            + total_held "connection" "c1" "USD" at_funded ≤ MaxInt64).
    rewrite Hs, Hh. unfold MaxInt64. lia.
  - exact H.
  - exists r, db', b. split; [exact H|]. split; [exact Hb|]. split; [vm_eq|].
    assert (match answer (Denied_ (mkBudgetWait card1 0 0 0 0 0 "" "" true (mkEstimate 0 None)))
      (AdmitUsage 7 "p" ask) at_funded with Admitted_ _ => true | _ => false end = true) as Ha
      by vm_eq.
    unfold answer in Ha. rewrite H in Ha. destruct r as [rs|w]; [|discriminate Ha].
    destruct Hr as (_ & _ & _ & _ & Hfit). exact Hfit.
Defined.

Definition reconciled_row (row : PersonaRow) : PersonaRow :=
  match reconcileHeldReservations 9 "" None row with Ok (_, row') => row' | Err _ => row end.
Lemma reconcile_conserves_exposure_witness :
  row_held "connection" "c1" "USD" (row_of at_held) = 600 ∧
  row_spent "connection" "c1" "USD" (reconciled_row (row_of at_held))
    + row_held "connection" "c1" "USD" (reconciled_row (row_of at_held)) = 600 ∧
  row_spent "connection" "c1" "USD" (row_of at_late)
    + row_held "connection" "c1" "USD" (row_of at_late) = 1020 ∧
  row_spent "connection" "c1" "USD" (reconciled_row (row_of at_late))
    + row_held "connection" "c1" "USD" (reconciled_row (row_of at_late)) = 420.
Proof.
  destruct (reconcile_conserves_exposure 9 "" None (row_of at_held)
    (reconciled_row (row_of at_held)) "connection" "c1" "USD") as [H _]; [reflexivity|].
  destruct (reconcile_conserves_exposure 9 "" None (row_of at_late)
    (reconciled_row (row_of at_late)) "connection" "c1" "USD") as [Hl _]; [reflexivity|].
  split; [vm_eq|]. split; [rewrite H; vm_eq|]. split; [vm_eq|]. rewrite Hl. vm_eq.
Defined.

Lemma usage_facts_only_rise_witness :
  ∃ f row' f', ps_facts (row_of at_reported) !! "f1" = Some f ∧
    db_personas (play [CRecover 9 "p" 1] at_reported) !! "p" = Some row' ∧
    ps_facts row' !! "f1" = Some f' ∧ f' = f.
Proof.
  destruct (found (ps_facts (row_of at_reported) !! "f1") ltac:(vm_eq)) as [f Hf].
  destruct (usage_facts_only_rise sample_tools at_reported (play [CRecover 9 "p" 1] at_reported) "p"
    (row_of at_reported) "f1" f) as (row' & f' & Hp & Hf' & _ & _ & _ & _ & Hfin).
  - apply (play_reachable reported_run).
  - vm_eq.
  - exact Hf.
  - apply play_run.
  - exists f, row', f'. split; [exact Hf|]. split; [exact Hp|]. split; [exact Hf'|].
    apply Hfin. left. exact (look uf_status _ _ _ Hf ltac:(vm_eq)).
Defined.

Lemma record_delivered_once_witness :
  ∃ r' db3, RecordUsage 99 "p" report at_reported = Ok (r', db3) ∧ db3 = at_reported ∧ r'.2 = false.
Proof.
  destruct (succeeds (RecordUsage 8 "p" report) at_held ltac:(vm_eq)) as (r & db1 & H1 & Hdb1).
  assert (at_reported = db1) as Heq by (rewrite <-Hdb1; vm_eq).
  destruct (succeeds (RecordUsage 99 "p" report) at_reported ltac:(vm_eq)) as (r' & db3 & H2 & _).
  destruct (record_delivered_once sample_tools 8 "p" report at_held r db1 at_reported 99 report r' db3
    Reported Reported) as (Hdb & Hr & _).
  - apply (play_reachable held_run).
  - exact H1.
  - rewrite <-Heq. constructor.
  - reflexivity.
  - vm_eq.
  - vm_eq.
  - lia.
  - exact H2.
  - exists r', db3. split; [exact H2|]. split; [exact Hdb|exact Hr].
Defined.
