(* ===== verification/WorkspaceState.v ===== *)
(** * Workspaces: data and authority

    Package [workspace] ([model.go], the reading half of [store.go] and
    [roles.go]) and [participant]: the tables of workspaces, membership
    tenures, roles, app capability grants and invitations, who is a member of
    what, and the set of capabilities a membership gives. *)

From Stdlib Require Import Ascii ZArith Lia.
From stdpp Require Import sorting.
From S2P Require Import Prelude Json State.
Local Open Scope string_scope.
Local Open Scope list_scope.
Local Open Scope Z_scope.

(** ** Errors *)

(** A wrapped error keeps the identity [errors.Is] sees; the text added
    around it is left out.  [UniqueViolation] is SQLSTATE 23505. *)
Inductive werr :=
| ErrNotFound | ErrForbidden | ErrInvalidName | ErrInvalidColor | ErrInvalidPosition
| ErrInvalidPermission | ErrRoleNotFound | ErrRoleNameTaken | ErrMemberNotFound
| ErrAlreadyMember | ErrOwnerProtected | ErrLastAdministrator | ErrInviteUnavailable
| ErrInvalidInvite | ErrInviteAuthorityUnavailable
| ErrInvalidWorkspaceListCursor | ErrInvalidWorkspaceInvitationListCursor
| ErrInviteEmailVerification | ErrInvalidEnrollmentInvitation
| ErrEnrollmentInvite | ErrEnrollmentEmailUnverified | ErrEnrollmentEmailMismatch
| InvalidRef (text : string)
| UniqueViolation (constraint : string)
| DatabaseError (text : string).
#[global] Instance werr_dec : EqDecision werr.
Proof. solve_decision. Defined.

(** ** Participants *)

Record Ref := mkRef { ref_kind : string; ref_id : string }.
#[global] Instance ref_dec : EqDecision Ref.
Proof. solve_decision. Defined.
Definition KindHuman : string := "human".
Definition KindPersonalityAgent : string := "personality_agent".
Definition Human (id : string) : Ref := mkRef KindHuman id.
Definition PersonalityAgent (id : string) : Ref := mkRef KindPersonalityAgent id.

(** What [google/uuid] reads out of a text. *)
Record UUID := mkUUID { uuid_String : string; uuid_Version : Z; uuid_RFC4122 : bool }.

(** The [uuid] package and the collation of the database's text order. *)
Class WsLib := {
  uuid_Parse : string → option UUID;
  text_le : string → string → bool
}.

(** [ValidatePersonalityAgentID]: one character class per position, checked
    in the order of the code. *)
Definition isLowerHex (c : ascii) : bool := byte_in 48 57 c || byte_in 97 102 c.
Definition hyphen_at (i : nat) : bool :=
  Nat.eqb i 8 || Nat.eqb i 13 || Nat.eqb i 18 || Nat.eqb i 23.
Fixpoint check_bytes (i : nat) (s : string) : option string :=
  match s with
  | EmptyString => None
  | String c s =>
      if hyphen_at i
      then if Ascii.eqb c "-" then check_bytes (S i) s
           else Some "personality_agent_id must be hyphenated"
      else if isLowerHex c then check_bytes (S i) s
           else Some "personality_agent_id must contain only lowercase hexadecimal digits"
  end.
Definition byte_at (i : nat) (s : string) : string := str_take 1 (str_drop i s).
Definition ValidatePersonalityAgentID (value : string) : option string :=
  if negb (Nat.eqb (String.length value) 36)
  then Some "personality_agent_id must be a 36-byte canonical UUIDv7"
  else match check_bytes 0 value with
  | Some e => Some e
  | None =>
      if negb (bool_decide (byte_at 14 value = "7"))
      then Some "personality_agent_id must use UUID version 7"
      else if bool_decide (byte_at 19 value ∈ ["8"; "9"; "a"; "b"]) then None
      else Some "personality_agent_id must use the RFC UUID variant"
  end.

(** [utf8.RuneCountInString]: every rune takes at least one byte, so the
    length of the string bounds their number. *)
Fixpoint rune_count_in (n : nat) (s : string) : Z :=
  match n, s with
  | S n, String _ _ => 1 + rune_count_in n (str_drop (rune_width s) s)
  | _, _ => 0
  end.
Definition RuneCountInString (s : string) : Z := rune_count_in (String.length s) s.

(** ** Rows *)

Record Workspace := mkWorkspace {
  w_id : string; w_name : string; w_owner : string; w_created_at : Z }.
#[global] Instance eta_workspace : Eta Workspace := λ r,
  mkWorkspace (w_id r) (w_name r) (w_owner r) (w_created_at r).

(** [workspace_members]: one tenure of a participant. *)
Record MemberRow := mkMember {
  m_workspace : string; m_ref : Ref; m_joined : Z; m_left : option Z }.
#[global] Instance eta_member : Eta MemberRow := λ r,
  mkMember (m_workspace r) (m_ref r) (m_joined r) (m_left r).

(** [workspace_roles]; [permissions] is the stored JSON object. *)
Record RoleRow := mkRoleRow {
  r_workspace : string; r_name : string; r_color : option string; r_position : Z;
  r_permissions : gmap string bool; r_created_at : Z }.
#[global] Instance eta_role_row : Eta RoleRow := λ r,
  mkRoleRow (r_workspace r) (r_name r) (r_color r) (r_position r) (r_permissions r)
    (r_created_at r).

(** [app_workspace_role_capabilities] and
    [workspace_role_app_capability_grants]. *)
Record Capability := mkCapability { c_ref : string; c_retired : option Z }.
Record Grant := mkGrant { g_workspace : string; g_ref : string }.

Inductive InviteKind := ShareCode | TargetedPersonalityAgent.
#[global] Instance invite_kind_dec : EqDecision InviteKind.
Proof. solve_decision. Defined.
Record Redemption := mkRedemption { rd_by : Ref; rd_member : string; rd_at : Z }.
(** [workspace_invites]: the four redemption columns are set together, and so
    are the two of the target (CHECK constraints of the table). *)
Record InviteRow := mkInvite {
  i_workspace : string; i_created_by : string; i_code_hash : option string;
  i_expires : Z; i_redeemed : option Redemption; i_revoked : option Z; i_created : Z;
  i_kind : InviteKind; i_target : option string; i_reserved : option string }.
#[global] Instance eta_invite : Eta InviteRow := λ r,
  mkInvite (i_workspace r) (i_created_by r) (i_code_hash r) (i_expires r) (i_redeemed r)
    (i_revoked r) (i_created r) (i_kind r) (i_target r) (i_reserved r).

(** [enrollment_invites] of package [koseki]. *)
Record EnrollRow := mkEnroll {
  e_token_hash : string; e_issued_by : option string; e_email : option string;
  e_created : Z; e_expires : Z; e_revoked : option Z; e_consumed : option (Z * string);
  e_invite : option string }.
#[global] Instance eta_enroll : Eta EnrollRow := λ r,
  mkEnroll (e_token_hash r) (e_issued_by r) (e_email r) (e_created r) (e_expires r)
    (e_revoked r) (e_consumed r) (e_invite r).

(** [place_members] of the messaging service, as far as tenures reach. *)
Record PlaceRow := mkPlace {
  pl_workspace : string; pl_member : string; pl_joined : Z; pl_left : option Z }.
#[global] Instance eta_place : Eta PlaceRow := λ r,
  mkPlace (pl_workspace r) (pl_member r) (pl_joined r) (pl_left r).

(** The database: [w_assignments] maps (role, member) to the workspace column
    of the assignment, [w_grants] is keyed by (role, capability),
    [w_employer] is the open employment of an agent and [w_credentials] the
    active Firebase credentials. *)
Record WDB := mkWDB {
  w_humans : gmap string string;
  w_agents : gmap string string;
  w_workspaces : gmap string Workspace;
  w_members : gmap string MemberRow;
  w_roles : gmap string RoleRow;
  w_assignments : gmap (string * string) string;
  w_grants : gmap (string * string) Grant;
  w_catalog : gmap string Capability;
  w_invites : gmap string InviteRow;
  w_enrollments : gmap string EnrollRow;
  w_places : gmap string PlaceRow;
  w_employer : gmap string (string * string);
  w_credentials : gset (string * string) }.
#[global] Instance eta_wdb : Eta WDB := λ r,
  mkWDB (w_humans r) (w_agents r) (w_workspaces r) (w_members r) (w_roles r) (w_assignments r)
    (w_grants r) (w_catalog r) (w_invites r) (w_enrollments r) (w_places r) (w_employer r)
    (w_credentials r).

Abbreviation wtx := (M werr WDB).

(** ** Permissions *)

Abbreviation PermissionSet := (gset string).
Definition PermissionManageWorkspace : string := "manage_workspace".
Definition PermissionManageMembers : string := "manage_members".
Definition PermissionManageRoles : string := "manage_roles".
Definition PermissionManageApps : string := "manage_apps".
Definition knownPermissions : list string :=
  [PermissionManageWorkspace; PermissionManageMembers; PermissionManageRoles; PermissionManageApps].
Definition administrativePermissions : list string :=
  [PermissionManageWorkspace; PermissionManageMembers; PermissionManageRoles; PermissionManageApps].
Definition isKnownPermission (permission : string) : bool :=
  bool_decide (permission ∈ knownPermissions).
Definition allPermissions : PermissionSet := list_to_set knownPermissions.
Definition normalizePermissions (input : gmap string bool) : PermissionSet :=
  list_to_set (filter (λ p, input !! p = Some true) knownPermissions).
Definition permissionsWithin (actor target : PermissionSet) : bool := bool_decide (target ⊆ actor).

(** [appCapabilityRefPattern]: [app.], an app name and an app-owned segment. *)
Definition lower_letter (c : ascii) : bool := byte_in 97 122 c.
Definition digit (c : ascii) : bool := byte_in 48 57 c.
Fixpoint all_chars (f : ascii → bool) (s : string) : bool :=
  match s with EmptyString => true | String c s => f c && all_chars f s end.
Definition segment (extra : ascii) (s : string) : bool :=
  match s with
  | EmptyString => false
  | String c t =>
      lower_letter c && (String.length t <=? 63)
      && all_chars (λ c, lower_letter c || digit c || Ascii.eqb c extra) t
  end.
(** The text before and after the first full stop. *)
Fixpoint cut_dot (s : string) : option (string * string) :=
  match s with
  | EmptyString => None
  | String c s =>
      if Ascii.eqb c "." then Some ("", s)
      else match cut_dot s with Some (a, b) => Some (String c a, b) | None => None end
  end.
Definition appCapabilityRefPattern (s : string) : bool :=
  match cut_dot s with
  | Some ("app", rest) =>
      match cut_dot rest with
      | Some (app, own) => segment "-" app && segment "_" own
      | None => false
      end
  | _ => false
  end.

(** [model.go]'s [Role]: a stored role with the state of its grants. *)
Record Role := mkRole {
  RoleID : string; RoleWorkspaceID : string; RoleName : string; RoleColor : string;
  RolePosition : Z; RolePermissions : PermissionSet; RoleAppCapabilities : gmap string bool;
  RoleCreatedAt : Z }.
#[global] Instance eta_role : Eta Role := λ r,
  mkRole (RoleID r) (RoleWorkspaceID r) (RoleName r) (RoleColor r) (RolePosition r)
    (RolePermissions r) (RoleAppCapabilities r) (RoleCreatedAt r).
Definition EffectiveCapabilities (permissions : PermissionSet) (app : gmap string bool)
    : PermissionSet :=
  permissions ∪ dom (filter (λ kv, kv.2 = true) app).

(** Whether the exact capability a grant was made for is still active. *)
Definition effective (g : Grant) (c : Capability) : bool :=
  bool_decide (c_retired c = None) && bool_decide (c_ref c = g_ref g).
(** The grants of a role joined with the catalog. *)
Definition role_grants (db : WDB) (workspaceID roleID : string) : list (string * (Grant * Capability)) :=
  omap (λ kg : (string * string) * Grant,
    if bool_decide (kg.1.1 = roleID) && bool_decide (g_workspace kg.2 = workspaceID)
    then (λ c, (kg.1.2, (kg.2, c))) <$> w_catalog db !! kg.1.2 else None) (map_to_list (w_grants db)).
Definition appCapabilitiesForRole (db : WDB) (workspaceID roleID : string) : gmap string bool :=
  list_to_map ((λ x, (g_ref x.2.1, effective x.2.1 x.2.2)) <$> role_grants db workspaceID roleID).

(** ** Memberships *)

Record Membership := mkMembership {
  WorkspaceMemberID : string; MemberWorkspaceID : string; Participant : Ref;
  DisplayName : string; Owner : bool; RoleIDs : list string; JoinedAt : Z; LeftAt : option Z }.
#[global] Instance eta_membership : Eta Membership := λ r,
  mkMembership (WorkspaceMemberID r) (MemberWorkspaceID r) (Participant r) (DisplayName r)
    (Owner r) (RoleIDs r) (JoinedAt r) (LeftAt r).

(** The tenures a participant has open in a workspace. *)
Definition open_tenure (workspaceID : string) (ref : Ref) (m : MemberRow) : Prop :=
  m_workspace m = workspaceID ∧ m_ref m = ref ∧ m_left m = None.
#[global] Instance open_tenure_dec w ref m : base.Decision (open_tenure w ref m).
Proof. unfold open_tenure. apply _. Defined.
Definition find_tenure (db : WDB) (workspaceID : string) (ref : Ref) : option (string * MemberRow) :=
  head (filter (λ km, open_tenure workspaceID ref km.2) (map_to_list (w_members db))).
Definition is_owner (db : WDB) (workspaceID memberID : string) : bool :=
  match w_workspaces db !! workspaceID with
  | Some w => bool_decide (w_owner w = memberID)
  | None => false
  end.
Definition assigned_roles (db : WDB) (workspaceID memberID : string) : list string :=
  omap (λ kw : (string * string) * string,
    if bool_decide (kw.1.2 = memberID) && bool_decide (kw.2 = workspaceID) then Some kw.1.1 else None)
    (map_to_list (w_assignments db)).

Section library.
Context `{GL : GoLib} `{WL : WsLib}.

Definition isCanonicalUUIDv7 (value : string) : bool :=
  match uuid_Parse value with
  | Some id => bool_decide (uuid_String id = value) && (uuid_Version id =? 7) && uuid_RFC4122 id
  | None => false
  end.

Definition Validate (r : Ref) : res werr unit :=
  if bool_decide (ref_kind r = KindHuman) then
    if isCanonicalUUIDv7 (ref_id r) then Ok tt
    else Err (InvalidRef "human_id must be a canonical lowercase UUIDv7")
  else if bool_decide (ref_kind r = KindPersonalityAgent) then
    match ValidatePersonalityAgentID (ref_id r) with
    | None => Ok tt
    | Some e => Err (InvalidRef e)
    end
  else Err (InvalidRef "unknown participant kind").

Definition registered (db : WDB) (r : Ref) : bool :=
  if bool_decide (ref_kind r = KindHuman) then bool_decide (is_Some (w_humans db !! ref_id r))
  else bool_decide (is_Some (w_agents db !! ref_id r)).
Definition Exists (db : WDB) (r : Ref) : res werr bool :=
  _ ← Validate r; Ok (registered db r).

Definition participantDisplayNameFallback (r : Ref) : string :=
  (if bool_decide (ref_kind r = KindPersonalityAgent) then "PersonalityAgent" else "Human")
  +:+ " · " +:+ str_drop (String.length (ref_id r) - 8) (ref_id r).
Definition resolveParticipantDisplayName (db : WDB) (r : Ref) : res werr string :=
  let name (o : option string) :=
    match o with
    | Some n => if bool_decide (strings_TrimSpace n = "") then participantDisplayNameFallback r else n
    | None => participantDisplayNameFallback r
    end in
  if bool_decide (ref_kind r = KindHuman) then Ok (name (w_humans db !! ref_id r))
  else if bool_decide (ref_kind r = KindPersonalityAgent) then Ok (name (w_agents db !! ref_id r))
  else Err (InvalidRef "unknown participant kind").

(** [activeMembership], [activeMembershipForUpdate]: the row lock is all the
    two differ in. *)
Definition activeMembership (db : WDB) (workspaceID : string) (actor : Ref) : res werr Membership :=
  _ ← Validate actor;
  if negb (isCanonicalUUIDv7 workspaceID) then Err ErrNotFound
  else match find_tenure db workspaceID actor with
  | None => Err ErrNotFound
  | Some (id, m) =>
      name ← resolveParticipantDisplayName db (m_ref m);
      Ok (mkMembership id workspaceID (m_ref m) name (is_owner db workspaceID id) [] (m_joined m) None)
  end.
Definition activeMembershipExists (db : WDB) (workspaceID : string) (ref : Ref) : bool :=
  bool_decide (is_Some (find_tenure db workspaceID ref)).

(** The assigned roles [ORDER BY position DESC, name, role_id]. *)
Definition role_le (db : WDB) (a b : string) : Prop :=
  match w_roles db !! a, w_roles db !! b with
  | Some x, Some y =>
      if r_position x =? r_position y
      then (if bool_decide (r_name x = r_name y) then text_le a b else text_le (r_name x) (r_name y)) = true
      else r_position y < r_position x
  | _, _ => True
  end.
#[global] Instance role_le_dec db : RelDecision (role_le db).
Proof.
  intros a b. unfold role_le. destruct (w_roles db !! a) as [x|]; [|apply _].
  destruct (w_roles db !! b) as [y|]; [|apply _]. destruct (r_position x =? r_position y); apply _.
Defined.
Definition sorted_roles (db : WDB) (workspaceID memberID : string) : list string :=
  merge_sort (role_le db)
    (filter (λ r, r_workspace <$> w_roles db !! r = Some workspaceID)
       (assigned_roles db workspaceID memberID)).

Definition membershipByID (db : WDB) (workspaceID membershipID : string) (activeOnly : bool)
    : res werr Membership :=
  if negb (isCanonicalUUIDv7 workspaceID) || negb (isCanonicalUUIDv7 membershipID)
  then Err ErrMemberNotFound
  else match w_members db !! membershipID with
  | Some m =>
      if bool_decide (m_workspace m = workspaceID)
         && (negb activeOnly || bool_decide (m_left m = None))
      then Ok (mkMembership membershipID workspaceID (m_ref m) "" (is_owner db workspaceID membershipID)
                 (sorted_roles db workspaceID membershipID) (m_joined m) (m_left m))
      else Err ErrMemberNotFound
  | None => Err ErrMemberNotFound
  end.

(** ** Effective capabilities *)

Definition active_refs (db : WDB) : list string :=
  omap (λ kc, if bool_decide (c_retired kc.2 = None) then Some (c_ref kc.2) else None)
    (map_to_list (w_catalog db)).
(** What one assigned role contributes. *)
Definition role_permissions (db : WDB) (workspaceID roleID : string) : PermissionSet :=
  match w_roles db !! roleID with
  | Some row =>
      if bool_decide (r_workspace row = workspaceID) then normalizePermissions (r_permissions row) else ∅
  | None => ∅
  end.
Definition role_refs (db : WDB) (workspaceID roleID : string) : PermissionSet :=
  list_to_set (omap (λ x, if effective x.2.1 x.2.2 then Some (g_ref x.2.1) else None)
                 (role_grants db workspaceID roleID)).
Definition permissionsForMembership (db : WDB) (ms : Membership) : PermissionSet :=
  if Owner ms then allPermissions ∪ list_to_set (active_refs db)
  else ⋃ ((λ r, role_permissions db (MemberWorkspaceID ms) r ∪ role_refs db (MemberWorkspaceID ms) r)
            <$> assigned_roles db (MemberWorkspaceID ms) (WorkspaceMemberID ms)).
Definition permissionsFor (db : WDB) (workspaceID : string) (actor : Ref) : res werr PermissionSet :=
  ms ← activeMembership db workspaceID actor; Ok (permissionsForMembership db ms).
Definition roleMutationAuthority (db : WDB) (workspaceID : string) (actor : Ref)
    : res werr (Membership * PermissionSet) :=
  ms ← activeMembership db workspaceID actor; Ok (ms, permissionsForMembership db ms).

(** The locks only order transactions; what is left of them is the test that
    the workspace exists. *)
Definition lockWorkspace (db : WDB) (workspaceID : string) : res werr unit :=
  if negb (isCanonicalUUIDv7 workspaceID) then Err ErrNotFound
  else if bool_decide (is_Some (w_workspaces db !! workspaceID)) then Ok tt else Err ErrNotFound.

Definition requireEffectiveCapabilityAfterWorkspaceLock (db : WDB) (workspaceID : string) (actor : Ref)
    (capabilityRef : string) : res werr string :=
  ms ← activeMembership db workspaceID actor;
  if Owner ms then Ok (WorkspaceMemberID ms)
  else if bool_decide (capabilityRef ∈ permissionsForMembership db ms) then Ok (WorkspaceMemberID ms)
  else Err ErrForbidden.
Definition lockAndRequirePermission (db : WDB) (workspaceID : string) (actor : Ref) (permission : string)
    : res werr string :=
  if negb (isKnownPermission permission) then Err ErrInvalidPermission
  else _ ← lockWorkspace db workspaceID;
       requireEffectiveCapabilityAfterWorkspaceLock db workspaceID actor permission.
Definition LockAndRequireAppCapability (db : WDB) (workspaceID : string) (actor : Ref)
    (capabilityRef : string) : res werr unit :=
  if negb (appCapabilityRefPattern capabilityRef) then Err ErrInvalidPermission
  else _ ← lockWorkspace db workspaceID;
       if bool_decide (capabilityRef ∈ active_refs db)
       then _ ← requireEffectiveCapabilityAfterWorkspaceLock db workspaceID actor capabilityRef; Ok tt
       else Err ErrInvalidPermission.

(** [ensureEffectiveAdministrator]: an open tenure that owns the workspace or
    holds every administrative permission through its roles. *)
Definition administers (db : WDB) (workspaceID memberID : string) : bool :=
  forallb (λ p, existsb (λ r,
      match w_roles db !! r with
      | Some row => bool_decide (r_workspace row = workspaceID)
                    && bool_decide (r_permissions row !! p = Some true)
      | None => false
      end) (assigned_roles db workspaceID memberID)) administrativePermissions.
Definition ensureEffectiveAdministrator (db : WDB) (workspaceID : string) : res werr unit :=
  if bool_decide (is_Some (w_workspaces db !! workspaceID))
     && existsb (λ km, bool_decide (m_workspace km.2 = workspaceID) && bool_decide (m_left km.2 = None)
                       && (is_owner db workspaceID km.1 || administers db workspaceID km.1))
          (map_to_list (w_members db))
  then Ok tt else Err ErrLastAdministrator.

Definition requireInviteIssuerAuthority (db : WDB) (workspaceID membershipID : string) : res werr unit :=
  match membershipByID db workspaceID membershipID true with
  | Err ErrMemberNotFound => Err ErrInviteUnavailable
  | Err e => Err e
  | Ok issuer =>
      if bool_decide (PermissionManageMembers ∈ permissionsForMembership db issuer) then Ok tt
      else Err ErrInviteUnavailable
  end.
End library.
