(* ===== verification/Workspaces.v ===== *)
(** * Workspaces, roles and tenures

    The operations of [store.go] and [roles.go] that create and rename
    workspaces, move ownership, define and assign roles, and close
    memberships, and the reads a member can make. *)

From Stdlib Require Import Ascii ZArith Lia.
From stdpp Require Import sorting.
From S2P Require Import Prelude Json State WorkspaceState.
Local Open Scope string_scope.
Local Open Scope list_scope.
Local Open Scope Z_scope.

Definition maxWorkspaceNameChars : Z := 200.
Definition maxRoleNameChars : Z := 60.
Definition maxRolePosition : Z := 1000000.
Definition localWorkspaceListPageSize : Z := 32.

Section library.
Context `{GL : GoLib} `{WL : WsLib}.

(** The current tables, inside a transaction. *)
Definition tables : wtx WDB := gets (λ db, db).
(** A read that decides, against the current tables. *)
Definition asks {A} (f : WDB → res werr A) : wtx A := λ db,
  match f db with Ok a => Ok (a, db) | Err e => Err e end.
(** A text column refuses NUL. *)
Definition pg_text (s : string) : wtx unit :=
  guard_or (negb (contains_nul s)) (DatabaseError "invalid byte sequence for encoding").

(** ** Workspaces *)

(** New identities are texts of [uuid.NewV7]; the columns' domain [uuidv7]
    takes the canonical form only. *)
Definition new_id (id : string) : wtx unit :=
  guard_or (isCanonicalUUIDv7 id) (DatabaseError "uuidv7_check").
Definition insert_workspace (id : string) (w : Workspace) : wtx unit :=
  new_id id ;;
  db ← tables;
  guard_or (bool_decide (w_workspaces db !! id = None)) (UniqueViolation "workspaces_pkey") ;;
  modify (λ db, db <| w_workspaces := <[id:=w]> (w_workspaces db) |>).
(** With the trigger that looks the participant up, the foreign key to the
    workspace, the primary key and [workspace_members_one_active_tenure]. *)
Definition insert_member (id : string) (m : MemberRow) : wtx unit :=
  new_id id ;;
  db ← tables;
  guard_or (registered db (m_ref m)) (DatabaseError "unknown workspace member") ;;
  guard_or (bool_decide (is_Some (w_workspaces db !! m_workspace m)))
    (DatabaseError "workspace_members_workspace_id_fkey") ;;
  guard_or (bool_decide (w_members db !! id = None)) (UniqueViolation "workspace_members_pkey") ;;
  guard_or (negb (activeMembershipExists db (m_workspace m) (m_ref m)))
    (UniqueViolation "workspace_members_one_active_tenure") ;;
  modify (λ db, db <| w_members := <[id:=m]> (w_members db) |>).

Definition workspace_name_ok (name : string) : bool :=
  (1 <=? RuneCountInString name) && (RuneCountInString name <=? maxWorkspaceNameChars).

Definition CreateWorkspace (now : Z) (workspaceID membershipID : string) (name : string) (creator : Ref)
    : wtx Workspace :=
  let name := strings_TrimSpace name in
  guard_or (workspace_name_ok name) ErrInvalidName ;;
  exists_ ← asks (λ db, Exists db creator);
  guard_or exists_ ErrForbidden ;;
  pg_text name ;;
  let w := mkWorkspace workspaceID name membershipID now in
  insert_workspace workspaceID w ;;
  insert_member membershipID (mkMember workspaceID creator now None) ;;
  mret w.

Definition workspaces_of (db : WDB) (actor : Ref) : list Workspace :=
  omap (λ km : string * MemberRow,
    if bool_decide (m_ref km.2 = actor ∧ m_left km.2 = None) then w_workspaces db !! m_workspace km.2
    else None) (map_to_list (w_members db)).
Definition created_le (a b : Workspace) : Prop :=
  w_created_at a < w_created_at b ∨ w_created_at a = w_created_at b ∧ text_le (w_id a) (w_id b) = true.
#[global] Instance created_le_dec : RelDecision created_le.
Proof. intros a b. unfold created_le. apply _. Defined.
Definition WorkspacesFor (db : WDB) (actor : Ref) : res werr (list Workspace) :=
  _ ← Validate actor; Ok (merge_sort created_le (workspaces_of db actor)).

(** One page by workspace identity, with one row more to see whether another
    follows. *)
Definition wsid_le (a b : Workspace) : Prop := text_le (w_id a) (w_id b) = true.
#[global] Instance wsid_le_dec : RelDecision wsid_le.
Proof. intros a b. unfold wsid_le. apply _. Defined.
Definition after_id (after : option string) (id : string) : Prop :=
  match after with None => True | Some a => text_le id a = false end.
#[global] Instance after_id_dec after id : base.Decision (after_id after id).
Proof. unfold after_id. destruct after; apply _. Defined.
Definition workspacePageFor (db : WDB) (actor : Ref) (after : option string)
    : res werr (list Workspace * bool) :=
  _ ← Validate actor;
  if match after with Some a => negb (isCanonicalUUIDv7 a) | None => false end
  then Err ErrInvalidWorkspaceListCursor
  else
    let items := take (Z.to_nat (localWorkspaceListPageSize + 1))
      (merge_sort wsid_le (filter (λ w, after_id after (w_id w)) (workspaces_of db actor))) in
    Ok (take (Z.to_nat localWorkspaceListPageSize) items, localWorkspaceListPageSize <? length items).

Definition WorkspaceFor (db : WDB) (workspaceID : string) (actor : Ref) : res werr Workspace :=
  _ ← Validate actor;
  if negb (isCanonicalUUIDv7 workspaceID) then Err ErrNotFound
  else match find_tenure db workspaceID actor, w_workspaces db !! workspaceID with
  | Some _, Some w => Ok w
  | _, _ => Err ErrNotFound
  end.

(** [Members]: a participant without a registry row would be a NULL name. *)
Definition member_name (db : WDB) (r : Ref) : res werr string :=
  match (if bool_decide (ref_kind r = KindHuman) then w_humans db else w_agents db) !! ref_id r with
  | Some n => Ok (if bool_decide (strings_TrimSpace n = "") then participantDisplayNameFallback r else n)
  | None => Err (DatabaseError "cannot scan NULL into *string")
  end.
Definition joined_le (a b : string * MemberRow) : Prop :=
  m_joined a.2 < m_joined b.2 ∨ m_joined a.2 = m_joined b.2 ∧ text_le a.1 b.1 = true.
#[global] Instance joined_le_dec : RelDecision joined_le.
Proof. intros a b. unfold joined_le. apply _. Defined.
Definition open_members (db : WDB) (workspaceID : string) : list (string * MemberRow) :=
  merge_sort joined_le
    (filter (λ km, m_workspace km.2 = workspaceID ∧ m_left km.2 = None) (map_to_list (w_members db))).
Fixpoint name_members (db : WDB) (workspaceID : string) (l : list (string * MemberRow))
    : res werr (list Membership) :=
  match l with
  | [] => Ok []
  | (id, m) :: l =>
      name ← member_name db (m_ref m);
      rest ← name_members db workspaceID l;
      Ok (mkMembership id workspaceID (m_ref m) name (is_owner db workspaceID id)
            (sorted_roles db workspaceID id) (m_joined m) None :: rest)
  end.
Definition Members (db : WDB) (workspaceID : string) (actor : Ref) : res werr (list Membership) :=
  _ ← activeMembership db workspaceID actor;
  name_members db workspaceID (open_members db workspaceID).

Definition set_workspace (workspaceID : string) (f : Workspace → Workspace) : wtx Workspace :=
  db ← tables;
  match w_workspaces db !! workspaceID with
  | Some w =>
      modify (λ db, db <| w_workspaces := <[workspaceID := f w]> (w_workspaces db) |>) ;; mret (f w)
  | None => throw (DatabaseError "no rows in result set")
  end.
Definition UpdateName (workspaceID : string) (actor : Ref) (name : string) : wtx Workspace :=
  let name := strings_TrimSpace name in
  guard_or (workspace_name_ok name) ErrInvalidName ;;
  asks (λ db, lockAndRequirePermission db workspaceID actor PermissionManageWorkspace) ;;
  pg_text name ;;
  set_workspace workspaceID (λ w, w <| w_name := name |>).

(** With the trigger [validate_workspace_owner_change]. *)
Definition open_in (db : WDB) (workspaceID memberID : string) : bool :=
  match w_members db !! memberID with
  | Some m => bool_decide (m_workspace m = workspaceID) && bool_decide (m_left m = None)
  | None => false
  end.
Definition set_owner (workspaceID memberID : string) : wtx Workspace :=
  db ← tables;
  guard_or (is_owner db workspaceID memberID || open_in db workspaceID memberID)
    (DatabaseError "workspace owner must be an active membership tenure") ;;
  set_workspace workspaceID (λ w, w <| w_owner := memberID |>).
Definition TransferOwnership (workspaceID targetWorkspaceMemberID : string) (actor : Ref) : wtx Workspace :=
  asks (λ db, lockWorkspace db workspaceID) ;;
  current ← asks (λ db, activeMembership db workspaceID actor);
  guard_or (Owner current) ErrForbidden ;;
  target ← asks (λ db, membershipByID db workspaceID targetWorkspaceMemberID true);
  w ← set_owner workspaceID (WorkspaceMemberID target);
  asks (λ db, ensureEffectiveAdministrator db workspaceID) ;;
  mret w.

(** ** Closing a tenure *)

Definition open_place (workspaceID memberID : string) (p : PlaceRow) : Prop :=
  pl_workspace p = workspaceID ∧ pl_member p = memberID ∧ pl_left p = None.
#[global] Instance open_place_dec w m p : base.Decision (open_place w m p).
Proof. unfold open_place. apply _. Defined.
(** The closing time: not before the tenure nor any place tenure began. *)
Definition closure_time (dbnow : Z) (db : WDB) (workspaceID memberID : string) (m : MemberRow) : Z :=
  Z.max (Z.max dbnow (m_joined m))
    (map_fold (λ _ p t, if bool_decide (open_place workspaceID memberID p) then Z.max (pl_joined p) t else t)
       dbnow (w_places db)).
Definition close_place (workspaceID memberID : string) (leftAt : Z) (p : PlaceRow) : PlaceRow :=
  if bool_decide (open_place workspaceID memberID p) then p <| pl_left := Some leftAt |> else p.
Definition closeBoundPlaceTenures (dbnow : Z) (workspaceID memberID : string) : wtx Z :=
  db ← tables;
  match w_members db !! memberID with
  | Some m =>
      if bool_decide (m_workspace m = workspaceID) && bool_decide (m_left m = None) then
        let leftAt := closure_time dbnow db workspaceID memberID m in
        modify (λ db, db <| w_places := close_place workspaceID memberID leftAt <$> w_places db |>) ;;
        mret leftAt
      else throw (DatabaseError "no rows in result set")
  | None => throw (DatabaseError "no rows in result set")
  end.
(** [UPDATE workspace_members SET left_at]: with the triggers that protect the
    owner's tenure and ask for its places to be closed, and the CHECK. *)
Definition close_member (workspaceID memberID : string) (leftAt : Z) : wtx unit :=
  db ← tables;
  match w_members db !! memberID with
  | Some m =>
      if bool_decide (m_workspace m = workspaceID) && bool_decide (m_left m = None) then
        guard_or (forallb (λ kw, negb (bool_decide (w_owner kw.2 = memberID))) (map_to_list (w_workspaces db)))
          (DatabaseError "workspace owner membership is immutable") ;;
        guard_or (forallb (λ kp, negb (bool_decide (open_place workspaceID memberID kp.2)))
                    (map_to_list (w_places db)))
          (DatabaseError "close active place membership tenures first") ;;
        guard_or (m_joined m <=? leftAt) (DatabaseError "workspace_members_check") ;;
        modify (λ db, db <| w_members := <[memberID := m <| m_left := Some leftAt |>]> (w_members db) |>)
      else mret tt
  | None => mret tt
  end.
Definition removeMember (dbnow : Z) (workspaceID membershipID : string) (actor : Ref) : wtx Membership :=
  asks (λ db, lockAndRequirePermission db workspaceID actor PermissionManageMembers) ;;
  target ← asks (λ db, membershipByID db workspaceID membershipID true);
  guard_or (negb (Owner target)) ErrOwnerProtected ;;
  actorPermissions ← asks (λ db, permissionsFor db workspaceID actor);
  targetPermissions ← gets (λ db, permissionsForMembership db target);
  guard_or (permissionsWithin actorPermissions targetPermissions) ErrForbidden ;;
  leftAt ← closeBoundPlaceTenures dbnow workspaceID membershipID;
  close_member workspaceID membershipID leftAt ;;
  asks (λ db, ensureEffectiveAdministrator db workspaceID) ;;
  mret target.
Definition Leave (dbnow : Z) (workspaceID : string) (actor : Ref) : wtx unit :=
  asks (λ db, lockWorkspace db workspaceID) ;;
  membership ← asks (λ db, activeMembership db workspaceID actor);
  guard_or (negb (Owner membership)) ErrOwnerProtected ;;
  leftAt ← closeBoundPlaceTenures dbnow workspaceID (WorkspaceMemberID membership);
  close_member workspaceID (WorkspaceMemberID membership) leftAt ;;
  asks (λ db, ensureEffectiveAdministrator db workspaceID) ;;
  mret tt.

(** ** Roles *)

Definition role_of (db : WDB) (roleID : string) (row : RoleRow) : Role :=
  mkRole roleID (r_workspace row) (r_name row) (default "" (r_color row)) (r_position row)
    (normalizePermissions (r_permissions row)) (appCapabilitiesForRole db (r_workspace row) roleID)
    (r_created_at row).
Definition role_capabilities (r : Role) : PermissionSet :=
  EffectiveCapabilities (RolePermissions r) (RoleAppCapabilities r).
Definition roleByID (db : WDB) (workspaceID roleID : string) : res werr Role :=
  if negb (isCanonicalUUIDv7 workspaceID) || negb (isCanonicalUUIDv7 roleID) then Err ErrRoleNotFound
  else match w_roles db !! roleID with
  | Some row =>
      if bool_decide (r_workspace row = workspaceID) then Ok (role_of db roleID row) else Err ErrRoleNotFound
  | None => Err ErrRoleNotFound
  end.
Definition rolesForMembership (db : WDB) (workspaceID membershipID : string) : gmap string Role :=
  list_to_map (omap (λ r,
    match w_roles db !! r with
    | Some row => if bool_decide (r_workspace row = workspaceID) then Some (r, role_of db r row) else None
    | None => None
    end) (assigned_roles db workspaceID membershipID)).
Definition Roles (db : WDB) (workspaceID : string) (actor : Ref) : res werr (list Role) :=
  _ ← activeMembership db workspaceID actor;
  Ok (omap (λ r, role_of db r <$> w_roles db !! r)
        (merge_sort (role_le db)
           (filter (λ r, r_workspace <$> w_roles db !! r = Some workspaceID)
              ((map_to_list (w_roles db)).*1)))).

Record resolvedAppCapability := mkResolved { rc_id : string; rc_ref : string; rc_effective : bool }.
Record resolvedRoleCapabilitySet := mkResolvedSet {
  rs_platform : PermissionSet; rs_app : list resolvedAppCapability }.
Definition appSet (set : resolvedRoleCapabilitySet) : gmap string bool :=
  list_to_map (reverse ((λ c, (rc_ref c, rc_effective c)) <$> rs_app set)).
Definition set_effective (set : resolvedRoleCapabilitySet) : PermissionSet :=
  EffectiveCapabilities (rs_platform set) (appSet set).

Definition bytes_le (a b : string) : Prop := String.compare a b ≠ Gt.
#[global] Instance bytes_le_dec : RelDecision bytes_le.
Proof. intros a b. unfold bytes_le. apply _. Defined.
Definition requestedAppCapabilityRefs (input : gmap string bool) : res werr (list string) :=
  let asked := (filter (λ kv, kv.2 = true ∧ isKnownPermission kv.1 = false) (map_to_list input)).*1 in
  if forallb appCapabilityRefPattern asked then Ok (merge_sort bytes_le asked)
  else Err ErrInvalidPermission.
Definition resolveActiveAppCapability (db : WDB) (ref : string) : res werr resolvedAppCapability :=
  match head (filter (λ kc, c_ref kc.2 = ref ∧ c_retired kc.2 = None) (map_to_list (w_catalog db))) with
  | Some (id, _) => Ok (mkResolved id ref true)
  | None => Err ErrInvalidPermission
  end.
Definition storedRoleAppCapabilities (db : WDB) (workspaceID roleID : string)
    : gmap string resolvedAppCapability :=
  list_to_map ((λ x, (g_ref x.2.1, mkResolved x.1 (g_ref x.2.1) (effective x.2.1 x.2.2)))
    <$> role_grants db workspaceID roleID).
(** A reference the role already has keeps its identity; a new one must be
    active in the catalog. *)
Fixpoint resolve_refs (db : WDB) (existing : gmap string resolvedAppCapability) (refs : list string)
    : res werr (list resolvedAppCapability) :=
  match refs with
  | [] => Ok []
  | ref :: refs =>
      c ← match existing !! ref with
          | Some preserved => Ok preserved
          | None => resolveActiveAppCapability db ref
          end;
      rest ← resolve_refs db existing refs;
      Ok (c :: rest)
  end.
Definition resolveRoleCapabilities (db : WDB) (input : gmap string bool)
    : res werr resolvedRoleCapabilitySet :=
  refs ← requestedAppCapabilityRefs input;
  app ← resolve_refs db ∅ refs;
  Ok (mkResolvedSet (normalizePermissions input) app).
Definition resolveRoleCapabilitiesForUpdate (db : WDB) (role : Role) (input : gmap string bool)
    : res werr resolvedRoleCapabilitySet :=
  refs ← requestedAppCapabilityRefs input;
  app ← resolve_refs db (storedRoleAppCapabilities db (RoleWorkspaceID role) (RoleID role)) refs;
  Ok (mkResolvedSet (normalizePermissions input) app).

Definition delete_grants (workspaceID roleID : string) (G : gmap (string * string) Grant)
    : gmap (string * string) Grant :=
  filter (λ kg, ¬ (kg.1.1 = roleID ∧ g_workspace kg.2 = workspaceID)) G.
Definition role_in (db : WDB) (workspaceID roleID : string) : bool :=
  bool_decide (r_workspace <$> w_roles db !! roleID = Some workspaceID).
(** With the primary key, the unique reference per role and the foreign keys
    to the role and the catalog. *)
Definition insert_grant (workspaceID roleID : string) (c : resolvedAppCapability) : wtx unit :=
  db ← tables;
  guard_or (bool_decide (w_grants db !! (roleID, rc_id c) = None)
            && forallb (λ kg : (string * string) * Grant,
                 negb (bool_decide (kg.1.1 = roleID) && bool_decide (g_ref kg.2 = rc_ref c)))
                 (map_to_list (w_grants db)))
    (UniqueViolation "workspace_role_app_capability_grants") ;;
  guard_or (role_in db workspaceID roleID && bool_decide (c_ref <$> w_catalog db !! rc_id c = Some (rc_ref c)))
    (DatabaseError "workspace_role_app_capability_capability_id_capability_ref_fkey") ;;
  modify (λ db, db <| w_grants := <[(roleID, rc_id c) := mkGrant workspaceID (rc_ref c)]> (w_grants db) |>).
Definition replaceRoleAppCapabilities (workspaceID roleID : string) (l : list resolvedAppCapability)
    : wtx unit :=
  modify (λ db, db <| w_grants := delete_grants workspaceID roleID (w_grants db) |>) ;;
  for_each l (insert_grant workspaceID roleID).

Definition lower_hex_color (s : string) : bool :=
  match s with
  | String "#" t => (String.length t =? 6) && all_chars isLowerHex t
  | _ => false
  end.
Definition validateRolePresentation (name color : string) : res werr unit :=
  if (RuneCountInString name <? 1) || (maxRoleNameChars <? RuneCountInString name) then Err ErrInvalidName
  else if negb (bool_decide (color = "")) && negb (lower_hex_color color) then Err ErrInvalidColor
  else Ok tt.
Definition validateRolePosition (position : option Z) : res werr unit :=
  match position with
  | Some n => if (n <? 0) || (maxRolePosition <? n) then Err ErrInvalidPosition else Ok tt
  | None => Ok tt
  end.
Definition nullableColor (color : string) : option string :=
  if bool_decide (color = "") then None else Some color.
(** Names are unique in a workspace. *)
Definition role_name_free (db : WDB) (roleID workspaceID name : string) : bool :=
  forallb (λ kr, bool_decide (kr.1 = roleID)
     || negb (bool_decide (r_workspace kr.2 = workspaceID) && bool_decide (r_name kr.2 = name)))
    (map_to_list (w_roles db)).

Definition CreateRoleWithPosition (now : Z) (roleID : string) (workspaceID : string) (actor : Ref)
    (name color : string) (permissions : gmap string bool) (position : option Z) : wtx Role :=
  let name := strings_TrimSpace name in
  lift (validateRolePresentation name color) ;;
  lift (validateRolePosition position) ;;
  asks (λ db, lockWorkspace db workspaceID) ;;
  requested ← asks (λ db, resolveRoleCapabilities db permissions);
  authority ← asks (λ db, roleMutationAuthority db workspaceID actor);
  guard_or (Owner authority.1
            || bool_decide (PermissionManageRoles ∈ authority.2)
               && permissionsWithin authority.2 (set_effective requested)) ErrForbidden ;;
  pg_text name ;;
  new_id roleID ;;
  db ← tables;
  guard_or (bool_decide (w_roles db !! roleID = None) && role_name_free db roleID workspaceID name)
    ErrRoleNameTaken ;;
  let row := mkRoleRow workspaceID name (nullableColor color) (default 0 position)
    (gset_to_gmap true (rs_platform requested)) now in
  modify (λ db, db <| w_roles := <[roleID:=row]> (w_roles db) |>) ;;
  replaceRoleAppCapabilities workspaceID roleID (rs_app requested) ;;
  mret (mkRole roleID workspaceID name color (default 0 position) (rs_platform requested)
          (appSet requested) now).

Definition UpdateRoleWithPosition (workspaceID roleID : string) (actor : Ref)
    (name color : string) (permissions : gmap string bool) (position : option Z) : wtx Role :=
  let name := strings_TrimSpace name in
  lift (validateRolePresentation name color) ;;
  lift (validateRolePosition position) ;;
  asks (λ db, lockWorkspace db workspaceID) ;;
  previous ← asks (λ db, roleByID db workspaceID roleID);
  requested ← asks (λ db, resolveRoleCapabilitiesForUpdate db previous permissions);
  authority ← asks (λ db, roleMutationAuthority db workspaceID actor);
  guard_or (Owner authority.1
            || bool_decide (PermissionManageRoles ∈ authority.2)
               && permissionsWithin authority.2 (role_capabilities previous)
               && permissionsWithin authority.2 (set_effective requested)) ErrForbidden ;;
  pg_text name ;;
  db ← tables;
  guard_or (role_name_free db roleID workspaceID name) ErrRoleNameTaken ;;
  let pos := default (RolePosition previous) position in
  modify (λ db, db <| w_roles := alter (λ row,
    row <| r_name := name |> <| r_color := nullableColor color |> <| r_position := pos |>
        <| r_permissions := gset_to_gmap true (rs_platform requested) |>) roleID (w_roles db) |>) ;;
  replaceRoleAppCapabilities workspaceID roleID (rs_app requested) ;;
  asks (λ db, ensureEffectiveAdministrator db workspaceID) ;;
  mret (previous <| RoleName := name |> <| RoleColor := color |> <| RolePosition := pos |>
                 <| RolePermissions := rs_platform requested |>
                 <| RoleAppCapabilities := appSet requested |>).

(** Assignments and grants go with the role ([ON DELETE CASCADE]). *)
Definition drop_role (workspaceID roleID : string) (db : WDB) : WDB :=
  db <| w_roles := delete roleID (w_roles db) |>
     <| w_assignments := filter (λ kw, ¬ (kw.1.1 = roleID ∧ kw.2 = workspaceID)) (w_assignments db) |>
     <| w_grants := delete_grants workspaceID roleID (w_grants db) |>.
Definition DeleteRole (workspaceID roleID : string) (actor : Ref) : wtx unit :=
  asks (λ db, lockWorkspace db workspaceID) ;;
  authority ← asks (λ db, roleMutationAuthority db workspaceID actor);
  target ← asks (λ db, roleByID db workspaceID roleID);
  guard_or (Owner authority.1
            || bool_decide (PermissionManageRoles ∈ authority.2)
               && permissionsWithin authority.2 (role_capabilities target)) ErrForbidden ;;
  modify (drop_role workspaceID roleID) ;;
  asks (λ db, ensureEffectiveAdministrator db workspaceID) ;;
  mret tt.

(** Each requested role once, in the order asked for. *)
Fixpoint requested_roles (db : WDB) (workspaceID : string) (seen : gmap string Role) (l : list string)
    : res werr (gmap string Role * list string) :=
  match l with
  | [] => Ok (seen, [])
  | r :: l =>
      match seen !! r with
      | Some _ => requested_roles db workspaceID seen l
      | None =>
          role ← roleByID db workspaceID r;
          rest ← requested_roles db workspaceID (<[r:=role]> seen) l;
          Ok (rest.1, r :: rest.2)
      end
  end.
(** Every role that changes hands is within the actor's own set. *)
Definition changes_within (permissions : PermissionSet) (from to : gmap string Role) : bool :=
  forallb (λ kr : string * Role, bool_decide (is_Some (to !! kr.1))
     || permissionsWithin permissions (role_capabilities kr.2)) (map_to_list from).
Definition insert_assignment (workspaceID memberID roleID : string) : wtx unit :=
  db ← tables;
  guard_or (role_in db workspaceID roleID
            && bool_decide (m_workspace <$> w_members db !! memberID = Some workspaceID))
    (DatabaseError "workspace_role_assignments_fkey") ;;
  guard_or (bool_decide (w_assignments db !! (roleID, memberID) = None))
    (UniqueViolation "workspace_role_assignments_pkey") ;;
  modify (λ db, db <| w_assignments := <[(roleID, memberID) := workspaceID]> (w_assignments db) |>).
Definition SetMembershipRoles (workspaceID membershipID : string) (actor : Ref) (roleIDs : list string)
    : wtx (list string) :=
  asks (λ db, lockWorkspace db workspaceID) ;;
  authority ← asks (λ db, roleMutationAuthority db workspaceID actor);
  guard_or (Owner authority.1 || bool_decide (PermissionManageMembers ∈ authority.2)) ErrForbidden ;;
  asks (λ db, membershipByID db workspaceID membershipID true) ;;
  current ← gets (λ db, rolesForMembership db workspaceID membershipID);
  requested ← asks (λ db, requested_roles db workspaceID ∅ roleIDs);
  guard_or (Owner authority.1 || changes_within authority.2 current requested.1) ErrForbidden ;;
  guard_or (Owner authority.1 || changes_within authority.2 requested.1 current) ErrForbidden ;;
  modify (λ db, db <| w_assignments :=
    filter (λ kw, ¬ (kw.1.2 = membershipID ∧ kw.2 = workspaceID)) (w_assignments db) |>) ;;
  for_each requested.2 (insert_assignment workspaceID membershipID) ;;
  asks (λ db, ensureEffectiveAdministrator db workspaceID) ;;
  mret requested.2.
End library.
