(* ===== verification/WorkspaceInvites.v ===== *)
(** * Invitations

    [store.go]'s share codes and targeted invitations, [enrollment_bundle.go]
    and the enrollment grants of package [koseki] that are bound to a share
    code: issuing, revoking, redeeming and accepting. *)

From Stdlib Require Import Ascii ZArith Lia.
From stdpp Require Import sorting.
From S2P Require Import Prelude Json State WorkspaceState Workspaces.
Local Open Scope string_scope.
Local Open Scope list_scope.
Local Open Scope Z_scope.

(** Microseconds. *)
Definition defaultInviteTTL : Z := 24 * 60 * 60 * 1000000.
Definition localWorkspaceInvitationListPageSize : Z := 32.

(** What the server was wired with: the employer authority, the enrollment
    administrators, the enrollment issuer and, on the other side, the
    workspace authority. *)
Record WsConfig := mkWsConfig {
  cfg_employer : bool; cfg_admin : option (string → bool); cfg_issuer : bool; cfg_workspace : bool }.

Record Invite := mkInviteGrant {
  InviteID : string; InviteWorkspaceID : string; InviteCode : string; InviteExpiresAt : Z;
  InviteCreatedAt : Z; InviteEnrollment : option (string * string * Z) }.
Record InviteRecord := mkInviteRecord {
  IRInviteID : string; IRWorkspaceID : string; IRKind : InviteKind; IRExpiresAt : Z; IRCreatedAt : Z }.
Record InvitePreview := mkInvitePreview {
  PreviewRequiresEmail : bool; PreviewWorkspaceID : string; PreviewWorkspaceName : string;
  PreviewExpiresAt : Z }.
Record TargetedInvitation := mkTargetedInvitation {
  TIInvitationID : string; TIWorkspaceID : string; TIWorkspaceName : string; TIExpiresAt : Z;
  TICreatedAt : Z }.
Record EnrollmentRecipientProof := mkProof {
  FirebaseUID : string; ProofEmail : string; EmailVerified : bool }.

Section library.
Context `{GL : GoLib} `{WL : WsLib}.

Definition valid_ref (r : Ref) : bool := match Validate r with Ok _ => true | Err _ => false end.

(** ** Looking invitations up *)

Definition pending (i : InviteRow) : Prop := i_revoked i = None ∧ i_redeemed i = None.
#[global] Instance pending_dec i : base.Decision (pending i).
Proof.
  unfold pending. destruct (i_revoked i); [right; by intros [? _]|].
  destruct (i_redeemed i); [right; by intros [_ ?]|by left].
Defined.
Definition targets (workspaceID target : string) (i : InviteRow) : Prop :=
  i_workspace i = workspaceID ∧ i_kind i = TargetedPersonalityAgent ∧ i_target i = Some target.
#[global] Instance targets_dec w t i : base.Decision (targets w t i).
Proof. unfold targets. apply _. Defined.
Definition find_code (db : WDB) (hash : string) : option (string * InviteRow) :=
  head (filter (λ ki, i_code_hash ki.2 = Some hash) (map_to_list (w_invites db))).
Definition find_pending (db : WDB) (workspaceID target : string) : option (string * InviteRow) :=
  head (filter (λ ki, targets workspaceID target ki.2 ∧ pending ki.2) (map_to_list (w_invites db))).
(** The enrollment grant a share code is bundled with. *)
Definition bundle_of (db : WDB) (inviteID : string) : option (string * EnrollRow) :=
  head (filter (λ ke, e_invite ke.2 = Some inviteID) (map_to_list (w_enrollments db))).

Definition record_of (id : string) (i : InviteRow) : InviteRecord :=
  mkInviteRecord id (i_workspace i) (i_kind i) (i_expires i) (i_created i).

(** With the primary key, the unique code, one pending invitation for a
    target, the issuer's foreign key and the target's. *)
Definition insert_invite (id : string) (i : InviteRow) : wtx unit :=
  new_id id ;;
  db ← tables;
  guard_or (bool_decide (w_invites db !! id = None)
            && match i_code_hash i with
               | Some h => negb (bool_decide (is_Some (find_code db h)))
               | None => true
               end
            && match i_target i with
               | Some t => negb (bool_decide (is_Some (find_pending db (i_workspace i) t)))
               | None => true
               end) (UniqueViolation "workspace_invites") ;;
  guard_or (bool_decide (m_workspace <$> w_members db !! i_created_by i = Some (i_workspace i)))
    (DatabaseError "workspace_invites_created_by_fkey") ;;
  guard_or match i_target i with Some t => bool_decide (is_Some (w_agents db !! t)) | None => true end
    (DatabaseError "workspace_invites_target_id_fkey") ;;
  modify (λ db, db <| w_invites := <[id:=i]> (w_invites db) |>).
Definition update_invite (id : string) (f : InviteRow → InviteRow) : wtx unit :=
  modify (λ db, db <| w_invites := alter f id (w_invites db) |>).
Definition revoke (at_ : Z) (i : InviteRow) : InviteRow :=
  i <| i_revoked := Some (default at_ (i_revoked i)) |>.
Definition revoke_enrollment (at_ : Z) (e : EnrollRow) : EnrollRow :=
  if bool_decide (e_consumed e = None) then e <| e_revoked := Some (default at_ (e_revoked e)) |> else e.
Definition revoke_linked (dbnow : Z) (inviteID : string) (e : EnrollRow) : EnrollRow :=
  if bool_decide (e_invite e = Some inviteID) then revoke_enrollment dbnow e else e.
Definition revoke_bundle (dbnow : Z) (inviteID : string) : wtx unit :=
  modify (λ db, db <| w_enrollments := revoke_linked dbnow inviteID <$> w_enrollments db |>).

(** ** Issuing *)

(** The plaintext code comes from the server's random source. *)
Definition CreateInvite (now : Z) (inviteID code : string) (workspaceID : string) (actor : Ref)
    : wtx Invite :=
  issuer ← asks (λ db, lockAndRequirePermission db workspaceID actor PermissionManageMembers);
  insert_invite inviteID
    (mkInvite workspaceID issuer (Some (sha256_hex code)) (now + defaultInviteTTL) None None now
       ShareCode None None) ;;
  mret (mkInviteGrant inviteID workspaceID code (now + defaultInviteTTL) now None).

(** [koseki.RequireCurrentHumanEmployerInTx] *)
Definition RequireCurrentHumanEmployerInTx (db : WDB) (humanID agentID : string) : res werr unit :=
  if bool_decide (w_employer db !! agentID = Some (KindHuman, humanID)) then Ok tt else Err ErrForbidden.
Definition current_agent_ok (cfg : WsConfig) (actor target : Ref) (db : WDB) : res werr unit :=
  if negb (bool_decide (ref_kind actor = KindHuman)) || negb (bool_decide (ref_kind target = KindPersonalityAgent))
     || negb (valid_ref actor) || negb (valid_ref target)
  then Err ErrInvalidInvite
  else if negb (cfg_employer cfg) then Err ErrInviteAuthorityUnavailable
  else RequireCurrentHumanEmployerInTx db (ref_id actor) (ref_id target).

(** [UPDATE … SET revoked_at] of the target's expired pending invitations. *)
Definition close_expired (now : Z) (workspaceID target : string) (i : InviteRow) : InviteRow :=
  if bool_decide (targets workspaceID target i ∧ pending i) && (i_expires i <=? now)
  then i <| i_revoked := Some now |> else i.
(** The insertion, which does nothing on a pending row of the same target; the
    pending row is then answered. *)
Definition insert_targeted (now : Z) (inviteID workspaceID issuer target : string)
    : wtx (InviteRecord * bool) :=
  db ← tables;
  match find_pending db workspaceID target with
  | None =>
      let i := mkInvite workspaceID issuer None (now + defaultInviteTTL) None None now
        TargetedPersonalityAgent (Some target) None in
      insert_invite inviteID i ;; mret (record_of inviteID i, true)
  | Some (id, i) =>
      asks (λ db, requireInviteIssuerAuthority db workspaceID (i_created_by i)) ;;
      mret (record_of id i, false)
  end.
Definition CreateCurrentAgentInvite (cfg : WsConfig) (now : Z) (inviteID : string) (workspaceID : string)
    (actor target : Ref) : wtx (InviteRecord * bool) :=
  asks (current_agent_ok cfg actor target) ;;
  issuer ← asks (λ db, lockAndRequirePermission db workspaceID actor PermissionManageMembers);
  already ← gets (λ db, activeMembershipExists db workspaceID target);
  guard_or (negb already) ErrAlreadyMember ;;
  modify (λ db, db <| w_invites := close_expired now workspaceID (ref_id target) <$> w_invites db |>) ;;
  db ← tables;
  match find_pending db workspaceID (ref_id target) with
  | None => insert_targeted now inviteID workspaceID issuer (ref_id target)
  | Some (id, i) =>
      match requireInviteIssuerAuthority db workspaceID (i_created_by i) with
      | Ok _ => mret (record_of id i, false)
      | Err ErrInviteUnavailable =>
          update_invite id (λ i, i <| i_revoked := Some now |>) ;;
          insert_targeted now inviteID workspaceID issuer (ref_id target)
      | Err e => throw e
      end
  end.
Definition CurrentAgentInvite (cfg : WsConfig) (now : Z) (workspaceID : string) (actor target : Ref) (db : WDB)
    : res werr InviteRecord :=
  _ ← current_agent_ok cfg actor target db;
  _ ← lockAndRequirePermission db workspaceID actor PermissionManageMembers;
  if activeMembershipExists db workspaceID target then Err ErrAlreadyMember
  else match find_pending db workspaceID (ref_id target) with
  | Some (id, i) =>
      if now <? i_expires i
      then _ ← requireInviteIssuerAuthority db workspaceID (i_created_by i); Ok (record_of id i)
      else Err ErrInviteUnavailable
  | None => Err ErrInviteUnavailable
  end.

(** ** Listing *)

Definition invite_le (a b : string * InviteRow) : Prop :=
  i_created a.2 < i_created b.2 ∨ i_created a.2 = i_created b.2 ∧ text_le a.1 b.1 = true.
#[global] Instance invite_le_dec : RelDecision invite_le.
Proof. intros a b. unfold invite_le. apply _. Defined.
Fixpoint authorised (db : WDB) (workspaceID : string) (l : list (string * InviteRow))
    : res werr (list InviteRecord) :=
  match l with
  | [] => Ok []
  | (id, i) :: l =>
      match requireInviteIssuerAuthority db workspaceID (i_created_by i) with
      | Ok _ => rest ← authorised db workspaceID l; Ok (record_of id i :: rest)
      | Err ErrInviteUnavailable => authorised db workspaceID l
      | Err e => Err e
      end
  end.
Definition Invites (now : Z) (workspaceID : string) (actor : Ref) (db : WDB) : res werr (list InviteRecord) :=
  _ ← lockAndRequirePermission db workspaceID actor PermissionManageMembers;
  authorised db workspaceID (merge_sort invite_le
    (filter (λ ki, i_workspace ki.2 = workspaceID ∧ pending ki.2 ∧ now < i_expires ki.2)
       (map_to_list (w_invites db)))).

Definition PreviewInvite (now : Z) (code : string) (db : WDB) : res werr InvitePreview :=
  if bool_decide (code = "") || (128 <? String.length code) then Err ErrInviteUnavailable
  else match find_code db (sha256_hex code) with
  | Some (id, i) =>
      match w_workspaces db !! i_workspace i with
      | Some w =>
          if bool_decide (pending i) && (now <? i_expires i) then
            Ok (mkInvitePreview
                  (match bundle_of db id with
                   | Some (_, e) => bool_decide (e_email e ≠ None) && bool_decide (i_reserved i = None)
                   | None => false
                   end) (i_workspace i) (w_name w) (i_expires i))
          else Err ErrInviteUnavailable
      | None => Err ErrInviteUnavailable
      end
  | None => Err ErrInviteUnavailable
  end.

(** [targetedInvitationPageFor]: the issuer is still a member who owns the
    workspace or has [manage_members] in an assigned role, and the target is
    not a member yet. *)
Definition issuer_stands (db : WDB) (i : InviteRow) : bool :=
  match w_members db !! i_created_by i with
  | Some m =>
      bool_decide (m_workspace m = i_workspace i) && bool_decide (m_left m = None)
      && (is_owner db (i_workspace i) (i_created_by i)
          || existsb (λ r, match w_roles db !! r with
                 | Some row => bool_decide (r_workspace row = i_workspace i)
                               && bool_decide (r_permissions row !! PermissionManageMembers = Some true)
                 | None => false
                 end) (assigned_roles db (i_workspace i) (i_created_by i)))
  | None => false
  end.
Definition offered (now : Z) (db : WDB) (target : string) (i : InviteRow) : bool :=
  bool_decide (i_kind i = TargetedPersonalityAgent ∧ i_target i = Some target) && bool_decide (pending i)
  && (now <? i_expires i)
  && negb (activeMembershipExists db (i_workspace i) (PersonalityAgent target)) && issuer_stands db i.
Definition inviteid_le (a b : TargetedInvitation) : Prop := text_le (TIInvitationID a) (TIInvitationID b) = true.
#[global] Instance inviteid_le_dec : RelDecision inviteid_le.
Proof. intros a b. unfold inviteid_le. apply _. Defined.
Definition targetedInvitationPageFor (now : Z) (target : Ref) (after : option string) (db : WDB)
    : res werr (list TargetedInvitation * bool) :=
  if negb (bool_decide (ref_kind target = KindPersonalityAgent)) || negb (valid_ref target)
  then Err ErrInviteUnavailable
  else if match after with Some a => negb (isCanonicalUUIDv7 a) | None => false end
  then Err ErrInvalidWorkspaceInvitationListCursor
  else
    let rows := omap (λ ki : string * InviteRow,
      if offered now db (ref_id target) ki.2 then
        (λ w, mkTargetedInvitation ki.1 (i_workspace ki.2) (w_name w) (i_expires ki.2) (i_created ki.2))
          <$> w_workspaces db !! i_workspace ki.2
      else None) (map_to_list (w_invites db)) in
    let items := take (Z.to_nat (localWorkspaceInvitationListPageSize + 1))
      (merge_sort inviteid_le (filter (λ t, after_id after (TIInvitationID t)) rows)) in
    Ok (take (Z.to_nat localWorkspaceInvitationListPageSize) items,
        localWorkspaceInvitationListPageSize <? length items).

(** ** Redeeming a share code *)

(** Whom a bundled code may let in: the human its enrollment reserved it for,
    or, while the enrollment is open, whoever can prove its address. *)
Definition requireBundleRecipient (dbnow : Z) (inviteID : string) (i : InviteRow) (actor : Ref)
    (proof : EnrollmentRecipientProof) (db : WDB) : res werr unit :=
  match bundle_of db inviteID with
  | None => Ok tt
  | Some (_, e) =>
      if negb (bool_decide (ref_kind actor = KindHuman)) || negb (dbnow <? e_expires e)
      then Err ErrInviteUnavailable
      else match i_reserved i with
      | Some h =>
          if bool_decide (h = ref_id actor) && bool_decide (snd <$> e_consumed e = Some (ref_id actor))
          then Ok tt else Err ErrInviteUnavailable
      | None =>
          if bool_decide (e_revoked e ≠ None) || bool_decide (e_consumed e ≠ None)
          then Err ErrInviteUnavailable
          else match e_email e with
          | None | Some "" => Ok tt
          | Some email =>
              if EmailVerified proof && bool_decide (ProofEmail proof = email)
                 && negb (bool_decide (FirebaseUID proof = ""))
                 && bool_decide ((FirebaseUID proof, ref_id actor) ∈ w_credentials db)
              then Ok tt else Err ErrInviteEmailVerification
          end
      end
  end.
(** [finishShareInvite] with [closeBundleEnrollment]. *)
Definition redeem (actor : Ref) (memberID : string) (now : Z) (i : InviteRow) : InviteRow :=
  i <| i_redeemed := Some (mkRedemption actor memberID now) |>.
(** The redemption columns refer to a tenure of the redeemer. *)
Definition redeem_invite (id : string) (actor : Ref) (memberID : string) (now : Z) : wtx unit :=
  db ← tables;
  match w_invites db !! id with
  | Some i =>
      guard_or (bool_decide (m_workspace <$> w_members db !! memberID = Some (i_workspace i))
                && bool_decide (m_ref <$> w_members db !! memberID = Some actor))
        (DatabaseError "workspace_invites_redeemed_fkey") ;;
      update_invite id (redeem actor memberID now)
  | None => mret tt
  end.
Definition reserve_invite (id : string) (humanID : string) : wtx unit :=
  db ← tables;
  guard_or (bool_decide (is_Some (w_humans db !! humanID)))
    (DatabaseError "workspace_invites_reserved_human_id_fkey") ;;
  update_invite id (λ i, i <| i_reserved := Some humanID |>).
Definition finishShareInvite (dbnow now : Z) (inviteID : string) (actor : Ref) (memberID : string) : wtx unit :=
  redeem_invite inviteID actor memberID now ;;
  revoke_bundle dbnow inviteID ;;
  db ← tables;
  match bundle_of db inviteID with
  | Some _ => reserve_invite inviteID (ref_id actor)
  | None => mret tt
  end.
Definition closePendingTargetedInvitesForParticipant (workspaceID : string) (target : Ref) (closedAt : Z)
    (except : option string) : wtx unit :=
  modify (λ db, db <| w_invites := map_imap (λ id i, Some
    (if bool_decide (ref_kind target = KindPersonalityAgent)
        && bool_decide (targets workspaceID (ref_id target) i ∧ pending i)
        && negb (bool_decide (except = Some id))
     then i <| i_revoked := Some closedAt |> else i)) (w_invites db) |>).
Definition on_unique {A} (e : werr) (m : wtx A) : wtx A := λ db,
  match m db with Err (UniqueViolation _) => Err e | r => r end.
(** A new tenure, without roles. *)
Definition join_workspace (now : Z) (memberID workspaceID : string) (actor : Ref) : wtx Membership :=
  name ← asks (λ db, resolveParticipantDisplayName db actor);
  on_unique ErrAlreadyMember (insert_member memberID (mkMember workspaceID actor now None)) ;;
  mret (mkMembership memberID workspaceID actor name false [] now None).

Definition lock_invite_workspace (workspaceID : string) (db : WDB) : res werr unit :=
  match lockWorkspace db workspaceID with
  | Err ErrNotFound => Err ErrInviteUnavailable
  | r => r
  end.
Definition redeem_code (dbnow now : Z) (memberID : string) (inviteID : string) (i : InviteRow) (actor : Ref)
    (proof : EnrollmentRecipientProof) : wtx Membership :=
  asks (lock_invite_workspace (i_workspace i)) ;;
  match i_redeemed i with
  | Some r =>
      if bool_decide (rd_by r = actor) then asks (λ db, membershipByID db (i_workspace i) (rd_member r) false)
      else throw ErrInviteUnavailable
  | None =>
      guard_or (bool_decide (i_revoked i = None) && (now <? i_expires i)) ErrInviteUnavailable ;;
      asks (requireBundleRecipient dbnow inviteID i actor proof) ;;
      asks (λ db, requireInviteIssuerAuthority db (i_workspace i) (i_created_by i)) ;;
      db ← tables;
      if activeMembershipExists db (i_workspace i) actor then
        guard_or (bool_decide (is_Some (bundle_of db inviteID))) ErrAlreadyMember ;;
        membership ← asks (λ db, activeMembership db (i_workspace i) actor);
        finishShareInvite dbnow now inviteID actor (WorkspaceMemberID membership) ;;
        mret membership
      else
        membership ← join_workspace now memberID (i_workspace i) actor;
        closePendingTargetedInvitesForParticipant (i_workspace i) actor now None ;;
        finishShareInvite dbnow now inviteID actor memberID ;;
        mret membership
  end.
Definition RedeemInviteWithEnrollmentProof (dbnow now : Z) (memberID : string) (code : string) (actor : Ref)
    (proof : EnrollmentRecipientProof) : wtx Membership :=
  guard_or (negb (bool_decide (code = "") || (128 <? String.length code))) ErrInviteUnavailable ;;
  exists_ ← asks (λ db, Exists db actor);
  guard_or exists_ ErrInviteUnavailable ;;
  db ← tables;
  match find_code db (sha256_hex code) with
  | None => throw ErrInviteUnavailable
  | Some (id, i) => redeem_code dbnow now memberID id i actor proof
  end.

(** ** Accepting a targeted invitation *)

Definition accept_invite (now : Z) (memberID : string) (invitationID : string) (i : InviteRow) (target : Ref)
    : wtx Membership :=
  asks (lock_invite_workspace (i_workspace i)) ;;
  match i_redeemed i with
  | Some r =>
      if bool_decide (rd_by r = target) then
        membership ← asks (λ db, membershipByID db (i_workspace i) (rd_member r) false);
        guard_or (bool_decide (Participant membership = target)) ErrInviteUnavailable ;;
        name ← asks (λ db, resolveParticipantDisplayName db target);
        mret (membership <| DisplayName := name |>)
      else throw ErrInviteUnavailable
  | None =>
      guard_or (bool_decide (i_revoked i = None) && (now <? i_expires i)) ErrInviteUnavailable ;;
      asks (λ db, requireInviteIssuerAuthority db (i_workspace i) (i_created_by i)) ;;
      already ← gets (λ db, activeMembershipExists db (i_workspace i) target);
      guard_or (negb already) ErrAlreadyMember ;;
      membership ← join_workspace now memberID (i_workspace i) target;
      closePendingTargetedInvitesForParticipant (i_workspace i) target now (Some invitationID) ;;
      db ← tables;
      guard_or match w_invites db !! invitationID with Some i => bool_decide (pending i) | None => false end
        ErrInviteUnavailable ;;
      redeem_invite invitationID target memberID now ;;
      mret membership
  end.
Definition AcceptTargetedInvitation (now : Z) (memberID : string) (invitationID : string) (target : Ref)
    : wtx Membership :=
  guard_or (isCanonicalUUIDv7 invitationID && bool_decide (ref_kind target = KindPersonalityAgent)
            && valid_ref target) ErrInviteUnavailable ;;
  db ← tables;
  match w_invites db !! invitationID with
  | Some i =>
      if bool_decide (i_kind i = TargetedPersonalityAgent) && bool_decide (i_target i = Some (ref_id target))
      then accept_invite now memberID invitationID i target
      else throw ErrInviteUnavailable
  | None => throw ErrInviteUnavailable
  end.

(** ** Revoking *)

Definition RevokeInvite (dbnow now : Z) (workspaceID inviteID : string) (actor : Ref) : wtx unit :=
  guard_or (isCanonicalUUIDv7 inviteID) ErrInviteUnavailable ;;
  asks (λ db, lockAndRequirePermission db workspaceID actor PermissionManageMembers) ;;
  db ← tables;
  guard_or (bool_decide (i_workspace <$> w_invites db !! inviteID = Some workspaceID)) ErrInviteUnavailable ;;
  update_invite inviteID (revoke now) ;;
  revoke_bundle dbnow inviteID.

(** ** Enrollment *)

Definition is_at (c : ascii) : bool := Ascii.eqb c "@".
Fixpoint count_char (f : ascii → bool) (s : string) : Z :=
  match s with EmptyString => 0 | String c s => (if f c then 1 else 0) + count_char f s end.
Fixpoint cut_at (s : string) : string * string :=
  match s with
  | EmptyString => ("", "")
  | String c s => if is_at c then ("", s) else let p := cut_at s in (String c p.1, p.2)
  end.
Definition to_lower (c : ascii) : ascii :=
  if byte_in 65 90 c then Ascii.ascii_of_nat (Ascii.nat_of_ascii c + 32) else c.
Fixpoint map_chars (f : ascii → ascii) (s : string) : string :=
  match s with EmptyString => EmptyString | String c s => String (f c) (map_chars f s) end.
Definition NormalizeEmail (raw : string) : option string :=
  let raw := strings_TrimSpace raw in
  let p := cut_at raw in
  if (String.length raw <? 3) || (320 <? String.length raw) || negb (count_char is_at raw =? 1) then None
  else if negb (all_chars (byte_in 33 126) raw) then None
  else if bool_decide (p.1 = "") || bool_decide (p.2 = "") || HasPrefix p.2 "."
          || bool_decide (str_drop (String.length p.2 - 1) p.2 = ".")
          || bool_decide (cut_dot p.2 = None) then None
  else Some (map_chars to_lower raw).

Definition Minute_us : Z := 60 * 1000000.
(** The token's random bytes are drawn by the server; [token] stands for them
    and for the base64url text that carries them, the hash is taken of the
    bytes. *)
Definition IssueEnrollmentInviteInTx (txnow dbnow : Z) (enrollmentID token : string) (issuer email : string)
    (ttl : Z) : wtx (string * EnrollRow) :=
  guard_or (negb ((ttl <? Minute_us) || (30 * 24 * 60 * Minute_us <? ttl))) ErrEnrollmentInvite ;;
  email ← (if bool_decide (email = "") then mret None
           else match NormalizeEmail email with
                | Some e => mret (Some e)
                | None => throw ErrEnrollmentInvite
                end);
  new_id enrollmentID ;;
  db ← tables;
  guard_or (bool_decide (w_enrollments db !! enrollmentID = None)
            && forallb (λ ke, negb (bool_decide (e_token_hash ke.2 = sha256_hex token)))
                 (map_to_list (w_enrollments db))) (UniqueViolation "enrollment_invites") ;;
  guard_or (bool_decide (is_Some (w_humans db !! issuer))) (DatabaseError "enrollment_invites_issued_by_fkey") ;;
  let e := mkEnroll (sha256_hex token) (Some issuer) email txnow (dbnow + ttl) None None None in
  modify (λ db, db <| w_enrollments := <[enrollmentID:=e]> (w_enrollments db) |>) ;;
  mret (enrollmentID, e).
Definition IssueEnrollmentInvite := IssueEnrollmentInviteInTx.

Definition CreateEnrollmentBundle (cfg : WsConfig) (txnow dbnow : Z) (inviteID code enrollmentID token : string)
    (workspaceID : string) (actor : Ref) (email : string) : wtx Invite :=
  guard_or (bool_decide (ref_kind actor = KindHuman) && cfg_issuer cfg
            && match cfg_admin cfg with Some admin => admin (ref_id actor) | None => false end) ErrForbidden ;;
  member ← asks (λ db, lockAndRequirePermission db workspaceID actor PermissionManageMembers);
  ie ← (λ db, match IssueEnrollmentInviteInTx txnow dbnow enrollmentID token (ref_id actor) email
                      defaultInviteTTL db with
              | Err ErrEnrollmentInvite => Err ErrInvalidEnrollmentInvitation
              | r => r
              end);
  insert_invite inviteID (mkInvite workspaceID member (Some (sha256_hex code)) (e_expires ie.2) None None
    (e_created ie.2) ShareCode None None) ;;
  modify (λ db, db <| w_enrollments := alter (λ e, e <| e_invite := Some inviteID |>) ie.1 (w_enrollments db) |>) ;;
  mret (mkInviteGrant inviteID workspaceID code (e_expires ie.2) (e_created ie.2)
          (Some (ie.1, token, e_expires ie.2))).

Definition LockEnrollmentWorkspaceInvite (db : WDB) (inviteID : string) : res werr unit :=
  match w_invites db !! inviteID with
  | Some i => lockWorkspace db (i_workspace i)
  | None => Err (DatabaseError "no rows in result set")
  end.
Definition ValidateEnrollmentWorkspaceInvite (dbnow : Z) (db : WDB) (inviteID : string) : res werr unit :=
  match w_invites db !! inviteID with
  | Some i =>
      if bool_decide (pending i) && bool_decide (i_reserved i = None) && (dbnow <? i_expires i)
      then requireInviteIssuerAuthority db (i_workspace i) (i_created_by i)
      else Err ErrInviteUnavailable
  | None => Err (DatabaseError "no rows in result set")
  end.
Definition lockEnrollmentWorkspace (cfg : WsConfig) (dbnow : Z) (enrollmentID : string) (validate : bool)
    (db : WDB) : res werr (option string) :=
  match w_enrollments db !! enrollmentID with
  | None => Err ErrEnrollmentInvite
  | Some e =>
      match e_invite e with
      | None => Ok None
      | Some inviteID =>
          if negb (cfg_workspace cfg) then Err ErrEnrollmentInvite
          else match LockEnrollmentWorkspaceInvite db inviteID with
          | Err _ => Err ErrEnrollmentInvite
          | Ok _ =>
              if validate then
                match ValidateEnrollmentWorkspaceInvite dbnow db inviteID with
                | Err _ => Err ErrEnrollmentInvite
                | Ok _ => Ok (Some inviteID)
                end
              else Ok (Some inviteID)
          end
      end
  end.
Definition RevokeEnrollmentInvite (cfg : WsConfig) (dbnow : Z) (id : string) : wtx unit :=
  linked ← asks (lockEnrollmentWorkspace cfg dbnow id false);
  db ← tables;
  guard_or (bool_decide (linked ≠ None) || bool_decide (e_consumed <$> w_enrollments db !! id = Some None))
    ErrEnrollmentInvite ;;
  modify (λ db, db <| w_enrollments := alter (revoke_enrollment dbnow) id (w_enrollments db) |>) ;;
  match linked with
  | Some inviteID =>
      update_invite inviteID (λ i, if bool_decide (i_redeemed i = None) then revoke dbnow i else i)
  | None => mret tt
  end.

(** What the sign-up proved about the person's address. *)
Record VerifiedIdentity := mkIdentity { NormalizedEmail : string; IdentityEmailVerified : bool }.
Definition checkEnrollmentInviteProof (cfg : WsConfig) (dbnow : Z) (enrollmentID : string)
    (identity : VerifiedIdentity) (db : WDB) : res werr unit :=
  if bool_decide (enrollmentID = "") then Err ErrEnrollmentInvite
  else
    _ ← lockEnrollmentWorkspace cfg dbnow enrollmentID true db;
    match w_enrollments db !! enrollmentID with
    | Some e =>
        if bool_decide (e_revoked e = None) && bool_decide (e_consumed e = None) then
          if negb (dbnow <? e_expires e) then Err ErrEnrollmentInvite
          else match e_email e with
          | None | Some "" => Ok tt
          | Some email =>
              if negb (bool_decide (NormalizedEmail identity = email)) then Err ErrEnrollmentEmailMismatch
              else if negb (IdentityEmailVerified identity) then Err ErrEnrollmentEmailUnverified
              else Ok tt
          end
        else Err ErrEnrollmentInvite
    | None => Err ErrEnrollmentInvite
    end.
Definition consumeEnrollmentInvite (cfg : WsConfig) (dbnow : Z) (enrollmentID : string)
    (identity : VerifiedIdentity) (humanID : string) : wtx unit :=
  asks (checkEnrollmentInviteProof cfg dbnow enrollmentID identity) ;;
  db ← tables;
  guard_or (bool_decide (is_Some (w_humans db !! humanID))) (DatabaseError "enrollment_invites_consumed_by_fkey") ;;
  match w_enrollments db !! enrollmentID with
  | Some e =>
      guard_or (dbnow <? e_expires e) ErrEnrollmentInvite ;;
      modify (λ db, db <| w_enrollments := <[enrollmentID := e <| e_consumed := Some (dbnow, humanID) |>]>
                            (w_enrollments db) |>) ;;
      match e_invite e with
      | Some inviteID => reserve_invite inviteID humanID
      | None => mret tt
      end
  | None => throw ErrEnrollmentInvite
  end.
End library.
