(* ===== verification/WorkspaceFacts.v ===== *)
(** * What a workspace keeps

    The invariant of the workspace tables, the order along which they may
    change, and the proof that every operation keeps the one and moves along
    the other. *)

From Stdlib Require Import Ascii ZArith Lia.
From stdpp Require Import sorting.
From S2P Require Import Prelude Json State WorkspaceState Workspaces WorkspaceInvites.
Local Open Scope string_scope.
Local Open Scope list_scope.
Local Open Scope Z_scope.

(** ** Selections *)

Section head_filter.
Context {A : Type} (P : string * A → Prop) {Pdec : ∀ x, base.Decision (P x)}.
Lemma head_filter_Some (T : gmap string A) k x :
  head (filter P (map_to_list T)) = Some (k, x) → T !! k = Some x ∧ P (k, x).
Proof.
  intros H. assert ((k, x) ∈ filter P (map_to_list T)) as [HP Hin]%list_elem_of_filter.
  { destruct (filter P (map_to_list T)); [done|]. injection H as ->. left. }
  by apply elem_of_map_to_list in Hin.
Qed.
Lemma head_filter_None (T : gmap string A) :
  head (filter P (map_to_list T)) = None → ∀ k x, T !! k = Some x → ¬ P (k, x).
Proof.
  intros H k x Hk HP. assert ((k, x) ∈ filter P (map_to_list T)) as Hin.
  { apply list_elem_of_filter. split; [done|]. by apply elem_of_map_to_list. }
  destruct (filter P (map_to_list T)); [by apply not_elem_of_nil in Hin|done].
Qed.
Lemma head_filter_is_Some (T : gmap string A) k x :
  T !! k = Some x → P (k, x) → is_Some (head (filter P (map_to_list T))).
Proof.
  intros Hk HP. destruct (head _) eqn:H; [by eexists|]. by destruct (head_filter_None T H k x).
Qed.
End head_filter.

Lemma find_tenure_Some db w ref id m :
  find_tenure db w ref = Some (id, m) → w_members db !! id = Some m ∧ open_tenure w ref m.
Proof. intros H%head_filter_Some. done. Qed.
Lemma find_tenure_None db w ref id m :
  find_tenure db w ref = None → w_members db !! id = Some m → ¬ open_tenure w ref m.
Proof. intros H Hm. by apply (head_filter_None _ _ H id m Hm). Qed.
Lemma tenure_exists db w ref id m :
  w_members db !! id = Some m → open_tenure w ref m → activeMembershipExists db w ref = true.
Proof. intros H Ho. apply bool_decide_eq_true_2. by apply (head_filter_is_Some _ _ id m). Qed.

Lemma assigned_spec db w i r : r ∈ assigned_roles db w i ↔ w_assignments db !! (r, i) = Some w.
Proof.
  unfold assigned_roles. rewrite list_elem_of_omap. split.
  - intros ([[r' i'] w'] & Hin & H). simpl in H. apply elem_of_map_to_list in Hin.
    destruct (bool_decide (i' = i)) eqn:E1; [|done]. destruct (bool_decide (w' = w)) eqn:E2; [|done].
    reflect_bools. naive_solver.
  - intros H. exists ((r, i), w). split; [by apply elem_of_map_to_list|]. simpl.
    by rewrite !bool_decide_eq_true_2.
Qed.

Lemma role_grants_spec db w r c g cap :
  (c, (g, cap)) ∈ role_grants db w r ↔
  w_grants db !! (r, c) = Some g ∧ g_workspace g = w ∧ w_catalog db !! c = Some cap.
Proof.
  unfold role_grants. rewrite list_elem_of_omap. split.
  - intros ([[r' c'] g'] & Hin & H). simpl in H. apply elem_of_map_to_list in Hin.
    destruct (bool_decide (r' = r)) eqn:E1; [|done].
    destruct (bool_decide (g_workspace g' = w)) eqn:E2; [|done]. reflect_bools. simpl in H.
    destruct (w_catalog db !! c') eqn:Hc; naive_solver.
  - intros (Hg & Hw & Hc). exists ((r, c), g). split; [by apply elem_of_map_to_list|]. simpl.
    rewrite !bool_decide_eq_true_2 by done. simpl. by rewrite Hc.
Qed.

(** An app capability a role gives: a grant whose exact catalog identity is
    still active. *)
Definition gives_ref (db : WDB) (w r x : string) : Prop :=
  ∃ c g cap, w_grants db !! (r, c) = Some g ∧ g_workspace g = w ∧ w_catalog db !! c = Some cap
    ∧ effective g cap = true ∧ x = g_ref g.
Lemma role_refs_spec db w r x : x ∈ role_refs db w r ↔ gives_ref db w r x.
Proof.
  unfold role_refs, gives_ref. rewrite elem_of_list_to_set, list_elem_of_omap. split.
  - intros ((c & g & cap) & Hin & H). simpl in H. apply role_grants_spec in Hin as (? & ? & ?).
    destruct (effective g cap) eqn:?; [|done]. injection H as <-. naive_solver.
  - intros (c & g & cap & Hg & Hw & Hc & He & ->). exists (c, (g, cap)).
    split; [by apply role_grants_spec|]. simpl. by rewrite He.
Qed.
Lemma active_refs_spec db x :
  x ∈ active_refs db ↔ ∃ c cap, w_catalog db !! c = Some cap ∧ c_retired cap = None ∧ c_ref cap = x.
Proof.
  unfold active_refs. rewrite list_elem_of_omap. split.
  - intros ([c cap] & Hin & H). simpl in H. apply elem_of_map_to_list in Hin.
    destruct (bool_decide _) eqn:E; [|done]. reflect_bools. naive_solver.
  - intros (c & cap & Hc & Hr & <-). exists (c, cap). split; [by apply elem_of_map_to_list|]. simpl.
    by rewrite bool_decide_eq_true_2.
Qed.

Lemma normalize_spec input x :
  x ∈ normalizePermissions input ↔ x ∈ knownPermissions ∧ input !! x = Some true.
Proof. unfold normalizePermissions. rewrite elem_of_list_to_set, list_elem_of_filter. tauto. Qed.

(** What an assigned role contributes, and what a tenure may do. *)
Definition gives (db : WDB) (w r x : string) : Prop :=
  x ∈ role_permissions db w r ∨ gives_ref db w r x.
Definition may (db : WDB) (w i x : string) : Prop :=
  if is_owner db w i then x ∈ knownPermissions ∨ x ∈ active_refs db
  else ∃ r, w_assignments db !! (r, i) = Some w ∧ gives db w r x.
Lemma permissions_spec db ms x :
  Owner ms = is_owner db (MemberWorkspaceID ms) (WorkspaceMemberID ms) →
  x ∈ permissionsForMembership db ms ↔ may db (MemberWorkspaceID ms) (WorkspaceMemberID ms) x.
Proof.
  intros Ho. unfold permissionsForMembership, may. rewrite Ho.
  destruct (is_owner _ _ _).
  - rewrite elem_of_union. unfold allPermissions. by rewrite !elem_of_list_to_set.
  - rewrite elem_of_union_list. split.
    + intros (X & (r & -> & Hr)%list_elem_of_fmap & Hx). exists r. split; [by apply assigned_spec|].
      apply elem_of_union in Hx as [?|?]; [by left|right]. by apply role_refs_spec.
    + intros (r & Hr & Hx). eexists. split; [apply list_elem_of_fmap; exists r; split; [done|]|].
      { by apply assigned_spec. }
      apply elem_of_union. destruct Hx; [by left|right]. by apply role_refs_spec.
Qed.

(** ** The invariant *)

Section facts.
Context `{GL : GoLib} `{WL : WsLib}.

(** An enrollment and the share code bundled with it agree on the person. *)
Definition linked (e : EnrollRow) (i : InviteRow) : Prop :=
  match e_consumed e with
  | Some (_, h) => i_reserved i = Some h ∧ ∀ r, i_redeemed i = Some r → rd_by r = Human h
  | None => ∀ h, i_reserved i = Some h → rd_by <$> i_redeemed i = Some (Human h)
  end.

Record ws_ok (db : WDB) : Prop := {
  wo_owner w W : w_workspaces db !! w = Some W →
    ∃ m, w_members db !! w_owner W = Some m ∧ m_workspace m = w ∧ m_left m = None;
  wo_member i m : w_members db !! i = Some m →
    is_Some (w_workspaces db !! m_workspace m) ∧ registered db (m_ref m) = true
    ∧ isCanonicalUUIDv7 i = true;
  wo_tenure i j m n : w_members db !! i = Some m → w_members db !! j = Some n →
    m_left m = None → m_left n = None → m_workspace m = m_workspace n → m_ref m = m_ref n → i = j;
  wo_left i m t : w_members db !! i = Some m → m_left m = Some t → m_joined m ≤ t;
  wo_place k p : w_places db !! k = Some p → pl_left p = None →
    ∃ m, w_members db !! pl_member p = Some m ∧ m_workspace m = pl_workspace p ∧ m_left m = None;
  wo_role r row : w_roles db !! r = Some row → is_Some (w_workspaces db !! r_workspace row);
  wo_name r s x y : w_roles db !! r = Some x → w_roles db !! s = Some y →
    r_workspace x = r_workspace y → r_name x = r_name y → r = s;
  wo_assign r i w : w_assignments db !! (r, i) = Some w →
    r_workspace <$> w_roles db !! r = Some w ∧ m_workspace <$> w_members db !! i = Some w;
  wo_grant r c g : w_grants db !! (r, c) = Some g →
    r_workspace <$> w_roles db !! r = Some (g_workspace g)
    ∧ c_ref <$> w_catalog db !! c = Some (g_ref g);
  wo_grant_ref r c d g h : w_grants db !! (r, c) = Some g → w_grants db !! (r, d) = Some h →
    g_ref g = g_ref h → c = d;
  wo_catalog c d x y : w_catalog db !! c = Some x → w_catalog db !! d = Some y →
    c_retired x = None → c_retired y = None → c_ref x = c_ref y → c = d;
  wo_invite k i : w_invites db !! k = Some i →
    m_workspace <$> w_members db !! i_created_by i = Some (i_workspace i)
    ∧ match i_kind i with
      | ShareCode => is_Some (i_code_hash i) ∧ i_target i = None
      | TargetedPersonalityAgent => i_code_hash i = None ∧ is_Some (i_target i)
      end;
  wo_redeemed k i r : w_invites db !! k = Some i → i_redeemed i = Some r →
    m_workspace <$> w_members db !! rd_member r = Some (i_workspace i)
    ∧ m_ref <$> w_members db !! rd_member r = Some (rd_by r)
    ∧ (∀ t, i_target i = Some t → rd_by r = PersonalityAgent t);
  wo_code k l i j h : w_invites db !! k = Some i → w_invites db !! l = Some j →
    i_code_hash i = Some h → i_code_hash j = Some h → k = l;
  wo_pending k l i j t : w_invites db !! k = Some i → w_invites db !! l = Some j →
    i_workspace i = i_workspace j → i_target i = Some t → i_target j = Some t →
    pending i → pending j → k = l;
  wo_bundle c d e f k : w_enrollments db !! c = Some e → w_enrollments db !! d = Some f →
    e_invite e = Some k → e_invite f = Some k → c = d;
  wo_linked c e k : w_enrollments db !! c = Some e → e_invite e = Some k →
    ∃ i, w_invites db !! k = Some i ∧ i_kind i = ShareCode ∧ linked e i
}.

(** ** The order of change *)

Record member_hist (m n : MemberRow) : Prop := {
  mh_same : m_workspace n = m_workspace m ∧ m_ref n = m_ref m ∧ m_joined n = m_joined m;
  mh_left t : m_left m = Some t → m_left n = Some t
}.
Record invite_hist (i j : InviteRow) : Prop := {
  ih_same : i_workspace j = i_workspace i ∧ i_created_by j = i_created_by i
    ∧ i_code_hash j = i_code_hash i ∧ i_expires j = i_expires i ∧ i_created j = i_created i
    ∧ i_kind j = i_kind i ∧ i_target j = i_target i;
  ih_redeemed r : i_redeemed i = Some r → i_redeemed j = Some r;
  ih_revoked t : i_revoked i = Some t → i_revoked j = Some t;
  ih_reserved h : i_reserved i = Some h → i_reserved j = Some h
}.
Record enroll_hist (e f : EnrollRow) : Prop := {
  eh_same : e_token_hash f = e_token_hash e ∧ e_email f = e_email e ∧ e_expires f = e_expires e;
  eh_revoked t : e_revoked e = Some t → e_revoked f = Some t;
  eh_consumed x : e_consumed e = Some x → e_consumed f = Some x;
  eh_invite k : e_invite e = Some k → e_invite f = Some k
}.
#[global] Instance member_hist_preorder : PreOrder member_hist.
Proof. split; [by constructor|]. intros a b c [? ?] [? ?]. constructor; [naive_solver congruence|eauto]. Qed.
#[global] Instance invite_hist_preorder : PreOrder invite_hist.
Proof.
  split; [by constructor|].
  intros a b c [? ? ? ?] [? ? ? ?]. constructor; [naive_solver congruence|eauto..].
Qed.
#[global] Instance enroll_hist_preorder : PreOrder enroll_hist.
Proof.
  split; [by constructor|].
  intros a b c [? ? ? ?] [? ? ? ?]. constructor; [naive_solver congruence|eauto..].
Qed.

(** Every row of a table stays, changed along [R] at most. *)
Definition grows {A} (R : A → A → Prop) (T T' : gmap string A) : Prop :=
  ∀ k x, T !! k = Some x → ∃ y, T' !! k = Some y ∧ R x y.
#[global] Instance grows_preorder {A} (R : A → A → Prop) `{!PreOrder R} : PreOrder (grows R).
Proof.
  split.
  - intros T k x Hx. by exists x.
  - intros T1 T2 T3 H1 H2 k x Hx. destruct (H1 k x Hx) as (y & Hy & Hxy).
    destruct (H2 k y Hy) as (z & Hz & Hyz). exists z. split; [done|by etrans].
Qed.

Record ws_hist (db db' : WDB) : Prop := {
  wh_workspaces : grows (λ v w, w_created_at w = w_created_at v) (w_workspaces db) (w_workspaces db');
  wh_members : grows member_hist (w_members db) (w_members db');
  wh_invites : grows invite_hist (w_invites db) (w_invites db');
  wh_enrollments : grows enroll_hist (w_enrollments db) (w_enrollments db')
}.
#[global] Instance created_preorder :
  PreOrder (λ v w : Workspace, w_created_at w = w_created_at v).
Proof. split; [done|]. intros a b c ? ?. congruence. Qed.
#[global] Instance ws_hist_preorder : PreOrder ws_hist.
Proof.
  split; [constructor; reflexivity|]. intros a b c [] []. by constructor; etrans.
Qed.

(** The two together, as a relation transactions move along. *)
Definition keeps (db db' : WDB) : Prop := ws_ok db → ws_ok db' ∧ ws_hist db db'.
#[global] Instance keeps_preorder : PreOrder keeps.
Proof.
  split.
  - intros db H. split; [done|reflexivity].
  - intros a b c H1 H2 Ha. destruct (H1 Ha) as [Hb ?]. destruct (H2 Hb) as [? ?].
    split; [done|by etrans].
Qed.
End facts.
