(* ===== verification/WorkspaceSteps.v ===== *)
(** * Every operation keeps the workspace invariant

    One lemma for each write, then one for each operation, along [keeps]. *)

From Stdlib Require Import Ascii ZArith Lia.
From stdpp Require Import sorting.
From S2P Require Import Prelude Json State WorkspaceState Workspaces WorkspaceInvites WorkspaceFacts.
Local Open Scope string_scope.
Local Open Scope list_scope.
Local Open Scope Z_scope.

(** ** Tables *)

Lemma insert_fresh_lookup {A} (T : gmap string A) id a k x :
  T !! id = None → T !! k = Some x → <[id:=a]> T !! k = Some x.
Proof. intros H1 H2. rewrite lookup_insert_ne; [done|]. by intros ->; simplify_eq. Qed.
Lemma insert_fresh_fmap {A B} (f : A → B) (T : gmap string A) id a k b :
  T !! id = None → f <$> T !! k = Some b → f <$> <[id:=a]> T !! k = Some b.
Proof.
  intros H1 (x & Hx & ->)%fmap_Some. by rewrite (insert_fresh_lookup T id a k x).
Qed.
Lemma insert_same_fmap {A B} (f : A → B) (T : gmap string A) id a0 a k :
  T !! id = Some a0 → f a = f a0 → f <$> <[id:=a]> T !! k = f <$> T !! k.
Proof.
  intros H1 H2. destruct (decide (k = id)) as [->|Hn].
  - rewrite lookup_insert_eq, H1. simpl. by rewrite H2.
  - by rewrite lookup_insert_ne.
Qed.
Lemma alter_fmap {A B} (f : A → B) (g : A → A) (T : gmap string A) id k :
  (∀ a, f (g a) = f a) → f <$> alter g id T !! k = f <$> T !! k.
Proof.
  intros H. destruct (decide (k = id)) as [->|Hn].
  - rewrite lookup_alter_eq. destruct (T !! id); simpl; [by rewrite H|done].
  - by rewrite lookup_alter_ne.
Qed.
Lemma grows_insert_fresh {A} (R : A → A → Prop) `{!PreOrder R} (T : gmap string A) id a :
  T !! id = None → grows R T (<[id:=a]> T).
Proof. intros H k x Hx. exists x. split; [by apply insert_fresh_lookup|reflexivity]. Qed.
Lemma grows_insert {A} (R : A → A → Prop) `{!PreOrder R} (T : gmap string A) id a0 a :
  T !! id = Some a0 → R a0 a → grows R T (<[id:=a]> T).
Proof.
  intros H HR k x Hx. destruct (decide (k = id)) as [->|Hn].
  - exists a. rewrite lookup_insert_eq. split; [done|by simplify_eq].
  - exists x. rewrite lookup_insert_ne by done. split; [done|reflexivity].
Qed.
Lemma grows_fmap {A} (R : A → A → Prop) (f : A → A) (T : gmap string A) :
  (∀ k a, T !! k = Some a → R a (f a)) → grows R T (f <$> T).
Proof. intros H k x Hx. exists (f x). rewrite lookup_fmap, Hx. split; [done|by eapply H]. Qed.
Lemma grows_alter {A} (R : A → A → Prop) `{!PreOrder R} (f : A → A) (T : gmap string A) id :
  (∀ a, T !! id = Some a → R a (f a)) → grows R T (alter f id T).
Proof.
  intros H k x Hx. destruct (decide (k = id)) as [->|Hn].
  - exists (f x). rewrite lookup_alter_eq, Hx. split; [done|by apply H].
  - exists x. rewrite lookup_alter_ne by done. split; [done|reflexivity].
Qed.
Lemma alter_insert_Some {A} (f : A → A) (T : gmap string A) k x :
  T !! k = Some x → alter f k T = <[k:=f x]> T.
Proof.
  intros Hx. apply map_eq. intros j. destruct (decide (j = k)) as [->|].
  - by rewrite lookup_alter_eq, lookup_insert_eq, Hx.
  - by rewrite lookup_alter_ne, lookup_insert_ne.
Qed.
Lemma grows_lookup {A} (R : A → A → Prop) (T T' : gmap string A) k x :
  grows R T T' → T !! k = Some x → ∃ y, T' !! k = Some y ∧ R x y.
Proof. intros H Hx. by apply H. Qed.

(** Taking an inserted or altered row apart. *)
Ltac inv_row :=
  repeat match goal with
  | H : <[_:=_]> _ !! _ = Some _ |- _ => apply lookup_insert_Some in H as [[<- <-]|[? H]]
  | H : alter _ _ _ !! _ = Some _ |- _ =>
      apply lookup_alter_Some in H as [(<- & ? & ? & ->)|[? H]]
  | H : (_ <$> _) !! _ = Some _ |- _ => rewrite lookup_fmap in H; apply fmap_Some in H as (? & ? & ->)
  end.

Lemma asks_ok {A} (f : WDB → res werr A) db a db' :
  asks f db = Ok (a, db') → f db = Ok a ∧ db' = db.
Proof. unfold asks. destruct (f db); [|done]. by intros [= -> ->]. Qed.
Lemma tables_bind {A} (k : WDB → wtx A) db : (tables ≫= k) db = k db db.
Proof. done. Qed.

(** [inv_ws] is [inv_tx] for transactions that read the tables they are in. *)
Ltac inv_ws_step :=
  match goal with
  | H : (tables ≫= _) _ = Ok _ |- _ => rewrite tables_bind in H
  | H : asks _ _ = Ok _ |- _ => apply asks_ok in H as [? ->]
  | H : pg_text _ _ = Ok _ |- _ => unfold pg_text in H
  | H : new_id _ _ = Ok _ |- _ => unfold new_id in H
  | H : Err _ ≫= _ = Ok _ |- _ => discriminate H
  | _ => inv_tx_step
  end.
Ltac inv_ws := repeat (inv_ws_step; simpl in *).
Ltac grow L := apply L; [typeclasses eauto|try done..].

Section steps.
Context `{GL : GoLib} `{WL : WsLib}.

Lemma steps_asks R `{!PreOrder R} {A} (f : WDB → res werr A) : steps R (asks f).
Proof. intros db a db' [_ ->]%asks_ok. reflexivity. Qed.
Lemma steps_tables R `{!PreOrder R} : steps R tables.
Proof. apply steps_gets. typeclasses eauto. Qed.
Lemma steps_pg_text R `{!PreOrder R} s : steps R (pg_text s).
Proof. apply steps_guard. typeclasses eauto. Qed.
Lemma steps_new_id R `{!PreOrder R} s : steps R (new_id s).
Proof. apply steps_guard. typeclasses eauto. Qed.

(** ** Tenures *)

Lemma new_member_keeps id m db :
  registered db (m_ref m) = true → is_Some (w_workspaces db !! m_workspace m) →
  w_members db !! id = None → activeMembershipExists db (m_workspace m) (m_ref m) = false →
  isCanonicalUUIDv7 id = true → m_left m = None →
  keeps db (db <| w_members := <[id:=m]> (w_members db) |>).
Proof.
  intros Hr Hw Hf Hn Hc Hl Hok. assert (∀ j n, w_members db !! j = Some n → m_left n = None →
    m_workspace n = m_workspace m → m_ref n = m_ref m → False) as Hone.
  { intros j n Hj H1 H2 H3. assert (activeMembershipExists db (m_workspace m) (m_ref m) = true); [|congruence].
    by apply (tenure_exists _ _ _ j n). }
  split; [|constructor; simpl; [reflexivity|grow @grows_insert_fresh|reflexivity..]].
  destruct Hok; constructor; simpl; try assumption.
  - intros w W HW. destruct (wo_owner w W HW) as (n & Hn' & ?). exists n.
    by rewrite (insert_fresh_lookup _ id m _ n).
  - intros i n Hi. inv_row; [done|by eapply wo_member].
  - intros i j n n' Hi Hj ? ? Hww Hrr. inv_row; [done|..].
    + exfalso. by eapply (Hone i n).
    + exfalso. by eapply (Hone j n').
    + by eapply wo_tenure.
  - intros i n t Hi Ht. inv_row; [congruence|by eapply wo_left].
  - intros k p Hp Hpl. destruct (wo_place k p Hp Hpl) as (n & ? & ?). exists n.
    by rewrite (insert_fresh_lookup _ id m _ n).
  - intros r i w Hi. destruct (wo_assign r i w Hi) as [? ?]. split; [done|]. by apply insert_fresh_fmap.
  - intros k i Hi. destruct (wo_invite k i Hi) as [? ?]. split; [|done]. by apply insert_fresh_fmap.
  - intros k i r Hi Hd. destruct (wo_redeemed k i r Hi Hd) as (? & ? & ?).
    split_and!; [by apply insert_fresh_fmap..|done].
Qed.
Lemma insert_member_keeps id m : m_left m = None → steps keeps (insert_member id m).
Proof.
  intros Hl db u db' H. unfold insert_member, new_id, tables in H. inv_tx. reflect_bools.
  by apply new_member_keeps.
Qed.

Lemma CreateWorkspace_keeps now wid mid name creator : steps keeps (CreateWorkspace now wid mid name creator).
Proof.
  intros db W db' H Hok. unfold CreateWorkspace, insert_workspace, insert_member, new_id, tables, pg_text in H.
  inv_tx. repeat match goal with E : asks _ _ = Ok _ |- _ => apply asks_ok in E as [? ->] end.
  reflect_bools. simpl in *.
  set (w := mkWorkspace _ _ _ _) in *. set (m := mkMember _ _ _ _) in *.
  assert (∀ j n, w_members db !! j = Some n → m_workspace n ≠ wid) as Hfresh.
  { intros j n Hj <-. destruct (wo_member _ Hok j n Hj) as ([? ?] & _). congruence. }
  split; [|constructor; simpl; [grow @grows_insert_fresh..|reflexivity|reflexivity]].
  destruct Hok; constructor; simpl; try assumption.
  - intros w' W' HW. inv_row.
    + exists m. by rewrite lookup_insert_eq.
    + destruct (wo_owner w' W' HW) as (n & Hn' & ?). exists n. by rewrite (insert_fresh_lookup _ mid m _ n).
  - intros i n Hi. inv_row.
    + rewrite lookup_insert_eq. split_and!; [by eexists|done|done].
    + destruct (wo_member i n Hi) as ([? ?] & ? & ?). split_and!; [|done..].
      eexists. by apply insert_fresh_lookup.
  - intros i j n n' Hi Hj ? ? Hww Hrr. inv_row; [done|..].
    + by destruct (Hfresh i n).
    + by destruct (Hfresh j n').
    + by eapply wo_tenure.
  - intros i n t Hi Ht. inv_row; [done|by eapply wo_left].
  - intros k p Hp Hpl. destruct (wo_place k p Hp Hpl) as (n & ? & ?). exists n.
    by rewrite (insert_fresh_lookup _ mid m _ n).
  - intros r row Hr. destruct (wo_role r row Hr) as [? ?]. eexists. by apply insert_fresh_lookup.
  - intros r i w' Hi. destruct (wo_assign r i w' Hi) as [? ?]. split; [done|]. by apply insert_fresh_fmap.
  - intros k i Hi. destruct (wo_invite k i Hi) as [? ?]. split; [|done]. by apply insert_fresh_fmap.
  - intros k i r Hi Hd. destruct (wo_redeemed k i r Hi Hd) as (? & ? & ?).
    split_and!; [by apply insert_fresh_fmap..|done].
Qed.

(** A change to workspace rows that leaves their owners open tenures. *)
Lemma workspace_row_keeps w W W' db :
  w_workspaces db !! w = Some W → w_created_at W' = w_created_at W →
  (w_owner W' = w_owner W ∨ open_in db w (w_owner W') = true) →
  keeps db (db <| w_workspaces := <[w:=W']> (w_workspaces db) |>).
Proof.
  intros HW Hc Ho Hok. assert (∀ v, is_Some (w_workspaces db !! v) → is_Some (<[w:=W']> (w_workspaces db) !! v)) as Hs.
  { intros v [? ?]. destruct (decide (v = w)) as [->|]; [rewrite lookup_insert_eq; by eexists|].
    rewrite lookup_insert_ne by done. by eexists. }
  split; [|constructor; simpl; [by eapply (grows_insert _)|reflexivity..]].
  destruct Hok; constructor; simpl; try assumption.
  - intros v V HV. inv_row; [|by apply wo_owner]. destruct Ho as [->|Ho]; [by apply wo_owner|].
    unfold open_in in Ho. destruct (w_members db !! w_owner W') as [m|] eqn:Hm; [|done]. reflect_bools. eauto.
  - intros i m Hi. destruct (wo_member i m Hi) as (? & ? & ?). eauto.
  - intros r row Hr. eauto.
Qed.
Lemma set_workspace_keeps w f :
  (∀ W, w_owner (f W) = w_owner W ∧ w_created_at (f W) = w_created_at W) → steps keeps (set_workspace w f).
Proof.
  intros Hf db W db' H. unfold set_workspace, tables in H. inv_tx.
  eapply workspace_row_keeps; [done|by apply Hf|left; by apply Hf].
Qed.
Lemma set_owner_keeps w i : steps keeps (set_owner w i).
Proof.
  intros db W db' H. unfold set_owner, set_workspace, tables in H. inv_tx.
  eapply workspace_row_keeps; [done|done|]. simpl.
  match goal with E : _ || _ = true |- _ => apply orb_true_iff in E as [E|E]; [left|by right] end.
  unfold is_owner in *. match goal with E : w_workspaces _ !! _ = Some _ |- _ => rewrite E in * end.
  by reflect_bools.
Qed.

Lemma close_place_open w i t p : pl_left (close_place w i t p) = None → close_place w i t p = p.
Proof. unfold close_place. by destruct (bool_decide (open_place w i p)). Qed.
Lemma close_places_keeps dbnow w i : steps keeps (closeBoundPlaceTenures dbnow w i).
Proof.
  intros db t db' H. unfold closeBoundPlaceTenures, tables in H. inv_tx.
  intros Hok. split; [|constructor; simpl; reflexivity].
  destruct Hok; constructor; simpl; try assumption.
  intros k p Hp Hl. inv_row. apply close_place_open in Hl as Heq. rewrite Heq in Hl |- *. by eapply wo_place.
Qed.
Lemma close_member_keeps w i t : steps keeps (close_member w i t).
Proof.
  intros db u db' H. unfold close_member in H. rewrite tables_bind in H.
  destruct (w_members db !! i) as [n|] eqn:Hn; [|inv_tx; reflexivity].
  destruct (_ && _) eqn:Hw; [|inv_tx; reflexivity]. inv_tx. reflect_bools.
  set (n' := n <| m_left := Some t |>). intros Hok.
  assert (∀ j, m_workspace <$> <[i:=n']> (w_members db) !! j = m_workspace <$> w_members db !! j) as Hws
    by (intros; by eapply insert_same_fmap).
  assert (∀ j, m_ref <$> <[i:=n']> (w_members db) !! j = m_ref <$> w_members db !! j) as Href
    by (intros; by eapply insert_same_fmap).
  repeat match goal with E : forallb _ _ = true |- _ => rewrite forallb_forall in E end.
  assert (∀ v V, w_workspaces db !! v = Some V → w_owner V ≠ i) as Hno.
  { intros v V HV <-.
    match goal with E : ∀ x, In x (map_to_list (w_workspaces db)) → _ |- _ => specialize (E (v, V)) as Hx end.
    rewrite <-list_elem_of_In, elem_of_map_to_list in Hx. specialize (Hx HV). simpl in Hx.
    by rewrite bool_decide_eq_true_2 in Hx. }
  assert (∀ k p, w_places db !! k = Some p → ¬ open_place w i p) as Hnp.
  { intros k p Hp Ho.
    match goal with E : ∀ x, In x (map_to_list (w_places db)) → _ |- _ => specialize (E (k, p)) as Hx end.
    rewrite <-list_elem_of_In, elem_of_map_to_list in Hx. specialize (Hx Hp). simpl in Hx.
    by rewrite bool_decide_eq_true_2 in Hx. }
  split; [|constructor; simpl; [reflexivity| |reflexivity..]].
  2:{ eapply (grows_insert _); [done|]. constructor; [done|]. intros ? ?. congruence. }
  destruct Hok; constructor; simpl; try assumption.
  - intros v V HV. destruct (wo_owner v V HV) as (m & ? & ?). exists m.
    rewrite lookup_insert_ne; [done|]. intros Heq. by apply (Hno v V HV).
  - intros j m Hj. inv_row; [by apply (wo_member i n)|by apply (wo_member j m)].
  - intros j k m m' Hj Hk ? ? ? ?. inv_row; try done. by eapply wo_tenure.
  - intros j m s Hj Hs. inv_row; [simpl in Hs; simplify_eq; done|by eapply wo_left].
  - intros k p Hp Hl. destruct (wo_place k p Hp Hl) as (m & Hm & Hm' & ?). exists m.
    rewrite lookup_insert_ne; [done|]. intros ->. simplify_eq. by apply (Hnp k p Hp).
  - intros r j v Hj. rewrite Hws. by apply wo_assign.
  - intros k j Hj. rewrite Hws. by apply (wo_invite k).
  - intros k j r Hj Hd. rewrite Hws, Href. by apply (wo_redeemed k).
Qed.

(** ** Roles *)

Lemma forallb_table `{Countable K} {A} (f : K * A → bool) (T : gmap K A) k x :
  forallb f (map_to_list T) = true → T !! k = Some x → f (k, x) = true.
Proof.
  rewrite forallb_forall. intros Hf Hk. apply Hf, list_elem_of_In. by apply elem_of_map_to_list.
Qed.
Lemma name_free db r w name s row :
  role_name_free db r w name = true → w_roles db !! s = Some row → r_workspace row = w →
  r_name row = name → s = r.
Proof.
  intros H Hs Hw Hn. apply (forallb_table _ _ s row H) in Hs. simpl in Hs.
  rewrite (bool_decide_eq_true_2 (r_workspace row = w)), (bool_decide_eq_true_2 (r_name row = name)) in Hs by done.
  apply orb_true_iff in Hs as [?|?]; [by reflect_bools|done].
Qed.

Lemma role_row_keeps r row db :
  is_Some (w_workspaces db !! r_workspace row) →
  role_name_free db r (r_workspace row) (r_name row) = true →
  (w_roles db !! r = None ∨ r_workspace <$> w_roles db !! r = Some (r_workspace row)) →
  keeps db (db <| w_roles := <[r:=row]> (w_roles db) |>).
Proof.
  intros Hw Hfree Hr Hok. split; [|constructor; simpl; reflexivity].
  assert (∀ s w, r_workspace <$> w_roles db !! s = Some w →
    r_workspace <$> <[r:=row]> (w_roles db) !! s = Some w) as Hs.
  { intros s w Hs. destruct Hr as [Hr|(old & Hr & Hold)%fmap_Some]; [by apply insert_fresh_fmap|].
    by rewrite (insert_same_fmap _ _ _ old). }
  destruct Hok; constructor; simpl; try assumption.
  - intros s x Hx. inv_row; [done|by eapply wo_role].
  - intros s t x y Hx Hy Hww Hnn. inv_row; [done|..].
    + by eapply (name_free db r _ _ s x Hfree).
    + symmetry. by eapply (name_free db r _ _ t y Hfree).
    + by eapply wo_name.
  - intros s i w Hi. destruct (wo_assign s i w Hi). eauto.
  - intros s c g Hg. destruct (wo_grant s c g Hg). eauto.
Qed.

Lemma delete_grants_lookup w r G k g :
  delete_grants w r G !! k = Some g ↔ G !! k = Some g ∧ ¬ (k.1 = r ∧ g_workspace g = w).
Proof. unfold delete_grants. apply map_lookup_filter_Some. Qed.
Lemma delete_grants_keeps w r db :
  keeps db (db <| w_grants := delete_grants w r (w_grants db) |>).
Proof.
  intros Hok. split; [|constructor; simpl; reflexivity].
  destruct Hok; constructor; simpl; try assumption.
  - intros s c g [Hg _]%delete_grants_lookup. by apply wo_grant.
  - intros s c d g h [Hg _]%delete_grants_lookup [Hh _]%delete_grants_lookup. by eapply wo_grant_ref.
Qed.
Lemma insert_grant_keeps w r c : steps keeps (insert_grant w r c).
Proof.
  intros db u db' H. unfold insert_grant in H. rewrite tables_bind in H. inv_tx. reflect_bools.
  intros Hok. split; [|constructor; simpl; reflexivity].
  unfold role_in in *. reflect_bools.
  assert (∀ d g, w_grants db !! (r, d) = Some g → g_ref g ≠ rc_ref c) as Hne.
  { intros d g Hg Heq.
    match goal with E : forallb _ _ = true |- _ => apply (forallb_table _ _ (r, d) g E) in Hg; simpl in Hg end.
    by rewrite !bool_decide_eq_true_2 in Hg. }
  destruct Hok; constructor; simpl; try assumption.
  - intros s d g Hg. apply lookup_insert_Some in Hg as [[[= <- <-] <-]|[_ Hg]]; [done|by apply wo_grant].
  - intros s d e g h Hg Hh Heq.
    apply lookup_insert_Some in Hg as [[[= <- <-] <-]|[_ Hg]];
      apply lookup_insert_Some in Hh as [[Hk <-]|[_ Hh]]; simpl in Heq.
    + by injection Hk.
    + by destruct (Hne e h).
    + injection Hk as <- <-. by destruct (Hne d g).
    + by eapply wo_grant_ref.
Qed.
Lemma replace_keeps w r l : steps keeps (replaceRoleAppCapabilities w r l).
Proof.
  unfold replaceRoleAppCapabilities. apply steps_bind; [typeclasses eauto| |].
  - apply steps_modify. intros db. apply delete_grants_keeps.
  - intros _. apply steps_for_each; [typeclasses eauto|]. intros c. apply insert_grant_keeps.
Qed.

Lemma clear_assignments_keeps (P : (string * string) * string → Prop) `{!∀ x, base.Decision (P x)} db :
  keeps db (db <| w_assignments := filter P (w_assignments db) |>).
Proof.
  intros Hok. split; [|constructor; simpl; reflexivity].
  destruct Hok; constructor; simpl; try assumption.
  intros r i w [Hi _]%map_lookup_filter_Some. by apply wo_assign.
Qed.
Lemma insert_assignment_keeps w i r : steps keeps (insert_assignment w i r).
Proof.
  intros db u db' H. unfold insert_assignment in H. rewrite tables_bind in H. inv_tx. unfold role_in in *.
  reflect_bools. intros Hok. split; [|constructor; simpl; reflexivity].
  destruct Hok; constructor; simpl; try assumption.
  intros s j v Hj. apply lookup_insert_Some in Hj as [[[= <- <-] <-]|[_ Hj]]; [done|by apply wo_assign].
Qed.
Lemma drop_role_keeps w r db : r_workspace <$> w_roles db !! r = Some w → keeps db (drop_role w r db).
Proof.
  intros Hr Hok. split; [|constructor; simpl; reflexivity].
  destruct Hok; constructor; simpl; try assumption.
  - intros s row [_ Hs]%lookup_delete_Some. by eapply wo_role.
  - intros s t x y [_ Hx]%lookup_delete_Some [_ Hy]%lookup_delete_Some. by apply wo_name.
  - intros s i v [Hi Hn]%map_lookup_filter_Some. simpl in Hn. destruct (wo_assign s i v Hi) as [Hs ?].
    split; [|done]. rewrite lookup_delete_ne; [done|]. intros ->. apply Hn. split; [done|]. congruence.
  - intros s c g [Hg Hn]%delete_grants_lookup. simpl in Hn. destruct (wo_grant s c g Hg) as [Hs ?].
    split; [|done]. rewrite lookup_delete_ne; [done|]. intros ->. apply Hn. split; [done|]. congruence.
  - intros s c d g h [Hg _]%delete_grants_lookup [Hh _]%delete_grants_lookup. by eapply wo_grant_ref.
Qed.

(** ** Operations on workspaces and roles *)

#[local] Hint Resolve steps_asks steps_tables steps_pg_text steps_new_id set_owner_keeps
  close_places_keeps close_member_keeps replace_keeps insert_assignment_keeps : tx.

Lemma UpdateName_keeps w actor name : steps keeps (UpdateName w actor name).
Proof. unfold UpdateName. tx_steps. by apply set_workspace_keeps. Qed.
Lemma TransferOwnership_keeps w target actor : steps keeps (TransferOwnership w target actor).
Proof. unfold TransferOwnership. tx_steps. Qed.
Lemma removeMember_keeps dbnow w i actor : steps keeps (removeMember dbnow w i actor).
Proof. unfold removeMember. tx_steps. Qed.
Lemma Leave_keeps dbnow w actor : steps keeps (Leave dbnow w actor).
Proof. unfold Leave. tx_steps. Qed.

Lemma lockWorkspace_ok db w u : lockWorkspace db w = Ok u → is_Some (w_workspaces db !! w) ∧ isCanonicalUUIDv7 w = true.
Proof.
  unfold lockWorkspace. destruct (isCanonicalUUIDv7 w); [|done]. simpl.
  destruct (bool_decide _) eqn:E; [|done]. by reflect_bools.
Qed.
Lemma roleByID_ok db w r role :
  roleByID db w r = Ok role →
  ∃ row, w_roles db !! r = Some row ∧ r_workspace row = w ∧ role = role_of db r row.
Proof.
  unfold roleByID. destruct (_ || _); [done|]. destruct (w_roles db !! r) as [row|]; [|done].
  destruct (bool_decide _) eqn:E; [|done]. intros [= <-]. reflect_bools. eauto.
Qed.

Lemma CreateRole_keeps now r w actor name color perms pos :
  steps keeps (CreateRoleWithPosition now r w actor name color perms pos).
Proof.
  intros db role db' H. unfold CreateRoleWithPosition in H. inv_ws. reflect_bools.
  match goal with E : lockWorkspace _ _ = Ok _ |- _ => apply lockWorkspace_ok in E as [? ?] end.
  match goal with E : replaceRoleAppCapabilities _ _ _ _ = Ok _ |- _ => apply replace_keeps in E end.
  etrans; [|done]. apply role_row_keeps; [done..|by left].
Qed.
Lemma UpdateRole_keeps w r actor name color perms pos :
  steps keeps (UpdateRoleWithPosition w r actor name color perms pos).
Proof.
  intros db role db' H. unfold UpdateRoleWithPosition in H. inv_ws. reflect_bools.
  match goal with E : lockWorkspace _ _ = Ok _ |- _ => apply lockWorkspace_ok in E as [? ?] end.
  match goal with E : roleByID _ _ _ = Ok _ |- _ => apply roleByID_ok in E as (row & Hrow & Hw & ->) end.
  match goal with E : replaceRoleAppCapabilities _ _ _ _ = Ok _ |- _ => apply replace_keeps in E end.
  etrans; [|done]. rewrite (alter_insert_Some _ _ _ row) by done.
  apply role_row_keeps; simpl; [by rewrite Hw..|]. right. by rewrite Hrow.
Qed.
Lemma DeleteRole_keeps w r actor : steps keeps (DeleteRole w r actor).
Proof.
  intros db u db' H. unfold DeleteRole in H. inv_ws.
  match goal with E : roleByID _ _ _ = Ok _ |- _ => apply roleByID_ok in E as (row & Hrow & Hw & ->) end.
  apply drop_role_keeps. rewrite Hrow. by rewrite <-Hw.
Qed.
Lemma SetMembershipRoles_keeps w i actor l : steps keeps (SetMembershipRoles w i actor l).
Proof.
  unfold SetMembershipRoles. tx_steps. apply clear_assignments_keeps.
Qed.
End steps.
