(* ===== verification/InviteSteps.v ===== *)
(** * Every operation on invitations keeps the workspace invariant *)

From Stdlib Require Import Ascii ZArith Lia.
From stdpp Require Import sorting.
From S2P Require Import Prelude Json State WorkspaceState Workspaces WorkspaceInvites WorkspaceFacts WorkspaceSteps.
Local Open Scope string_scope.
Local Open Scope list_scope.
Local Open Scope Z_scope.

Section steps.
Context `{GL : GoLib} `{WL : WsLib}.

(** ** Rows *)

Lemma find_code_Some db h id i : find_code db h = Some (id, i) → w_invites db !! id = Some i ∧ i_code_hash i = Some h.
Proof. intros H%head_filter_Some. done. Qed.
Lemma find_code_None db h id i : find_code db h = None → w_invites db !! id = Some i → i_code_hash i ≠ Some h.
Proof. intros H Hi. by apply (head_filter_None _ _ H id i Hi). Qed.
Lemma find_pending_Some db w t id i :
  find_pending db w t = Some (id, i) → w_invites db !! id = Some i ∧ targets w t i ∧ pending i.
Proof. intros H%head_filter_Some. done. Qed.
Lemma find_pending_None db w t id i :
  find_pending db w t = None → w_invites db !! id = Some i → targets w t i → ¬ pending i.
Proof. intros H Hi Ht Hp. by apply (head_filter_None _ _ H id i Hi). Qed.
Lemma bundle_Some db id c e : bundle_of db id = Some (c, e) → w_enrollments db !! c = Some e ∧ e_invite e = Some id.
Proof. intros H%head_filter_Some. done. Qed.
Lemma bundle_None db id c e : bundle_of db id = None → w_enrollments db !! c = Some e → e_invite e ≠ Some id.
Proof. intros H He. by apply (head_filter_None _ _ H c e He). Qed.
Lemma share_code db k i h :
  ws_ok db → w_invites db !! k = Some i → i_code_hash i = Some h → i_kind i = ShareCode ∧ i_target i = None.
Proof.
  intros Hok Hi Hh. destruct (wo_invite _ Hok k i Hi) as [_ Hv]. destruct (i_kind i); [naive_solver|].
  destruct Hv. congruence.
Qed.

(** What identifies an invitation. *)
Definition same_invite (i j : InviteRow) : Prop :=
  i_workspace j = i_workspace i ∧ i_created_by j = i_created_by i ∧ i_code_hash j = i_code_hash i
  ∧ i_expires j = i_expires i ∧ i_created j = i_created i ∧ i_kind j = i_kind i ∧ i_target j = i_target i.

(** Any change of invitation rows that loses nothing and points at tenures
    of the redeemer, together with the enrollments bundled with them. *)
Lemma invites_enroll_keep (f : string → InviteRow → InviteRow) E' db :
  (∀ k i, w_invites db !! k = Some i → ws_ok db →
    same_invite i (f k i) ∧ invite_hist i (f k i)
    ∧ (∀ r, i_redeemed (f k i) = Some r →
         m_workspace <$> w_members db !! rd_member r = Some (i_workspace i)
         ∧ m_ref <$> w_members db !! rd_member r = Some (rd_by r)
         ∧ (∀ t, i_target i = Some t → rd_by r = PersonalityAgent t))) →
  grows enroll_hist (w_enrollments db) E' →
  (∀ c e', E' !! c = Some e' → ∃ e, w_enrollments db !! c = Some e ∧ e_invite e' = e_invite e
     ∧ ∀ k i, e_invite e = Some k → w_invites db !! k = Some i → linked e i → linked e' (f k i)) →
  keeps db (db <| w_invites := map_imap (λ k i, Some (f k i)) (w_invites db) |> <| w_enrollments := E' |>).
Proof.
  intros Hf HE HE' Hok. assert (∀ k j, map_imap (λ k i, Some (f k i)) (w_invites db) !! k = Some j →
    ∃ i, w_invites db !! k = Some i ∧ j = f k i) as Hinv.
  { intros k j H. rewrite map_lookup_imap in H. destruct (w_invites db !! k) as [i|]; [|done].
    simpl in H. exists i. by injection H as <-. }
  assert (∀ k i, w_invites db !! k = Some i → pending (f k i) → pending i) as Hpend.
  { intros k i Hi [H1 H2]. destruct (Hf k i Hi Hok) as (_ & [_ Hr Hv _] & _). split.
    - destruct (i_revoked i) eqn:E; [|done]. rewrite (Hv _ eq_refl) in H1. done.
    - destruct (i_redeemed i) eqn:E; [|done]. rewrite (Hr _ eq_refl) in H2. done. }
  split; [|constructor; simpl; [reflexivity..| |done]].
  2:{ intros k i Hi. exists (f k i). rewrite map_lookup_imap, Hi. split; [done|]. by apply Hf. }
  pose proof Hok as Hok'. destruct Hok; constructor; simpl; try assumption.
  - intros k j (i & Hi & ->)%Hinv. destruct (Hf k i Hi Hok') as ((-> & -> & -> & _ & _ & -> & ->) & _).
    by apply (wo_invite k).
  - intros k j r (i & Hi & ->)%Hinv Hr. destruct (Hf k i Hi Hok') as ((-> & _ & _ & _ & _ & _ & ->) & _ & H).
    by apply H.
  - intros k l x y h (i & Hi & ->)%Hinv (j & Hj & ->)%Hinv.
    destruct (Hf k i Hi Hok') as ((_ & _ & -> & _) & _). destruct (Hf l j Hj Hok') as ((_ & _ & -> & _) & _).
    by eapply wo_code.
  - intros k l x y t (i & Hi & ->)%Hinv (j & Hj & ->)%Hinv Hw Ht Hu Hp Hq.
    destruct (Hf k i Hi Hok') as ((Ew & _ & _ & _ & _ & _ & Et) & _).
    destruct (Hf l j Hj Hok') as ((Fw & _ & _ & _ & _ & _ & Ft) & _).
    rewrite Ew, Fw in Hw. rewrite Et in Ht. rewrite Ft in Hu. eapply wo_pending; eauto.
  - intros c d e' g' k (e & He & Ee & _)%HE' (g & Hg & Eg & _)%HE'. rewrite Ee, Eg. by eapply wo_bundle.
  - intros c e' k (e & He & Ee & H)%HE' Hk. rewrite Ee in Hk.
    destruct (wo_linked c e k He Hk) as (i & Hi & Hs & Hl).
    destruct (Hf k i Hi Hok') as ((_ & _ & _ & _ & _ & Ek & _) & _). exists (f k i).
    rewrite map_lookup_imap, Hi, Ek. split_and!; [done..|]. by apply H.
Qed.
Lemma invites_keep (f : string → InviteRow → InviteRow) db :
  (∀ k i, w_invites db !! k = Some i → ws_ok db →
    same_invite i (f k i) ∧ invite_hist i (f k i)
    ∧ (∀ r, i_redeemed (f k i) = Some r →
         m_workspace <$> w_members db !! rd_member r = Some (i_workspace i)
         ∧ m_ref <$> w_members db !! rd_member r = Some (rd_by r)
         ∧ (∀ t, i_target i = Some t → rd_by r = PersonalityAgent t))
    ∧ (∀ c e, w_enrollments db !! c = Some e → e_invite e = Some k → linked e i → linked e (f k i))) →
  keeps db (db <| w_invites := map_imap (λ k i, Some (f k i)) (w_invites db) |>).
Proof.
  intros Hf Hok. refine (invites_enroll_keep f (w_enrollments db) db _ _ _ Hok).
  - intros k i Hi Hk. destruct (Hf k i Hi Hk) as (? & ? & ? & _). done.
  - reflexivity.
  - intros c e He. exists e. split_and!; [done..|]. intros k i Hk Hi. destruct (Hf k i Hi Hok) as (_ & _ & _ & H).
    by eapply H.
Qed.
Lemma alter_imap {A} (g : A → A) id (T : gmap string A) :
  alter g id T = map_imap (λ k x, Some (if bool_decide (k = id) then g x else x)) T.
Proof.
  apply map_eq. intros k. rewrite map_lookup_imap. destruct (decide (k = id)) as [->|Hn].
  - rewrite lookup_alter_eq, bool_decide_eq_true_2 by done. by destruct (T !! id).
  - rewrite lookup_alter_ne, bool_decide_eq_false_2 by done. by destruct (T !! k).
Qed.
Lemma fmap_imap {A} (g : A → A) (T : gmap string A) : g <$> T = map_imap (λ _ x, Some (g x)) T.
Proof. apply map_eq. intros k. rewrite map_lookup_imap, lookup_fmap. by destruct (T !! k). Qed.

(** Revocation touches nothing else. *)
Definition only_revokes (i j : InviteRow) : Prop :=
  same_invite i j ∧ i_redeemed j = i_redeemed i ∧ i_reserved j = i_reserved i
  ∧ ∀ t, i_revoked i = Some t → i_revoked j = Some t.
Lemma only_revokes_refl i : only_revokes i i.
Proof. by split_and!. Qed.
Lemma revoking_keeps (f : string → InviteRow → InviteRow) db :
  (∀ k i, w_invites db !! k = Some i → only_revokes i (f k i)) →
  keeps db (db <| w_invites := map_imap (λ k i, Some (f k i)) (w_invites db) |>).
Proof.
  intros Hf. apply invites_keep. intros k i Hi Hok. destruct (Hf k i Hi) as (Hs & Hd & Hv & Hr).
  split_and!; [done| |rewrite Hd; intros r; by apply (wo_redeemed _ Hok k i r)|].
  - constructor; [done|by rewrite Hd|done|by rewrite Hv].
  - intros c e _ _ Hl. unfold linked. by rewrite Hd, Hv.
Qed.
Lemma update_revoking id g db :
  (∀ i, w_invites db !! id = Some i → only_revokes i (g i)) →
  keeps db (db <| w_invites := alter g id (w_invites db) |>).
Proof.
  intros Hg. rewrite alter_imap. apply revoking_keeps. intros k i Hi.
  destruct (bool_decide (k = id)) eqn:E; [|apply only_revokes_refl]. reflect_bools. subst. by apply Hg.
Qed.
Lemma revoke_only now i : only_revokes i (revoke now i).
Proof. unfold revoke. split_and!; try done. intros t Ht. simpl. by rewrite Ht. Qed.
Lemma revoke_pending now i : pending i → only_revokes i (i <| i_revoked := Some now |>).
Proof. intros [Hp _]. split_and!; try done. congruence. Qed.
Lemma close_expired_only now w t i : only_revokes i (close_expired now w t i).
Proof.
  unfold close_expired. destruct (_ && _) eqn:E; [|apply only_revokes_refl]. reflect_bools.
  apply revoke_pending. naive_solver.
Qed.

Lemma closePending_keeps w t at_ except : steps keeps (closePendingTargetedInvitesForParticipant w t at_ except).
Proof.
  apply steps_modify. intros db. apply revoking_keeps. intros k i _.
  destruct (_ && _) eqn:E; [|apply only_revokes_refl]. reflect_bools. apply revoke_pending. naive_solver.
Qed.

(** ** Issuing *)

Definition new_row (i : InviteRow) : Prop :=
  pending i ∧ i_reserved i = None
  ∧ match i_kind i with
    | ShareCode => is_Some (i_code_hash i) ∧ i_target i = None
    | TargetedPersonalityAgent => i_code_hash i = None ∧ is_Some (i_target i)
    end.
Lemma insert_invite_keeps id i : new_row i → steps keeps (insert_invite id i).
Proof.
  intros ([Hr Hd] & Hv & Hk) db u db' H. unfold insert_invite in H. inv_ws. reflect_bools. intros Hok.
  match goal with E : w_invites db !! id = None |- _ => rename E into Hf end.
  split; [|constructor; simpl; [reflexivity..|by apply (grows_insert_fresh _)|reflexivity]].
  assert (∀ k j h, w_invites db !! k = Some j → i_code_hash i = Some h → i_code_hash j = Some h → False) as Hcode.
  { intros k j h Hj Hh Hj'. rewrite Hh in *. reflect_bools.
    destruct (find_code db h) eqn:E; [naive_solver|]. by apply (find_code_None _ _ _ _ E Hj). }
  assert (∀ k j t, w_invites db !! k = Some j → i_target i = Some t → i_target j = Some t →
    i_workspace j = i_workspace i → pending j → False) as Hpend.
  { intros k j t Hj Ht Hj' Hw Hp. rewrite Ht in *. reflect_bools.
    destruct (find_pending db (i_workspace i) t) eqn:E; [naive_solver|].
    apply (find_pending_None _ _ _ _ _ E Hj); [|done]. split_and!; [done| |done].
    destruct (wo_invite _ Hok k j Hj) as [_ Hjk]. destruct (i_kind j); [naive_solver|done]. }
  destruct Hok; constructor; simpl; try assumption.
  - intros k j Hj. inv_row; [done|by apply (wo_invite k)].
  - intros k j r Hj ?. inv_row; [congruence|by apply (wo_redeemed k)].
  - intros k l x y h Hx Hy ? ?. inv_row; [done|exfalso; eauto..|by eapply wo_code].
  - intros k l x y t Hx Hy ? ? ? ? ?. inv_row; [done|exfalso; eauto..|by eapply wo_pending].
  - intros c e k He Hke. destruct (wo_linked c e k He Hke) as (j & Hj & ?). exists j.
    by rewrite (insert_fresh_lookup _ id i _ j).
Qed.

#[local] Hint Resolve steps_asks steps_tables steps_pg_text steps_new_id closePending_keeps : tx.

Lemma CreateInvite_keeps now id code w actor : steps keeps (CreateInvite now id code w actor).
Proof. unfold CreateInvite. tx_steps. apply insert_invite_keeps. by split_and!. Qed.
Lemma insert_targeted_keeps now id w issuer t : steps keeps (insert_targeted now id w issuer t).
Proof. unfold insert_targeted. tx_steps. apply insert_invite_keeps. by split_and!. Qed.
Lemma close_expired_keeps now w t db :
  keeps db (db <| w_invites := close_expired now w t <$> w_invites db |>).
Proof. rewrite fmap_imap. apply revoking_keeps. intros k i _. apply close_expired_only. Qed.
Lemma CreateCurrentAgentInvite_keeps cfg now id w actor target :
  steps keeps (CreateCurrentAgentInvite cfg now id w actor target).
Proof.
  intros db r db' H. unfold CreateCurrentAgentInvite in H. inv_ws.
  all: etrans; [apply (close_expired_keeps now w (ref_id target))|].
  all: try (by eapply insert_targeted_keeps). all: try reflexivity.
  match goal with E : find_pending _ _ _ = Some _ |- _ => apply find_pending_Some in E as (Hi & _ & Hp) end.
  etrans; [|by eapply insert_targeted_keeps].
  match goal with E : update_invite _ _ _ = Ok _ |- _ => injection E as _ <- end.
  refine (update_revoking s0 (λ i, i <| i_revoked := Some now |>) _ _).
  intros i' Hi'. assert (i' = i) as -> by (simpl in Hi, Hi'; congruence). by apply revoke_pending.
Qed.

(** ** Redeeming *)

Lemma alter_keeps id g db :
  (∀ i, w_invites db !! id = Some i → ws_ok db →
    same_invite i (g i) ∧ invite_hist i (g i)
    ∧ (∀ r, i_redeemed (g i) = Some r →
         m_workspace <$> w_members db !! rd_member r = Some (i_workspace i)
         ∧ m_ref <$> w_members db !! rd_member r = Some (rd_by r)
         ∧ (∀ t, i_target i = Some t → rd_by r = PersonalityAgent t))
    ∧ (∀ c e, w_enrollments db !! c = Some e → e_invite e = Some id → linked e i → linked e (g i))) →
  keeps db (db <| w_invites := alter g id (w_invites db) |>).
Proof.
  intros Hg. rewrite alter_imap. apply invites_keep. intros k i Hi Hok.
  destruct (bool_decide (k = id)) eqn:E.
  - reflect_bools. subst. by apply Hg.
  - split_and!; [done|reflexivity|intros r; by apply (wo_redeemed _ Hok k i r)|done].
Qed.

Lemma redeem_invite_keeps id actor mid now db i u db' :
  redeem_invite id actor mid now db = Ok (u, db') → w_invites db !! id = Some i → i_redeemed i = None →
  (∀ t, i_target i = Some t → actor = PersonalityAgent t) →
  (∀ c e t h, w_enrollments db !! c = Some e → e_invite e = Some id → e_consumed e = Some (t, h) → actor = Human h) →
  keeps db db' ∧ db' = db <| w_invites := alter (redeem actor mid now) id (w_invites db) |>.
Proof.
  intros H Hi Hd Ht Hb. unfold redeem_invite in H. rewrite tables_bind, Hi in H. inv_ws. reflect_bools.
  match goal with E : update_invite _ _ _ = Ok _ |- _ => injection E as _ <- end.
  split; [|done]. apply alter_keeps. intros i' Hi' Hok. assert (i' = i) as -> by congruence.
  split_and!; [done|constructor; [done|simpl; congruence|done|done]| |].
  - intros r [= <-]. simpl. by split_and!.
  - intros c e He Hk. unfold linked. simpl. destruct (e_consumed e) as [[t h]|] eqn:Hc.
    { intros [Hl _]. split; [done|]. intros r [= <-]. by eapply Hb. }
    intros Hl h Hh. specialize (Hl h Hh). by rewrite Hd in Hl.
Qed.

(** Whom the bundle of a code admits. *)
Definition recipient (db : WDB) (id : string) (i : InviteRow) (actor : Ref) : Prop :=
  ∀ c e, w_enrollments db !! c = Some e → e_invite e = Some id →
    ref_kind actor = KindHuman
    ∧ ((i_reserved i = Some (ref_id actor) ∧ ∃ t, e_consumed e = Some (t, ref_id actor))
       ∨ (i_reserved i = None ∧ e_consumed e = None ∧ e_revoked e = None)).
Lemma recipient_ok dbnow id i actor proof db u :
  ws_ok db → requireBundleRecipient dbnow id i actor proof db = Ok u → recipient db id i actor.
Proof.
  intros Hok H c e He Hk. unfold requireBundleRecipient in H.
  destruct (bundle_of db id) as [[c' e']|] eqn:Hb; [|by destruct (bundle_None _ _ _ _ Hb He)].
  apply bundle_Some in Hb as [He' Hk'].
  assert (c' = c) as -> by by apply (wo_bundle _ Hok c' c e' e id). assert (e' = e) as -> by congruence.
  destruct (_ || _) eqn:E; [done|]. reflect_bools. split; [done|].
  destruct (i_reserved i) as [h|].
  - left. destruct (_ && _) eqn:E; [|done]. reflect_bools. subst h.
    destruct (e_consumed e) as [[t x]|]; [|done]. simplify_eq/=. eauto.
  - right. destruct (_ || _) eqn:E; [done|]. reflect_bools.
    split_and!; [done|by apply dec_stable..].
Qed.

Lemma revoke_enrollment_same at_ e :
  e_consumed (revoke_enrollment at_ e) = e_consumed e ∧ e_invite (revoke_enrollment at_ e) = e_invite e
  ∧ enroll_hist e (revoke_enrollment at_ e).
Proof.
  unfold revoke_enrollment. destruct (bool_decide _); [|by split_and!].
  split_and!; [done..|]. constructor; [done|simpl; by intros t ->|done|done].
Qed.
Lemma revoke_linked_same at_ id e :
  e_consumed (revoke_linked at_ id e) = e_consumed e ∧ e_invite (revoke_linked at_ id e) = e_invite e
  ∧ enroll_hist e (revoke_linked at_ id e).
Proof. unfold revoke_linked. destruct (bool_decide _); [apply revoke_enrollment_same|by split_and!]. Qed.
Lemma revoke_bundle_keeps dbnow id : steps keeps (revoke_bundle dbnow id).
Proof.
  apply steps_modify. intros db Hok. pose proof (revoke_linked_same dbnow id) as Hf.
  split; [|constructor; simpl; [reflexivity..|]; apply grows_fmap; intros k e _; apply Hf].
  destruct Hok; constructor; simpl; try assumption.
  - intros c d e g k He Hg Hk Hl. inv_row. destruct (Hf x) as (_ & E1 & _). destruct (Hf x0) as (_ & E2 & _).
    rewrite E1 in *. rewrite E2 in *. by eapply wo_bundle.
  - intros c e k He Hk. inv_row. destruct (Hf x) as (E1 & E2 & _). rewrite E2 in Hk.
    destruct (wo_linked c x k) as (i & ? & ? & Hl); [done..|]. exists i. split_and!; [done..|].
    unfold linked. by rewrite E1.
Qed.

Lemma reserve_keeps id h db u db' :
  reserve_invite id h db = Ok (u, db') →
  (∀ i, w_invites db !! id = Some i → (∀ h', i_reserved i = Some h' → h' = h)
     ∧ ∀ c e, w_enrollments db !! c = Some e → e_invite e = Some id →
         match e_consumed e with
         | Some (_, h') => h' = h
         | None => rd_by <$> i_redeemed i = Some (Human h)
         end) →
  keeps db db'.
Proof.
  intros H Hc. unfold reserve_invite in H. inv_ws.
  match goal with E : update_invite _ _ _ = Ok _ |- _ => injection E as _ <- end.
  apply alter_keeps. intros i Hi Hok. destruct (Hc i Hi) as [H1 H2].
  split_and!; [done| |intros r; by apply (wo_redeemed _ Hok id i r)|].
  - constructor; [done..|]. intros h' Hh'. simpl. f_equal. symmetry. by apply H1.
  - intros c e He Hk _. specialize (H2 c e He Hk). unfold linked. simpl.
    destruct (e_consumed e) as [[t h']|] eqn:Hce; [|by intros ? [= <-]]. subst h'. split; [done|].
    intros r Hr. destruct (wo_linked _ Hok c e id He Hk) as (i' & Hi' & _ & Hl).
    assert (i' = i) as -> by congruence. unfold linked in Hl. rewrite Hce in Hl. by apply Hl.
Qed.

Lemma finish_keeps dbnow now id actor mid db i u db' :
  finishShareInvite dbnow now id actor mid db = Ok (u, db') →
  w_invites db !! id = Some i → i_redeemed i = None → i_target i = None → recipient db id i actor →
  keeps db db'.
Proof.
  intros H Hi Hd Ht Hr. unfold finishShareInvite in H. apply bind_ok in H as (u1 & db1 & H1 & H).
  destruct (redeem_invite_keeps _ _ _ _ _ i _ _ H1 Hi Hd) as [Hk1 ->]; [congruence| |].
  { intros c e t h He Hke Hc. destruct (Hr c e He Hke) as (Hkind & [(_ & t' & Ht')|(_ & Hn & _)]); [|congruence].
    destruct actor as [k n]. simpl in *. subst k. unfold Human. congruence. }
  apply bind_ok in H as (u2 & db2 & H2 & H). pose proof (revoke_bundle_keeps _ _ _ _ _ H2) as Hk2.
  injection H2 as _ <-. rewrite tables_bind in H. etrans; [exact Hk1|]. etrans; [exact Hk2|].
  destruct (bundle_of _ id) as [[c e]|] eqn:Hb; [|inv_ws; reflexivity].
  eapply reserve_keeps; [exact H|]. simpl. intros j Hj. rewrite lookup_alter_eq, Hi in Hj. injection Hj as <-.
  assert (∀ c e, (revoke_linked dbnow id <$> w_enrollments db) !! c = Some e → e_invite e = Some id →
    ref_kind actor = KindHuman ∧
    ((i_reserved i = Some (ref_id actor) ∧ ∃ t, e_consumed e = Some (t, ref_id actor))
       ∨ (i_reserved i = None ∧ e_consumed e = None))) as Hr'.
  { intros c' e' He' Hk'. inv_row. destruct (revoke_linked_same dbnow id x) as (E1 & E2 & _).
    rewrite E1. rewrite E2 in Hk'. destruct (Hr c' x) as (? & [?|(? & ? & _)]); [done..| |]; split; auto. }
  apply bundle_Some in Hb as [Hc He]. simpl in *. split.
  - intros h' Hh'. destruct (Hr' c e Hc He) as (_ & [[? _]|[? _]]); congruence.
  - intros c' e' Hc' He'. destruct (Hr' c' e' Hc' He') as (Hkind & [(_ & t & ->)|(_ & ->)]); [done|].
    f_equal. destruct actor as [k n]. simpl in *. by subst.
Qed.

(** ** The operations *)

Lemma on_unique_ok {A} e (m : wtx A) db a db' : on_unique e m db = Ok (a, db') → m db = Ok (a, db').
Proof. unfold on_unique. destruct (m db) as [[? ?]|[]]; done. Qed.
(** A new tenure leaves everything else alone. *)
Lemma join_workspace_ok now mid w actor db ms db' :
  join_workspace now mid w actor db = Ok (ms, db') →
  keeps db db' ∧ db' = db <| w_members := <[mid := mkMember w actor now None]> (w_members db) |>
  ∧ w_members db !! mid = None ∧ WorkspaceMemberID ms = mid ∧ Participant ms = actor ∧ RoleIDs ms = [].
Proof.
  intros H. unfold join_workspace in H. inv_ws.
  match goal with E : on_unique _ _ _ = Ok _ |- _ => apply on_unique_ok in E end.
  match goal with E : insert_member _ _ _ = Ok _ |- _ =>
    pose proof E as Hk; apply insert_member_keeps in Hk; [unfold insert_member in E|done] end.
  inv_ws. reflect_bools. by split_and!.
Qed.
Lemma close_pending_row w t at_ ex db u db' k i :
  closePendingTargetedInvitesForParticipant w t at_ ex db = Ok (u, db') → w_invites db !! k = Some i →
  i_kind i = ShareCode ∨ ex = Some k →
  w_invites db' !! k = Some i ∧ w_enrollments db' = w_enrollments db ∧ w_members db' = w_members db.
Proof.
  intros [= _ <-] Hi Hk. simpl. split_and!; [|done..]. rewrite map_lookup_imap, Hi. simpl. f_equal.
  destruct (_ && _) eqn:E; [|done]. reflect_bools. unfold targets in *. naive_solver congruence.
Qed.

Lemma redeem_code_keeps dbnow now mid id i actor proof db ms db' :
  ws_ok db → w_invites db !! id = Some i → is_Some (i_code_hash i) →
  redeem_code dbnow now mid id i actor proof db = Ok (ms, db') → keeps db db'.
Proof.
  intros Hok Hi [h Hh] H. destruct (share_code _ _ _ _ Hok Hi Hh) as [Hkind Htarget].
  unfold redeem_code in H. apply bind_ok in H as (u & db1 & [_ ->]%asks_ok & H).
  destruct (i_redeemed i) as [r|] eqn:Hd; [destruct (bool_decide _); inv_ws; reflexivity|].
  apply bind_ok in H as (? & ? & [_ ->]%guard_ok & H). apply bind_ok in H as (? & ? & [Hrec ->]%asks_ok & H).
  apply bind_ok in H as (? & ? & [_ ->]%asks_ok & H). rewrite tables_bind in H.
  apply recipient_ok in Hrec; [|done]. destruct (activeMembershipExists db _ _).
  - inv_ws. by eapply finish_keeps.
  - apply bind_ok in H as (a & db1 & (Hk1 & -> & _)%join_workspace_ok & H). apply bind_ok in H as (u2 & db2 & H2 & H).
    apply bind_ok in H as (u3 & db3 & H3 & [= _ <-]). etrans; [exact Hk1|].
    etrans; [by eapply closePending_keeps|].
    destruct (close_pending_row _ _ _ _ _ _ _ id i H2) as (Hi2 & He & _); [done|by left|].
    eapply finish_keeps; [done..|]. unfold recipient. by rewrite He.
Qed.
Lemma Redeem_keeps dbnow now mid code actor proof :
  steps keeps (RedeemInviteWithEnrollmentProof dbnow now mid code actor proof).
Proof.
  intros db ms db' H Hok. unfold RedeemInviteWithEnrollmentProof in H. inv_ws.
  match goal with E : find_code _ _ = Some _ |- _ => apply find_code_Some in E as [Hi Hh] end.
  eapply redeem_code_keeps; [done|done|by eexists|done|done].
Qed.

Lemma accept_keeps now mid id i target db ms db' :
  w_invites db !! id = Some i → i_target i = Some (ref_id target) → ref_kind target = KindPersonalityAgent →
  accept_invite now mid id i target db = Ok (ms, db') → keeps db db'.
Proof.
  intros Hi Ht Hk H. unfold accept_invite in H. apply bind_ok in H as (u & db1 & [_ ->]%asks_ok & H).
  destruct (i_redeemed i) as [r|] eqn:Hd; [destruct (bool_decide _); inv_ws; reflexivity|].
  apply bind_ok in H as (? & ? & [_ ->]%guard_ok & H). apply bind_ok in H as (? & ? & [_ ->]%asks_ok & H).
  apply bind_ok in H as (al & ? & [= <- <-] & H). apply bind_ok in H as (? & ? & [_ ->]%guard_ok & H).
  apply bind_ok in H as (a & db1 & (Hk1 & -> & _)%join_workspace_ok & H). apply bind_ok in H as (u2 & db2 & H2 & H).
  rewrite tables_bind in H. apply bind_ok in H as (? & ? & [_ ->]%guard_ok & H).
  apply bind_ok in H as (u3 & db3 & H3 & [= _ <-]). etrans; [exact Hk1|].
  etrans; [by eapply closePending_keeps|].
  destruct (close_pending_row _ _ _ _ _ _ _ id i H2) as (Hi2 & _); [done|by right|].
  assert (w_enrollments db2 = w_enrollments db) as He2 by (injection H2 as _ <-; done).
  intros Hok. pose proof Hok as Hok2. revert Hok.
  eapply redeem_invite_keeps; [done..| |].
  - intros t Ht'. destruct target as [k n]. simpl in *. unfold PersonalityAgent. congruence.
  - intros c e t h He Hke _. destruct (wo_linked _ Hok2 c e id He Hke) as (i' & Hi' & Hs & _).
    assert (i' = i) as -> by congruence. destruct (wo_invite _ Hok2 id i Hi2) as [_ Hv].
    rewrite Hs in Hv. naive_solver congruence.
Qed.
Lemma Accept_keeps now mid id target : steps keeps (AcceptTargetedInvitation now mid id target).
Proof.
  intros db ms db' H. unfold AcceptTargetedInvitation in H. inv_ws. reflect_bools. by eapply accept_keeps.
Qed.

Lemma RevokeInvite_keeps dbnow now w id actor : steps keeps (RevokeInvite dbnow now w id actor).
Proof.
  unfold RevokeInvite. tx_steps; [|apply revoke_bundle_keeps].
  apply steps_modify. intros db. apply update_revoking. intros i _. apply revoke_only.
Qed.

(** ** Enrollment *)

Lemma issue_ok txnow dbnow eid token issuer email ttl db r db' :
  IssueEnrollmentInviteInTx txnow dbnow eid token issuer email ttl db = Ok (r, db') →
  keeps db db' ∧ w_enrollments db !! eid = None ∧ r.1 = eid ∧ e_consumed r.2 = None ∧ e_invite r.2 = None
  ∧ db' = db <| w_enrollments := <[eid := r.2]> (w_enrollments db) |>.
Proof.
  intros H. unfold IssueEnrollmentInviteInTx in H. apply bind_ok in H as (? & ? & [_ ->]%guard_ok & H).
  apply bind_ok in H as (e & db1 & He & H). assert (db1 = db) as -> by (inv_ws; done). clear He.
  inv_ws. reflect_bools. split_and!; try done. intros Hok.
  split; [|constructor; simpl; [reflexivity..|by apply (grows_insert_fresh _)]].
  destruct Hok; constructor; simpl; try assumption.
  - intros c d f g k Hx Hy ? ?. inv_row; [done..|by eapply wo_bundle].
  - intros c f k Hx ?. inv_row; [done|by eapply wo_linked].
Qed.
Lemma Issue_keeps txnow dbnow eid token issuer email ttl :
  steps keeps (IssueEnrollmentInvite txnow dbnow eid token issuer email ttl).
Proof. intros db r db' H. by apply issue_ok in H as [? _]. Qed.

Lemma link_keeps eid id e i db :
  w_enrollments db !! eid = Some e → e_invite e = None → e_consumed e = None →
  w_invites db !! id = Some i → i_kind i = ShareCode → i_reserved i = None →
  (∀ c f, w_enrollments db !! c = Some f → e_invite f ≠ Some id) →
  keeps db (db <| w_enrollments := alter (λ e, e <| e_invite := Some id |>) eid (w_enrollments db) |>).
Proof.
  intros He Hl Hc Hi Hk Hr Hu Hok.
  split; [|constructor; simpl; [reflexivity..|]].
  2:{ apply (grows_alter _). intros x Hx. assert (x = e) as -> by congruence.
      constructor; [done..|]. congruence. }
  destruct Hok; constructor; simpl; try assumption.
  - intros c d x y k Hx Hy Hxk Hyk. inv_row; simplify_eq/=; try done; [by destruct (Hu c x)|by destruct (Hu d y)|].
    by eapply wo_bundle.
  - intros c x k Hx Hxk. inv_row; [|by eapply wo_linked]. simplify_eq/=. exists i. split_and!; [done..|].
    unfold linked. simpl. rewrite Hc. congruence.
Qed.
Lemma Bundle_keeps cfg txnow dbnow id code eid token w actor email :
  steps keeps (CreateEnrollmentBundle cfg txnow dbnow id code eid token w actor email).
Proof.
  intros db v db' H Hok. unfold CreateEnrollmentBundle in H. apply bind_ok in H as (? & ? & [_ ->]%guard_ok & H).
  apply bind_ok in H as (m & ? & [_ ->]%asks_ok & H). apply bind_ok in H as (ie & db1 & H1 & H).
  assert (IssueEnrollmentInviteInTx txnow dbnow eid token (ref_id actor) email defaultInviteTTL db = Ok (ie, db1)) as H1'.
  { destruct (IssueEnrollmentInviteInTx _ _ _ _ _ _ _ db) as [[? ?]|[]]; done. }
  apply issue_ok in H1' as (Hk1 & Hf & Heid & Hc & He & ->). apply bind_ok in H as (u & db2 & H2 & H).
  set (row := mkInvite _ _ _ _ _ _ _ _ _ _) in H2. assert (new_row row) as Hrow by by split_and!.
  pose proof (insert_invite_keeps _ _ Hrow _ _ _ H2) as Hk2. unfold insert_invite in H2.
  apply bind_ok in H2 as (? & ? & [_ ->]%guard_ok & H2). rewrite tables_bind in H2.
  apply bind_ok in H2 as (? & ? & [Hfree ->]%guard_ok & H2). apply bind_ok in H2 as (? & ? & [_ ->]%guard_ok & H2).
  apply bind_ok in H2 as (? & ? & [_ ->]%guard_ok & H2). injection H2 as _ <-. reflect_bools.
  apply bind_ok in H as (? & ? & [= _ <-] & [= _ <-]). revert Hok.
  assert (ws_ok db → ∀ c f, w_enrollments db !! c = Some f → e_invite f ≠ Some id) as Hu.
  { intros Hok c f Hcf Hfi. destruct (wo_linked _ Hok c f id Hcf Hfi) as (? & ? & _). simpl in *. congruence. }
  intros Hok. specialize (Hu Hok). revert Hok.
  match type of Hk2 with keeps _ ?d =>
    enough (keeps d (d <| w_enrollments := alter (λ e, e <| e_invite := Some id |>) eid (w_enrollments d) |>)) as HK;
    [|eapply (link_keeps eid id ie.2 row d); simpl; [|done|done|by rewrite lookup_insert_eq|done|done|]] end.
  - rewrite Heid. exact (transitivity (transitivity Hk1 Hk2) HK).
  - by rewrite lookup_insert_eq.
  - intros c f Hcf. apply lookup_insert_Some in Hcf as [[_ <-]|[_ Hcf]]; [congruence|by apply (Hu c f)].
Qed.

Lemma revoke_enrollment_keeps dbnow id db :
  keeps db (db <| w_enrollments := alter (revoke_enrollment dbnow) id (w_enrollments db) |>).
Proof.
  intros Hok. pose proof (revoke_enrollment_same dbnow) as Hf.
  refine (_ (invites_enroll_keep (λ _ i, i) (alter (revoke_enrollment dbnow) id (w_enrollments db)) db _ _ _ Hok)).
  - by rewrite <-(fmap_imap (λ i, i)), map_fmap_id.
  - intros k i Hi _. split_and!; [done|reflexivity|]. intros r. by apply (wo_redeemed _ Hok k i r).
  - apply (grows_alter _). intros e _. apply Hf.
  - intros c e' He'. inv_row.
    + match goal with E : w_enrollments db !! _ = Some ?y |- _ => exists y; destruct (Hf y) as (E1 & E2 & _) end.
      split_and!; [done..|]. intros k i _ _. unfold linked. by rewrite E1.
    + by exists e'.
Qed.
Lemma RevokeEnrollment_keeps cfg dbnow id : steps keeps (RevokeEnrollmentInvite cfg dbnow id).
Proof.
  unfold RevokeEnrollmentInvite. tx_steps; [apply revoke_enrollment_keeps|].
  apply steps_modify. intros db. apply update_revoking. intros i _.
  destruct (bool_decide _); [apply revoke_only|apply only_revokes_refl].
Qed.

Lemma consume_keeps cfg dbnow eid identity h : steps keeps (consumeEnrollmentInvite cfg dbnow eid identity h).
Proof.
  intros db u db' H Hok. unfold consumeEnrollmentInvite in H.
  apply bind_ok in H as (? & ? & [Hck ->]%asks_ok & H). rewrite tables_bind in H.
  apply bind_ok in H as (? & ? & [_ ->]%guard_ok & H). destruct (w_enrollments db !! eid) as [e|] eqn:He; [|done].
  set (e' := e <| e_consumed := Some (dbnow, h) |>) in H.
  assert (e_consumed e' = Some (dbnow, h)) as Hc' by done. assert (e_invite e' = e_invite e) as Hi'' by done.
  assert (e_consumed e = None → enroll_hist e e') as Hh.
  { intros Hn. constructor; [done..|congruence|done]. }
  clearbody e'.
  apply bind_ok in H as (? & ? & [_ ->]%guard_ok & H). apply bind_ok in H as (? & ? & [= _ <-] & H).
  assert (e_consumed e = None ∧ ∀ id, e_invite e = Some id →
    ∃ i, w_invites db !! id = Some i ∧ i_reserved i = None ∧ i_redeemed i = None) as [Hc Hi].
  { unfold checkEnrollmentInviteProof in Hck. rewrite He in Hck. destruct (bool_decide _); [done|].
    destruct (lockEnrollmentWorkspace cfg dbnow eid true db) as [l|] eqn:Hl; [|done]. simpl in Hck.
    destruct (bool_decide (e_revoked e = None) && _) eqn:Hopen; [|done]. reflect_bools. split; [done|].
    intros id Hid. unfold lockEnrollmentWorkspace in Hl. rewrite He, Hid in Hl.
    destruct (cfg_workspace cfg); [|done]. simpl in Hl.
    destruct (LockEnrollmentWorkspaceInvite db id); [|done].
    destruct (ValidateEnrollmentWorkspaceInvite dbnow db id) eqn:Hv; [|done].
    unfold ValidateEnrollmentWorkspaceInvite in Hv. destruct (w_invites db !! id) as [i|]; [|done].
    destruct (_ && _) eqn:Hp; [|done]. reflect_bools. unfold pending in *. naive_solver. }
  assert (grows enroll_hist (w_enrollments db) (<[eid:=e']> (w_enrollments db))) as Hg.
  { eapply (grows_insert _); [done|]. by apply Hh. }
  destruct (e_invite e) as [id|] eqn:Hid.
  - unfold reserve_invite in H. inv_ws.
    match goal with E : update_invite _ _ _ = Ok _ |- _ => injection E as _ <- end.
    destruct (Hi id eq_refl) as (i & Hi' & Hr & Hd). pose proof Hok as Hok'. revert Hok.
    rewrite alter_imap.
    refine (invites_enroll_keep (λ k i, if bool_decide (k = id) then i <| i_reserved := Some h |> else i) _ db _ Hg _).
    + intros k j Hj Hok. destruct (decide (k = id)) as [->|Hk].
      * rewrite bool_decide_eq_true_2 by done. assert (j = i) as -> by congruence.
        split_and!; [done| |intros r; by apply (wo_redeemed _ Hok id i r)].
        constructor; [done..|]. intros ? ?. simpl in *. congruence.
      * rewrite bool_decide_eq_false_2 by done. split_and!; [done|reflexivity|].
        intros r. by apply (wo_redeemed _ Hok k j r).
    + intros c f Hf. apply lookup_insert_Some in Hf as [[<- <-]|[Hn Hf]].
      * exists e. split_and!; [done|congruence|]. intros k j Hk Hj _. assert (k = id) as -> by congruence.
        rewrite bool_decide_eq_true_2 by done. unfold linked. rewrite Hc'. split; [done|].
        assert (j = i) as -> by congruence. simpl. by rewrite Hd.
      * exists f. split_and!; [done..|]. intros k j Hk Hj Hl.
        destruct (decide (k = id)) as [->|]; [|by rewrite bool_decide_eq_false_2]. destruct Hn. symmetry. by eapply (wo_bundle _ Hok' c eid f e id).
  - inv_ws. revert Hok. refine (_ (invites_enroll_keep (λ _ i, i) (<[eid:=e']> (w_enrollments db)) db _ Hg _)).
    + by rewrite <-(fmap_imap (λ i, i)), map_fmap_id.
    + intros k i' Hi' Hok. split_and!; [done|reflexivity|]. intros r. by apply (wo_redeemed _ Hok k i' r).
    + intros c f Hf. apply lookup_insert_Some in Hf as [[<- <-]|[Hn Hf]]; [|by exists f].
      exists e. split_and!; [done|congruence|]. congruence.
Qed.
End steps.
