(* ===== verification/WorkspaceSystem.v ===== *)
(** * The workspace service as a transition system

    Every call of the service that writes, the changes other services make to
    the tables it reads, and the states reachable from an empty database. *)

From Stdlib Require Import Ascii ZArith Lia.
From stdpp Require Import sorting.
From S2P Require Import Prelude Json State WorkspaceState Workspaces WorkspaceInvites WorkspaceFacts WorkspaceSteps InviteSteps.
Local Open Scope string_scope.
Local Open Scope list_scope.
Local Open Scope Z_scope.

(** The calls, with the clocks they read and the identities and codes the
    server draws for them. *)
Inductive wcall :=
| CallCreate (now : Z) (workspaceID memberID name : string) (creator : Ref)
| CallRename (workspaceID : string) (actor : Ref) (name : string)
| CallTransfer (workspaceID target : string) (actor : Ref)
| CallRemove (dbnow : Z) (workspaceID memberID : string) (actor : Ref)
| CallLeave (dbnow : Z) (workspaceID : string) (actor : Ref)
| CallCreateRole (now : Z) (roleID workspaceID : string) (actor : Ref) (name color : string)
    (permissions : gmap string bool) (position : option Z)
| CallUpdateRole (workspaceID roleID : string) (actor : Ref) (name color : string)
    (permissions : gmap string bool) (position : option Z)
| CallDeleteRole (workspaceID roleID : string) (actor : Ref)
| CallSetRoles (workspaceID memberID : string) (actor : Ref) (roleIDs : list string)
| CallInvite (now : Z) (inviteID code workspaceID : string) (actor : Ref)
| CallInviteAgent (cfg : WsConfig) (now : Z) (inviteID workspaceID : string) (actor target : Ref)
| CallRedeem (dbnow now : Z) (memberID code : string) (actor : Ref) (proof : EnrollmentRecipientProof)
| CallAccept (now : Z) (memberID invitationID : string) (target : Ref)
| CallRevoke (dbnow now : Z) (workspaceID inviteID : string) (actor : Ref)
| CallBundle (cfg : WsConfig) (txnow dbnow : Z) (inviteID code enrollmentID token workspaceID : string)
    (actor : Ref) (email : string)
| CallIssueEnrollment (txnow dbnow : Z) (enrollmentID token issuer email : string) (ttl : Z)
| CallRevokeEnrollment (cfg : WsConfig) (dbnow : Z) (enrollmentID : string)
| CallConsume (cfg : WsConfig) (dbnow : Z) (enrollmentID : string) (identity : VerifiedIdentity)
    (humanID : string).

(** On whose behalf a call is made; the enrollment calls are made by the
    registry itself. *)
Definition caller (c : wcall) : option Ref :=
  match c with
  | CallCreate _ _ _ _ a | CallRename _ a _ | CallTransfer _ _ a | CallRemove _ _ _ a | CallLeave _ _ a
  | CallCreateRole _ _ _ a _ _ _ _ | CallUpdateRole _ _ a _ _ _ _ | CallDeleteRole _ _ a
  | CallSetRoles _ _ a _ | CallInvite _ _ _ _ a | CallInviteAgent _ _ _ _ a _
  | CallRedeem _ _ _ _ a _ | CallAccept _ _ _ a | CallRevoke _ _ _ _ a
  | CallBundle _ _ _ _ _ _ _ _ a _ => Some a
  | CallIssueEnrollment _ _ _ _ _ _ _ | CallRevokeEnrollment _ _ _ | CallConsume _ _ _ _ _ => None
  end.

Section system.
Context `{GL : GoLib} `{WL : WsLib}.

Definition discard {A} (m : wtx A) : wtx unit := m ;; mret tt.
Definition wrun (c : wcall) : wtx unit :=
  match c with
  | CallCreate now w m name a => discard (CreateWorkspace now w m name a)
  | CallRename w a name => discard (UpdateName w a name)
  | CallTransfer w t a => discard (TransferOwnership w t a)
  | CallRemove dbnow w m a => discard (removeMember dbnow w m a)
  | CallLeave dbnow w a => discard (Leave dbnow w a)
  | CallCreateRole now r w a name color ps pos => discard (CreateRoleWithPosition now r w a name color ps pos)
  | CallUpdateRole w r a name color ps pos => discard (UpdateRoleWithPosition w r a name color ps pos)
  | CallDeleteRole w r a => discard (DeleteRole w r a)
  | CallSetRoles w m a l => discard (SetMembershipRoles w m a l)
  | CallInvite now id code w a => discard (CreateInvite now id code w a)
  | CallInviteAgent cfg now id w a t => discard (CreateCurrentAgentInvite cfg now id w a t)
  | CallRedeem dbnow now m code a proof => discard (RedeemInviteWithEnrollmentProof dbnow now m code a proof)
  | CallAccept now m id t => discard (AcceptTargetedInvitation now m id t)
  | CallRevoke dbnow now w id a => discard (RevokeInvite dbnow now w id a)
  | CallBundle cfg txnow dbnow id code eid token w a email =>
      discard (CreateEnrollmentBundle cfg txnow dbnow id code eid token w a email)
  | CallIssueEnrollment txnow dbnow eid token issuer email ttl =>
      discard (IssueEnrollmentInvite txnow dbnow eid token issuer email ttl)
  | CallRevokeEnrollment cfg dbnow id => discard (RevokeEnrollmentInvite cfg dbnow id)
  | CallConsume cfg dbnow eid identity h => discard (consumeEnrollmentInvite cfg dbnow eid identity h)
  end.

(** What other services write to these tables: the registry its people and
    agents, employments and credentials and the first enrollment grants,
    revoked when the bootstrap issues another ([koseki/bootstrap.go]), the app
    catalog its capabilities (one active identity for a reference), the
    messaging service the tenures of its places. *)
Inductive wenv : WDB → WDB → Prop :=
| env_human db h name : wenv db (db <| w_humans := <[h:=name]> (w_humans db) |>)
| env_agent db a name : wenv db (db <| w_agents := <[a:=name]> (w_agents db) |>)
| env_employer db E : wenv db (db <| w_employer := E |>)
| env_credentials db C : wenv db (db <| w_credentials := C |>)
| env_capability db c ref :
    w_catalog db !! c = None → ref ∉ active_refs db →
    wenv db (db <| w_catalog := <[c := mkCapability ref None]> (w_catalog db) |>)
| env_retire db c cap t :
    w_catalog db !! c = Some cap →
    wenv db (db <| w_catalog := <[c := mkCapability (c_ref cap) (Some t)]> (w_catalog db) |>)
| env_open_place db k w i t :
    w_places db !! k = None → open_in db w i = true →
    wenv db (db <| w_places := <[k := mkPlace w i t None]> (w_places db) |>)
| env_close_place db k p t :
    w_places db !! k = Some p →
    wenv db (db <| w_places := <[k := p <| pl_left := Some t |>]> (w_places db) |>)
| env_enrollment db c e :
    w_enrollments db !! c = None → e_invite e = None →
    wenv db (db <| w_enrollments := <[c:=e]> (w_enrollments db) |>)
| env_supersede db c e t :
    w_enrollments db !! c = Some e → e_issued_by e = None →
    wenv db (db <| w_enrollments := alter (revoke_enrollment t) c (w_enrollments db) |>).

Definition wempty : WDB := mkWDB ∅ ∅ ∅ ∅ ∅ ∅ ∅ ∅ ∅ ∅ ∅ ∅ ∅.
Inductive wstep (db : WDB) : WDB → Prop :=
| step_call c : wstep db (commit (wrun c) db).1
| step_env db' : wenv db db' → wstep db db'.
Definition wreach (db : WDB) : Prop := rtc wstep wempty db.

(** ** Every step keeps the invariant *)

#[local] Hint Resolve CreateWorkspace_keeps UpdateName_keeps TransferOwnership_keeps removeMember_keeps
  Leave_keeps CreateRole_keeps UpdateRole_keeps DeleteRole_keeps SetMembershipRoles_keeps
  CreateInvite_keeps CreateCurrentAgentInvite_keeps Redeem_keeps Accept_keeps RevokeInvite_keeps
  Bundle_keeps Issue_keeps RevokeEnrollment_keeps consume_keeps : tx.

Lemma wrun_keeps c : steps keeps (wrun c).
Proof. destruct c; simpl; unfold discard; tx_steps. Qed.

Lemma registered_more db db' r :
  (∀ h, is_Some (w_humans db !! h) → is_Some (w_humans db' !! h)) →
  (∀ a, is_Some (w_agents db !! a) → is_Some (w_agents db' !! a)) →
  registered db r = true → registered db' r = true.
Proof.
  intros Hh Ha. unfold registered. destruct (bool_decide (ref_kind r = _)); intros ?; reflect_bools;
    apply bool_decide_eq_true_2; auto.
Qed.
Lemma insert_is_Some {A} (T : gmap string A) k a j : is_Some (T !! j) → is_Some (<[k:=a]> T !! j).
Proof. intros ?. apply lookup_insert_is_Some'. by right. Qed.

Lemma catalog_keeps c cap db :
  (∀ old, w_catalog db !! c = Some old → c_ref cap = c_ref old) →
  (c_retired cap = None → ∀ d x, w_catalog db !! d = Some x → c_retired x = None → c_ref x ≠ c_ref cap) →
  keeps db (db <| w_catalog := <[c:=cap]> (w_catalog db) |>).
Proof.
  intros Hold Hnew Hok. split; [|constructor; simpl; reflexivity].
  destruct Hok; constructor; simpl; try assumption.
  - intros r d g Hg. destruct (wo_grant r d g Hg) as [? Hd]. split; [assumption|].
    destruct (decide (d = c)) as [->|]; [|by rewrite lookup_insert_ne].
    rewrite lookup_insert_eq. simpl. apply fmap_Some in Hd as (old & Hd & ->). by rewrite (Hold old).
  - intros d e x y Hx Hy ? ? ?. inv_row; [reflexivity|..].
    + exfalso. by eapply Hnew.
    + exfalso. by eapply Hnew.
    + by eapply wo_catalog.
Qed.
Lemma places_keeps P db :
  (∀ k p, P !! k = Some p → pl_left p = None → ws_ok db →
    ∃ m, w_members db !! pl_member p = Some m ∧ m_workspace m = pl_workspace p ∧ m_left m = None) →
  keeps db (db <| w_places := P |>).
Proof.
  intros HP Hok. split; [|constructor; simpl; reflexivity]. pose proof Hok as Hok'.
  destruct Hok; constructor; simpl; try assumption. intros k p Hp Hl. by eapply HP.
Qed.
Lemma wenv_keeps db db' : wenv db db' → keeps db db'.
Proof.
  destruct 1 as [db h n|db a n|db E|db C|db c ref Hc Hf|db c cap t Hc|db k w i t Hk Ho|db k p t Hp|db c e Hc He|db c e t Hc He].
  1-4: intros Hok; (split; [|constructor; simpl; reflexivity]); destruct Hok; constructor; simpl; try assumption;
    intros i m Hi; destruct (wo_member i m Hi) as (? & ? & ?); (split_and!; [assumption| |assumption]);
    (eapply (registered_more db); [..|eassumption]); simpl; auto using insert_is_Some.
  - apply catalog_keeps; [congruence|]. intros _ d x Hx Hr Heq. apply Hf, active_refs_spec. eauto.
  - apply catalog_keeps; simpl; [congruence|discriminate].
  - apply places_keeps. intros k' p Hp Hl Hok. inv_row; [|by eapply wo_place]. unfold open_in in Ho.
    destruct (w_members db !! i) as [m|] eqn:Hm; [|discriminate]. reflect_bools. eauto.
  - apply places_keeps. intros k' q Hq Hl Hok. inv_row; [discriminate|by eapply wo_place].
  - intros Hok. split; [|constructor; simpl; [reflexivity..|by apply (grows_insert_fresh _)]].
    destruct Hok; constructor; simpl; try assumption.
    + intros x y f g k Hx Hy ? ?. inv_row; [reflexivity|congruence..|by eapply wo_bundle].
    + intros x f k Hx ?. inv_row; [congruence|by eapply wo_linked].
  - apply revoke_enrollment_keeps.
Qed.
Lemma wstep_keeps db db' : wstep db db' → keeps db db'.
Proof.
  destruct 1; [|by apply wenv_keeps]. apply steps_commit; [typeclasses eauto|apply wrun_keeps].
Qed.
Lemma wrun_keeps_all db db' : rtc wstep db db' → keeps db db'.
Proof. induction 1; [reflexivity|]. etrans; [by apply wstep_keeps|done]. Qed.
Lemma wempty_ok : ws_ok wempty.
Proof. constructor; simpl; intros *; rewrite ?lookup_empty; try discriminate. Qed.
Lemma wreach_ok db : wreach db → ws_ok db.
Proof. intros H%wrun_keeps_all. by apply H, wempty_ok. Qed.
Lemma wreach_hist db db' : wreach db → rtc wstep db db' → ws_hist db db'.
Proof. intros H%wreach_ok Hr%wrun_keeps_all. by apply Hr. Qed.
Lemma wreach_run db c db' : wreach db → wrun c db = Ok (tt, db') → wreach db'.
Proof.
  intros H Hr. eapply rtc_r; [exact H|]. replace db' with (commit (wrun c) db).1; [constructor|].
  unfold commit. by rewrite Hr.
Qed.
End system.
