(* ===== verification/WorkspaceAuthority.v ===== *)
(** * What a call can do to authority

    The capabilities of a participant as a set, the capabilities of a stored
    role, and how each call may move capabilities from one state to the
    next. *)

From Stdlib Require Import Ascii ZArith Lia.
From stdpp Require Import sorting.
From S2P Require Import Prelude Json State WorkspaceState Workspaces WorkspaceInvites WorkspaceFacts WorkspaceSteps InviteSteps WorkspaceSystem.
Local Open Scope string_scope.
Local Open Scope list_scope.
Local Open Scope Z_scope.

Section authority.
Context `{GL : GoLib} `{WL : WsLib}.

(** What a participant may do in a workspace: nothing without an open
    tenure. *)
Definition capabilities (db : WDB) (w : string) (ref : Ref) : PermissionSet :=
  match permissionsFor db w ref with Ok s => s | Err _ => ∅ end.

(** ** Reading *)

Lemma Validate_kind ref :
  valid_ref ref = true → ref_kind ref = KindHuman ∨ ref_kind ref = KindPersonalityAgent.
Proof.
  unfold valid_ref, Validate. destruct (bool_decide (ref_kind ref = KindHuman)) eqn:E1.
  - intros _. left. by reflect_bools.
  - destruct (bool_decide (ref_kind ref = KindPersonalityAgent)) eqn:E2; [|done]. intros _. right. by reflect_bools.
Qed.
Lemma valid_Validate ref : valid_ref ref = true ↔ Validate ref = Ok tt.
Proof. unfold valid_ref. by destruct (Validate ref) as [[]|]. Qed.
Lemma display_name db ref : valid_ref ref = true → ∃ n, resolveParticipantDisplayName db ref = Ok n.
Proof.
  intros [E|E]%Validate_kind; unfold resolveParticipantDisplayName; rewrite E; simpl; eauto.
Qed.
Lemma activeMembership_spec db w ref ms :
  activeMembership db w ref = Ok ms ↔
  valid_ref ref = true ∧ isCanonicalUUIDv7 w = true ∧ ∃ i m n, find_tenure db w ref = Some (i, m)
    ∧ resolveParticipantDisplayName db ref = Ok n
    ∧ ms = mkMembership i w ref n (is_owner db w i) [] (m_joined m) None.
Proof.
  unfold activeMembership. rewrite valid_Validate. destruct (Validate ref) as [[]|] eqn:Hv; [|naive_solver].
  simpl. destruct (isCanonicalUUIDv7 w); [|naive_solver]. simpl.
  destruct (find_tenure db w ref) as [[i m]|] eqn:Hf; [|naive_solver].
  apply find_tenure_Some in Hf as (_ & _ & -> & _).
  destruct (resolveParticipantDisplayName db ref) as [n|]; naive_solver.
Qed.
Lemma activeMembership_none db w ref :
  Validate ref = Ok tt → find_tenure db w ref = None → activeMembership db w ref = Err ErrNotFound.
Proof. intros Hv Hf. unfold activeMembership. rewrite Hv. simpl. rewrite Hf. by destruct (isCanonicalUUIDv7 w). Qed.
Lemma find_tenure_unique db w ref i m :
  ws_ok db → w_members db !! i = Some m → open_tenure w ref m → find_tenure db w ref = Some (i, m).
Proof.
  intros Hok Hm (Hw & Hr & Hl). destruct (find_tenure db w ref) as [[j n]|] eqn:Hf.
  - apply find_tenure_Some in Hf as (Hn & Hw' & Hr' & Hl').
    assert (i = j) as -> by (eapply (wo_tenure _ Hok i j m n); congruence). congruence.
  - exfalso. by eapply (find_tenure_None _ _ _ i m Hf).
Qed.

Lemma caps_spec db w ref x :
  ws_ok db →
  x ∈ capabilities db w ref ↔
  valid_ref ref = true ∧ isCanonicalUUIDv7 w = true
  ∧ ∃ i m, w_members db !! i = Some m ∧ open_tenure w ref m ∧ may db w i x.
Proof.
  intros Hok. unfold capabilities, permissionsFor. split.
  - destruct (activeMembership db w ref) as [ms|] eqn:Ha; [|done].
    apply activeMembership_spec in Ha as (Hv & Hc & i & m & n & Hf & _ & ->). simpl. intros Hx.
    apply permissions_spec in Hx; [|done]. apply find_tenure_Some in Hf as [? ?]. eauto 8.
  - intros (Hv & Hc & i & m & Hm & Ho & Hx). destruct (display_name db ref Hv) as [n Hn].
    assert (activeMembership db w ref = Ok (mkMembership i w ref n (is_owner db w i) [] (m_joined m) None)) as ->.
    { apply activeMembership_spec. split_and!; [done..|]. eexists i, m, n. split_and!; [|done..].
      by apply find_tenure_unique. }
    simpl. by apply permissions_spec.
Qed.
Lemma caps_of_membership db w ref ms x :
  activeMembership db w ref = Ok ms → x ∈ capabilities db w ref ↔ x ∈ permissionsForMembership db ms.
Proof. intros H. unfold capabilities, permissionsFor. by rewrite H. Qed.

(** Nobody holds more than the known permissions and the active refs. *)
Lemma may_bound db w i x : may db w i x → x ∈ knownPermissions ∨ x ∈ active_refs db.
Proof.
  unfold may. destruct (is_owner db w i); [done|]. intros (r & _ & [Hp|Hg]).
  - left. unfold role_permissions in Hp. destruct (w_roles db !! r) as [row|]; [|done].
    destruct (bool_decide _); [|done]. by apply normalize_spec in Hp as [? _].
  - right. destruct Hg as (c & g & cap & _ & _ & Hc & He & ->). unfold effective in He. reflect_bools.
    apply active_refs_spec. eauto.
Qed.
(** The owner holds all of it. *)
Lemma owner_caps db w ref ms x :
  activeMembership db w ref = Ok ms → Owner ms = true →
  x ∈ knownPermissions ∨ x ∈ active_refs db → x ∈ capabilities db w ref.
Proof.
  intros Ha Ho Hx. apply (caps_of_membership _ _ _ _ _ Ha).
  apply activeMembership_spec in Ha as (_ & _ & i & m & n & _ & _ & ->). simpl in *.
  apply permissions_spec; [done|]. unfold may. simpl. by rewrite Ho.
Qed.

(** ** Roles *)

Lemma app_capabilities_spec db w r x :
  ws_ok db → x ∈ dom (filter (λ kv, kv.2 = true) (appCapabilitiesForRole db w r)) ↔ gives_ref db w r x.
Proof.
  intros Hok. unfold appCapabilitiesForRole. rewrite elem_of_dom. split.
  - intros [b [Hb Ht]%map_lookup_filter_Some]. simpl in Ht. subst b.
    apply elem_of_list_to_map_2, list_elem_of_fmap in Hb as ([c [g cap]] & [= -> He] & Hin).
    apply role_grants_spec in Hin as (? & ? & ?). unfold gives_ref. eauto 9.
  - intros (c & g & cap & Hg & Hw & Hc & He & ->). exists true. apply map_lookup_filter_Some. split; [|done].
    apply elem_of_list_to_map'.
    + intros b _ ([d [h cap']] & [= Hr ->] & Hin)%list_elem_of_fmap. apply role_grants_spec in Hin as (Hh & _ & Hc').
      assert (c = d) as <- by (by eapply (wo_grant_ref _ Hok r c d g h)).
      assert (h = g) as -> by congruence. assert (cap' = cap) as -> by congruence. done.
    + apply list_elem_of_fmap. exists (c, (g, cap)). simpl. rewrite He. split; [done|]. by apply role_grants_spec.
Qed.
Lemma role_capabilities_spec db r row x :
  ws_ok db → w_roles db !! r = Some row →
  x ∈ role_capabilities (role_of db r row) ↔ gives db (r_workspace row) r x.
Proof.
  intros Hok Hr. unfold role_capabilities, EffectiveCapabilities, gives, role_permissions. simpl.
  rewrite elem_of_union, app_capabilities_spec, Hr, bool_decide_eq_true_2 by done. done.
Qed.

(** ** Resolving a requested set *)

(** The capability a resolution stands for: its identity is in the catalog
    and its effect is that of a grant of it. *)
Definition resolved_ok (db : WDB) (c : resolvedAppCapability) : Prop :=
  ∃ cap, w_catalog db !! rc_id c = Some cap ∧ rc_effective c = effective (mkGrant "" (rc_ref c)) cap.
Lemma resolve_active_ok db ref c :
  resolveActiveAppCapability db ref = Ok c → rc_ref c = ref ∧ resolved_ok db c.
Proof.
  unfold resolveActiveAppCapability. destruct (head _) as [[id cap]|] eqn:H; [|done]. intros [= <-].
  apply head_filter_Some in H as (Hc & Hr & Ht). simpl in *. split; [done|]. exists cap. split; [done|].
  unfold effective. simpl. by rewrite !bool_decide_eq_true_2.
Qed.
Lemma stored_ok db w r ref c :
  storedRoleAppCapabilities db w r !! ref = Some c → rc_ref c = ref ∧ resolved_ok db c.
Proof.
  unfold storedRoleAppCapabilities.
  intros ([d [g cap]] & [= -> ->] & Hin)%elem_of_list_to_map_2%list_elem_of_fmap.
  apply role_grants_spec in Hin as (_ & _ & ?). split; [done|]. by exists cap.
Qed.
Lemma resolve_refs_spec db existing refs l :
  (∀ ref c, existing !! ref = Some c → rc_ref c = ref ∧ resolved_ok db c) →
  resolve_refs db existing refs = Ok l →
  (∀ c, c ∈ l → resolved_ok db c) ∧ (∀ c d, c ∈ l → d ∈ l → rc_ref c = rc_ref d → c = d).
Proof.
  intros Hex H. set (find ref := match existing !! ref with
    | Some p => Ok p | None => resolveActiveAppCapability db ref end).
  assert (∀ c, c ∈ l → find (rc_ref c) = Ok c ∧ resolved_ok db c) as Hl.
  { revert l H. induction refs as [|ref refs IH]; intros l H; simpl in H; [inv_tx; by intros ? ?%not_elem_of_nil|].
    fold (find ref) in H. destruct (find ref) as [c0|] eqn:Hf; [|done]. simpl in H.
    destruct (resolve_refs db existing refs) as [l0|]; [|done]. injection H as <-.
    intros c [->|Hin]%elem_of_cons; [|by apply (IH l0)].
    assert (rc_ref c0 = ref ∧ resolved_ok db c0) as [-> ?]; [|done].
    unfold find in Hf. destruct (existing !! ref) eqn:E; [injection Hf as <-; by apply Hex|by apply resolve_active_ok]. }
  split; [intros c Hc; by apply Hl|]. intros c d Hc Hd Heq. apply Hl in Hc as [Hc _]. apply Hl in Hd as [Hd _].
  rewrite Heq in Hc. congruence.
Qed.
(** What such a set grants is in its effective set. *)
Lemma set_effective_ref db set c cap :
  (∀ c d, c ∈ rs_app set → d ∈ rs_app set → rc_ref c = rc_ref d → c = d) →
  (∀ c, c ∈ rs_app set → resolved_ok db c) → c ∈ rs_app set → w_catalog db !! rc_id c = Some cap →
  effective (mkGrant "" (rc_ref c)) cap = true → rc_ref c ∈ set_effective set.
Proof.
  intros Hf Hr Hc Hcap He. unfold set_effective, EffectiveCapabilities. apply elem_of_union_r, elem_of_dom.
  exists true. apply map_lookup_filter_Some. split; [|done]. unfold appSet.
  destruct (Hr c Hc) as (cap' & Hcap' & Heff). assert (cap' = cap) as -> by congruence. rewrite He in Heff.
  apply elem_of_list_to_map'.
  - intros b _ Hb. apply elem_of_reverse, list_elem_of_fmap in Hb as (d & [= Hd ->] & Hin).
    by rewrite <-(Hf c d Hc Hin Hd).
  - apply elem_of_reverse, list_elem_of_fmap. exists c. by rewrite Heff.
Qed.
End authority.
