(* ===== verification/AuthoritySteps.v ===== *)
(** * How calls move authority

    A call moves capabilities within a bound when whatever lies outside the
    bound is held after it exactly by those who held it before.  Every call
    moves capabilities within those of its caller. *)

From Stdlib Require Import Ascii ZArith Lia.
From stdpp Require Import sorting.
From S2P Require Import Prelude Json State WorkspaceState Workspaces WorkspaceInvites WorkspaceFacts WorkspaceSteps InviteSteps WorkspaceSystem WorkspaceAuthority.
Local Open Scope string_scope.
Local Open Scope list_scope.
Local Open Scope Z_scope.

Section bounds.
Context `{GL : GoLib} `{WL : WsLib}.

Definition open_at (db : WDB) (w i : string) (ref : Ref) : Prop :=
  ∃ m, w_members db !! i = Some m ∧ open_tenure w ref m.
(** Outside [B], every tenure of [w] keeps what it may do. *)
Definition carries (B : string → Prop) (w : string) (db db' : WDB) : Prop :=
  ∀ i ref x, open_at db w i ref → may db w i x → ¬ B x → open_at db' w i ref ∧ may db' w i x.
Definition bounded (B : string → Prop) (w : string) (db db' : WDB) : Prop :=
  carries B w db db' ∧ carries B w db' db.

Lemma carries_caps B w db db' ref x :
  ws_ok db → ws_ok db' → carries B w db db' → ¬ B x →
  x ∈ capabilities db w ref → x ∈ capabilities db' w ref.
Proof.
  intros H1 H2 Hc HB (Hv & Hw & i & m & Hm & Ho & Hx)%caps_spec; [|done].
  apply caps_spec; [done|]. destruct (Hc i ref x) as [(m' & ? & ?) ?]; [by exists m|done..|].
  split_and!; [done..|]. eauto.
Qed.
Lemma carries_intro B w db db' :
  (∀ i ref, open_at db w i ref → open_at db' w i ref ∨ ∀ x, may db w i x → B x) →
  (∀ i, is_owner db' w i = is_owner db w i) → w_catalog db' = w_catalog db →
  (∀ r i x, w_assignments db !! (r, i) = Some w → gives db w r x → ¬ B x →
     ∃ s, w_assignments db' !! (s, i) = Some w ∧ gives db' w s x) →
  carries B w db db'.
Proof.
  intros Hm Ho Hc Hr i ref x Hi Hx HB. split; [destruct (Hm i ref Hi); naive_solver|].
  unfold may, active_refs in *. rewrite Ho, Hc. destruct (is_owner db w i); [done|].
  destruct Hx as (r & ? & ?). by eapply Hr.
Qed.
Lemma owner_bounded B w db db' a ms :
  activeMembership db w a = Ok ms → Owner ms = true → w_catalog db' = w_catalog db →
  (∀ x, x ∈ capabilities db w a → B x) → bounded B w db db'.
Proof.
  intros Ha Ho Hc HB. assert (∀ i x, may db w i x ∨ may db' w i x → B x) as H.
  { intros i x Hx. apply HB, (owner_caps _ _ _ ms); [done..|].
    destruct Hx as [Hx%may_bound|Hx%may_bound]; [done|]. unfold active_refs in *. by rewrite <-Hc. }
  split; intros i ref x _ Hx HN; destruct HN; eauto.
Qed.
Lemma bounded_same B w db db' :
  w_members db' = w_members db → w_workspaces db' = w_workspaces db → w_roles db' = w_roles db →
  w_assignments db' = w_assignments db → w_grants db' = w_grants db → w_catalog db' = w_catalog db →
  bounded B w db db'.
Proof.
  intros E1 E2 E3 E4 E5 E6. unfold bounded, carries, open_at, may, is_owner, gives, role_permissions, gives_ref, active_refs.
  rewrite E1, E2, E3, E4, E5, E6. tauto.
Qed.

(** ** New tenures *)

(** Everything authority comes from is as before, but for new tenures. *)
Record only_joins (db db' : WDB) : Prop := {
  oj_workspaces : w_workspaces db' = w_workspaces db;
  oj_roles : w_roles db' = w_roles db;
  oj_assignments : w_assignments db' = w_assignments db;
  oj_grants : w_grants db' = w_grants db;
  oj_catalog : w_catalog db' = w_catalog db;
  oj_members i m : w_members db !! i = Some m → w_members db' !! i = Some m
}.
#[global] Instance only_joins_preorder : PreOrder only_joins.
Proof. split; [by constructor|]. intros a b c [] []. constructor; try congruence. eauto. Qed.

Lemma may_same w db db' i x :
  w_workspaces db' = w_workspaces db → w_roles db' = w_roles db → w_assignments db' = w_assignments db →
  w_grants db' = w_grants db → w_catalog db' = w_catalog db → may db' w i x ↔ may db w i x.
Proof.
  intros E1 E2 E3 E4 E5. unfold may, is_owner, gives, role_permissions, gives_ref, active_refs.
  by rewrite E1, E2, E3, E4, E5.
Qed.
(** Authority is held by tenures that exist. *)
Lemma may_member db w i x : ws_ok db → may db w i x → is_Some (w_members db !! i).
Proof.
  intros Hok Hx. unfold may, is_owner in Hx. destruct (w_workspaces db !! w) as [W|] eqn:HW.
  - destruct (bool_decide (w_owner W = i)) eqn:E.
    + reflect_bools. subst i. destruct (wo_owner _ Hok w W HW) as (m & ? & _). eauto.
    + destruct Hx as (r & Ha & _). destruct (wo_assign _ Hok r i w Ha) as [_ (? & ? & _)%fmap_Some]. eauto.
  - destruct Hx as (r & Ha & _). destruct (wo_assign _ Hok r i w Ha) as [_ (? & ? & _)%fmap_Some]. eauto.
Qed.
Lemma only_joins_bounded B w db db' : ws_ok db → only_joins db db' → bounded B w db db'.
Proof.
  intros Hok [? ? ? ? ? Hm]. split; intros i ref x (m & Hi & Ho) Hx _.
  - split; [exists m; eauto|by apply (may_same w db db')].
  - apply (may_same w db db') in Hx; [|done..]. split; [|done].
    destruct (may_member db w i x Hok Hx) as [m' Hm']. exists m'. split; [done|].
    by assert (m' = m) as -> by (apply Hm in Hm'; congruence).
Qed.

Lemma insert_member_joins id m : steps only_joins (insert_member id m).
Proof.
  intros db u db' H. unfold insert_member in H. inv_ws. reflect_bools. constructor; simpl; try done.
  intros i n Hi. by apply insert_fresh_lookup.
Qed.
Lemma on_unique_joins {A} e (m : wtx A) : steps only_joins m → steps only_joins (on_unique e m).
Proof. intros Hm db a db' H%on_unique_ok. by eapply Hm. Qed.
Lemma Issue_joins txnow dbnow eid token issuer email ttl :
  steps only_joins (IssueEnrollmentInviteInTx txnow dbnow eid token issuer email ttl).
Proof. intros db r db' (_ & _ & _ & _ & _ & ->)%issue_ok. by constructor. Qed.

#[local] Hint Resolve steps_asks steps_tables steps_pg_text steps_new_id insert_member_joins on_unique_joins
  Issue_joins : tx.
Ltac joins := tx_steps; try (intros; by constructor).

Lemma update_invite_joins id f : steps only_joins (update_invite id f).
Proof. unfold update_invite. joins. Qed.
Lemma insert_invite_joins id i : steps only_joins (insert_invite id i).
Proof. unfold insert_invite. joins. Qed.
Lemma revoke_bundle_joins t id : steps only_joins (revoke_bundle t id).
Proof. unfold revoke_bundle. joins. Qed.
Lemma close_pending_joins w t at_ ex : steps only_joins (closePendingTargetedInvitesForParticipant w t at_ ex).
Proof. unfold closePendingTargetedInvitesForParticipant. joins. Qed.
#[local] Hint Resolve update_invite_joins insert_invite_joins revoke_bundle_joins close_pending_joins : tx.
Lemma finish_joins dbnow now id a m : steps only_joins (finishShareInvite dbnow now id a m).
Proof. unfold finishShareInvite, redeem_invite, reserve_invite. joins. Qed.
Lemma join_joins now m w a : steps only_joins (join_workspace now m w a).
Proof. unfold join_workspace. joins. Qed.
#[local] Hint Resolve finish_joins join_joins : tx.
Lemma insert_targeted_joins now id w issuer t : steps only_joins (insert_targeted now id w issuer t).
Proof. unfold insert_targeted. joins. Qed.
#[local] Hint Resolve insert_targeted_joins : tx.

(** The calls about invitations and enrollments. *)
Definition about_invites (c : wcall) : Prop :=
  match c with
  | CallInvite _ _ _ _ _ | CallInviteAgent _ _ _ _ _ _ | CallRedeem _ _ _ _ _ _ | CallAccept _ _ _ _
  | CallRevoke _ _ _ _ _ | CallBundle _ _ _ _ _ _ _ _ _ _ | CallIssueEnrollment _ _ _ _ _ _ _
  | CallRevokeEnrollment _ _ _ | CallConsume _ _ _ _ _ => True
  | _ => False
  end.
Lemma invites_only_join c : about_invites c → steps only_joins (wrun c).
Proof.
  destruct c; simpl; try done; intros _; unfold discard.
  - unfold CreateInvite. joins.
  - unfold CreateCurrentAgentInvite. joins.
  - unfold RedeemInviteWithEnrollmentProof, redeem_code. joins.
  - unfold AcceptTargetedInvitation, accept_invite, redeem_invite. joins.
  - unfold RevokeInvite. joins.
  - unfold CreateEnrollmentBundle. joins. intros db ie db' H. cbv beta in H.
    destruct (IssueEnrollmentInviteInTx _ _ _ _ _ _ _ db) as [[? ?]|[]] eqn:E; try discriminate H.
    injection H as -> ->. by eapply Issue_joins.
  - unfold IssueEnrollmentInvite. joins.
  - unfold RevokeEnrollmentInvite. joins.
  - unfold consumeEnrollmentInvite, reserve_invite. joins.
Qed.
End bounds.
