(* ===== verification/RoleSteps.v ===== *)
(** * Authority under role and tenure changes

    The operations of [roles.go] and those that close tenures move
    capabilities only within those of the actor. *)

From Stdlib Require Import Ascii ZArith Lia.
From stdpp Require Import sorting.
From S2P Require Import Prelude Json State WorkspaceState Workspaces WorkspaceInvites WorkspaceFacts WorkspaceSteps InviteSteps WorkspaceSystem WorkspaceAuthority AuthoritySteps.
Local Open Scope string_scope.
Local Open Scope list_scope.
Local Open Scope Z_scope.

Section roles.
Context `{GL : GoLib} `{WL : WsLib}.

(** ** One role *)

(** Only role [r0], of workspace [w0], differs. *)
Record touches_role (w0 r0 : string) (db db' : WDB) : Prop := {
  tr_workspaces : w_workspaces db' = w_workspaces db;
  tr_members : w_members db' = w_members db;
  tr_catalog : w_catalog db' = w_catalog db;
  tr_roles s : s ≠ r0 → w_roles db' !! s = w_roles db !! s;
  tr_assign s i : s ≠ r0 → w_assignments db' !! (s, i) = w_assignments db !! (s, i);
  tr_grants s c : s ≠ r0 → w_grants db' !! (s, c) = w_grants db !! (s, c)
}.
Lemma touches_sym w0 r0 db db' : touches_role w0 r0 db db' → touches_role w0 r0 db' db.
Proof. intros []. constructor; try done; intros; symmetry; eauto. Qed.
Lemma touches_gives w0 r0 db db' w s x :
  touches_role w0 r0 db db' → s ≠ r0 → gives db w s x → gives db' w s x.
Proof.
  intros [Ew Em Ec Hr Ha Hg] Hs. unfold gives, role_permissions, gives_ref.
  rewrite Hr, Ec by done. setoid_rewrite (λ c, Hg s c Hs). done.
Qed.
Lemma touches_carries B w w0 r0 db db' :
  touches_role w0 r0 db db' → (∀ i v, w_assignments db !! (r0, i) = Some v → v = w0) →
  (w = w0 → ∀ i x, w_assignments db !! (r0, i) = Some w0 → gives db w0 r0 x → B x) → carries B w db db'.
Proof.
  intros Ht Hv HB. pose proof Ht as [Ew Em Ec Hr Ha Hg]. apply carries_intro; [|intros i|done|].
  - intros i ref Hi. left. unfold open_at. by rewrite Em.
  - unfold is_owner. by rewrite Ew.
  - intros s i x Hs Hx HN. destruct (decide (s = r0)) as [->|Hne].
    + destruct HN. assert (w = w0) as -> by by eapply Hv. by eapply HB.
    + exists s. rewrite Ha by done. split; [done|]. by eapply touches_gives.
Qed.
Lemma assigned_workspace db r row i v :
  ws_ok db → w_roles db !! r = Some row → w_assignments db !! (r, i) = Some v → v = r_workspace row.
Proof. intros Hok Hr Ha. destruct (wo_assign _ Hok r i v Ha) as [Hw _]. rewrite Hr in Hw. simpl in Hw. congruence. Qed.

(** ** Grants *)

Lemma insert_grants w r l : ∀ db u db',
  for_each l (insert_grant w r) db = Ok (u, db') →
  db' = db <| w_grants := w_grants db' |>
  ∧ (∀ s c, s ≠ r → w_grants db' !! (s, c) = w_grants db !! (s, c))
  ∧ ∀ c g, w_grants db' !! (r, c) = Some g →
      w_grants db !! (r, c) = Some g ∨ ∃ d, d ∈ l ∧ c = rc_id d ∧ g = mkGrant w (rc_ref d).
Proof.
  induction l as [|d l IH]; intros db u db' H; simpl in H; [inv_ws; destruct db'; eauto|].
  apply bind_ok in H as (u1 & db1 & H1 & (E & Hs & Hr)%IH). unfold insert_grant in H1. inv_ws.
  split_and!; [by rewrite E| |].
  - intros s c Hne. rewrite Hs by done. simpl. rewrite lookup_insert_ne by congruence. done.
  - intros c g Hg. destruct (Hr c g Hg) as [Hg'|(d' & ? & ?)]; [|right; exists d'; split; [by right|done]].
    simpl in Hg'. apply lookup_insert_Some in Hg' as [[[= <-] <-]|[_ ?]]; [|by left].
    right. exists d. split; [by left|done].
Qed.
(** After a replacement the role grants what was asked for and nothing else,
    and other roles grant what they did. *)
Lemma replaced w r l db u db' :
  ws_ok db → r_workspace <$> w_roles db !! r = Some w →
  replaceRoleAppCapabilities w r l db = Ok (u, db') →
  db' = db <| w_grants := w_grants db' |>
  ∧ (∀ s c, s ≠ r → w_grants db' !! (s, c) = w_grants db !! (s, c))
  ∧ ∀ c g, w_grants db' !! (r, c) = Some g → ∃ d, d ∈ l ∧ c = rc_id d ∧ g = mkGrant w (rc_ref d).
Proof.
  intros Hok Hw H. unfold replaceRoleAppCapabilities in H. apply bind_ok in H as (? & db1 & [= _ <-] & H).
  apply insert_grants in H as (E & Hs & Hr). simpl in *. split_and!; [by rewrite E| |].
  - intros s c Hne. rewrite Hs by done. destruct (w_grants db !! (s, c)) as [g|] eqn:Hg.
    + apply delete_grants_lookup. split; [done|]. by intros [? _].
    + destruct (delete_grants w r (w_grants db) !! (s, c)) eqn:E'; [|done].
      apply delete_grants_lookup in E' as [? _]. congruence.
  - intros c g Hg. destruct (Hr c g Hg) as [[Hg' Hn]%delete_grants_lookup|?]; [|done]. destruct Hn.
    split; [done|]. destruct (wo_grant _ Hok r c g Hg') as [Hw' _]. congruence.
Qed.
(** What a role stored from a resolved set gives lies in the set. *)
Lemma stored_set_gives db db' w r row set x :
  w_roles db' !! r = Some row → r_permissions row = gset_to_gmap true (rs_platform set) →
  w_catalog db' = w_catalog db →
  (∀ c g, w_grants db' !! (r, c) = Some g → ∃ d, d ∈ rs_app set ∧ c = rc_id d ∧ g = mkGrant w (rc_ref d)) →
  (∀ c, c ∈ rs_app set → resolved_ok db c) →
  (∀ c d, c ∈ rs_app set → d ∈ rs_app set → rc_ref c = rc_ref d → c = d) →
  gives db' w r x → x ∈ set_effective set.
Proof.
  intros Hr Hp Hc Hg Hres Huniq [Hx|(c & g & cap & Hgr & _ & Hcap & He & ->)].
  - unfold role_permissions in Hx. rewrite Hr in Hx. destruct (bool_decide _); [|done].
    apply normalize_spec in Hx as [_ Hx]. rewrite Hp in Hx. apply lookup_gset_to_gmap_Some in Hx as [Hx _].
    unfold set_effective, EffectiveCapabilities. by apply elem_of_union_l.
  - destruct (Hg c g Hgr) as (d & Hd & -> & ->). simpl in *. rewrite Hc in Hcap.
    by eapply (set_effective_ref db).
Qed.

(** ** Assignments *)

Lemma insert_assignments w i l : ∀ db u db',
  for_each l (insert_assignment w i) db = Ok (u, db') →
  db' = db <| w_assignments := w_assignments db' |>
  ∧ ∀ k v, w_assignments db' !! k = Some v ↔
      w_assignments db !! k = Some v ∨ (k.1 ∈ l ∧ k.2 = i ∧ v = w).
Proof.
  induction l as [|r l IH]; intros db u db' H; simpl in H.
  - inv_ws. split; [by destruct db'|]. intros k v. split; [by left|]. intros [?|(?%not_elem_of_nil & _)]; done.
  - apply bind_ok in H as (u1 & db1 & H1 & (E & Hk)%IH). unfold insert_assignment in H1. inv_ws. reflect_bools.
    split; [by rewrite E|]. intros [s j] v. rewrite Hk. simpl. rewrite elem_of_cons. split.
    + intros [[[[= <- <-] <-]|[_ ?]]%lookup_insert_Some|?]; [|by left|]; naive_solver.
    + intros [Hv|([->|?] & -> & ->)]; [|left; by rewrite lookup_insert_eq|naive_solver].
      left. rewrite lookup_insert_ne; [done|]. intros [= <- <-]. congruence.
Qed.
Lemma rolesForMembership_spec db w i r role :
  rolesForMembership db w i !! r = Some role ↔
  w_assignments db !! (r, i) = Some w ∧
  ∃ row, w_roles db !! r = Some row ∧ r_workspace row = w ∧ role = role_of db r row.
Proof.
  assert (∀ s R, (s, R) ∈ omap (λ r, match w_roles db !! r with
      | Some row => if bool_decide (r_workspace row = w) then Some (r, role_of db r row) else None
      | None => None end) (assigned_roles db w i) ↔
    w_assignments db !! (s, i) = Some w ∧
    ∃ row, w_roles db !! s = Some row ∧ r_workspace row = w ∧ R = role_of db s row) as Hin.
  { intros s R. rewrite list_elem_of_omap. split.
    - intros (s' & Hs & H). apply assigned_spec in Hs. destruct (w_roles db !! s') as [row|] eqn:Hr; [|done].
      destruct (bool_decide _) eqn:E; [|done]. reflect_bools. injection H as <- <-. eauto.
    - intros (Hs & row & Hr & <- & ->). exists s. split; [by apply assigned_spec|].
      by rewrite Hr, bool_decide_eq_true_2. }
  unfold rolesForMembership. rewrite <-Hin. symmetry. apply elem_of_list_to_map'.
  intros R. rewrite !Hin. naive_solver congruence.
Qed.
Lemma requested_spec db w l : ∀ seen S L,
  requested_roles db w seen l = Ok (S, L) →
  (∀ r role, S !! r = Some role → seen !! r = Some role ∨ r ∈ L ∧ roleByID db w r = Ok role)
  ∧ (∀ r, is_Some (seen !! r) ∨ r ∈ L → is_Some (S !! r)).
Proof.
  induction l as [|r l IH]; intros seen S L H; simpl in H.
  - injection H as <- <-. split; [by left|]. intros r [?|?%not_elem_of_nil]; done.
  - destruct (seen !! r) eqn:Hs; [by apply IH|]. destruct (roleByID db w r) as [role|] eqn:Hr; [|done]. simpl in H.
    destruct (requested_roles db w (<[r:=role]> seen) l) as [[S' L']|] eqn:E; [|done]. injection H as <- <-.
    apply IH in E as [H1 H2]. split.
    + intros s R HS. destruct (H1 s R HS) as [[[<- <-]|[_ ?]]%lookup_insert_Some|[? ?]]; [right|by left|right].
      * split; [by left|done].
      * split; [by right|done].
    + intros s Hs'. apply H2. destruct Hs' as [?|[->|?]%elem_of_cons]; [left|left|by right].
      * by apply insert_is_Some.
      * rewrite lookup_insert_eq. eauto.
Qed.
Lemma changes_within_spec P from to r role :
  changes_within P from to = true → from !! r = Some role → to !! r = None → role_capabilities role ⊆ P.
Proof.
  intros H Hr Hn. apply (forallb_table _ _ r role H) in Hr. simpl in Hr. rewrite Hn in Hr.
  rewrite bool_decide_eq_false_2 in Hr by (intros [? ?]; done). unfold permissionsWithin in Hr.
  simpl in Hr. by reflect_bools.
Qed.

(** ** The calls *)

Lemma authority_ok db w a p :
  roleMutationAuthority db w a = Ok p →
  activeMembership db w a = Ok p.1 ∧ ∀ x, x ∈ p.2 ↔ x ∈ capabilities db w a.
Proof.
  unfold roleMutationAuthority. destruct (activeMembership db w a) as [ms|] eqn:Ha; [|done]. simpl.
  intros [= <-]. split; [done|]. intros x. symmetry. by apply caps_of_membership.
Qed.
Lemma within_spec P Q : permissionsWithin P Q = true → ∀ x, x ∈ Q → x ∈ P.
Proof. unfold permissionsWithin. intros H. reflect_bools. by apply H. Qed.

Section actor.
Context (B : string → Prop) (w : string) (a : Ref) (db : WDB).
Hypothesis Hok : ws_ok db.
Hypothesis HB : ∀ x, x ∈ capabilities db w a → B x.

(** A change of one role of [w0] by its owner, or by an actor whose own set
    holds what the role gave and what it gives now. *)
Lemma role_change_bounded w0 r p db' :
  touches_role w0 r db db' → ws_ok db' → roleMutationAuthority db w0 a = Ok p →
  (∀ i v, w_assignments db !! (r, i) = Some v → v = w0) →
  (∀ i v, w_assignments db' !! (r, i) = Some v → v = w0) →
  Owner p.1 = true ∨ (∀ x, gives db w0 r x → x ∈ p.2)
    ∧ (∀ i x, w_assignments db' !! (r, i) = Some w0 → gives db' w0 r x → x ∈ p.2) →
  bounded B w db db'.
Proof.
  intros Ht Hok' [Ha Hp]%authority_ok H1 H2 Hc. destruct (decide (w = w0)) as [<-|Hne].
  - destruct Hc as [Ho|[Hold Hnew]]; [eapply owner_bounded; [done..|by apply tr_catalog with w r|done]|].
    split; (eapply touches_carries; [by eauto using touches_sym|done|]); intros _ i x ? ?; apply HB, Hp; eauto.
  - split; (eapply touches_carries; [by eauto using touches_sym|done|]); done.
Qed.

Lemma CreateRole_bounded now r w0 name color perms pos role db' :
  CreateRoleWithPosition now r w0 a name color perms pos db = Ok (role, db') → bounded B w db db'.
Proof.
  intros H. unfold CreateRoleWithPosition in H. inv_ws. reflect_bools.
  match goal with E : lockWorkspace _ _ = Ok _ |- _ => apply lockWorkspace_ok in E as [? ?] end.
  match goal with E : replaceRoleAppCapabilities _ _ _ ?d = Ok _ |- _ =>
    assert (keeps db d) as Hk by (apply role_row_keeps; simpl; [done..|by left]);
    apply replaced in E as (E & Hs & _); [|by apply Hk|by simpl; rewrite lookup_insert_eq];
    rewrite E in Hs |- *; clear E end.
  match goal with E : w_roles db !! r = None |- _ => rename E into Hr end.
  assert (∀ i v, w_assignments db !! (r, i) ≠ Some v) as Hnone.
  { intros i v Hi. destruct (wo_assign _ Hok r i v Hi) as [Hv _]. by rewrite Hr in Hv. }
  match goal with |- bounded _ _ _ ?d => assert (touches_role w0 r db d) as Ht end.
  { constructor; simpl; try done. intros t Ht. by rewrite lookup_insert_ne. }
  split; (eapply touches_carries; [by eauto using touches_sym|..]); simpl; intros; exfalso; by eapply Hnone.
Qed.
Lemma UpdateRole_bounded w0 r name color perms pos role db' :
  UpdateRoleWithPosition w0 r a name color perms pos db = Ok (role, db') → bounded B w db db'.
Proof.
  intros H. assert (ws_ok db') as Hok' by by apply (UpdateRole_keeps _ _ _ _ _ _ _ _ _ _ H).
  unfold UpdateRoleWithPosition in H. inv_ws. reflect_bools.
  match goal with E : lockWorkspace _ _ = Ok _ |- _ => apply lockWorkspace_ok in E as [? ?] end.
  match goal with E : roleByID _ _ _ = Ok _ |- _ => apply roleByID_ok in E as (row & Hrow & Hw & ->) end.
  match goal with E : replaceRoleAppCapabilities _ _ _ ?d = Ok (_, ?d') |- _ =>
    assert (keeps db d) as Hk; [|apply replaced in E as (E & Hs & Hg);
      [|by apply Hk|by simpl; rewrite lookup_alter_eq, Hrow; simpl; rewrite Hw]] end.
  { rewrite (alter_insert_Some _ _ _ row) by done.
    apply role_row_keeps; simpl; [by rewrite Hw..|]. right. by rewrite Hrow. }
  match goal with E : db' = _ |- _ => rename E into Hdb end.
  match goal with E : resolveRoleCapabilitiesForUpdate _ _ _ = Ok ?q |- _ => rename E into Hq; rename q into set end.
  assert ((∀ c, c ∈ rs_app set → resolved_ok db c) ∧
    (∀ c d, c ∈ rs_app set → d ∈ rs_app set → rc_ref c = rc_ref d → c = d)) as [Hres Hun].
  { unfold resolveRoleCapabilitiesForUpdate in Hq. destruct (requestedAppCapabilityRefs perms) as [refs|]; [|done].
    simpl in Hq. destruct (resolve_refs _ _ refs) as [l|] eqn:El; [|done]. injection Hq as <-. simpl.
    eapply resolve_refs_spec; [|exact El]. intros. by eapply stored_ok. }
  assert (∀ i v, w_assignments db !! (r, i) = Some v → v = w0) as Hv.
  { intros i v Hi. rewrite <-Hw. by apply (assigned_workspace db r row i). }
  assert (w_assignments db' = w_assignments db) as Ea by by rewrite Hdb.
  eapply (role_change_bounded w0 r); [|done|done|done|by rewrite Ea|].
  { rewrite Hdb. constructor; simpl; try done. intros t Ht. by rewrite lookup_alter_ne. }
  match goal with E : Owner _ || _ = true |- _ => apply orb_true_iff in E as [E|E] end; [by left|right].
  reflect_bools. split.
  - intros x Hx. apply (within_spec _ (role_capabilities (role_of db r row))); [done|]. apply role_capabilities_spec; [done..|]. by rewrite Hw.
  - intros i x _ Hx. apply (within_spec _ (set_effective set)); [done|].
    assert (∃ row', w_roles db' !! r = Some row' ∧ r_permissions row' = gset_to_gmap true (rs_platform set))
      as (row' & ? & ?) by (rewrite Hdb; simpl; rewrite lookup_alter_eq, Hrow; eauto).
    apply (stored_set_gives db db' w0 r row'); [done|done|by rewrite Hdb|done..].
Qed.
Lemma DeleteRole_bounded w0 r u db' : DeleteRole w0 r a db = Ok (u, db') → bounded B w db db'.
Proof.
  intros H. assert (ws_ok db') as Hok' by by apply (DeleteRole_keeps _ _ _ _ _ _ H).
  unfold DeleteRole in H. inv_ws.
  match goal with E : roleByID _ _ _ = Ok _ |- _ => apply roleByID_ok in E as (row & Hrow & Hw & ->) end.
  assert (∀ i v, w_assignments db !! (r, i) = Some v → v = w0) as Hv.
  { intros i v Hi. rewrite <-Hw. by apply (assigned_workspace db r row i). }
  assert (∀ i v, w_assignments (drop_role w0 r db) !! (r, i) ≠ Some v) as Hn.
  { intros i v [Hi Hc]%map_lookup_filter_Some. simpl in Hc. destruct Hc. split; [done|by eapply Hv]. }
  eapply (role_change_bounded w0 r); [|done|done|done|intros i v Hi; by destruct (Hn i v)|].
  - constructor; simpl; try done.
    + intros t Ht. by rewrite lookup_delete_ne.
    + intros t i Ht. apply option_eq. intros v. rewrite map_lookup_filter_Some. simpl. naive_solver.
    + intros t c Ht. apply option_eq. intros v. rewrite delete_grants_lookup. simpl. naive_solver.
  - match goal with E : Owner _ || _ = true |- _ => apply orb_true_iff in E as [E|E] end; [by left|right].
    reflect_bools. split; [|intros i x Hi; by destruct (Hn i w0)].
    intros x Hx. apply (within_spec _ (role_capabilities (role_of db r row))); [done|]. apply role_capabilities_spec; [done..|]. by rewrite Hw.
Qed.

Lemma SetRoles_bounded w0 i0 l r db' : SetMembershipRoles w0 i0 a l db = Ok (r, db') → bounded B w db db'.
Proof.
  intros H. unfold SetMembershipRoles in H. apply bind_ok in H as (? & ? & [_ ->]%asks_ok & H).
  apply bind_ok in H as (q & ? & [Hq ->]%asks_ok & H). apply bind_ok in H as (? & ? & [_ ->]%guard_ok & H).
  apply bind_ok in H as (? & ? & [_ ->]%asks_ok & H). apply bind_ok in H as (? & ? & [= <- <-] & H). inv_ws.
  match goal with E : requested_roles _ _ _ _ = Ok ?q |- _ => destruct q as [S L]; apply requested_spec in E as [HS HL] end.
  apply authority_ok in Hq as [Ha Hp]. destruct q as [ms P].
  match goal with E : for_each _ _ _ = Ok _ |- _ => apply insert_assignments in E as [Hdb Has] end. simpl in *.
  destruct (decide (w = w0 ∧ Owner ms = true)) as [[<- Ho]|Hno].
  { eapply owner_bounded; [done..|by rewrite Hdb|done]. }
  assert (∀ s i, w_assignments db' !! (s, i) = Some w → w_assignments db !! (s, i) = Some w ∨ (s ∈ L ∧ i = i0 ∧ w = w0)) as Hin.
  { intros s i [[? _]%map_lookup_filter_Some|?]%Has; [by left|by right]. }
  assert (∀ s i, w_assignments db !! (s, i) = Some w →
    w_assignments db' !! (s, i) = Some w ∨ ((s ∉ L) ∧ i = i0 ∧ w = w0)) as Hout.
  { intros s i Hs. destruct (decide (s ∈ L ∧ i = i0 ∧ w = w0)) as [Hy|Hn]; [left; apply Has; by right|].
    destruct (decide (i = i0 ∧ w = w0)) as [[-> ->]|Hd]; [right; naive_solver|]. left. apply Has. left.
    apply map_lookup_filter_Some. split; [done|]. simpl. naive_solver. }
  assert (w = w0 → ∀ s x, gives db w0 s x → s ∈ L → w_assignments db !! (s, i0) ≠ Some w → B x) as HBin.
  { intros -> s y Hy Hs Hn. apply HB, Hp. destruct (HL s) as [role Hrole]; [by right|].
    destruct (HS s role Hrole) as [?|[_ (row & Hrow & Hw & ->)%roleByID_ok]]; [done|].
    match goal with E : Owner ms || changes_within _ S _ = true |- _ => apply orb_true_iff in E as [E|E]; [naive_solver|] end.
    eapply changes_within_spec; [done|done| |apply role_capabilities_spec; [done..|by rewrite Hw]].
    destruct (rolesForMembership db w0 i0 !! s) eqn:E; [|done]. by apply rolesForMembership_spec in E as [? _]. }
  assert (w = w0 → ∀ s x, gives db w0 s x → s ∉ L → w_assignments db !! (s, i0) = Some w → B x) as HBout.
  { intros -> s y Hy Hs Hn. apply HB, Hp. destruct (wo_assign _ Hok s i0 w0 Hn) as [(row & Hrow & Hw)%fmap_Some _].
    match goal with E : Owner ms || changes_within _ _ S = true |- _ => apply orb_true_iff in E as [E|E]; [naive_solver|] end.
    assert (rolesForMembership db w0 i0 !! s = Some (role_of db s row)) by (apply rolesForMembership_spec; eauto).
    eapply changes_within_spec; [done|done| |apply role_capabilities_spec; [done..|by rewrite <-Hw]].
    destruct (S !! s) eqn:E; [|done]. by destruct (HS _ _ E) as [?|[? _]]. }
  rewrite Hdb. split; (apply carries_intro; simpl; [by left|done|done|]).
  - intros s i y Hs Hy HN. exists s. destruct (Hout s i Hs) as [?|(? & -> & ->)]; [done|]. destruct HN. by eapply HBout.
  - intros s i y Hs Hy HN. exists s. destruct (Hin s i Hs) as [?|(? & -> & ->)]; [done|].
    destruct (decide (w_assignments db !! (s, i0) = Some w0)); [done|]. destruct HN. by eapply HBin.
Qed.

(** ** Closing a tenure *)

(** Only places, and the end of tenure [i0], differ. *)
Record closes (i0 : string) (db db' : WDB) : Prop := {
  cl_workspaces : w_workspaces db' = w_workspaces db;
  cl_roles : w_roles db' = w_roles db;
  cl_assignments : w_assignments db' = w_assignments db;
  cl_grants : w_grants db' = w_grants db;
  cl_catalog : w_catalog db' = w_catalog db;
  cl_other i : i ≠ i0 → w_members db' !! i = w_members db !! i;
  cl_this m : w_members db' !! i0 = Some m → m_left m = None → w_members db !! i0 = Some m
}.
Lemma close_places_closes dbnow w0 i0 d t d' : closeBoundPlaceTenures dbnow w0 i0 d = Ok (t, d') → closes i0 d d'.
Proof. intros H. unfold closeBoundPlaceTenures in H. inv_ws. by constructor. Qed.
Lemma close_member_closes w0 i0 t d u d' : close_member w0 i0 t d = Ok (u, d') → closes i0 d d'.
Proof.
  intros H. unfold close_member in H. rewrite tables_bind in H.
  destruct (w_members d !! i0) as [m|] eqn:Hm; [|inv_ws; by constructor].
  destruct (_ && _); [|inv_ws; by constructor]. inv_ws. constructor; simpl; try done.
  - intros i Hi. by rewrite lookup_insert_ne.
  - intros n. rewrite lookup_insert_eq. by intros [= <-].
Qed.
Lemma closes_trans i0 d1 d2 d3 : closes i0 d1 d2 → closes i0 d2 d3 → closes i0 d1 d3.
Proof. intros [] []. constructor; try congruence; [intros i Hi; transitivity (w_members d2 !! i); auto|auto]. Qed.
Lemma closes_bounded w0 i0 db' :
  closes i0 db db' → m_workspace <$> w_members db !! i0 = Some w0 → (w = w0 → ∀ x, may db w0 i0 x → B x) →
  bounded B w db db'.
Proof.
  intros [] Hi0 Hx. split; intros i ref x (m & Hm & Ho) Hy HN.
  - destruct (decide (i = i0)) as [->|Hne].
    + destruct HN. rewrite Hm in Hi0. injection Hi0 as Hw0. destruct Ho as (Hw & _).
      assert (w = w0) as -> by congruence. by apply Hx.
    + split; [exists m; by rewrite cl_other0|]. by apply (may_same w db db').
  - split; [|by apply (may_same w db db') in Hy]. exists m. split; [|done].
    destruct (decide (i = i0)) as [->|Hne]; [|by rewrite <-cl_other0]. apply cl_this0; [done|]. by destruct Ho as (_ & _ & ?).
Qed.
Lemma membershipByID_ok w0 i0 active ms :
  membershipByID db w0 i0 active = Ok ms →
  m_workspace <$> w_members db !! i0 = Some w0 ∧ WorkspaceMemberID ms = i0 ∧ MemberWorkspaceID ms = w0
  ∧ Owner ms = is_owner db w0 i0.
Proof.
  unfold membershipByID. destruct (_ || _); [done|]. destruct (w_members db !! i0) as [m|]; [|done].
  destruct (_ && _) eqn:E; [|done]. intros [= <-]. reflect_bools. simpl. by subst.
Qed.
Lemma Remove_bounded dbnow w0 i0 ms db' : removeMember dbnow w0 i0 a db = Ok (ms, db') → bounded B w db db'.
Proof.
  intros H. unfold removeMember in H. apply bind_ok in H as (? & ? & [_ ->]%asks_ok & H).
  apply bind_ok in H as (target & ? & [Ht ->]%asks_ok & H). apply bind_ok in H as (? & ? & [_ ->]%guard_ok & H).
  apply bind_ok in H as (P & ? & [HP ->]%asks_ok & H). apply bind_ok in H as (? & ? & [= <- <-] & H). inv_ws.
  apply membershipByID_ok in Ht as (Hi & Hm & Hw & Ho).
  match goal with E1 : closeBoundPlaceTenures _ _ _ _ = _, E2 : close_member _ _ _ _ = _ |- _ =>
    apply close_places_closes in E1; apply close_member_closes in E2; pose proof (closes_trans _ _ _ _ E1 E2) as Hc end.
  eapply closes_bounded; [done..|]. intros -> y Hy. apply HB. unfold capabilities. rewrite HP.
  eapply within_spec; [done|]. apply permissions_spec; [by rewrite Hm, Hw|]. by rewrite Hm, Hw.
Qed.
Lemma Leave_bounded dbnow w0 u db' : Leave dbnow w0 a db = Ok (u, db') → bounded B w db db'.
Proof.
  intros H. unfold Leave in H. inv_ws.
  match goal with E : activeMembership _ _ _ = Ok _ |- _ => rename E into Ha end. pose proof Ha as Ha'.
  apply activeMembership_spec in Ha' as (_ & _ & i & m & n & [Hm (Hw & _)]%find_tenure_Some & _ & ->). simpl in *.
  match goal with E1 : closeBoundPlaceTenures _ _ _ _ = _, E2 : close_member _ _ _ _ = _ |- _ =>
    apply close_places_closes in E1; apply close_member_closes in E2; pose proof (closes_trans _ _ _ _ E1 E2) as Hc end.
  eapply (closes_bounded w0); [done|rewrite Hm; by rewrite <-Hw|]. intros -> y Hy.
  apply HB, (caps_of_membership _ _ _ _ _ Ha). by apply permissions_spec.
Qed.

(** ** Workspaces *)

Lemma Transfer_bounded w0 t W db' : TransferOwnership w0 t a db = Ok (W, db') → bounded B w db db'.
Proof.
  intros H. unfold TransferOwnership, set_owner, set_workspace in H. inv_ws.
  destruct (decide (w = w0)) as [->|Hne]; [by eapply owner_bounded|].
  split; (apply carries_intro; simpl; [by left|intros i|done|intros r ? ? ? ? ?; by exists r]);
    unfold is_owner; simpl; by rewrite lookup_insert_ne.
Qed.
Lemma Rename_bounded w0 name W db' : UpdateName w0 a name db = Ok (W, db') → bounded B w db db'.
Proof.
  intros H. unfold UpdateName, set_workspace in H. inv_ws.
  match goal with E : w_workspaces db !! w0 = Some _ |- _ => rename E into HW end.
  split; (apply carries_intro; simpl; [by left|intros i|done|intros r ? ? ? ? ?; by exists r]);
    unfold is_owner; simpl; (destruct (decide (w0 = w)) as [->|]; [by rewrite lookup_insert_eq, HW|by rewrite lookup_insert_ne]).
Qed.
Lemma Create_bounded now w0 i0 name W db' :
  is_Some (w_workspaces db !! w) → CreateWorkspace now w0 i0 name a db = Ok (W, db') → bounded B w db db'.
Proof.
  intros [W0 HW0] H. unfold CreateWorkspace, insert_workspace, insert_member in H. inv_ws. reflect_bools. simpl in *.
  assert (w ≠ w0) as Hne by (intros ->; congruence).
  match goal with E : w_members db !! i0 = None |- _ => rename E into Hi0 end.
  split; (apply carries_intro; simpl; [|intros i|done|intros r ? ? ? ? ?; by exists r]);
    [|unfold is_owner; simpl; by rewrite lookup_insert_ne| |unfold is_owner; simpl; by rewrite lookup_insert_ne].
  - intros i ref (m & Hm & Ho). left. exists m. split; [|done]. by apply insert_fresh_lookup.
  - intros i ref (m & Hm & Ho). left. exists m. split; [|done]. simpl in Hm. inv_row; [|done].
    destruct Ho as (Ho & _). simpl in Ho. congruence.
Qed.
End actor.

Lemma discard_ok {A} (m : wtx A) db u db' : discard m db = Ok (u, db') → ∃ r, m db = Ok (r, db').
Proof. intros (r & s & H & [= _ <-])%bind_ok. eauto. Qed.

(** Every call moves capabilities within those of its caller. *)
Lemma call_bounded c w db db' :
  ws_ok db → is_Some (w_workspaces db !! w) → wrun c db = Ok (tt, db') →
  bounded (λ x, ∃ a, caller c = Some a ∧ x ∈ capabilities db w a) w db db'.
Proof.
  intros Hok Hw H.
  assert (about_invites c → only_joins db db') as Hj by (intros Hc; by apply (invites_only_join c Hc _ _ _ H)).
  destruct c; try (apply only_joins_bounded; [done|by apply Hj]).
  all: apply discard_ok in H as [r H]; simpl.
  - eapply Create_bounded; [..|exact H]; eauto.
  - eapply Rename_bounded; [..|exact H]; eauto.
  - eapply Transfer_bounded; [..|exact H]; eauto.
  - eapply Remove_bounded; [..|exact H]; eauto.
  - eapply Leave_bounded; [..|exact H]; eauto.
  - eapply CreateRole_bounded; [..|exact H]; eauto.
  - eapply UpdateRole_bounded; [..|exact H]; eauto.
  - eapply DeleteRole_bounded; [..|exact H]; eauto.
  - eapply SetRoles_bounded; [..|exact H]; eauto.
Qed.
End roles.
