(* ===== verification/JoinFacts.v ===== *)
(** * How a participant becomes a member

    What a successful redemption or acceptance did, and that no other call
    opens a tenure. *)

From Stdlib Require Import Ascii ZArith Lia.
From stdpp Require Import sorting.
From S2P Require Import Prelude Json State WorkspaceState Workspaces WorkspaceInvites WorkspaceFacts WorkspaceSteps InviteSteps WorkspaceSystem WorkspaceAuthority AuthoritySteps RoleSteps.
Local Open Scope string_scope.
Local Open Scope list_scope.
Local Open Scope Z_scope.

Section joins.
Context `{GL : GoLib} `{WL : WsLib}.

(** ** Calls that open no tenure *)

Definition no_new (db db' : WDB) : Prop := ∀ i, w_members db !! i = None → w_members db' !! i = None.
#[global] Instance no_new_preorder : PreOrder no_new.
Proof. split; [by intros db i|]. intros a b c H1 H2 i Hi. by apply H2, H1. Qed.
Definition opens_tenures (c : wcall) : bool :=
  match c with CallCreate _ _ _ _ _ | CallRedeem _ _ _ _ _ _ | CallAccept _ _ _ _ => true | _ => false end.

#[local] Hint Resolve steps_asks steps_tables steps_pg_text steps_new_id : tx.
Lemma close_member_no_new w i t : steps no_new (close_member w i t).
Proof.
  intros db u db' H j Hj. unfold close_member in H. rewrite tables_bind in H.
  destruct (w_members db !! i) as [m|] eqn:Hm; [|by inv_ws]. destruct (_ && _); inv_ws; [|done].
  rewrite lookup_insert_ne; [done|]. congruence.
Qed.
#[local] Hint Resolve close_member_no_new : tx.
Ltac quiet := tx_steps; try (intros; by intros ?).

Lemma update_invite_no_new id f : steps no_new (update_invite id f).
Proof. unfold update_invite. quiet. Qed.
Lemma insert_invite_no_new id i : steps no_new (insert_invite id i).
Proof. unfold insert_invite. quiet. Qed.
Lemma Issue_no_new txnow dbnow eid token issuer email ttl :
  steps no_new (IssueEnrollmentInviteInTx txnow dbnow eid token issuer email ttl).
Proof. by intros db r db' (_ & _ & _ & _ & _ & ->)%issue_ok i Hi. Qed.
Lemma replace_no_new w r l : steps no_new (replaceRoleAppCapabilities w r l).
Proof. unfold replaceRoleAppCapabilities, insert_grant. quiet. Qed.
Lemma close_places_no_new dbnow w i : steps no_new (closeBoundPlaceTenures dbnow w i).
Proof. unfold closeBoundPlaceTenures. quiet. Qed.
#[local] Hint Resolve update_invite_no_new insert_invite_no_new Issue_no_new replace_no_new close_places_no_new : tx.
Lemma targeted_no_new now id w issuer t : steps no_new (insert_targeted now id w issuer t).
Proof. unfold insert_targeted. quiet. Qed.
#[local] Hint Resolve targeted_no_new : tx.

Lemma quiet_calls c : opens_tenures c = false → steps no_new (wrun c).
Proof.
  destruct c; simpl; try done; intros _; unfold discard.
  - unfold UpdateName, set_workspace. quiet.
  - unfold TransferOwnership, set_owner, set_workspace. quiet.
  - unfold removeMember. quiet.
  - unfold Leave. quiet.
  - unfold CreateRoleWithPosition. quiet.
  - unfold UpdateRoleWithPosition. quiet.
  - unfold DeleteRole. quiet.
  - unfold SetMembershipRoles, insert_assignment. quiet.
  - unfold CreateInvite. quiet.
  - unfold CreateCurrentAgentInvite. quiet.
  - unfold RevokeInvite, revoke_bundle. quiet.
  - unfold CreateEnrollmentBundle. quiet. intros db ie db' H. cbv beta in H.
    destruct (IssueEnrollmentInviteInTx _ _ _ _ _ _ _ db) as [[? ?]|[]] eqn:E; try discriminate H.
    injection H as -> ->. by eapply Issue_no_new.
  - unfold IssueEnrollmentInvite. quiet.
  - unfold RevokeEnrollmentInvite. quiet.
  - unfold consumeEnrollmentInvite, reserve_invite. quiet.
Qed.

(** ** What a redemption did *)

(** A tenure found or opened for [a], recorded as the redemption of [id]. *)
Definition redeemed_as (db db' : WDB) (id : string) (i : InviteRow) (a : Ref) (now : Z) (mid : string) : Prop :=
  pending i ∧ now < i_expires i ∧ requireInviteIssuerAuthority db (i_workspace i) (i_created_by i) = Ok tt
  ∧ (∃ j, w_invites db' !! id = Some j ∧ i_redeemed j = Some (mkRedemption a mid now))
  ∧ (w_members db' = w_members db
     ∨ w_members db !! mid = None ∧ w_members db' = <[mid := mkMember (i_workspace i) a now None]> (w_members db)).

Lemma finish_redeems dbnow now id a mid db u db' i :
  finishShareInvite dbnow now id a mid db = Ok (u, db') → w_invites db !! id = Some i →
  w_members db' = w_members db ∧ ∃ j, w_invites db' !! id = Some j ∧ i_redeemed j = Some (mkRedemption a mid now).
Proof.
  intros H Hi. unfold finishShareInvite, redeem_invite, reserve_invite, revoke_bundle, update_invite in H.
  inv_ws; try congruence. all: split; [done|].
  all: eexists; rewrite ?lookup_alter_eq, Heqo0; by split.
Qed.

Lemma lock_invite_ok w db u : lock_invite_workspace w db = Ok u → lockWorkspace db w = Ok tt.
Proof. unfold lock_invite_workspace. by destruct (lockWorkspace db w) as [[]|[]]. Qed.
Lemma Exists_ok db a b : Exists db a = Ok b → valid_ref a = true ∧ b = registered db a.
Proof. unfold Exists, valid_ref. destruct (Validate a); [|done]. by intros [= <-]. Qed.

Lemma redeem_ok dbnow now mid code a proof db ms db' :
  ws_ok db → RedeemInviteWithEnrollmentProof dbnow now mid code a proof db = Ok (ms, db') →
  code ≠ "" ∧ String.length code ≤ 128 ∧ valid_ref a = true ∧ registered db a = true
  ∧ ∃ id i, w_invites db !! id = Some i ∧ i_code_hash i = Some (sha256_hex code) ∧ lockWorkspace db (i_workspace i) = Ok tt
    ∧ ((∃ r, i_redeemed i = Some r ∧ rd_by r = a ∧ db' = db
           ∧ membershipByID db (i_workspace i) (rd_member r) false = Ok ms)
       ∨ redeemed_as db db' id i a now (WorkspaceMemberID ms)).
Proof.
  intros Hok H. unfold RedeemInviteWithEnrollmentProof in H. inv_ws. reflect_bools.
  match goal with E : Exists _ _ = Ok _ |- _ => apply Exists_ok in E as [Hv Hreg] end.
  match goal with E : find_code _ _ = Some (?k, ?v) |- _ => apply find_code_Some in E as [Hi Hh];
    rename k into id; rename v into i end.
  split_and!; [done|lia|done|congruence|]. exists id, i. rename H into Hr. unfold redeem_code in Hr.
  apply bind_ok in Hr as (u & db1 & [Hl%lock_invite_ok ->]%asks_ok & Hr). split_and!; [done..|].
  destruct (i_redeemed i) as [r|] eqn:Hd.
  { left. destruct (bool_decide _) eqn:E; [|done]. reflect_bools. inv_ws. eauto. }
  right. apply bind_ok in Hr as (? & ? & [Hg ->]%guard_ok & Hr). apply bind_ok in Hr as (? & ? & [_ ->]%asks_ok & Hr).
  apply bind_ok in Hr as ([] & ? & [Hiss ->]%asks_ok & Hr). rewrite tables_bind in Hr. reflect_bools.
  assert (pending i) as Hp by done. destruct (share_code _ _ _ _ Hok Hi Hh) as [Hkind _].
  destruct (activeMembershipExists db _ _).
  - inv_ws. match goal with E : finishShareInvite _ _ _ _ _ _ = Ok _ |- _ =>
      apply (finish_redeems _ _ _ _ _ _ _ _ i) in E as [? ?]; [|done] end.
    split_and!; [done..|by left].
  - apply bind_ok in Hr as (m & db1 & (_ & -> & Hf & Hm & _)%join_workspace_ok & Hr).
    apply bind_ok in Hr as (u2 & db2 & Hcl & Hr). apply bind_ok in Hr as (u3 & db3 & Hfin & [= <- <-]).
    destruct (close_pending_row _ _ _ _ _ _ _ id i Hcl) as (Hi2 & _ & Hm2); [done|by left|].
    apply (finish_redeems _ _ _ _ _ _ _ _ i) in Hfin as [Hm3 ?]; [|done].
    rewrite Hm. split_and!; [done..|]. right. by rewrite Hm3, Hm2.
Qed.
Lemma accept_ok now mid id a db ms db' :
  AcceptTargetedInvitation now mid id a db = Ok (ms, db') →
  ∃ i, w_invites db !! id = Some i ∧ i_kind i = TargetedPersonalityAgent ∧ i_target i = Some (ref_id a)
    ∧ ref_kind a = KindPersonalityAgent ∧ (db' = db ∨ redeemed_as db db' id i a now (WorkspaceMemberID ms)).
Proof.
  intros H. unfold AcceptTargetedInvitation in H. inv_ws. reflect_bools. exists i. split_and!; [done..|].
  rename H into Hr. unfold accept_invite in Hr. apply bind_ok in Hr as (u & db1 & [_ ->]%asks_ok & Hr).
  destruct (i_redeemed i) as [r|] eqn:Hd; [left; destruct (bool_decide _); by inv_ws|right].
  apply bind_ok in Hr as (? & ? & [Hg ->]%guard_ok & Hr). apply bind_ok in Hr as ([] & ? & [Hiss ->]%asks_ok & Hr).
  apply bind_ok in Hr as (al & ? & [= <- <-] & Hr). apply bind_ok in Hr as (? & ? & [_ ->]%guard_ok & Hr).
  apply bind_ok in Hr as (m & db1 & (_ & -> & Hf & Hm & _)%join_workspace_ok & Hr).
  apply bind_ok in Hr as (u2 & db2 & Hcl & Hr). rewrite tables_bind in Hr.
  apply bind_ok in Hr as (? & ? & [_ ->]%guard_ok & Hr). apply bind_ok in Hr as (u3 & db3 & Hfin & [= <- <-]).
  destruct (close_pending_row _ _ _ _ _ _ _ id i Hcl) as (Hi2 & _ & Hm2); [done|by right|].
  unfold redeem_invite, update_invite in Hfin. rewrite tables_bind, Hi2 in Hfin. inv_ws. reflect_bools.
  split_and!; [done..| |].
  - eexists. simpl. rewrite lookup_alter_eq, Hi2. by split.
  - right. by rewrite Hm2.
Qed.

(** ** An invitation that was redeemed *)

Lemma find_code_unique db k i h :
  ws_ok db → w_invites db !! k = Some i → i_code_hash i = Some h → find_code db h = Some (k, i).
Proof.
  intros Hok Hi Hh. destruct (find_code db h) as [[l j]|] eqn:Hf.
  - apply find_code_Some in Hf as [Hj Hh']. assert (k = l) as -> by by apply (wo_code _ Hok k l i j h). congruence.
  - by destruct (find_code_None _ _ _ _ Hf Hi).
Qed.
Lemma canonical_lock db w : is_Some (w_workspaces db !! w) → isCanonicalUUIDv7 w = true → lockWorkspace db w = Ok tt.
Proof. intros Hw Hc. unfold lockWorkspace. rewrite Hc. simpl. by rewrite bool_decide_eq_true_2. Qed.
(** The code of a redeemed invitation answers its redeemer with the tenure
    recorded, and refuses everybody else. *)
Lemma redeemed_code db k i code r dbnow now mid a proof :
  ws_ok db → w_invites db !! k = Some i → i_code_hash i = Some (sha256_hex code) → i_redeemed i = Some r →
  code ≠ "" → String.length code ≤ 128 → isCanonicalUUIDv7 (i_workspace i) = true →
  valid_ref a = true →
  RedeemInviteWithEnrollmentProof dbnow now mid code a proof db =
    if bool_decide (rd_by r = a)
    then match membershipByID db (i_workspace i) (rd_member r) false with Ok ms => Ok (ms, db) | Err e => Err e end
    else Err ErrInviteUnavailable.
Proof.
  intros Hok Hi Hh Hr Hne Hlen Hc Hv. unfold RedeemInviteWithEnrollmentProof, redeem_code.
  rewrite bool_decide_eq_false_2 by done. assert ((128 <? String.length code) = false) as -> by lia.
  destruct (wo_redeemed _ Hok k i r Hi Hr) as ((m & Hm & Hmw)%fmap_Some & Href & _).
  rewrite Hm in Href. injection Href as Href. destruct (wo_member _ Hok _ m Hm) as (Hws & Hreg & _).
  rewrite <-Hmw in Hws. assert (lockWorkspace db (i_workspace i) = Ok tt) as Hl by by apply canonical_lock.
  unfold mbind, M_bind, guard_or, asks, tables, gets, Exists, lock_invite_workspace. cbn -[membershipByID].
  apply valid_Validate in Hv. rewrite Hv. cbn -[membershipByID].
  destruct (bool_decide (rd_by r = a)) eqn:E; reflect_bools.
  - subst a. rewrite <-Href, Hreg. cbn -[membershipByID]. rewrite (find_code_unique db k i) by done. cbv beta iota zeta.
    rewrite Hl, Hr, bool_decide_eq_true_2 by done. done.
  - destruct (registered db a); [|done]. cbn -[membershipByID]. rewrite (find_code_unique db k i) by done. cbv beta iota zeta.
    rewrite Hl, Hr, bool_decide_eq_false_2 by done. done.
Qed.
Lemma redeemed_member db k i r :
  ws_ok db → w_invites db !! k = Some i → i_redeemed i = Some r → isCanonicalUUIDv7 (i_workspace i) = true →
  ∃ ms, membershipByID db (i_workspace i) (rd_member r) false = Ok ms ∧ WorkspaceMemberID ms = rd_member r
    ∧ Participant ms = rd_by r ∧ MemberWorkspaceID ms = i_workspace i.
Proof.
  intros Hok Hi Hr Hc. destruct (wo_redeemed _ Hok k i r Hi Hr) as ((m & Hm & Hmw)%fmap_Some & Href & _).
  rewrite Hm in Href. injection Href as Href. destruct (wo_member _ Hok _ m Hm) as (_ & _ & Hcm).
  unfold membershipByID. rewrite Hc, Hcm, Hm. simpl. rewrite bool_decide_eq_true_2 by done. simpl. eauto.
Qed.
End joins.
