(* ===== verification/WorkspaceErrors.v ===== *)
(** * Errors that cannot occur

    The check for a last administrator never fails: the owner's tenure is
    open in every state an operation passes through. *)

From Stdlib Require Import Ascii ZArith Lia.
From stdpp Require Import sorting.
From S2P Require Import Prelude Json State WorkspaceState Workspaces WorkspaceInvites WorkspaceFacts WorkspaceSteps InviteSteps WorkspaceSystem.
Local Open Scope string_scope.
Local Open Scope list_scope.
Local Open Scope Z_scope.

(** A read that does not answer [ErrLastAdministrator]. *)
Definition calm {A} (r : res werr A) : Prop := r ≠ Err ErrLastAdministrator.
Lemma calm_bind {A B} (r : res werr A) (k : A → res werr B) : calm r → (∀ a, calm (k a)) → calm (r ≫= k).
Proof. intros Hr Hk. destruct r as [a|e]; [apply Hk|]. intros [= ->]. by apply Hr. Qed.

Section errors.
Context `{GL : GoLib} `{WL : WsLib}.

Create HintDb calm discriminated.
Ltac calm :=
  repeat match goal with
  | |- calm _ => solve [auto with calm]
  | |- calm (_ ≫= _) => apply calm_bind
  | |- calm (mbind _ _) => apply calm_bind
  | |- calm (Ok _) => discriminate
  | |- calm (Err _) => discriminate
  | |- calm (match ?x with _ => _ end) => destruct x eqn:?
  | |- ∀ _, _ => intro
  end.

Lemma Validate_calm r : calm (Validate r).
Proof. unfold Validate. calm. Qed.
Lemma name_calm db r : calm (resolveParticipantDisplayName db r).
Proof. unfold resolveParticipantDisplayName. calm. Qed.
#[local] Hint Resolve Validate_calm name_calm : calm.
Lemma Exists_calm db r : calm (Exists db r).
Proof. unfold Exists. calm. Qed.
Lemma active_calm db w a : calm (activeMembership db w a).
Proof. unfold activeMembership. calm. Qed.
Lemma byid_calm db w i b : calm (membershipByID db w i b).
Proof. unfold membershipByID. calm. Qed.
Lemma lock_calm db w : calm (lockWorkspace db w).
Proof. unfold lockWorkspace. calm. Qed.
#[local] Hint Resolve Exists_calm active_calm byid_calm lock_calm : calm.
Lemma permissionsFor_calm db w a : calm (permissionsFor db w a).
Proof. unfold permissionsFor. calm. Qed.
Lemma authority_calm db w a : calm (roleMutationAuthority db w a).
Proof. unfold roleMutationAuthority. calm. Qed.
Lemma effective_calm db w a c : calm (requireEffectiveCapabilityAfterWorkspaceLock db w a c).
Proof. unfold requireEffectiveCapabilityAfterWorkspaceLock. calm. Qed.
#[local] Hint Resolve effective_calm : calm.
Lemma require_calm db w a c : calm (lockAndRequirePermission db w a c).
Proof. unfold lockAndRequirePermission. calm. Qed.
Lemma roleByID_calm db w r : calm (roleByID db w r).
Proof. unfold roleByID. calm. Qed.
#[local] Hint Resolve permissionsFor_calm authority_calm require_calm roleByID_calm : calm.
Lemma refs_calm db ex l : calm (resolve_refs db ex l).
Proof. induction l as [|x l IH]; simpl; [done|]. unfold resolveActiveAppCapability. calm. Qed.
#[local] Hint Resolve refs_calm : calm.
Lemma resolve_calm db input : calm (resolveRoleCapabilities db input).
Proof. unfold resolveRoleCapabilities, requestedAppCapabilityRefs. calm. Qed.
Lemma resolve_update_calm db role input : calm (resolveRoleCapabilitiesForUpdate db role input).
Proof. unfold resolveRoleCapabilitiesForUpdate, requestedAppCapabilityRefs. calm. Qed.
Lemma requested_calm db w l seen : calm (requested_roles db w seen l).
Proof. revert seen. induction l as [|r l IH]; intros seen; simpl; [done|]. calm; apply IH. Qed.
Lemma presentation_calm n c : calm (validateRolePresentation n c).
Proof. unfold validateRolePresentation. calm. Qed.
Lemma position_calm p : calm (validateRolePosition p).
Proof. unfold validateRolePosition. calm. Qed.
Lemma issuer_calm db w i : calm (requireInviteIssuerAuthority db w i).
Proof.
  unfold requireInviteIssuerAuthority. pose proof (byid_calm db w i true) as H.
  destruct (membershipByID db w i true) as [|[]]; calm; by destruct H.
Qed.
Lemma agent_calm cfg a t db : calm (current_agent_ok cfg a t db).
Proof. unfold current_agent_ok, RequireCurrentHumanEmployerInTx. calm. Qed.
Lemma recipient_calm t id i a p db : calm (requireBundleRecipient t id i a p db).
Proof. unfold requireBundleRecipient. calm. Qed.
Lemma lock_invite_calm w db : calm (lock_invite_workspace w db).
Proof.
  unfold lock_invite_workspace. pose proof (lock_calm db w) as H.
  destruct (lockWorkspace db w) as [|[]]; calm.
Qed.
Lemma lockEnrollment_calm cfg t id b db : calm (lockEnrollmentWorkspace cfg t id b db).
Proof. unfold lockEnrollmentWorkspace. calm. Qed.
#[local] Hint Resolve lockEnrollment_calm : calm.
Lemma proof_calm cfg t id i db : calm (checkEnrollmentInviteProof cfg t id i db).
Proof. unfold checkEnrollmentInviteProof. calm. Qed.
#[local] Hint Resolve resolve_calm resolve_update_calm requested_calm presentation_calm position_calm issuer_calm
  agent_calm recipient_calm lock_invite_calm proof_calm : calm.

(** ** Transactions *)

(** [m] does not answer [ErrLastAdministrator] where [w] exists. *)
Definition spares {A} (w : string) (m : wtx A) : Prop :=
  ∀ db, ws_ok db → is_Some (w_workspaces db !! w) → m db ≠ Err ErrLastAdministrator.
Definition quiet {A} (m : wtx A) : Prop := ∀ db, m db ≠ Err ErrLastAdministrator.
Lemma quiet_spares {A} w (m : wtx A) : quiet m → spares w m.
Proof. intros H db _ _. apply H. Qed.
Lemma bind_err {A B} (m : wtx A) (k : A → wtx B) db e :
  (m ≫= k) db = Err e → m db = Err e ∨ ∃ a db1, m db = Ok (a, db1) ∧ k a db1 = Err e.
Proof. unfold mbind, M_bind. destruct (m db) as [[a db1]|] eqn:H; [eauto|]. intros [= ->]. by left. Qed.
Lemma quiet_bind {A B} (m : wtx A) (k : A → wtx B) : quiet m → (∀ a, quiet (k a)) → quiet (m ≫= k).
Proof. intros Hm Hk db [H|(a & db1 & _ & H)]%bind_err; [by apply (Hm db)|by apply (Hk a db1)]. Qed.
Lemma spares_bind {A B} w (m : wtx A) (k : A → wtx B) :
  quiet m → steps keeps m → (∀ a, spares w (k a)) → spares w (m ≫= k).
Proof.
  intros Hm Hs Hk db Hok [W HW] [H|(a & db1 & H1 & H)]%bind_err; [by apply (Hm db)|].
  destruct (Hs _ _ _ H1 Hok) as [Hok1 Hh]. destruct (wh_workspaces _ _ Hh w W HW) as (W' & HW' & _).
  apply (Hk a db1 Hok1); [by eexists|done].
Qed.
Lemma quiet_asks {A} (f : WDB → res werr A) : (∀ db, calm (f db)) → quiet (asks f).
Proof. intros Hf db H. unfold asks in H. apply (Hf db). destruct (f db); [done|]. by injection H as ->. Qed.
Lemma quiet_lift {A} (r : res werr A) : calm r → quiet (lift r).
Proof. intros Hf db H. unfold lift in H. apply Hf. destruct r; [done|]. by injection H as ->. Qed.
Lemma quiet_guard b e : e ≠ ErrLastAdministrator → quiet (guard_or b e).
Proof. intros He db. unfold guard_or. destruct b; [done|]. by intros [= ->]. Qed.
Lemma quiet_modify f : quiet (modify f).
Proof. done. Qed.
Lemma quiet_gets {A} (f : WDB → A) : quiet (gets f).
Proof. done. Qed.
Lemma quiet_ret {A} (a : A) : quiet (mret a).
Proof. done. Qed.
Lemma quiet_throw {A} e : e ≠ ErrLastAdministrator → quiet (@throw _ _ A e).
Proof. intros He db. by intros [= ->]. Qed.
Lemma quiet_for_each {A} (l : list A) body : (∀ x, quiet (body x)) → quiet (for_each l body).
Proof. intros Hb. induction l; simpl; [done|]. by apply quiet_bind. Qed.

(** [still] decomposes a goal [quiet m] along the structure of [m]. *)
Create HintDb still discriminated.
Ltac still :=
  repeat match goal with
  | |- quiet _ => solve [auto with still]
  | |- quiet (_ ≫= _) => apply quiet_bind
  | |- quiet (mbind _ _) => apply quiet_bind
  | |- quiet (asks _) => apply quiet_asks; intro; solve [calm]
  | |- quiet (lift _) => apply quiet_lift; solve [calm]
  | |- quiet (guard_or _ _) => apply quiet_guard; discriminate
  | |- quiet (throw _) => apply quiet_throw; discriminate
  | |- quiet (for_each _ _) => apply quiet_for_each
  | |- quiet (match ?x with _ => _ end) => destruct x eqn:?
  | |- ∀ _, _ => intro
  end.
#[local] Hint Resolve quiet_modify quiet_gets quiet_ret : still.

Lemma ensure_ok db w :
  ws_ok db → is_Some (w_workspaces db !! w) → ensureEffectiveAdministrator db w = Ok tt.
Proof.
  intros Hok [W HW]. destruct (wo_owner _ Hok w W HW) as (m & Hm & Hw & Hl).
  unfold ensureEffectiveAdministrator. rewrite bool_decide_eq_true_2 by by eexists. simpl.
  destruct (existsb _ _) eqn:E; [done|]. exfalso.
  assert (existsb (λ km, bool_decide (m_workspace km.2 = w) && bool_decide (m_left km.2 = None)
    && (is_owner db w km.1 || administers db w km.1)) (map_to_list (w_members db)) = true); [|congruence].
  apply existsb_exists. exists (w_owner W, m). split; [apply list_elem_of_In; by apply elem_of_map_to_list|].
  simpl. unfold is_owner. rewrite HW, !bool_decide_eq_true_2 by done. done.
Qed.
Lemma ensure_spares {A} w (k : unit → wtx A) :
  (∀ u, quiet (k u)) → spares w (asks (λ db, ensureEffectiveAdministrator db w) ≫= k).
Proof.
  intros Hk db Hok Hw H. unfold mbind, M_bind, asks in H. rewrite ensure_ok in H by done. by apply (Hk tt db).
Qed.
(** An operation that first makes sure of its workspace. *)
Lemma lock_first {A B} w (f : WDB → res werr B) (k : B → wtx A) :
  (∀ db, calm (f db)) → (∀ db b, f db = Ok b → is_Some (w_workspaces db !! w)) → (∀ b, spares w (k b)) →
  ∀ db, ws_ok db → (asks f ≫= k) db ≠ Err ErrLastAdministrator.
Proof.
  intros Hf Hw Hk db Hok [H|(u & db1 & [H1 ->]%asks_ok & H)]%bind_err.
  - by apply (quiet_asks f Hf db).
  - apply (Hk u db); eauto.
Qed.
Lemma lock_exists w db u : lockWorkspace db w = Ok u → is_Some (w_workspaces db !! w).
Proof. by intros [? _]%lockWorkspace_ok. Qed.
Lemma require_exists w a p db i : lockAndRequirePermission db w a p = Ok i → is_Some (w_workspaces db !! w).
Proof.
  unfold lockAndRequirePermission. destruct (negb _); [done|].
  destruct (lockWorkspace db w) eqn:E; [|done]. intros _. by eapply lock_exists.
Qed.

(** ** The operations *)

Lemma insert_member_quiet id m : quiet (insert_member id m).
Proof. unfold insert_member, new_id, tables. still. Qed.
Lemma on_unique_quiet {A} e (m : wtx A) : e ≠ ErrLastAdministrator → quiet m → quiet (on_unique e m).
Proof.
  intros He Hm db. unfold on_unique. specialize (Hm db). destruct (m db) as [|[]]; try done. by intros [= ->].
Qed.
Lemma update_invite_quiet id f : quiet (update_invite id f).
Proof. done. Qed.
Lemma insert_invite_quiet id i : quiet (insert_invite id i).
Proof. unfold insert_invite, new_id, tables. still. Qed.
#[local] Hint Resolve insert_member_quiet update_invite_quiet insert_invite_quiet : still.
Lemma redeem_invite_quiet id a m t : quiet (redeem_invite id a m t).
Proof. unfold redeem_invite, tables. still. Qed.
Lemma reserve_quiet id h : quiet (reserve_invite id h).
Proof. unfold reserve_invite, tables. still. Qed.
#[local] Hint Resolve redeem_invite_quiet reserve_quiet : still.
Lemma finish_quiet dbnow now id a m : quiet (finishShareInvite dbnow now id a m).
Proof. unfold finishShareInvite, revoke_bundle, tables. still. Qed.
Lemma join_quiet now m w a : quiet (join_workspace now m w a).
Proof. unfold join_workspace. still. apply on_unique_quiet; [done|apply insert_member_quiet]. Qed.
Lemma targeted_quiet now id w issuer t : quiet (insert_targeted now id w issuer t).
Proof. unfold insert_targeted, tables. still. Qed.
Lemma issue_quiet txnow dbnow eid token issuer email ttl :
  quiet (IssueEnrollmentInviteInTx txnow dbnow eid token issuer email ttl).
Proof. unfold IssueEnrollmentInviteInTx, new_id, tables. still. Qed.
Lemma replace_quiet w r l : quiet (replaceRoleAppCapabilities w r l).
Proof. unfold replaceRoleAppCapabilities, insert_grant, tables. still. Qed.
Lemma set_workspace_quiet w f : quiet (set_workspace w f).
Proof. unfold set_workspace, tables. still. Qed.
Lemma close_places_quiet dbnow w i : quiet (closeBoundPlaceTenures dbnow w i).
Proof. unfold closeBoundPlaceTenures, tables. still. Qed.
Lemma close_member_quiet w i t : quiet (close_member w i t).
Proof. unfold close_member, tables. still. Qed.
Lemma insert_assignment_quiet w i r : quiet (insert_assignment w i r).
Proof. unfold insert_assignment, tables. still. Qed.
#[local] Hint Resolve finish_quiet join_quiet targeted_quiet issue_quiet replace_quiet set_workspace_quiet
  close_places_quiet close_member_quiet insert_assignment_quiet : still.
Lemma set_owner_quiet w i : quiet (set_owner w i).
Proof. unfold set_owner, tables. still. Qed.
#[local] Hint Resolve set_owner_quiet : still.
#[local] Hint Resolve steps_asks steps_tables steps_pg_text steps_new_id set_owner_keeps
  close_places_keeps close_member_keeps replace_keeps insert_assignment_keeps : tx.

Ltac guarded := repeat (first
  [ apply ensure_spares; intro; solve [still]
  | apply spares_bind; [solve [unfold pg_text, new_id, tables; still]|tx_steps|intro] ]).

Lemma discard_err {A} (m : wtx A) db e : discard m db = Err e → m db = Err e.
Proof. intros [H|(a & db1 & _ & H)]%bind_err; [done|discriminate H]. Qed.
Lemma quiet_call {A} (m : wtx A) db : quiet m → discard m db ≠ Err ErrLastAdministrator.
Proof. intros Hm H%discard_err. by apply (Hm db). Qed.

(** The two operations whose write keeps the invariant only after the role
    was found. *)
Ltac peel H :=
  match type of H with (?m ≫= _) _ = _ =>
    assert (quiet m) as Hq by (unfold pg_text, new_id, tables; still);
    apply bind_err in H as [H|(? & ? & ? & H)]; [by apply Hq in H|clear Hq] end;
  try match goal with
  | E : asks _ _ = Ok _ |- _ => apply asks_ok in E as [? ->]
  | E : guard_or _ _ _ = Ok _ |- _ => apply guard_ok in E as [? ->]
  | E : pg_text _ _ = Ok _ |- _ => apply guard_ok in E as [? ->]
  | E : lift _ _ = Ok _ |- _ => apply lift_ok in E as [? ->]
  end.
Lemma keeps_exists db db' w : ws_ok db → keeps db db' → is_Some (w_workspaces db !! w) → ws_ok db' ∧ is_Some (w_workspaces db' !! w).
Proof.
  intros Hok Hk [W HW]. destruct (Hk Hok) as [Hok' Hh]. split; [done|].
  destruct (wh_workspaces _ _ Hh w W HW) as (W' & ? & _). eauto.
Qed.
Lemma DeleteRole_spares w r a db : ws_ok db → DeleteRole w r a db ≠ Err ErrLastAdministrator.
Proof.
  intros Hok H. unfold DeleteRole in H. peel H. peel H. peel H. peel H.
  match goal with E : lockWorkspace _ _ = Ok _ |- _ => apply lock_exists in E as Hw end.
  match goal with E : roleByID _ _ _ = Ok _ |- _ => apply roleByID_ok in E as (row & Hrow & Hr & ->) end.
  assert (keeps db (drop_role w r db)) as Hk by (apply drop_role_keeps; by rewrite Hrow, <-Hr).
  destruct (keeps_exists _ _ w Hok Hk Hw) as [Hok' Hw']. apply bind_err in H as [H|(? & ? & [= _ <-] & H)]; [done|].
  revert H. by apply ensure_spares; [intro; still| |].
Qed.
Lemma UpdateRole_spares w r a name color ps pos db :
  ws_ok db → UpdateRoleWithPosition w r a name color ps pos db ≠ Err ErrLastAdministrator.
Proof.
  intros Hok H. unfold UpdateRoleWithPosition in H. do 8 peel H. rewrite tables_bind in H. peel H.
  match goal with E : lockWorkspace _ _ = Ok _ |- _ => apply lock_exists in E as Hw end.
  match goal with E : roleByID _ _ _ = Ok _ |- _ => apply roleByID_ok in E as (row & Hrow & Hr & ->) end.
  apply bind_err in H as [H|(? & d & Hd & H)]; [done|].
  assert (keeps db d) as Hk.
  { injection Hd as _ <-. rewrite (alter_insert_Some _ _ _ row) by done.
    apply role_row_keeps; simpl; [by rewrite Hr..|]. right. by rewrite Hrow. }
  destruct (keeps_exists _ _ w Hok Hk Hw) as [Hok' Hw']. revert H.
  apply (spares_bind w); [apply replace_quiet|apply replace_keeps| |done..].
  intros _. apply ensure_spares. intro. still.
Qed.

Lemma no_last_administrator c db : ws_ok db → wrun c db ≠ Err ErrLastAdministrator.
Proof.
  intros Hok. destruct c; simpl.
  1,2,6,10-18: apply quiet_call.
  - unfold CreateWorkspace, insert_workspace, pg_text, new_id, tables. still.
  - unfold UpdateName, pg_text. still.
  - unfold CreateRoleWithPosition, pg_text, new_id, tables. still.
  - unfold CreateInvite. still.
  - unfold CreateCurrentAgentInvite, tables. still. by destruct (issuer_calm a4 workspaceID (i_created_by i)).
  - unfold RedeemInviteWithEnrollmentProof, redeem_code, closePendingTargetedInvitesForParticipant, tables. still.
  - unfold AcceptTargetedInvitation, accept_invite, closePendingTargetedInvitesForParticipant, tables. still.
  - unfold RevokeInvite, revoke_bundle, tables. still.
  - unfold CreateEnrollmentBundle. still. intros d.
    pose proof (issue_quiet txnow dbnow enrollmentID token (ref_id actor) email defaultInviteTTL d) as Hq.
    destruct (IssueEnrollmentInviteInTx _ _ _ _ _ _ _ d) as [|[]]; done.
  - unfold IssueEnrollmentInvite. still.
  - unfold RevokeEnrollmentInvite, tables. still.
  - unfold consumeEnrollmentInvite, tables. still.
  - intros H%discard_err. revert H. unfold TransferOwnership.
    apply (lock_first workspaceID); [intro; calm|by intros; eapply lock_exists| |done]. intros _. guarded.
  - intros H%discard_err. revert H. unfold removeMember.
    apply (lock_first workspaceID); [intro; calm|by intros; eapply require_exists| |done]. intros _. guarded.
  - intros H%discard_err. revert H. unfold Leave.
    apply (lock_first workspaceID); [intro; calm|by intros; eapply lock_exists| |done]. intros _. guarded.
  - intros H%discard_err. by apply UpdateRole_spares in H.
  - intros H%discard_err. by apply DeleteRole_spares in H.
  - intros H%discard_err. revert H. unfold SetMembershipRoles.
    apply (lock_first workspaceID); [intro; calm|by intros; eapply lock_exists| |done]. intros _. guarded.
    apply clear_assignments_keeps.
Qed.
End errors.
