(* ===== verification/WorkspaceSamples.v ===== *)
(** * A concrete workspace

    An instance of the parameters under which any text is an identity, and a
    short history: Ada opens a workspace, Ben joins it with a share code and
    is given a role. *)

From Stdlib Require Import Ascii ZArith Lia.
From stdpp Require Import sorting.
From S2P Require Import Prelude Json State Samples WorkspaceState Workspaces WorkspaceInvites WorkspaceFacts WorkspaceSystem.
Local Open Scope string_scope.
Local Open Scope list_scope.
Local Open Scope Z_scope.

#[export] Instance sample_ws : WsLib := {|
  uuid_Parse := λ s, Some (mkUUID s 7 true);
  text_le := λ a b, match String.compare a b with Gt => false | _ => true end
|}.

Definition ada : Ref := Human "ada".
Definition ben : Ref := Human "ben".
Definition cleo : Ref := Human "cleo".
Definition no_proof : EnrollmentRecipientProof := mkProof "" "" false.
Definition ws_cfg : WsConfig := mkWsConfig true (Some (λ h, bool_decide (h = "ada"))) true true.
Definition members_role : gmap string bool := {["manage_members" := true]}.

Definition register (h name : string) (db : WDB) : WDB := db <| w_humans := <[h:=name]> (w_humans db) |>.
Definition people : WDB :=
  Eval vm_compute in register "cleo" "Cleo" (register "ben" "Ben" (register "ada" "Ada" wempty)).

(** Ada's studio: created, a share code issued, redeemed by Ben, a role
    created and given to him. *)
Definition create_studio : wcall := CallCreate 10 "w" "m1" "Studio" ada.
Definition issue_code : wcall := CallInvite 20 "i1" "code" "w" ada.
Definition ben_redeems : wcall := CallRedeem 30 30 "m2" "code" ben no_proof.
Definition create_stewards : wcall := CallCreateRole 40 "r1" "w" ada "Stewards" "" members_role None.
Definition make_steward : wcall := CallSetRoles "w" "m2" ada ["r1"].
(** Or, instead of the plain code, one bundled with an enrollment that Ben
    then uses. *)
Definition issue_letter : wcall := CallBundle ws_cfg 20 20 "i2" "letter" "e1" "token" "w" ada "".
Definition ben_enrols : wcall := CallConsume ws_cfg 50 "e1" (mkIdentity "" true) "ben".

Definition next (c : wcall) (db : WDB) : WDB := (commit (wrun c) db).1.
Definition studio : WDB := Eval vm_compute in next create_studio people.
Definition open_studio : WDB := Eval vm_compute in next issue_code studio.
Definition shared_studio : WDB := Eval vm_compute in next ben_redeems open_studio.
Definition studio_with_role : WDB := Eval vm_compute in next create_stewards shared_studio.
Definition staffed_studio : WDB := Eval vm_compute in next make_steward studio_with_role.
Definition lettered_studio : WDB := Eval vm_compute in next issue_letter studio.
Definition enrolled_studio : WDB := Eval vm_compute in next ben_enrols lettered_studio.

Lemma people_reach : wreach people.
Proof.
  change people with (register "cleo" "Cleo" (register "ben" "Ben" (register "ada" "Ada" wempty))).
  repeat (eapply rtc_r; [|apply step_env, env_human]). apply rtc_refl.
Qed.
Lemma studio_run : wrun create_studio people = Ok (tt, studio).
Proof. vm_eq. Qed.
Lemma open_studio_run : wrun issue_code studio = Ok (tt, open_studio).
Proof. vm_eq. Qed.
Lemma shared_studio_run : wrun ben_redeems open_studio = Ok (tt, shared_studio).
Proof. vm_eq. Qed.
Lemma studio_with_role_run : wrun create_stewards shared_studio = Ok (tt, studio_with_role).
Proof. vm_eq. Qed.
Lemma staffed_studio_run : wrun make_steward studio_with_role = Ok (tt, staffed_studio).
Proof. vm_eq. Qed.
Lemma lettered_studio_run : wrun issue_letter studio = Ok (tt, lettered_studio).
Proof. vm_eq. Qed.
Lemma enrolled_studio_run : wrun ben_enrols lettered_studio = Ok (tt, enrolled_studio).
Proof. vm_eq. Qed.

Lemma run_step c db db' : wrun c db = Ok (tt, db') → wstep db db'.
Proof. intros H. replace db' with (commit (wrun c) db).1; [constructor|]. unfold commit. by rewrite H. Qed.
Lemma studio_reach : wreach studio.
Proof. eapply wreach_run; [apply people_reach|apply studio_run]. Qed.
Lemma open_studio_reach : wreach open_studio.
Proof. eapply wreach_run; [apply studio_reach|apply open_studio_run]. Qed.
Lemma shared_studio_reach : wreach shared_studio.
Proof. eapply wreach_run; [apply open_studio_reach|apply shared_studio_run]. Qed.
Lemma studio_with_role_reach : wreach studio_with_role.
Proof. eapply wreach_run; [apply shared_studio_reach|apply studio_with_role_run]. Qed.
Lemma staffed_studio_reach : wreach staffed_studio.
Proof. eapply wreach_run; [apply studio_with_role_reach|apply staffed_studio_run]. Qed.
Lemma lettered_studio_reach : wreach lettered_studio.
Proof. eapply wreach_run; [apply studio_reach|apply lettered_studio_run]. Qed.
