(* ===== verification/WorkspaceTheorems.v ===== *)
(** * Theorems about workspaces

    What the workspace service promises its members, those they invite and
    those they do not. *)

From Stdlib Require Import Ascii ZArith Lia.
From stdpp Require Import sorting.
From S2P Require Import Prelude Json State Samples WorkspaceState Workspaces WorkspaceInvites WorkspaceFacts WorkspaceSteps InviteSteps.
From S2P Require Import WorkspaceSystem WorkspaceAuthority AuthoritySteps RoleSteps JoinFacts WorkspaceErrors WorkspaceSamples.
Local Open Scope string_scope.
Local Open Scope list_scope.
Local Open Scope Z_scope.

Section theorems.
Context `{GL : GoLib} `{WL : WsLib}.

(** C3: nobody hands out or takes away more than they hold.  Whatever
    capability any participant gains or loses in an existing workspace through
    a successful call is one the caller of that call held there before it. *)
Theorem authority_bounded db c db' w ref x :
  wreach db → wrun c db = Ok (tt, db') → is_Some (w_workspaces db !! w) →
  (x ∈ capabilities db w ref ↔ x ∈ capabilities db' w ref)
  ∨ ∃ a, caller c = Some a ∧ x ∈ capabilities db w a.
Proof.
  intros Hr Hc Hw. pose proof (wreach_ok _ Hr) as Hok. pose proof (wreach_ok _ (wreach_run _ _ _ Hr Hc)) as Hok'.
  destruct (call_bounded c w db db' Hok Hw Hc) as [H1 H2].
  assert (base.Decision (∃ a, caller c = Some a ∧ x ∈ capabilities db w a)) as [?|Hn]; [|by right|left].
  { destruct (caller c) as [a|]; [|right; by intros (? & ? & _)].
    destruct (decide (x ∈ capabilities db w a)); [left; eauto|right; naive_solver]. }
  split; intros Hx; eapply carries_caps; try exact Hx; eauto.
Qed.

Lemma no_roles db db' w i :
  ws_ok db → w_members db !! i = None → w_assignments db' = w_assignments db → assigned_roles db' w i = [].
Proof.
  intros Hok Hi Ha. apply elem_of_nil_inv. intros r Hr%assigned_spec. rewrite Ha in Hr.
  destruct (wo_assign _ Hok r i w Hr) as [_ H]. by rewrite Hi in H.
Qed.
(** C4: membership needs consent and an invitation.  A tenure that a call
    opens belongs to the caller and has no roles; it is either the owner's, in
    a workspace created by the call, or came from a pending invitation to that
    workspace, addressed to the caller where it is addressed at all, whose
    issuer still had the authority to invite; the invitation then records
    exactly this tenure. *)
Theorem membership_by_consent db c db' i m :
  wreach db → wrun c db = Ok (tt, db') → w_members db !! i = None → w_members db' !! i = Some m →
  caller c = Some (m_ref m) ∧ m_left m = None ∧ assigned_roles db' (m_workspace m) i = []
  ∧ ((w_workspaces db !! m_workspace m = None ∧ is_owner db' (m_workspace m) i = true)
     ∨ ∃ k v, w_invites db !! k = Some v ∧ i_workspace v = m_workspace m ∧ pending v ∧ m_joined m < i_expires v
         ∧ (∀ t, i_target v = Some t → m_ref m = PersonalityAgent t)
         ∧ requireInviteIssuerAuthority db (m_workspace m) (i_created_by v) = Ok tt
         ∧ ∃ v', w_invites db' !! k = Some v' ∧ i_redeemed v' = Some (mkRedemption (m_ref m) i (m_joined m))).
Proof.
  intros Hr%wreach_ok H Hi Hm. destruct (opens_tenures c) eqn:Ho; [|by rewrite (quiet_calls c Ho _ _ _ H i Hi) in Hm].
  assert (about_invites c → assigned_roles db' (m_workspace m) i = []) as Hroles.
  { intros Hc. eapply no_roles; [done..|]. by apply oj_assignments, (invites_only_join c Hc _ _ _ H). }
  destruct c; try done; apply discard_ok in H as [r H]; simpl in *.
  - clear Hroles. unfold CreateWorkspace, insert_workspace, insert_member in H. inv_ws. reflect_bools. simpl in *.
    apply lookup_insert_Some in Hm as [[<- <-]|[_ ?]]; [|congruence]. simpl. split_and!; [done..|by eapply no_roles|].
    left. split; [done|]. unfold is_owner. simpl. rewrite lookup_insert_eq. by apply bool_decide_eq_true_2.
  - apply redeem_ok in H as (_ & _ & _ & _ & k & v & Hv & Hh & _ & [(? & _ & _ & -> & _)|Hrd]); [congruence| |done].
    destruct Hrd as (Hp & Ht & Hiss & (v' & Hv' & Hd) & [E|[Hf E]]); rewrite E in Hm; [congruence|].
    apply lookup_insert_Some in Hm as [[<- <-]|[_ ?]]; [|congruence]. split_and!; [done..|by apply Hroles|]. right.
    exists k, v. split_and!; [done..| |done|eauto]. destruct (share_code _ _ _ _ Hr Hv Hh). congruence.
  - apply accept_ok in H as (v & Hv & Hk & Hta & Hkind & [->|Hrd]); [congruence|].
    destruct Hrd as (Hp & Ht & Hiss & (v' & Hv' & Hd) & [E|[Hf E]]); rewrite E in Hm; [congruence|].
    apply lookup_insert_Some in Hm as [[<- <-]|[_ ?]]; [|congruence]. split_and!; [done..|by apply Hroles|]. right.
    exists invitationID, v. split_and!; [done..| |done|eauto]. intros t Ht'. simpl.
    destruct target as [kd n]. simpl in *. unfold PersonalityAgent. congruence.
Qed.

Lemma redeem_reach dbnow now mid code a proof db ms db' :
  wreach db → RedeemInviteWithEnrollmentProof dbnow now mid code a proof db = Ok (ms, db') → wreach db'.
Proof.
  intros Hr H. apply (wreach_run db (CallRedeem dbnow now mid code a proof)); [done|].
  simpl. unfold discard, mbind, M_bind. by rewrite H.
Qed.
(** The invitation a successful redemption used, as recorded after it. *)
Lemma redeemed_after dbnow now mid code a proof db ms db' :
  ws_ok db → RedeemInviteWithEnrollmentProof dbnow now mid code a proof db = Ok (ms, db') →
  code ≠ "" ∧ String.length code ≤ 128 ∧ valid_ref a = true
  ∧ ∃ k i j r, w_invites db !! k = Some i ∧ i_code_hash i = Some (sha256_hex code)
    ∧ isCanonicalUUIDv7 (i_workspace i) = true ∧ w_invites db' !! k = Some j ∧ i_redeemed j = Some r
    ∧ rd_by r = a ∧ rd_member r = WorkspaceMemberID ms.
Proof.
  intros Hok H. destruct (redeem_ok _ _ _ _ _ _ _ _ _ Hok H) as (? & ? & ? & _ & k & i & Hi & Hh & [_ Hc]%lockWorkspace_ok & Hd).
  split_and!; [done..|]. exists k, i. destruct Hd as [(r & Hr & Hby & -> & Hms)|(_ & _ & _ & (j & Hj & Hjr) & _)].
  - exists i, r. apply membershipByID_ok in Hms as (_ & ? & _). by split_and!.
  - by exists j, (mkRedemption a (WorkspaceMemberID ms) now).
Qed.

(** C23: a share code lets one participant in, once.  After a redemption
    succeeded, at any later time the same participant is answered the same
    tenure and nothing changes, and everybody else is refused, whatever else
    happened in between. *)
Theorem invite_used_once db db1 db2 dbnow now mid code a proof ms dbnow' now' mid' proof' :
  wreach db → RedeemInviteWithEnrollmentProof dbnow now mid code a proof db = Ok (ms, db1) → rtc wstep db1 db2 →
  (∃ ms', RedeemInviteWithEnrollmentProof dbnow' now' mid' code a proof' db2 = Ok (ms', db2)
     ∧ WorkspaceMemberID ms' = WorkspaceMemberID ms ∧ Participant ms' = a)
  ∧ ∀ b, b ≠ a → valid_ref b = true →
      RedeemInviteWithEnrollmentProof dbnow' now' mid' code b proof' db2 = Err ErrInviteUnavailable.
Proof.
  intros Hr H Hrun. pose proof (wreach_ok _ Hr) as Hok. pose proof (redeem_reach _ _ _ _ _ _ _ _ _ Hr H) as Hr1.
  assert (ws_ok db2) as Hok2 by (apply wreach_ok; unfold wreach; by etrans).
  destruct (redeemed_after _ _ _ _ _ _ _ _ _ Hok H) as (Hne & Hlen & Hv & k & i & j & r & Hi & Hh & Hc & Hj & Hjr & Hby & Hms).
  destruct (Redeem_keeps _ _ _ _ _ _ _ _ _ H Hok) as [_ Hh1].
  destruct (wh_invites _ _ Hh1 k i Hi) as (j' & Hj' & [(Ew & _ & Eh & _) _ _ _]).
  assert (j' = j) as -> by congruence.
  destruct (wh_invites _ _ (wreach_hist _ _ Hr1 Hrun) k j Hj) as (l & Hl & [(Fw & _ & Fh & _) Frd _ _]).
  assert (i_redeemed l = Some r) as Hlr by by apply Frd.
  assert (i_code_hash l = Some (sha256_hex code)) as Hlh by congruence.
  assert (isCanonicalUUIDv7 (i_workspace l) = true) as Hlc by by rewrite Fw, Ew.
  split.
  - rewrite (redeemed_code db2 k l code r) by done. rewrite bool_decide_eq_true_2 by done.
    destruct (redeemed_member db2 k l r Hok2 Hl Hlr Hlc) as (ms' & -> & E1 & E2 & _). exists ms'. split; [done|]. split; congruence.
  - intros b Hb Hvb. rewrite (redeemed_code db2 k l code r) by done. by rewrite bool_decide_eq_false_2 by congruence.
Qed.

Lemma consume_ok cfg dbnow eid identity h db db' :
  wrun (CallConsume cfg dbnow eid identity h) db = Ok (tt, db') →
  ∃ e e', w_enrollments db !! eid = Some e ∧ w_enrollments db' !! eid = Some e'
    ∧ e_consumed e' = Some (dbnow, h) ∧ e_invite e' = e_invite e.
Proof.
  intros [[] H]%discard_ok. unfold consumeEnrollmentInvite, reserve_invite, update_invite in H.
  inv_ws; do 2 eexists; (split; [done|]); simpl; rewrite lookup_insert_eq; by split_and!.
Qed.
(** C24: a letter of invitation is personal.  Once the enrollment bundled with
    a share code has been used to enrol a person, whoever redeems the code at
    any later time is that person. *)
Theorem bundle_is_personal db db1 db2 db3 cfg dbnow eid identity h e k i dbnow' now mid code a proof ms :
  wreach db → wrun (CallConsume cfg dbnow eid identity h) db = Ok (tt, db1) →
  w_enrollments db !! eid = Some e → e_invite e = Some k →
  w_invites db !! k = Some i → i_code_hash i = Some (sha256_hex code) → rtc wstep db1 db2 →
  RedeemInviteWithEnrollmentProof dbnow' now mid code a proof db2 = Ok (ms, db3) → a = Human h.
Proof.
  intros Hr Hc He Hek Hi Hh Hrun H. pose proof (wreach_run _ _ _ Hr Hc) as Hr1.
  assert (wreach db2) as Hr2 by (unfold wreach; by etrans). pose proof (redeem_reach _ _ _ _ _ _ _ _ _ Hr2 H) as Hr3.
  destruct (Redeem_keeps _ _ _ _ _ _ _ _ _ H (wreach_ok _ Hr2)) as [_ Hh3].
  pose proof (transitivity (wreach_hist _ _ Hr1 Hrun) Hh3) as Hh13.
  destruct (consume_ok _ _ _ _ _ _ _ Hc) as (e0 & e1 & He0 & He1 & Hcons & Hinv).
  destruct (wh_enrollments _ _ Hh13 eid e1 He1) as (e3 & He3 & [_ _ Hc3 Hi3]).
  destruct (wo_linked _ (wreach_ok _ Hr3) eid e3 k He3) as (j & Hj & _ & Hl); [apply Hi3; congruence|].
  unfold linked in Hl. rewrite (Hc3 _ Hcons) in Hl. destruct Hl as [_ Hby].
  destruct (redeemed_after _ _ _ _ _ _ _ _ _ (wreach_ok _ Hr2) H) as (_ & _ & _ & k' & i' & j' & r & Hi' & Hh' & _ & Hj' & Hr' & <- & _).
  assert (ws_hist db db2) as Hh2.
  { destruct (wrun_keeps _ _ _ _ Hc (wreach_ok _ Hr)) as [_ ?]. etrans; [done|by apply wreach_hist]. }
  destruct (wh_invites _ _ Hh2 k i Hi) as (i2 & Hi2 & [(_ & _ & Eh & _) _ _ _]).
  assert (k' = k) as -> by (eapply (wo_code _ (wreach_ok _ Hr2) k' k i' i2); [done..|congruence]).
  apply Hby. congruence.
Qed.

(** C25: the tables of the workspace service are well formed in every
    reachable state: every workspace is owned by an open tenure of its own, a
    participant has at most one open tenure in a workspace, places, roles,
    assignments, grants and invitations point at rows of their own workspace,
    names, codes and pending invitations are unique, and an enrollment agrees
    with its share code about the person.  Hence no call is ever refused for
    leaving a workspace without administrator. *)
Theorem workspaces_wellformed db c :
  wreach db → ws_ok db ∧ wrun c db ≠ Err ErrLastAdministrator.
Proof. intros H%wreach_ok. split; [done|by apply no_last_administrator]. Qed.

(** ** Strangers *)

(** The workspace a call names, and the tables without it. *)
Definition addresses (c : wcall) : option string :=
  match c with
  | CallRename w _ _ | CallTransfer w _ _ | CallRemove _ w _ _ | CallLeave _ w _ | CallCreateRole _ _ w _ _ _ _ _
  | CallUpdateRole w _ _ _ _ _ _ | CallDeleteRole w _ _ | CallSetRoles w _ _ _ | CallInvite _ _ _ w _
  | CallInviteAgent _ _ _ w _ _ | CallRevoke _ _ w _ _ | CallBundle _ _ _ _ _ _ _ w _ _ => Some w
  | _ => None
  end.
Definition writes_role (c : wcall) : bool :=
  match c with CallCreateRole _ _ _ _ _ _ _ _ | CallUpdateRole _ _ _ _ _ _ _ => true | _ => false end.
Definition hide (w : string) (db : WDB) : WDB := db <| w_workspaces := delete w (w_workspaces db) |>.

Lemma discard_Err {A} (m : wtx A) db e : m db = Err e → discard m db = Err e.
Proof. intros H. unfold discard, mbind, M_bind. by rewrite H. Qed.
Lemma asks_err {A B} (f : WDB → res werr A) (k : A → wtx B) db e : f db = Err e → (asks f ≫= k) db = Err e.
Proof. intros H. unfold mbind, M_bind, asks. by rewrite H. Qed.
Lemma lock_cases db w : lockWorkspace db w = Ok tt ∨ lockWorkspace db w = Err ErrNotFound.
Proof. unfold lockWorkspace. destruct (negb _); [by right|]. destruct (bool_decide _); [by left|by right]. Qed.

Section stranger.
Context (w : string) (a : Ref) (db : WDB).
Hypothesis Hv : Validate a = Ok tt.
Hypothesis Hn : find_tenure db w a = None.
Lemma require_stranger p : p ∈ knownPermissions → lockAndRequirePermission db w a p = Err ErrNotFound.
Proof.
  intros Hp. unfold lockAndRequirePermission, isKnownPermission. rewrite bool_decide_eq_true_2 by done. simpl.
  destruct (lock_cases db w) as [->| ->]; [|done]. simpl. unfold requireEffectiveCapabilityAfterWorkspaceLock.
  by rewrite activeMembership_none.
Qed.
Lemma lock_stranger {A} (k : Membership → wtx A) :
  (asks (λ db, lockWorkspace db w) ;; ms ← asks (λ db, activeMembership db w a); k ms) db = Err ErrNotFound.
Proof.
  destruct (lock_cases db w) as [Hl|Hl]; [|by apply asks_err].
  unfold mbind, M_bind, asks. rewrite Hl. by rewrite activeMembership_none.
Qed.
Lemma authority_stranger {A} (k : Membership * PermissionSet → wtx A) :
  (asks (λ db, lockWorkspace db w) ;; p ← asks (λ db, roleMutationAuthority db w a); k p) db = Err ErrNotFound.
Proof.
  destruct (lock_cases db w) as [Hl|Hl]; [|by apply asks_err].
  unfold mbind, M_bind, asks. rewrite Hl. unfold roleMutationAuthority. by rewrite activeMembership_none.
Qed.
Lemma agent_invite_stranger cfg now t :
  CurrentAgentInvite cfg now w a t db
  = Err match current_agent_ok cfg a t db with Ok _ => ErrNotFound | Err e => e end.
Proof.
  unfold CurrentAgentInvite. destruct (current_agent_ok cfg a t db); [|done]. simpl.
  by rewrite require_stranger by set_solver.
Qed.
Lemma app_capability_stranger cap :
  appCapabilityRefPattern cap = true →
  LockAndRequireAppCapability db w a cap
  = Err match lockWorkspace db w with
        | Ok _ => if bool_decide (cap ∈ active_refs db) then ErrNotFound else ErrInvalidPermission
        | Err _ => ErrNotFound
        end.
Proof.
  intros Hcap. unfold LockAndRequireAppCapability. rewrite Hcap. simpl.
  destruct (lock_cases db w) as [-> | ->]; [|done]. simpl. case_bool_decide; [|done].
  unfold requireEffectiveCapabilityAfterWorkspaceLock. by rewrite activeMembership_none.
Qed.
End stranger.

(** What a stranger's call answers depends on the people, the clock and the
    request alone. *)
Definition stranger_answer (db : WDB) (c : wcall) : werr :=
  match c with
  | CallRename _ _ name => if workspace_name_ok (strings_TrimSpace name) then ErrNotFound else ErrInvalidName
  | CallInviteAgent cfg _ _ _ a t => match current_agent_ok cfg a t db with Ok _ => ErrNotFound | Err e => e end
  | CallRevoke _ _ _ id _ => if isCanonicalUUIDv7 id then ErrNotFound else ErrInviteUnavailable
  | CallBundle cfg _ _ _ _ _ _ _ a _ =>
      if bool_decide (ref_kind a = KindHuman) && cfg_issuer cfg
         && match cfg_admin cfg with Some admin => admin (ref_id a) | None => false end
      then ErrNotFound else ErrForbidden
  | _ => ErrNotFound
  end.
Lemma stranger_call db c w a :
  Validate a = Ok tt → find_tenure db w a = None → addresses c = Some w → caller c = Some a →
  writes_role c = false → wrun c db = Err (stranger_answer db c).
Proof.
  intros Hv Hn Ha Hc Hw.
  assert (∀ p, p ∈ knownPermissions → lockAndRequirePermission db w a p = Err ErrNotFound) as Hreq
    by (intros; by apply require_stranger).
  destruct c; try done; simpl in Ha, Hc; injection Ha as ->; injection Hc as ->; simpl.
  all: apply discard_Err.
  - unfold UpdateName, mbind, M_bind, guard_or, mret, M_ret, asks. destruct (workspace_name_ok _); [|done].
    cbv beta iota. by rewrite Hreq by set_solver.
  - by apply lock_stranger.
  - apply asks_err, Hreq. set_solver.
  - by apply lock_stranger.
  - by apply authority_stranger.
  - by apply authority_stranger.
  - apply asks_err, Hreq. set_solver.
  - unfold CreateCurrentAgentInvite, mbind, M_bind, asks. destruct (current_agent_ok _ _ _ _); [|done].
    cbv beta iota. by rewrite Hreq by set_solver.
  - unfold RevokeInvite, mbind, M_bind, guard_or, mret, M_ret, asks. destruct (isCanonicalUUIDv7 _); [|done].
    cbv beta iota. by rewrite Hreq by set_solver.
  - unfold CreateEnrollmentBundle, mbind, M_bind, guard_or, mret, M_ret, asks. destruct (_ && _ && _); [|done].
    cbv beta iota. by rewrite Hreq by set_solver.
Qed.
(** C26: what a stranger is told about a workspace.  Someone who is not a
    member of a workspace, existing or not, is answered not found by the
    reads of the workspace itself, its members, roles, pending invitations
    and permissions, and by the check of a registered app capability.
    Reading the current agent's invitation answers the error of the check
    that the caller is the agent's human employer, which does not look at the
    workspace, or not found.  Every call that writes to the workspace but the
    two that store roles answers the same error as if it did not exist.
    Creating a role and checking a capability are the exceptions: asking for a
    capability nobody registered tells an existing workspace from a missing
    one, whoever asks. *)
Theorem stranger_is_told db w a now :
  Validate a = Ok tt → find_tenure db w a = None →
  (WorkspaceFor db w a = Err ErrNotFound ∧ Members db w a = Err ErrNotFound ∧ Roles db w a = Err ErrNotFound
   ∧ Invites now w a db = Err ErrNotFound ∧ permissionsFor db w a = Err ErrNotFound)
  ∧ (∀ cfg t, CurrentAgentInvite cfg now w a t db
       = Err match current_agent_ok cfg a t db with Ok _ => ErrNotFound | Err e => e end
       ∧ CurrentAgentInvite cfg now w a t (hide w db) = CurrentAgentInvite cfg now w a t db)
  ∧ (∀ cap, appCapabilityRefPattern cap = true →
       LockAndRequireAppCapability db w a cap
       = Err match lockWorkspace db w with
             | Ok _ => if bool_decide (cap ∈ active_refs db) then ErrNotFound else ErrInvalidPermission
             | Err _ => ErrNotFound
             end)
  ∧ (∀ c, addresses c = Some w → caller c = Some a → writes_role c = false →
       ∃ e, wrun c db = Err e ∧ wrun c (hide w db) = Err e)
  ∧ ∀ r name color ps,
      lockWorkspace db w = Ok tt → validateRolePresentation (strings_TrimSpace name) color = Ok tt →
      resolveRoleCapabilities db ps = Err ErrInvalidPermission →
      wrun (CallCreateRole now r w a name color ps None) db = Err ErrInvalidPermission
      ∧ wrun (CallCreateRole now r w a name color ps None) (hide w db) = Err ErrNotFound.
Proof.
  intros Hv Hn. pose proof (activeMembership_none db w a Hv Hn) as Ha. split_and!.
  - unfold WorkspaceFor. rewrite Hv, Hn. simpl. by destruct (negb _).
  - unfold Members. by rewrite Ha.
  - unfold Roles. by rewrite Ha.
  - unfold Invites. rewrite require_stranger by (done || set_solver). done.
  - unfold permissionsFor. by rewrite Ha.
  - intros cfg t. rewrite (agent_invite_stranger w a db Hv Hn), (agent_invite_stranger w a (hide w db) Hv Hn). done.
  - intros cap Hcap. by apply app_capability_stranger.
  - intros c Hw Hc Hr. exists (stranger_answer db c). split; [by eapply stranger_call|].
    change (stranger_answer db c) with (stranger_answer (hide w db) c).
    by eapply (stranger_call (hide w db) c w a).
  - intros r name color ps Hl Hp Hcap. split; simpl; apply discard_Err;
      unfold CreateRoleWithPosition, mbind, M_bind, lift, asks; rewrite Hp; simpl.
    + by rewrite Hl, Hcap.
    + unfold lockWorkspace. simpl. rewrite lookup_delete_eq. by destruct (negb _).
Qed.
End theorems.

(** ** Witnesses *)

Lemma authority_bounded_witness :
  bool_decide ("manage_members" ∈ capabilities studio_with_role "w" ben) = false
  ∧ bool_decide ("manage_members" ∈ capabilities staffed_studio "w" ben) = true
  ∧ (("manage_members" ∈ capabilities studio_with_role "w" ben
      ↔ "manage_members" ∈ capabilities staffed_studio "w" ben)
     ∨ ∃ a, caller make_steward = Some a ∧ "manage_members" ∈ capabilities studio_with_role "w" a).
Proof.
  split; [vm_eq|]. split; [vm_eq|].
  apply (authority_bounded studio_with_role make_steward staffed_studio).
  - apply studio_with_role_reach.
  - apply staffed_studio_run.
  - eexists. vm_eq.
Defined.
Lemma membership_by_consent_witness :
  ∃ k v, w_invites open_studio !! k = Some v ∧ pending v ∧ i_workspace v = "w".
Proof.
  destruct (membership_by_consent open_studio ben_redeems shared_studio "m2" (mkMember "w" ben 30 None))
    as (_ & _ & _ & [[H _]|(k & v & ? & ? & ? & _)]).
  - apply open_studio_reach.
  - apply shared_studio_run.
  - vm_eq.
  - vm_eq.
  - exfalso. assert (w_workspaces open_studio !! "w" = Some (mkWorkspace "w" "Studio" "m1" 10)) as E by vm_eq.
    pose proof (eq_trans (eq_sym E) H) as F. discriminate F.
  - exists k, v. split; [assumption|]. split; assumption.
Defined.
Definition ben_member : Membership := mkMembership "m2" "w" ben "Ben" false [] 30 None.
Lemma invite_used_once_witness :
  RedeemInviteWithEnrollmentProof 30 30 "m2" "code" ben no_proof open_studio = Ok (ben_member, shared_studio)
  ∧ RedeemInviteWithEnrollmentProof 99 99 "m3" "code" cleo no_proof studio_with_role = Err ErrInviteUnavailable.
Proof.
  split; [vm_eq|].
  refine (proj2 (invite_used_once open_studio shared_studio studio_with_role
    30 30 "m2" "code" ben no_proof ben_member 99 99 "m3" no_proof _ _ _) cleo _ _).
  - apply open_studio_reach.
  - vm_eq.
  - apply rtc_once, (run_step create_stewards), studio_with_role_run.
  - discriminate.
  - vm_eq.
Defined.
Lemma bundle_is_personal_witness :
  ∃ ms db, RedeemInviteWithEnrollmentProof 60 60 "m2" "letter" ben no_proof enrolled_studio = Ok (ms, db)
           ∧ ben = Human "ben".
Proof.
  do 2 eexists. split; [vm_eq|].
  eapply (bundle_is_personal lettered_studio enrolled_studio enrolled_studio _ ws_cfg 50 "e1" (mkIdentity "" true)
    "ben" _ "i2" _ 60 60 "m2" "letter" ben no_proof).
  - apply lettered_studio_reach.
  - apply enrolled_studio_run.
  - vm_eq.
  - vm_eq.
  - vm_eq.
  - vm_eq.
  - apply rtc_refl.
  - vm_eq.
Defined.
Lemma workspaces_wellformed_witness :
  ws_ok staffed_studio ∧ wrun (CallLeave 70 "w" ben) staffed_studio ≠ Err ErrLastAdministrator.
Proof. apply (workspaces_wellformed staffed_studio (CallLeave 70 "w" ben)). apply staffed_studio_reach. Defined.
Lemma stranger_is_told_witness :
  Members staffed_studio "w" cleo = Err ErrNotFound
  ∧ wrun (CallCreateRole 80 "r2" "w" cleo "x" "" {["app.calendar.write" := true]} None) staffed_studio
    = Err ErrInvalidPermission.
Proof.
  destruct (stranger_is_told staffed_studio "w" cleo 80) as ((_ & H & _) & _ & _ & _ & Hr).
  - vm_eq.
  - vm_eq.
  - split; [exact H|]. refine (proj1 (Hr "r2" "x" "" {["app.calendar.write" := true]} _ _ _)); vm_eq.
Defined.
