(* ===== verification/Apps.v ===== *)
(** * Apps: the catalog and the installation lifecycle

    Package [apps] ([model.go], [store.go]): which apps exist, who has which
    app installed, and the authority epoch that ties an app's operations to
    one enabled stretch of one installation.  The workspace service is reached
    through the interface the package declares; the participants and
    workspaces the triggers look up are the rows of a registry. *)

From Stdlib Require Import Ascii ZArith Lia.
From stdpp Require Import sorting.
From S2P Require Import Prelude Json State WorkspaceState.
Local Open Scope string_scope.
Local Open Scope list_scope.
Local Open Scope Z_scope.

(** ** Errors

    [Foreign] carries an error of package [workspace] or [participant] through
    unchanged. *)
Inductive aerr :=
| ErrForbidden | ErrAppNotFound | ErrOwnerKindUnsupported | ErrInstallIntentAlreadyInstalled
| ErrInstallIntentMismatch | ErrInstallIntentIncomplete | ErrInstallOperationInvalid
| ErrInstallationNotFound | ErrAuthorityEpochStale | ErrAppDisabled | ErrLifecycleFenceUnavailable
| InvalidOwner (text : string)
| Foreign (e : werr)
| AppDatabaseError (text : string).
#[global] Instance aerr_dec : EqDecision aerr.
Proof. solve_decision. Defined.
Definition foreign {A} (r : res werr A) : res aerr A :=
  match r with Ok a => Ok a | Err e => Err (Foreign e) end.

(** ** What the package asks of others *)

(** [WorkspaceAuthorizer], over the tables [W] of the workspace service. *)
Class WorkspaceAuthorizer (W : Type) := {
  LockAndRequirePermission : W → string → Ref → string → res werr unit;
  RequireMembershipInTx : W → string → Ref → res werr unit
}.
(** The rows of [humans], [agents] and [workspaces]. *)
Class Registry (W : Type) := {
  participant_row : W → Ref → bool;
  workspace_row : W → string → bool
}.
(** [uuid.NewSHA1] in the name space of URLs, as text. *)
Class NameLib := { uuid_NewSHA1 : string → string }.

(** ** Owners *)

Definition OwnerWorkspace : string := "workspace".
Definition OwnerParticipant : string := "participant".
Record OwnerRef := mkOwner { o_kind : string; o_workspace : string; o_participant : Ref }.
#[global] Instance owner_dec : EqDecision OwnerRef.
Proof. solve_decision. Defined.
Definition zero_ref : Ref := mkRef "" "".
Definition WorkspaceOwner (workspaceID : string) : OwnerRef := mkOwner OwnerWorkspace workspaceID zero_ref.
Definition ParticipantOwner (ref : Ref) : OwnerRef := mkOwner OwnerParticipant "" ref.
Definition owner_Participant (o : OwnerRef) : option Ref :=
  if bool_decide (o_kind o = OwnerParticipant) then Some (o_participant o) else None.
Definition ownerStorageKey (owner : OwnerRef) : string * string :=
  if bool_decide (o_kind owner = OwnerWorkspace) then (OwnerWorkspace, o_workspace owner)
  else (ref_kind (o_participant owner), ref_id (o_participant owner)).

(** ** Rows *)

(** [app_catalog] by app id, [app_workspace_role_capabilities] by capability
    id. *)
Record CatalogRow := mkCatalogRow {
  ac_display_name : string; ac_workspace_allowed : bool; ac_participant_allowed : bool }.
Record CapabilityRow := mkCapabilityRow {
  cp_app : string; cp_ref : string; cp_label : string; cp_retired : option Z }.
(** [app_installations] by installation id: the owner's storage key. *)
Record InstallationRow := mkInstallationRow {
  in_owner : string * string; in_app : string; in_enabled : bool; in_epoch : Z;
  in_installed : Z; in_updated : Z }.
#[global] Instance eta_installation_row : Eta InstallationRow := λ r,
  mkInstallationRow (in_owner r) (in_app r) (in_enabled r) (in_epoch r) (in_installed r) (in_updated r).
(** [app_install_operation_receipts] by owner and operation. *)
Record ReceiptRow := mkReceipt {
  rc_app : string; rc_status : string; rc_installation : option string; rc_enabled : option bool;
  rc_epoch : option Z; rc_installed : option Z; rc_updated : option Z; rc_created : Z;
  rc_completed : option Z }.
#[global] Instance eta_receipt : Eta ReceiptRow := λ r,
  mkReceipt (rc_app r) (rc_status r) (rc_installation r) (rc_enabled r) (rc_epoch r) (rc_installed r)
    (rc_updated r) (rc_created r) (rc_completed r).
Record ADB := mkADB {
  a_catalog : gmap string CatalogRow;
  a_capabilities : gmap string CapabilityRow;
  a_installations : gmap string InstallationRow;
  a_receipts : gmap ((string * string) * string) ReceiptRow }.
#[global] Instance eta_adb : Eta ADB := λ r,
  mkADB (a_catalog r) (a_capabilities r) (a_installations r) (a_receipts r).

Abbreviation atx := (M aerr ADB).

(** ** Values *)

Record WorkspaceRoleCapability := mkRoleCapability { cap_Ref : string; cap_Label : string }.
Record Descriptor := mkDescriptor {
  d_AppID : string; d_DisplayName : string; d_WorkspaceOwnerAllowed : bool;
  d_ParticipantOwnerAllowed : bool; d_Capabilities : list WorkspaceRoleCapability }.
#[global] Instance eta_descriptor : Eta Descriptor := λ r,
  mkDescriptor (d_AppID r) (d_DisplayName r) (d_WorkspaceOwnerAllowed r) (d_ParticipantOwnerAllowed r)
    (d_Capabilities r).
Inductive AppState := StateEnabled | StateDisabled.
#[global] Instance app_state_dec : EqDecision AppState.
Proof. solve_decision. Defined.
Record Installation := mkInstallation {
  InstallationID : string; InstOwner : OwnerRef; InstAppID : string; InstState : AppState;
  AuthorityEpoch : Z; InstalledAt : Z; UpdatedAt : Z }.
#[global] Instance installation_dec : EqDecision Installation.
Proof. solve_decision. Defined.

(** How an install intent ended; the second is returned as
    [ErrInstallIntentAlreadyInstalled], the one error [install] commits
    after. *)
Inductive outcome := Installed (i : Installation) | AlreadyInstalled.
Definition outcome_result (o : outcome) : res aerr Installation :=
  match o with Installed i => Ok i | AlreadyInstalled => Err ErrInstallIntentAlreadyInstalled end.

(** The configuration of a [Store]: whether the optional collaborators are
    wired. *)
Record AppsConfig := mkAppsConfig { cfg_workspaces : bool; cfg_fence : bool }.
Definition DirectChatAppID : string := "direct-chat".
Definition TerminalAppID : string := "terminal".
Definition workspaceManageAppsPermission : string := "manage_apps".

(** The fence orders calls inside one process; what is left of it here is
    that a store without one refuses to touch the fenced apps. *)
Definition acquireLifecycleMutation (cfg : AppsConfig) (appID : string) : res aerr unit :=
  if bool_decide (appID = DirectChatAppID) || bool_decide (appID = TerminalAppID)
  then if cfg_fence cfg then Ok tt else Err ErrLifecycleFenceUnavailable
  else Ok tt.

(** A text parameter with a NUL byte is refused by the database. *)
Definition app_text (s : string) : res aerr unit :=
  if contains_nul s then Err (AppDatabaseError "invalid byte sequence for encoding") else Ok tt.

Section library.
Context `{WL : WsLib}.

(** ** Validation *)

Definition ValidateOwner (o : OwnerRef) : res aerr unit :=
  if bool_decide (o_kind o = OwnerWorkspace) then
    if negb (bool_decide (o_participant o = zero_ref))
    then Err (InvalidOwner "Workspace app owner contains ParticipantRef")
    else if negb (isCanonicalUUIDv7 (o_workspace o))
    then Err (InvalidOwner "workspace_id must be a canonical lowercase UUIDv7")
    else Ok tt
  else if bool_decide (o_kind o = OwnerParticipant) then
    if negb (bool_decide (o_workspace o = ""))
    then Err (InvalidOwner "Participant app owner contains WorkspaceId")
    else foreign (Validate (o_participant o))
  else Err (InvalidOwner "unknown app installation owner kind").

Definition operation_of_version (ok : Z → bool) (value : string) : res aerr unit :=
  match uuid_Parse value with
  | Some id =>
      if bool_decide (uuid_String id = value) && uuid_RFC4122 id && ok (uuid_Version id)
      then Ok tt else Err ErrInstallOperationInvalid
  | None => Err ErrInstallOperationInvalid
  end.
Definition ValidateInstallOperationID (value : string) : res aerr unit :=
  operation_of_version (λ v, (v =? 4) || (v =? 5)) value.
Definition ValidateClientInstallOperationID (value : string) : res aerr unit :=
  operation_of_version (λ v, v =? 4) value.
Definition ValidateInstallationID (value : string) : res aerr unit :=
  if isCanonicalUUIDv7 value then Ok tt else Err ErrInstallationNotFound.

Definition ownerFromStorage (kind id : string) : res aerr OwnerRef :=
  if bool_decide (kind = KindHuman) then
    let owner := ParticipantOwner (Human id) in _ ← ValidateOwner owner; Ok owner
  else if bool_decide (kind = KindPersonalityAgent) then
    let owner := ParticipantOwner (PersonalityAgent id) in _ ← ValidateOwner owner; Ok owner
  else if negb (bool_decide (kind = OwnerWorkspace))
  then Err (InvalidOwner "unknown app installation storage owner kind")
  else let owner := WorkspaceOwner id in _ ← ValidateOwner owner; Ok owner.
Definition scanInstallation (id : string) (row : InstallationRow) : res aerr Installation :=
  owner ← ownerFromStorage (in_owner row).1 (in_owner row).2;
  Ok (mkInstallation id owner (in_app row) (if in_enabled row then StateEnabled else StateDisabled)
        (in_epoch row) (in_installed row) (in_updated row)).

(** ** Reads *)

(** The rows of the catalog query, in its order: an app without an active
    capability gives one row with NULL. *)
Definition catalog_rows (db : ADB) : list ((string * CatalogRow) * option CapabilityRow) :=
  mjoin ((λ ka : string * CatalogRow,
    match filter (λ c, cp_app c = ka.1 ∧ cp_retired c = None) (map_to_list (a_capabilities db)).*2 with
    | [] => [(ka, None)]
    | caps => (λ c, (ka, Some c)) <$> caps
    end) <$> map_to_list (a_catalog db)).
Definition text_lt (a b : string) : bool := text_le a b && negb (bool_decide (a = b)).
Definition catalog_le (a b : (string * CatalogRow) * option CapabilityRow) : Prop :=
  (if bool_decide (ac_display_name a.1.2 = ac_display_name b.1.2) then
     if bool_decide (a.1.1 = b.1.1) then
       match a.2, b.2 with
       | Some x, Some y => text_le (cp_ref x) (cp_ref y)
       | _, None => true
       | None, Some _ => false
       end
     else text_lt a.1.1 b.1.1
   else text_lt (ac_display_name a.1.2) (ac_display_name b.1.2)) = true.
#[global] Instance catalog_le_dec : RelDecision catalog_le.
Proof. intros a b. unfold catalog_le. apply _. Defined.
(** The scan: a row of another app than the [current] descriptor starts a new
    one, and a capability goes to the current one.  [done] holds the finished
    descriptors, last first. *)
Fixpoint scan_catalog (rows : list ((string * CatalogRow) * option CapabilityRow)) (done : list Descriptor)
    (current : option Descriptor) : list Descriptor :=
  match rows with
  | [] => rev (match current with Some d => d :: done | None => done end)
  | ((app, row), cap) :: rows =>
      let '(done, d) :=
        match current with
        | Some d =>
            if bool_decide (d_AppID d = app) then (done, d)
            else (d :: done, mkDescriptor app (ac_display_name row) (ac_workspace_allowed row)
                               (ac_participant_allowed row) [])
        | None => (done, mkDescriptor app (ac_display_name row) (ac_workspace_allowed row)
                           (ac_participant_allowed row) [])
        end in
      let d := match cap with
        | Some c => d <| d_Capabilities := d_Capabilities d ++ [mkRoleCapability (cp_ref c) (cp_label c)] |>
        | None => d
        end in
      scan_catalog rows done (Some d)
  end.
Definition Catalog (db : ADB) : list Descriptor :=
  scan_catalog (merge_sort catalog_le (catalog_rows db)) [] None.

Definition at_address (owner : OwnerRef) (appID : string) (row : InstallationRow) : bool :=
  bool_decide (in_owner row = ownerStorageKey owner) && bool_decide (in_app row = appID).
(** The row of an owner and app; a constraint keeps it unique. *)
Definition find_installation (db : ADB) (owner : OwnerRef) (appID : string)
    : option (string * InstallationRow) :=
  head (filter (λ kr, at_address owner appID kr.2 = true) (map_to_list (a_installations db))).

(** The admission checks: the two differ in the share lock the first takes. *)
Definition requireEnabledInstallationInTx (db : ADB) (installationID : string)
    (authorityEpoch : option Z) (owner : OwnerRef) (appID : string) : res aerr Installation :=
  if negb (isCanonicalUUIDv7 installationID) then Err ErrInstallationNotFound
  else _ ← ValidateOwner owner;
  _ ← app_text appID;
  match a_installations db !! installationID with
  | Some row =>
      if at_address owner appID row
         && match authorityEpoch with Some e => in_epoch row =? e | None => true end
      then installation ← scanInstallation installationID row;
           if bool_decide (InstState installation = StateEnabled) then Ok installation
           else Err ErrAppDisabled
      else Err ErrInstallationNotFound
  | None => Err ErrInstallationNotFound
  end.
Definition requireEnabledInstallationRead (db : ADB) (installationID : string)
    (authorityEpoch : option Z) (owner : OwnerRef) (appID : string) : res aerr Installation :=
  requireEnabledInstallationInTx db installationID authorityEpoch owner appID.
Definition RequireEnabledInstallationInTx (db : ADB) (id : string) (owner : OwnerRef) (appID : string) :=
  requireEnabledInstallationInTx db id None owner appID.
Definition RequireEnabledInstallationEpochInTx (db : ADB) (id : string) (authorityEpoch : Z)
    (owner : OwnerRef) (appID : string) : res aerr Installation :=
  if authorityEpoch <? 1 then Err ErrInstallationNotFound
  else requireEnabledInstallationInTx db id (Some authorityEpoch) owner appID.
Definition RequireEnabledInstallationInSnapshot (db : ADB) (id : string) (owner : OwnerRef) (appID : string) :=
  requireEnabledInstallationRead db id None owner appID.
Definition RequireEnabledInstallationEpochInSnapshot (db : ADB) (id : string) (authorityEpoch : Z)
    (owner : OwnerRef) (appID : string) : res aerr Installation :=
  if authorityEpoch <? 1 then Err ErrInstallationNotFound
  else requireEnabledInstallationRead db id (Some authorityEpoch) owner appID.
Definition RequireEnabledInstallation (db : ADB) (id : string) (owner : OwnerRef) (appID : string) :=
  requireEnabledInstallationRead db id None owner appID.
Definition RequireEnabledInstallationEpoch (db : ADB) (id : string) (authorityEpoch : Z)
    (owner : OwnerRef) (appID : string) : res aerr Installation :=
  if authorityEpoch <? 1 then Err ErrInstallationNotFound
  else requireEnabledInstallationRead db id (Some authorityEpoch) owner appID.

Definition installationAddress (db : ADB) (installationID : string) : res aerr (OwnerRef * string) :=
  if negb (isCanonicalUUIDv7 installationID) then Err ErrInstallationNotFound
  else match a_installations db !! installationID with
  | Some row => owner ← ownerFromStorage (in_owner row).1 (in_owner row).2; Ok (owner, in_app row)
  | None => Err ErrInstallationNotFound
  end.

Definition descriptorByID (db : ADB) (appID : string) : res aerr Descriptor :=
  _ ← app_text appID;
  match a_catalog db !! appID with
  | Some r => Ok (mkDescriptor appID (ac_display_name r) (ac_workspace_allowed r) (ac_participant_allowed r) [])
  | None => Err ErrAppNotFound
  end.
Definition descriptorAllowsOwner (d : Descriptor) (owner : OwnerRef) : bool :=
  if bool_decide (o_kind owner = OwnerWorkspace) then d_WorkspaceOwnerAllowed d
  else d_ParticipantOwnerAllowed d.

(** ** Authorization *)

Section host.
Context {W : Type} `{WA : WorkspaceAuthorizer W} `{RG : Registry W}.

Definition LockOwnIdentity (w : W) (ref : Ref) : res werr unit :=
  _ ← Validate ref;
  if participant_row w ref then Ok tt else Err (InvalidRef "participant not found").
Definition authorizeRead (cfg : AppsConfig) (w : W) (owner : OwnerRef) (actor : Ref) : res aerr unit :=
  _ ← ValidateOwner owner;
  _ ← foreign (Validate actor);
  if bool_decide (o_kind owner = OwnerWorkspace) then
    if negb (cfg_workspaces cfg) then Err ErrForbidden
    else foreign (RequireMembershipInTx w (o_workspace owner) actor)
  else if bool_decide (owner_Participant owner = Some actor) then
    if participant_row w actor then Ok tt else Err ErrForbidden
  else Err ErrForbidden.
Definition authorizeMutation (cfg : AppsConfig) (w : W) (owner : OwnerRef) (actor : Ref) : res aerr unit :=
  _ ← ValidateOwner owner;
  _ ← foreign (Validate actor);
  if bool_decide (o_kind owner = OwnerWorkspace) then
    if negb (cfg_workspaces cfg) then Err ErrForbidden
    else foreign (LockAndRequirePermission w (o_workspace owner) actor workspaceManageAppsPermission)
  else match owner_Participant owner with
  | Some ref =>
      if bool_decide (ref = actor) then
        match LockOwnIdentity w ref with Ok _ => Ok tt | Err _ => Err ErrForbidden end
      else Err ErrForbidden
  | None => Err ErrForbidden
  end.

Definition ResolveEnabledInstallation (cfg : AppsConfig) (w : W) (db : ADB) (owner : OwnerRef) (actor : Ref)
    (appID : string) : res aerr Installation :=
  _ ← authorizeRead cfg w owner actor;
  _ ← app_text appID;
  match find_installation db owner appID with
  | Some (id, row) =>
      installation ← scanInstallation id row;
      if bool_decide (InstState installation = StateEnabled) then Ok installation else Err ErrAppDisabled
  | None => Err ErrInstallationNotFound
  end.

Definition installed_le (a b : string * InstallationRow) : Prop :=
  in_installed a.2 < in_installed b.2
  ∨ in_installed a.2 = in_installed b.2 ∧ text_le (in_app a.2) (in_app b.2) = true.
#[global] Instance installed_le_dec : RelDecision installed_le.
Proof. intros a b. unfold installed_le. apply _. Defined.
Fixpoint scan_installations (l : list (string * InstallationRow)) : res aerr (list Installation) :=
  match l with
  | [] => Ok []
  | (id, row) :: l => i ← scanInstallation id row; rest ← scan_installations l; Ok (i :: rest)
  end.
Definition Installations (cfg : AppsConfig) (w : W) (db : ADB) (owner : OwnerRef) (actor : Ref)
    : res aerr (list Installation) :=
  _ ← authorizeRead cfg w owner actor;
  scan_installations (merge_sort installed_le
    (filter (λ kr, in_owner kr.2 = ownerStorageKey owner) (map_to_list (a_installations db)))).

(** ** Installing *)

Definition status_pending : string := "pending".
Definition status_installed : string := "installed".
Definition status_already : string := "already_installed".
Definition result_present (r : ReceiptRow) : bool :=
  bool_decide (is_Some (rc_installation r)) || bool_decide (is_Some (rc_enabled r))
  || bool_decide (is_Some (rc_epoch r)) || bool_decide (is_Some (rc_installed r))
  || bool_decide (is_Some (rc_updated r)).
(** [None] is [pgx.ErrNoRows]. *)
Definition readInstallOperationReceipt (db : ADB) (owner : OwnerRef) (appID operationID : string)
    : option (res aerr outcome) :=
  match a_receipts db !! (ownerStorageKey owner, operationID) with
  | None => None
  | Some r => Some (
      if negb (bool_decide (rc_app r = appID)) then Err ErrInstallIntentMismatch
      else if bool_decide (rc_status r = status_pending) then Err ErrInstallIntentIncomplete
      else if bool_decide (rc_status r = status_already) then
        if result_present r || bool_decide (rc_completed r = None) then Err ErrInstallIntentIncomplete
        else Ok AlreadyInstalled
      else if bool_decide (rc_status r = status_installed) then
        match rc_installation r, rc_enabled r, rc_epoch r, rc_installed r, rc_updated r, rc_completed r with
        | Some id, Some true, Some epoch, Some installedAt, Some updatedAt, Some _ =>
            if isCanonicalUUIDv7 id && (epoch =? 1) && (updatedAt =? installedAt)
            then Ok (Installed (mkInstallation id owner appID StateEnabled epoch installedAt updatedAt))
            else Err ErrInstallIntentIncomplete
        | _, _, _, _, _, _ => Err ErrInstallIntentIncomplete
        end
      else Err ErrInstallIntentIncomplete)
  end.

Definition app_tables : atx ADB := gets (λ db, db).
Definition put_receipt (key : (string * string) * string) (r : ReceiptRow) : atx unit :=
  modify (λ db, db <| a_receipts := <[key:=r]> (a_receipts db) |>).
(** [None]: the operation is claimed by this call. *)
Definition claimInstallOperation (owner : OwnerRef) (appID operationID : string) (now : Z)
    : atx (option outcome) :=
  db ← app_tables;
  let key := (ownerStorageKey owner, operationID) in
  match a_receipts db !! key with
  | None =>
      put_receipt key (mkReceipt appID status_pending None None None None None now None) ;; mret None
  | Some _ =>
      match readInstallOperationReceipt db owner appID operationID with
      | Some r => o ← lift r; mret (Some o)
      | None => throw (AppDatabaseError "no rows in result set")
      end
  end.
Definition complete_receipt (owner : OwnerRef) (operationID : string) (f : ReceiptRow → ReceiptRow)
    : atx unit :=
  db ← app_tables;
  let key := (ownerStorageKey owner, operationID) in
  match a_receipts db !! key with
  | Some r =>
      guard_or (bool_decide (rc_status r = status_pending)) ErrInstallIntentIncomplete ;;
      put_receipt key (f r)
  | None => throw ErrInstallIntentIncomplete
  end.
Definition completeInstallOperationAlreadyInstalled (owner : OwnerRef) (operationID : string) (now : Z)
    : atx unit :=
  complete_receipt owner operationID (λ r,
    r <| rc_status := status_already |> <| rc_completed := Some now |>).
Definition completeInstallOperationInstalled (owner : OwnerRef) (operationID : string) (i : Installation)
    (completedAt : Z) : atx unit :=
  complete_receipt owner operationID (λ r,
    r <| rc_status := status_installed |> <| rc_installation := Some (InstallationID i) |>
      <| rc_enabled := Some (bool_decide (InstState i = StateEnabled)) |>
      <| rc_epoch := Some (AuthorityEpoch i) |> <| rc_installed := Some (InstalledAt i) |>
      <| rc_updated := Some (UpdatedAt i) |> <| rc_completed := Some completedAt |>).

(** [validate_app_installation_owner]. *)
Definition owner_exists (w : W) (key : string * string) : bool :=
  if bool_decide (key.1 = OwnerWorkspace) then workspace_row w key.2
  else participant_row w (mkRef key.1 key.2).
(** The insertion, with its trigger and keys; [None] when the owner has the
    app already. *)
Definition insert_installation (w : W) (id : string) (owner : OwnerRef) (appID : string) (now : Z)
    : atx (option Installation) :=
  db ← app_tables;
  guard_or (isCanonicalUUIDv7 id) (AppDatabaseError "uuidv7_check") ;;
  guard_or (owner_exists w (ownerStorageKey owner)) (AppDatabaseError "unknown installation owner") ;;
  match find_installation db owner appID with
  | Some _ => mret None
  | None =>
      guard_or (bool_decide (a_installations db !! id = None)) (AppDatabaseError "app_installations_pkey") ;;
      guard_or (bool_decide (is_Some (a_catalog db !! appID)))
        (AppDatabaseError "app_installations_app_id_fkey") ;;
      let row := mkInstallationRow (ownerStorageKey owner) appID true 1 now now in
      modify (λ db, db <| a_installations := <[id:=row]> (a_installations db) |>) ;;
      i ← lift (scanInstallation id row);
      mret (Some i)
  end.

Definition installAtOperationInTxAfterAuthorization (w : W) (now : Z) (newID : string) (owner : OwnerRef)
    (appID operationID : string) : atx outcome :=
  db ← app_tables;
  match readInstallOperationReceipt db owner appID operationID with
  | Some historical => lift historical
  | None =>
      descriptor ← lift (descriptorByID db appID);
      guard_or (descriptorAllowsOwner descriptor owner) ErrOwnerKindUnsupported ;;
      claimed ← claimInstallOperation owner appID operationID now;
      match claimed with
      | Some historical => mret historical
      | None =>
          installation ← insert_installation w newID owner appID now;
          match installation with
          | None => completeInstallOperationAlreadyInstalled owner operationID now ;; mret AlreadyInstalled
          | Some i => completeInstallOperationInstalled owner operationID i now ;; mret (Installed i)
          end
      end
  end.

Definition install (cfg : AppsConfig) (w : W) (now : Z) (newID : string) (owner : OwnerRef) (actor : Ref)
    (appID operationID : string) : call aerr ADB Installation := λ db,
  match (lift (acquireLifecycleMutation cfg appID) ;;
         lift (authorizeMutation cfg w owner actor) ;;
         installAtOperationInTxAfterAuthorization w now newID owner appID operationID) db with
  | Ok (o, db') => (db', outcome_result o)
  | Err e => (db, Err e)
  end.
Definition InstallAtOperation (cfg : AppsConfig) (w : W) (now : Z) (newID : string) (owner : OwnerRef)
    (actor : Ref) (appID operationID : string) : call aerr ADB Installation :=
  then_call (ret_call (ValidateInstallOperationID operationID)) (λ _,
    install cfg w now newID owner actor appID operationID).

(** Inside the caller's transaction every error is an error. *)
Definition installAtOperationInTx (cfg : AppsConfig) (w : W) (now : Z) (newID : string) (owner : OwnerRef)
    (actor : Ref) (appID operationID : string) : atx Installation :=
  lift (authorizeMutation cfg w owner actor) ;;
  o ← installAtOperationInTxAfterAuthorization w now newID owner appID operationID;
  lift (outcome_result o).
Definition InstallAtOperationInTx (cfg : AppsConfig) (w : W) (now : Z) (newID : string) (owner : OwnerRef)
    (actor : Ref) (appID operationID : string) : atx Installation :=
  lift (ValidateInstallOperationID operationID) ;;
  lift (acquireLifecycleMutation cfg appID) ;;
  installAtOperationInTx cfg w now newID owner actor appID operationID.

Context `{NL : NameLib}.

(** The receipt of the installation the human has, or the next number. *)
Definition directChatProvisionOperationIDForActiveOrNextAttempt (db : ADB) (humanID : string) : string :=
  let key := (KindHuman, humanID) in
  let current := omap (λ kr : ((string * string) * string) * ReceiptRow,
      if bool_decide (kr.1.1 = key) && bool_decide (rc_app kr.2 = DirectChatAppID) then
        id ← rc_installation kr.2;
        row ← a_installations db !! id;
        if bool_decide (in_owner row = key) && bool_decide (in_app row = DirectChatAppID)
        then Some kr.1.2 else None
      else None) (map_to_list (a_receipts db)) in
  match current with
  | operationID :: _ => operationID
  | [] =>
      let completedAttempts : Z := length (filter (λ kr : ((string * string) * string) * ReceiptRow,
        kr.1.1 = key ∧ rc_app kr.2 = DirectChatAppID) (map_to_list (a_receipts db))) in
      uuid_NewSHA1 ("sumi:direct-chat-provision:v2:" +:+ humanID +:+ ":" +:+ itoa (completedAttempts + 1))
  end.
Definition InstallDirectChatForNewHumanInTx (cfg : AppsConfig) (w : W) (now : Z) (newID humanID : string)
    : atx Installation :=
  let actor := Human humanID in
  lift (acquireLifecycleMutation cfg DirectChatAppID) ;;
  db ← app_tables;
  let operationID := directChatProvisionOperationIDForActiveOrNextAttempt db humanID in
  lift (ValidateInstallOperationID operationID) ;;
  installAtOperationInTx cfg w now newID (ParticipantOwner actor) actor DirectChatAppID operationID.

(** ** Enabling, disabling, uninstalling *)

(** [authority_epoch + 1] when an enabled row is disabled; the column is a
    [bigint]. *)
Definition next_epoch (row : InstallationRow) (enabled : bool) : Z :=
  if in_enabled row && negb enabled then in_epoch row + 1 else in_epoch row.
Definition write_state (id : string) (row : InstallationRow) (enabled : bool) (updatedAt : Z)
    : atx Installation :=
  guard_or (next_epoch row enabled <=? MaxInt64) (AppDatabaseError "bigint out of range") ;;
  let row' := row <| in_epoch := next_epoch row enabled |> <| in_enabled := enabled |>
                  <| in_updated := updatedAt |> in
  modify (λ db, db <| a_installations := <[id:=row']> (a_installations db) |>) ;;
  lift (scanInstallation id row').
Definition SetEnabled (cfg : AppsConfig) (w : W) (now : Z) (owner : OwnerRef) (actor : Ref) (appID : string)
    (enabled : bool) : atx Installation :=
  lift (acquireLifecycleMutation cfg appID) ;;
  lift (authorizeMutation cfg w owner actor) ;;
  lift (app_text appID) ;;
  db ← app_tables;
  match find_installation db owner appID with
  | Some (id, row) => write_state id row enabled now
  | None => throw ErrInstallationNotFound
  end.

(** [seen] is the state of the tables when the address was read, before the
    transaction began. *)
Definition setEnabledByID (cfg : AppsConfig) (w : W) (seen : ADB) (now : Z) (installationID : string)
    (actor : Ref) (enabled : bool) (expected : option Z) : atx Installation :=
  address ← lift (installationAddress seen installationID);
  let '(owner, appID) := address in
  lift (acquireLifecycleMutation cfg appID) ;;
  lift (authorizeMutation cfg w owner actor) ;;
  db ← app_tables;
  match a_installations db !! installationID with
  | Some row =>
      if at_address owner appID row then
        if match expected with None => true | Some e => in_epoch row =? e end then
          write_state installationID row enabled
            (if bool_decide (is_Some expected) && Bool.eqb (in_enabled row) enabled
             then in_updated row else now)
        else throw ErrAuthorityEpochStale
      else throw ErrInstallationNotFound
  | None => throw ErrInstallationNotFound
  end.
Definition SetEnabledByID (cfg : AppsConfig) (w : W) (seen : ADB) (now : Z) (installationID : string)
    (actor : Ref) (enabled : bool) : atx Installation :=
  setEnabledByID cfg w seen now installationID actor enabled None.
Definition SetEnabledByIDAtEpoch (cfg : AppsConfig) (w : W) (seen : ADB) (now : Z) (installationID : string)
    (actor : Ref) (enabled : bool) (expectedAuthorityEpoch : Z) : atx Installation :=
  guard_or (1 <=? expectedAuthorityEpoch) ErrAuthorityEpochStale ;;
  setEnabledByID cfg w seen now installationID actor enabled (Some expectedAuthorityEpoch).

Definition remove_installation (id : string) : atx unit :=
  modify (λ db, db <| a_installations := delete id (a_installations db) |>).
Definition Uninstall (cfg : AppsConfig) (w : W) (owner : OwnerRef) (actor : Ref) (appID : string) : atx unit :=
  lift (acquireLifecycleMutation cfg appID) ;;
  lift (authorizeMutation cfg w owner actor) ;;
  lift (app_text appID) ;;
  db ← app_tables;
  match find_installation db owner appID with
  | Some (id, _) => remove_installation id
  | None => throw ErrInstallationNotFound
  end.
Definition UninstallByID (cfg : AppsConfig) (w : W) (seen : ADB) (installationID : string) (actor : Ref)
    : atx unit :=
  address ← lift (installationAddress seen installationID);
  let '(owner, appID) := address in
  lift (acquireLifecycleMutation cfg appID) ;;
  lift (authorizeMutation cfg w owner actor) ;;
  db ← app_tables;
  match a_installations db !! installationID with
  | Some row =>
      if at_address owner appID row then remove_installation installationID
      else throw ErrInstallationNotFound
  | None => throw ErrInstallationNotFound
  end.
End host.
End library.
