(* ===== verification/AppsSystem.v ===== *)
(** * The app service as a transition system

    The calls that write, the four changes they can make to the tables, each
    under the name of the owner it concerns, and the histories these make. *)

From Stdlib Require Import Ascii ZArith Lia.
From S2P Require Import Prelude Json State WorkspaceState Apps.
Local Open Scope string_scope.
Local Open Scope list_scope.
Local Open Scope Z_scope.

(** The calls, with the clock they read, the identity the server draws for a
    new installation, and the tables [seen] when an address was read. *)
Inductive acall :=
| CallInstall (cfg : AppsConfig) (now : Z) (newID : string) (owner : OwnerRef) (actor : Ref)
    (appID operationID : string)
| CallInstallInTx (cfg : AppsConfig) (now : Z) (newID : string) (owner : OwnerRef) (actor : Ref)
    (appID operationID : string)
| CallProvision (cfg : AppsConfig) (now : Z) (newID humanID : string)
| CallSetEnabled (cfg : AppsConfig) (now : Z) (owner : OwnerRef) (actor : Ref) (appID : string) (enabled : bool)
| CallSetEnabledByID (cfg : AppsConfig) (seen : ADB) (now : Z) (id : string) (actor : Ref) (enabled : bool)
| CallSetEnabledAtEpoch (cfg : AppsConfig) (seen : ADB) (now : Z) (id : string) (actor : Ref) (enabled : bool)
    (epoch : Z)
| CallUninstall (cfg : AppsConfig) (owner : OwnerRef) (actor : Ref) (appID : string)
| CallUninstallByID (cfg : AppsConfig) (seen : ADB) (id : string) (actor : Ref).
Definition acaller (c : acall) : Ref :=
  match c with
  | CallInstall _ _ _ _ a _ _ | CallInstallInTx _ _ _ _ a _ _ | CallSetEnabled _ _ _ a _ _
  | CallSetEnabledByID _ _ _ _ a _ | CallSetEnabledAtEpoch _ _ _ _ a _ _ | CallUninstall _ _ a _
  | CallUninstallByID _ _ _ a => a
  | CallProvision _ _ _ h => Human h
  end.
Definition acfg (c : acall) : AppsConfig :=
  match c with
  | CallInstall cfg _ _ _ _ _ _ | CallInstallInTx cfg _ _ _ _ _ _ | CallProvision cfg _ _ _
  | CallSetEnabled cfg _ _ _ _ _ | CallSetEnabledByID cfg _ _ _ _ _ | CallSetEnabledAtEpoch cfg _ _ _ _ _ _
  | CallUninstall cfg _ _ _ | CallUninstallByID cfg _ _ _ => cfg
  end.
Definition draws (c : acall) : option string :=
  match c with
  | CallInstall _ _ i _ _ _ _ | CallInstallInTx _ _ i _ _ _ _ | CallProvision _ _ i _ => Some i
  | _ => None
  end.

Definition forget {E S A} (c : call E S A) : call E S unit := λ s,
  let '(s', r) := c s in (s', match r with Ok _ => Ok tt | Err e => Err e end).
(** No receipt, present or past, names the identity. *)
Definition unused (a : ADB) (id : string) : Prop :=
  ∀ key r, a_receipts a !! key = Some r → rc_installation r ≠ Some id.

(** The rows the calls write. *)
Definition refused (appID : string) (now : Z) : ReceiptRow :=
  mkReceipt appID status_already None None None None None now (Some now).
Definition granted (appID id : string) (now : Z) : ReceiptRow :=
  mkReceipt appID status_installed (Some id) (Some true) (Some 1) (Some now) (Some now) now (Some now).
Definition fresh_row (key : string * string) (appID : string) (now : Z) : InstallationRow :=
  mkInstallationRow key appID true 1 now now.
Definition switched (row : InstallationRow) (enabled : bool) (t : Z) : InstallationRow :=
  row <| in_epoch := next_epoch row enabled |> <| in_enabled := enabled |> <| in_updated := t |>.

Section system.
Context `{WL : WsLib} `{NL : NameLib} {W : Type} `{WA : WorkspaceAuthorizer W} `{RG : Registry W}.

Definition arun (w : W) (c : acall) : call aerr ADB unit :=
  match c with
  | CallInstall cfg now i o a app op => forget (InstallAtOperation cfg w now i o a app op)
  | CallInstallInTx cfg now i o a app op => forget (commit (InstallAtOperationInTx cfg w now i o a app op))
  | CallProvision cfg now i h => forget (commit (InstallDirectChatForNewHumanInTx cfg w now i h))
  | CallSetEnabled cfg now o a app b => forget (commit (SetEnabled cfg w now o a app b))
  | CallSetEnabledByID cfg seen now i a b => forget (commit (SetEnabledByID cfg w seen now i a b))
  | CallSetEnabledAtEpoch cfg seen now i a b e =>
      forget (commit (SetEnabledByIDAtEpoch cfg w seen now i a b e))
  | CallUninstall cfg o a app => forget (commit (Uninstall cfg w o a app))
  | CallUninstallByID cfg seen i a => forget (commit (UninstallByID cfg w seen i a))
  end.

(** What can happen to the app tables of the owner stored under [key]. *)
Inductive change (key : string * string) (a : ADB) : ADB → Prop :=
| change_refuse op app now :
    a_receipts a !! (key, op) = None →
    change key a (a <| a_receipts := <[(key, op) := refused app now]> (a_receipts a) |>)
| change_install op app id now owner :
    a_receipts a !! (key, op) = None → isCanonicalUUIDv7 id = true → a_installations a !! id = None →
    (∀ j row, a_installations a !! j = Some row → in_owner row = key → in_app row ≠ app) →
    ownerFromStorage key.1 key.2 = Ok owner → unused a id →
    change key a (a <| a_receipts := <[(key, op) := granted app id now]> (a_receipts a) |>
                    <| a_installations := <[id := fresh_row key app now]> (a_installations a) |>)
| change_switch id row enabled t :
    a_installations a !! id = Some row → in_owner row = key → next_epoch row enabled ≤ MaxInt64 →
    change key a (a <| a_installations := <[id := switched row enabled t]> (a_installations a) |>)
| change_remove id row :
    a_installations a !! id = Some row → in_owner row = key →
    change key a (a <| a_installations := delete id (a_installations a) |>).

(** A step: a call that draws a new identity, any change of the host's tables,
    a change of the catalog. *)
Inductive astep : W * ADB → W * ADB → Prop :=
| step_app w a c : (∀ id, draws c = Some id → unused a id) → astep (w, a) (w, (arun w c a).1)
| step_host w w' a : astep (w, a) (w', a)
| step_catalog w a C K : astep (w, a) (w, a <| a_catalog := C |> <| a_capabilities := K |>).
Definition aempty : ADB := mkADB ∅ ∅ ∅ ∅.
Definition areach (s : W * ADB) : Prop := ∃ w, rtc astep (w, aempty) s.

(** ** Owners and their storage keys *)

Lemma storage_roundtrip owner :
  ValidateOwner owner = Ok tt → ownerFromStorage (ownerStorageKey owner).1 (ownerStorageKey owner).2 = Ok owner.
Proof.
  destruct owner as [k ws [rk ri]]. unfold ValidateOwner, ownerStorageKey, ownerFromStorage. simpl.
  case_bool_decide as Hk; simpl.
  - case_bool_decide as Hz; [|done]. simpl. intros H. destruct (isCanonicalUUIDv7 ws) eqn:Hc; [|done].
    injection Hz as -> ->. subst k. unfold ValidateOwner. simpl. by rewrite Hc.
  - case_bool_decide as Hp; [|done]. case_bool_decide as He; [|done]. simpl. subst. intros H.
    assert (Validate (mkRef rk ri) = Ok tt) as Hv.
    { by destruct (Validate (mkRef rk ri)) as [[]|]. }
    pose proof Hv as Hv'. unfold Validate in Hv. simpl in Hv.
    case_bool_decide as Hh; [|case_bool_decide as Ha; [|done]]; subst; unfold ValidateOwner; simpl;
      unfold Human, PersonalityAgent; by rewrite Hv'.
Qed.
Lemma storage_key kind id owner : ownerFromStorage kind id = Ok owner → ownerStorageKey owner = (kind, id).
Proof.
  unfold ownerFromStorage. case_bool_decide as Hh; [|case_bool_decide as Ha; [|case_bool_decide as Hw]]; simpl.
  1-2,3: destruct (ValidateOwner _) as [[]|]; [|done]; intros [= <-]; by subst.
  done.
Qed.
Lemma storage_valid kind id owner : ownerFromStorage kind id = Ok owner → ValidateOwner owner = Ok tt.
Proof.
  unfold ownerFromStorage. repeat case_bool_decide; simpl; try done;
    (destruct (ValidateOwner _) as [[]|] eqn:E; [|done]); by intros [= <-].
Qed.
Lemma authorize_owner cfg w owner actor :
  authorizeMutation cfg w owner actor = Ok tt → ValidateOwner owner = Ok tt.
Proof. unfold authorizeMutation. by destruct (ValidateOwner owner) as [[]|]. Qed.
Lemma at_address_spec owner app row :
  at_address owner app row = true ↔ in_owner row = ownerStorageKey owner ∧ in_app row = app.
Proof. unfold at_address. rewrite andb_true_iff, !bool_decide_eq_true. done. Qed.
Lemma find_installation_Some a owner app id row :
  find_installation a owner app = Some (id, row) →
  a_installations a !! id = Some row ∧ in_owner row = ownerStorageKey owner ∧ in_app row = app.
Proof.
  unfold find_installation. intros H%head_Some_elem_of. apply list_elem_of_filter in H as [H1 H2].
  split; [by apply elem_of_map_to_list|by apply at_address_spec].
Qed.
Lemma find_installation_None a owner app j row :
  find_installation a owner app = None → a_installations a !! j = Some row →
  in_owner row = ownerStorageKey owner → in_app row ≠ app.
Proof.
  unfold find_installation. intros H Hj Ho Ha. apply head_None in H.
  apply (not_elem_of_nil (j, row)). rewrite <- H. apply list_elem_of_filter.
  split; [by apply at_address_spec|by apply elem_of_map_to_list].
Qed.
End system.
