(* ===== verification/AppsFacts.v ===== *)
(** * What the app calls do

    Every call either leaves the tables alone or makes one change, to the
    tables of an owner its caller was authorized for; what holds of reachable
    tables, and what a history keeps. *)

From Stdlib Require Import Ascii ZArith Lia.
From S2P Require Import Prelude Json State WorkspaceState Apps AppsSystem.
Local Open Scope string_scope.
Local Open Scope list_scope.
Local Open Scope Z_scope.

Create HintDb apps discriminated.

Section facts.
Context `{WL : WsLib} `{NL : NameLib} {W : Type} `{WA : WorkspaceAuthorizer W} `{RG : Registry W}.
Implicit Types (w : W) (a : ADB).

(** ** Each call, as a change *)

Lemma read_None a owner app op :
  readInstallOperationReceipt a owner app op = None → a_receipts a !! (ownerStorageKey owner, op) = None.
Proof. unfold readInstallOperationReceipt. by destruct (a_receipts a !! _). Qed.
Lemma claim_new owner app op now a :
  a_receipts a !! (ownerStorageKey owner, op) = None →
  claimInstallOperation owner app op now a
  = Ok (None, a <| a_receipts := <[(ownerStorageKey owner, op) :=
                     mkReceipt app status_pending None None None None None now None]> (a_receipts a) |>).
Proof.
  intros H. unfold claimInstallOperation, app_tables, gets, mbind, M_bind. simpl. by rewrite H.
Qed.
Lemma complete_new owner op f a r :
  a_receipts a !! (ownerStorageKey owner, op) = Some r → rc_status r = status_pending →
  complete_receipt owner op f a
  = Ok (tt, a <| a_receipts := <[(ownerStorageKey owner, op) := f r]> (a_receipts a) |>).
Proof.
  intros H Hs. unfold complete_receipt, app_tables, gets, mbind, M_bind. simpl. rewrite H.
  unfold mbind, M_bind. by rewrite Hs.
Qed.
Lemma insert_cases w id owner app now a r a' :
  insert_installation w id owner app now a = Ok (r, a') →
  (r = None ∧ a' = a)
  ∨ ∃ i, r = Some i ∧ scanInstallation id (fresh_row (ownerStorageKey owner) app now) = Ok i
    ∧ isCanonicalUUIDv7 id = true ∧ a_installations a !! id = None ∧ find_installation a owner app = None
    ∧ a' = a <| a_installations := <[id := fresh_row (ownerStorageKey owner) app now]> (a_installations a) |>.
Proof.
  unfold insert_installation, app_tables. intros H. inv_tx; [by left|]. reflect_bools. right. eauto 10.
Qed.

(** How an install intent ends: a receipt of an earlier call answers, or a new
    receipt is written with, or without, a new installation. *)
Lemma install_cases w now id owner app op a o a' :
  installAtOperationInTxAfterAuthorization w now id owner app op a = Ok (o, a') →
  (a' = a ∧ readInstallOperationReceipt a owner app op = Some (Ok o))
  ∨ a_receipts a !! (ownerStorageKey owner, op) = None
    ∧ ((o = AlreadyInstalled
        ∧ a' = a <| a_receipts := <[(ownerStorageKey owner, op) := refused app now]> (a_receipts a) |>)
       ∨ ∃ i, o = Installed i ∧ scanInstallation id (fresh_row (ownerStorageKey owner) app now) = Ok i
         ∧ isCanonicalUUIDv7 id = true ∧ a_installations a !! id = None ∧ find_installation a owner app = None
         ∧ a' = a <| a_receipts := <[(ownerStorageKey owner, op) := granted app id now]> (a_receipts a) |>
                  <| a_installations :=
                       <[id := fresh_row (ownerStorageKey owner) app now]> (a_installations a) |>).
Proof.
  unfold installAtOperationInTxAfterAuthorization, app_tables. intros H. apply bind_ok in H as (? & ? & [= <- <-] & H).
  destruct (readInstallOperationReceipt a owner app op) as [h|] eqn:Hread.
  { apply lift_ok in H as [-> ->]. by left. }
  right. apply read_None in Hread. split; [done|].
  apply bind_ok in H as (d & ? & [_ ->]%lift_ok & H). apply bind_ok in H as (? & ? & [_ ->]%guard_ok & H).
  apply bind_ok in H as (cl & a1 & Hcl & H). rewrite (claim_new _ _ _ _ _ Hread) in Hcl. injection Hcl as <- <-.
  apply bind_ok in H as (r & a2 & Hins & H).
  apply insert_cases in Hins as [[-> ->]|(i & -> & Hi & Hc & Hn & Hf & ->)];
    apply bind_ok in H as (? & a3 & Hcomp & [= <- <-]).
  - left. split; [done|]. unfold completeInstallOperationAlreadyInstalled in Hcomp.
    erewrite complete_new in Hcomp; [|simpl; apply lookup_insert_eq|done]. injection Hcomp as _ <-.
    simpl. by rewrite insert_insert_eq.
  - right. exists i. split_and!; try done. unfold completeInstallOperationInstalled in Hcomp.
    erewrite complete_new in Hcomp; [|simpl; apply lookup_insert_eq|done]. injection Hcomp as _ <-.
    simpl. rewrite insert_insert_eq. unfold scanInstallation in Hi. simpl in Hi.
    destruct (ownerFromStorage _ _); [|done]. by injection Hi as <-.
Qed.

(** The tables after a call: unchanged, or changed for an owner its caller
    may act for. *)
Definition moved (cfg : AppsConfig) (w : W) (actor : Ref) (a a' : ADB) : Prop :=
  a' = a ∨ ∃ owner, authorizeMutation cfg w owner actor = Ok tt ∧ change (ownerStorageKey owner) a a'.

Lemma install_moved cfg w now id owner actor app op a o a' :
  authorizeMutation cfg w owner actor = Ok tt → unused a id →
  installAtOperationInTxAfterAuthorization w now id owner app op a = Ok (o, a') → moved cfg w actor a a'.
Proof.
  intros Ha Hu [[-> _]|[Hr [[_ ->]|(i & _ & _ & Hc & Hn & Hf & ->)]]]%install_cases; [by left|right..];
    exists owner; (split; [done|]).
  - by apply change_refuse.
  - apply (change_install _ _ _ _ _ _ owner); try done.
    + intros j row Hj Ho. by eapply find_installation_None.
    + by eapply storage_roundtrip, authorize_owner.
Qed.
Lemma switch_change id row b t a i a' :
  a_installations a !! id = Some row → write_state id row b t a = Ok (i, a') → change (in_owner row) a a'.
Proof. intros Hr H. unfold write_state in H. inv_tx. reflect_bools. by eapply change_switch. Qed.
Lemma setEnabledByID_moved cfg w seen now id actor b e a i a' :
  setEnabledByID cfg w seen now id actor b e a = Ok (i, a') → moved cfg w actor a a'.
Proof.
  unfold setEnabledByID, app_tables. intros H. apply bind_ok in H as ([owner app] & ? & [_ ->]%lift_ok & H).
  apply bind_ok in H as (? & ? & [_ ->]%lift_ok & H). apply bind_ok in H as ([] & ? & [Ha ->]%lift_ok & H).
  inv_tx. right. exists owner. split; [done|].
  match goal with H : at_address _ _ _ = true |- _ => apply at_address_spec in H as [<- _] end.
  by eapply switch_change.
Qed.
Lemma SetEnabled_moved cfg w now owner actor app b a i a' :
  SetEnabled cfg w now owner actor app b a = Ok (i, a') → moved cfg w actor a a'.
Proof.
  unfold SetEnabled, app_tables. intros H. apply bind_ok in H as (? & ? & [_ ->]%lift_ok & H).
  apply bind_ok in H as ([] & ? & [Ha ->]%lift_ok & H). inv_tx. right. exists owner. split; [done|].
  match goal with H : find_installation _ _ _ = _ |- _ => apply find_installation_Some in H as (? & <- & _) end.
  by eapply switch_change.
Qed.
Lemma Uninstall_moved cfg w owner actor app a u a' :
  Uninstall cfg w owner actor app a = Ok (u, a') → moved cfg w actor a a'.
Proof.
  unfold Uninstall, app_tables, remove_installation. intros H. apply bind_ok in H as (? & ? & [_ ->]%lift_ok & H).
  apply bind_ok in H as ([] & ? & [Ha ->]%lift_ok & H). inv_tx. right. exists owner. split; [done|].
  match goal with H : find_installation _ _ _ = _ |- _ => apply find_installation_Some in H as (? & ? & _) end.
  by eapply change_remove.
Qed.
Lemma UninstallByID_moved cfg w seen id actor a u a' :
  UninstallByID cfg w seen id actor a = Ok (u, a') → moved cfg w actor a a'.
Proof.
  unfold UninstallByID, app_tables, remove_installation. intros H.
  apply bind_ok in H as ([owner app] & ? & [_ ->]%lift_ok & H).
  apply bind_ok in H as (? & ? & [_ ->]%lift_ok & H). apply bind_ok in H as ([] & ? & [Ha ->]%lift_ok & H).
  inv_tx. right. exists owner. split; [done|].
  match goal with H : at_address _ _ _ = true |- _ => apply at_address_spec in H as [? _] end.
  by eapply change_remove.
Qed.
Lemma installInTx_moved cfg w now id owner actor app op a i a' :
  unused a id → installAtOperationInTx cfg w now id owner actor app op a = Ok (i, a') → moved cfg w actor a a'.
Proof.
  unfold installAtOperationInTx. intros Hu H. apply bind_ok in H as ([] & ? & [Ha ->]%lift_ok & H).
  apply bind_ok in H as (o & ? & Ho & [_ ->]%lift_ok). by eapply install_moved.
Qed.

Lemma forget_commit {A} (P : ADB → Prop) (m : atx A) a :
  P a → (∀ x a', m a = Ok (x, a') → P a') → P (forget (commit m) a).1.
Proof. unfold forget, commit. destruct (m a) as [[x a']|e]; simpl; eauto. Qed.
Lemma moved_refl cfg w actor a : moved cfg w actor a a.
Proof. by left. Qed.
#[local] Hint Resolve moved_refl SetEnabled_moved setEnabledByID_moved Uninstall_moved UninstallByID_moved : apps.
(** Every call is a change, or none. *)
Lemma arun_moved w c a :
  (∀ id, draws c = Some id → unused a id) → moved (acfg c) w (acaller c) a (arun w c a).1.
Proof.
  intros Hfresh. destruct c; simpl in *; try unfold SetEnabledByID; try (apply forget_commit; [apply moved_refl|]; by eauto with apps).
  - unfold forget, InstallAtOperation, then_call, ret_call.
    destruct (ValidateInstallOperationID operationID) as [u|]; [|apply moved_refl]. unfold install.
    match goal with |- context [match ?m with Ok _ => _ | Err _ => _ end] => destruct m as [[o a']|] eqn:H end;
      [simpl|apply moved_refl].
    apply bind_ok in H as (? & ? & [_ ->]%lift_ok & H). apply bind_ok in H as ([] & ? & [Ha ->]%lift_ok & H).
    eapply install_moved; eauto.
  - apply forget_commit; [apply moved_refl|]. intros i a' H. unfold InstallAtOperationInTx in H.
    apply bind_ok in H as (? & ? & [_ ->]%lift_ok & H). apply bind_ok in H as (? & ? & [_ ->]%lift_ok & H).
    eapply installInTx_moved; eauto.
  - apply forget_commit; [apply moved_refl|]. intros i a' H. unfold InstallDirectChatForNewHumanInTx, app_tables in H.
    apply bind_ok in H as (? & ? & [_ ->]%lift_ok & H). apply bind_ok in H as (? & ? & [= <- <-] & H).
    apply bind_ok in H as (? & ? & [_ ->]%lift_ok & H). eapply installInTx_moved; eauto.
  - apply forget_commit; [apply moved_refl|]. intros i a' H. unfold SetEnabledByIDAtEpoch in H.
    apply bind_ok in H as (? & ? & [_ ->]%guard_ok & H). by eauto with apps.
Qed.

(** ** Histories *)

(** From [a] to a later [a']: receipts stay; an installation present at the
    end was there before, at the same address, with no later epoch, and
    disabled within an epoch it stays so; or its identity was unused. *)
Record ahist (a a' : ADB) : Prop := {
  ah_receipts : a_receipts a ⊆ a_receipts a';
  ah_row id row' : a_installations a' !! id = Some row' →
    unused a id ∨ ∃ row, a_installations a !! id = Some row
      ∧ in_owner row' = in_owner row ∧ in_app row' = in_app row ∧ in_installed row' = in_installed row
      ∧ in_epoch row ≤ in_epoch row'
      ∧ (in_epoch row' = in_epoch row → in_enabled row = true → in_enabled row' = true) }.
Lemma unused_sub a a' id : a_receipts a ⊆ a_receipts a' → unused a' id → unused a id.
Proof. intros Hs Hu key r Hr. eapply Hu, lookup_weaken; eauto. Qed.
#[global] Instance ahist_preorder : PreOrder ahist.
Proof.
  split.
  - intros a. constructor; [done|]. intros id row Hr. right. exists row. split_and!; auto with lia.
  - intros a b c [R1 H1] [R2 H2]. constructor; [by etrans|]. intros id row Hr.
    destruct (H2 id row Hr) as [Hu|(r2 & Hb & ? & ? & ? & ? & He2)]; [left; by eapply unused_sub|].
    destruct (H1 id r2 Hb) as [Hu|(r1 & Ha & ? & ? & ? & ? & He1)]; [by left|right].
    exists r1. split_and!; [done|congruence..|lia|]. intros E Hen. apply He2; [lia|]. apply He1; [lia|done].
Qed.
Lemma same_rows a a' :
  a_receipts a ⊆ a_receipts a' → a_installations a' ⊆ a_installations a → ahist a a'.
Proof.
  intros Hr Hi. constructor; [done|]. intros id row Hrow. right. exists row.
  split_and!; auto with lia. by eapply lookup_weaken.
Qed.
Lemma row_hist a id row row' :
  a_installations a !! id = Some row → in_owner row' = in_owner row → in_app row' = in_app row →
  in_installed row' = in_installed row → in_epoch row ≤ in_epoch row' →
  (in_epoch row' = in_epoch row → in_enabled row = true → in_enabled row' = true) →
  ahist a (a <| a_installations := <[id:=row']> (a_installations a) |>).
Proof.
  intros Hr ? ? ? ? ?. constructor; [done|]. simpl. intros j x [[<- <-]|[? Hj]]%lookup_insert_Some; right.
  - exists row. by split_and!.
  - exists x. split_and!; auto with lia.
Qed.
Lemma change_hist key a a' : change key a a' → ahist a a'.
Proof.
  destruct 1 as [op app now Hr|op app id now owner Hr Hc Hn _ _ Hu|id row b t Hrow Ho Hb|id row Hrow Ho].
  - apply same_rows; simpl; [by apply insert_subseteq|done].
  - constructor; simpl; [by apply insert_subseteq|]. intros j x [[<- <-]|[? Hj]]%lookup_insert_Some; [by left|right].
    exists x. split_and!; auto with lia.
  - eapply row_hist; [exact Hrow|done..| |]; simpl; unfold next_epoch; destruct (in_enabled row), b; simpl; lia || done.
  - apply same_rows; simpl; [done|apply delete_subseteq].
Qed.
Lemma moved_hist cfg w actor a a' : moved cfg w actor a a' → ahist a a'.
Proof. intros [->|(owner & _ & H)]; [reflexivity|by eapply change_hist]. Qed.
Lemma astep_hist s s' : astep s s' → ahist s.2 s'.2.
Proof.
  destruct 1; simpl; [by eapply moved_hist, arun_moved|reflexivity|by apply same_rows].
Qed.
Lemma arun_hist s s' : rtc astep s s' → ahist s.2 s'.2.
Proof. induction 1; [reflexivity|]. etrans; [by apply astep_hist|done]. Qed.

(** ** Well-formed tables *)

Record apps_ok (a : ADB) : Prop := {
  ao_receipt key r : a_receipts a !! key = Some r →
    (∃ app now, r = refused app now) ∨ ∃ app id now, isCanonicalUUIDv7 id = true ∧ r = granted app id now;
  ao_granted k1 k2 app1 app2 id t1 t2 :
    a_receipts a !! k1 = Some (granted app1 id t1) → a_receipts a !! k2 = Some (granted app2 id t2) → k1 = k2;
  ao_row id row : a_installations a !! id = Some row →
    isCanonicalUUIDv7 id = true ∧ 1 ≤ in_epoch row ≤ MaxInt64
    ∧ (∃ owner, ownerFromStorage (in_owner row).1 (in_owner row).2 = Ok owner)
    ∧ ∃ op, a_receipts a !! (in_owner row, op) = Some (granted (in_app row) id (in_installed row));
  ao_unique i j x y : a_installations a !! i = Some x → a_installations a !! j = Some y →
    in_owner x = in_owner y → in_app x = in_app y → i = j }.

Lemma granted_used a key app id t : a_receipts a !! key = Some (granted app id t) → unused a id → False.
Proof. intros Hr Hu. by apply (Hu _ _ Hr). Qed.
Lemma granted_inj app id now app' id' now' : granted app id now = granted app' id' now' → id = id'.
Proof. by intros [= ? ?]. Qed.
Lemma refuse_ok a key app now :
  apps_ok a → a_receipts a !! key = None → apps_ok (a <| a_receipts := <[key := refused app now]> (a_receipts a) |>).
Proof.
  intros [Hrc Hg Hrow Hu] Hk. constructor; simpl; try assumption.
  - intros k r [[<- <-]|[_ ?]]%lookup_insert_Some; [left; eauto|by eapply Hrc].
  - intros k1 k2 a1 a2 i t1 t2 [[_ ?]|[_ ?]]%lookup_insert_Some [[_ ?]|[_ ?]]%lookup_insert_Some; try discriminate.
    by eapply Hg.
  - intros i row Hi. destruct (Hrow i row Hi) as (? & ? & ? & op & Hop). split_and!; [done|lia|lia|done|].
    exists op. rewrite lookup_insert_ne; [done|congruence].
Qed.
Lemma grant_ok a key op app id now owner :
  apps_ok a → a_receipts a !! (key, op) = None → isCanonicalUUIDv7 id = true →
  (∀ j row, a_installations a !! j = Some row → in_owner row = key → in_app row ≠ app) →
  ownerFromStorage key.1 key.2 = Ok owner → unused a id →
  apps_ok (a <| a_receipts := <[(key, op) := granted app id now]> (a_receipts a) |>
             <| a_installations := <[id := fresh_row key app now]> (a_installations a) |>).
Proof.
  intros [Hrc Hg Hrow Hu] Hk Hc Hnone Ho Hfree. constructor; simpl.
  - intros k r [[<- <-]|[_ ?]]%lookup_insert_Some; [right; eauto|by eapply Hrc].
  - intros k1 k2 a1 a2 i t1 t2 [[<- E1]|[_ H1]]%lookup_insert_Some [[<- E2]|[_ H2]]%lookup_insert_Some; try done.
    + apply granted_inj in E1 as <-. by destruct (granted_used _ _ _ _ _ H2).
    + apply granted_inj in E2 as <-. by destruct (granted_used _ _ _ _ _ H1).
    + by eapply Hg.
  - intros i row [[<- <-]|[_ Hi]]%lookup_insert_Some; simpl.
    + unfold MaxInt64. split_and!; [done|lia|lia|eauto|]. exists op. apply lookup_insert_eq.
    + destruct (Hrow i row Hi) as (? & ? & ? & op' & Hop). split_and!; [done|lia|lia|done|].
      exists op'. rewrite lookup_insert_ne; [done|congruence].
  - intros i j x y [[<- <-]|[_ Hi]]%lookup_insert_Some [[<- <-]|[_ Hj]]%lookup_insert_Some; simpl; try done.
    + intros E1 E2. by destruct (Hnone j y Hj).
    + intros E1 E2. by destruct (Hnone i x Hi).
    + by apply (Hu i j).
Qed.
Lemma switch_ok a id row b t :
  apps_ok a → a_installations a !! id = Some row → next_epoch row b ≤ MaxInt64 →
  apps_ok (a <| a_installations := <[id := switched row b t]> (a_installations a) |>).
Proof.
  intros [Hrc Hg Hrow Hu] Hr Hb. constructor; simpl; try assumption.
  - intros i x [[<- <-]|[_ Hi]]%lookup_insert_Some; [|by apply Hrow]. simpl.
    destruct (Hrow id row Hr) as (? & ? & ? & ?). split_and!; try done. unfold next_epoch.
    destruct (in_enabled row && negb b); lia.
  - intros i j x y [[<- <-]|[_ Hi]]%lookup_insert_Some [[<- <-]|[_ Hj]]%lookup_insert_Some; simpl; eauto.
Qed.
Lemma remove_ok a id : apps_ok a → apps_ok (a <| a_installations := delete id (a_installations a) |>).
Proof.
  intros [Hrc Hg Hrow Hu]. constructor; simpl; try assumption.
  - intros i x [_ Hi]%lookup_delete_Some. by apply Hrow.
  - intros i j x y [_ Hi]%lookup_delete_Some [_ Hj]%lookup_delete_Some. by apply (Hu i j).
Qed.
Lemma change_ok key a a' : apps_ok a → change key a a' → apps_ok a'.
Proof.
  intros Hok [op app now Hr|op app id now owner Hr Hc Hn Hno Ho Hu|id row b t Hrow Ho Hb|id row Hrow Ho].
  - by apply refuse_ok.
  - by eapply grant_ok.
  - by apply switch_ok.
  - by apply remove_ok.
Qed.
Lemma astep_ok s s' : astep s s' → apps_ok s.2 → apps_ok s'.2.
Proof.
  destruct 1 as [w a c Hf| |]; simpl; intros Hok; [|done|].
  - destruct (arun_moved w c a Hf) as [->|(owner & _ & H)]; [done|by eapply change_ok].
  - by destruct Hok.
Qed.
Lemma asteps_ok s s' : rtc astep s s' → apps_ok s.2 → apps_ok s'.2.
Proof. induction 1; [done|]. eauto using astep_ok. Qed.
Lemma aempty_ok : apps_ok aempty.
Proof. constructor; simpl; intros *; rewrite ?lookup_empty; discriminate. Qed.
Lemma areach_ok s : areach s → apps_ok s.2.
Proof. intros [w H%asteps_ok]; [done|apply aempty_ok]. Qed.

(** ** Admission and replay *)

Lemma admission_spec a id e owner app i :
  RequireEnabledInstallationEpochInTx a id e owner app = Ok i ↔
  1 ≤ e ∧ isCanonicalUUIDv7 id = true ∧ ValidateOwner owner = Ok tt ∧ contains_nul app = false
  ∧ ∃ row, a_installations a !! id = Some row ∧ in_owner row = ownerStorageKey owner ∧ in_app row = app
      ∧ in_epoch row = e ∧ in_enabled row = true
      ∧ i = mkInstallation id owner app StateEnabled e (in_installed row) (in_updated row).
Proof.
  unfold RequireEnabledInstallationEpochInTx, requireEnabledInstallationInTx, app_text.
  destruct (Z.ltb_spec e 1); [split; [done|intros []; lia]|].
  destruct (isCanonicalUUIDv7 id); [|naive_solver]. simpl.
  destruct (ValidateOwner owner) as [[]|] eqn:Hv; [|naive_solver]. simpl.
  destruct (contains_nul app); [naive_solver|]. simpl.
  destruct (a_installations a !! id) as [row|]; [|naive_solver].
  destruct (at_address owner app row) eqn:Hat; simpl.
  2: { split; [done|]. intros (_ & _ & _ & _ & r & [= <-] & Ho & Ha & _).
       assert (at_address owner app row = true) by by apply at_address_spec. congruence. }
  apply at_address_spec in Hat as [Ho <-]. destruct (Z.eqb_spec (in_epoch row) e) as [<-|]; [|naive_solver].
  unfold scanInstallation. rewrite Ho, (storage_roundtrip _ Hv). simpl.
  destruct (in_enabled row) eqn:Hen; simpl.
  2: { split; [done|]. intros (_ & _ & _ & _ & r & [= <-] & _ & _ & _ & ? & _). congruence. }
  split; [intros [= <-]|naive_solver]. split_and!; [lia|done..|]. exists row. by split_and!.
Qed.

Lemma read_stable a a' owner app op r :
  a_receipts a ⊆ a_receipts a' → readInstallOperationReceipt a owner app op = Some r →
  readInstallOperationReceipt a' owner app op = Some r.
Proof.
  intros Hs. unfold readInstallOperationReceipt. destruct (a_receipts a !! _) as [x|] eqn:Hx; [|done].
  by rewrite (lookup_weaken _ _ _ _ Hx Hs).
Qed.
Lemma read_other a owner app app' op r :
  readInstallOperationReceipt a owner app op = Some (Ok r) → app' ≠ app →
  readInstallOperationReceipt a owner app' op = Some (Err ErrInstallIntentMismatch).
Proof.
  unfold readInstallOperationReceipt. destruct (a_receipts a !! _) as [x|]; [|done].
  case_bool_decide as E; [|done]. intros _ Hn. by rewrite bool_decide_eq_false_2 by congruence.
Qed.
(** An intent that ended left the receipt that says how. *)
Lemma install_read w now id owner app op a o a' :
  ValidateOwner owner = Ok tt →
  installAtOperationInTxAfterAuthorization w now id owner app op a = Ok (o, a') →
  readInstallOperationReceipt a' owner app op = Some (Ok o).
Proof.
  intros Hv [[-> H]|[_ [[-> ->]|(i & -> & Hi & Hc & _ & _ & ->)]]]%install_cases; [done|..];
    unfold readInstallOperationReceipt; simpl; rewrite lookup_insert_eq; simpl; rewrite bool_decide_eq_true_2 by done;
    simpl; [done|].
  unfold scanInstallation in Hi. simpl in Hi. rewrite (storage_roundtrip _ Hv) in Hi. simpl in Hi. injection Hi as <-.
  rewrite Hc, Z.eqb_refl. done.
Qed.
Lemma install_known w now id owner app op a r :
  readInstallOperationReceipt a owner app op = Some r →
  installAtOperationInTxAfterAuthorization w now id owner app op a = (o ← r; Ok (o, a)).
Proof.
  intros H. unfold installAtOperationInTxAfterAuthorization, app_tables, gets, mbind, M_bind, res_bind. simpl.
  rewrite H. unfold lift. by destruct r.
Qed.

(** ** Errors *)

Lemma fails_bind {A B} (m : atx A) (k : A → atx B) a e :
  (m ≫= k) a = Err e → m a = Err e ∨ ∃ x a1, m a = Ok (x, a1) ∧ k x a1 = Err e.
Proof. unfold mbind, M_bind. destruct (m a) as [[x a1]|]; naive_solver. Qed.
Lemma fails_guard b e0 a e : guard_or (E:=aerr) (S:=ADB) b e0 a = Err e → e = e0.
Proof. unfold guard_or. destruct b; [done|]. by intros [= <-]. Qed.
Lemma fails_lift {A} (r : res aerr A) (a : ADB) e : lift r a = Err e → r = Err e.
Proof. unfold lift. destruct r; [done|]. by intros [= ->]. Qed.

Definition is_database_error (e : aerr) : Prop := ∃ t, e = AppDatabaseError t.
Lemma insert_err w id owner app now a e :
  ValidateOwner owner = Ok tt → insert_installation w id owner app now a = Err e → is_database_error e.
Proof.
  intros Hv H. unfold insert_installation, app_tables in H. unfold is_database_error.
  apply fails_bind in H as [H|(x & a1 & [= <- <-] & H)]; [discriminate H|].
  apply fails_bind in H as [H|(? & ? & [_ ->]%guard_ok & H)]; [apply fails_guard in H; eauto|].
  apply fails_bind in H as [H|(? & ? & [_ ->]%guard_ok & H)]; [apply fails_guard in H; eauto|].
  destruct (find_installation a owner app); [discriminate H|].
  apply fails_bind in H as [H|(? & ? & [_ ->]%guard_ok & H)]; [apply fails_guard in H; eauto|].
  apply fails_bind in H as [H|(? & ? & [_ ->]%guard_ok & H)]; [apply fails_guard in H; eauto|].
  apply fails_bind in H as [H|(? & ? & _ & H)]; [discriminate H|].
  apply fails_bind in H as [H%fails_lift|(? & ? & _ & H)]; [|discriminate H].
  unfold scanInstallation in H. simpl in H. by rewrite (storage_roundtrip _ Hv) in H.
Qed.
(** Why an install intent of a valid owner can fail. *)
Lemma install_err w now id owner app op a e :
  ValidateOwner owner = Ok tt →
  installAtOperationInTxAfterAuthorization w now id owner app op a = Err e →
  readInstallOperationReceipt a owner app op = Some (Err e)
  ∨ e = ErrAppNotFound ∨ e = ErrOwnerKindUnsupported ∨ is_database_error e.
Proof.
  intros Hv H. unfold installAtOperationInTxAfterAuthorization, app_tables in H.
  apply fails_bind in H as [H|(? & ? & [= <- <-] & H)]; [discriminate H|].
  destruct (readInstallOperationReceipt a owner app op) as [h|] eqn:Hread.
  { apply fails_lift in H as ->. by left. }
  right. apply read_None in Hread. apply fails_bind in H as [H%fails_lift|(d & ? & [_ ->]%lift_ok & H)].
  { unfold descriptorByID, app_text, is_database_error in *. destruct (contains_nul app); simpl in H; [naive_solver|].
    case_match; naive_solver. }
  apply fails_bind in H as [H%fails_guard|(? & ? & [_ ->]%guard_ok & H)]; [by auto|].
  apply fails_bind in H as [H|(cl & a1 & Hcl & H)]; [by rewrite (claim_new _ _ _ _ _ Hread) in H|].
  rewrite (claim_new _ _ _ _ _ Hread) in Hcl. injection Hcl as <- <-.
  apply fails_bind in H as [H|(r & a2 & Hins & H)]; [right; right; by eapply insert_err|].
  exfalso. apply insert_cases in Hins as [[-> ->]|(i & -> & _ & _ & _ & _ & ->)];
    (apply fails_bind in H as [H|(? & ? & _ & H)]; [|discriminate H]);
    unfold completeInstallOperationAlreadyInstalled, completeInstallOperationInstalled in H;
    (erewrite complete_new in H; [discriminate H|simpl; apply lookup_insert_eq|done]).
Qed.
Lemma authorize_err cfg w owner actor e :
  authorizeMutation cfg w owner actor = Err e →
  e = ErrForbidden ∨ (∃ t, e = InvalidOwner t) ∨ ∃ e', e = Foreign e'.
Proof.
  intros H. unfold authorizeMutation, ValidateOwner, foreign, mbind, res_bind in H.
  repeat case_match; naive_solver.
Qed.
Lemma acquire_err cfg app e : acquireLifecycleMutation cfg app = Err e → e = ErrLifecycleFenceUnavailable.
Proof. unfold acquireLifecycleMutation. repeat case_match; naive_solver. Qed.
Lemma read_err a owner app op e :
  readInstallOperationReceipt a owner app op = Some (Err e) →
  e = ErrInstallIntentMismatch ∨ e = ErrInstallIntentIncomplete.
Proof. unfold readInstallOperationReceipt. repeat case_match; naive_solver. Qed.
Lemma read_complete a owner app op e :
  apps_ok a → readInstallOperationReceipt a owner app op = Some (Err e) → e = ErrInstallIntentMismatch.
Proof.
  intros Hok. unfold readInstallOperationReceipt. destruct (a_receipts a !! _) as [r|] eqn:Hr; [|done].
  case_bool_decide; [|naive_solver]. destruct (ao_receipt _ Hok _ _ Hr) as [(x & t & ->)|(x & i & t & Hi & ->)]; simpl;
    [done|]. by rewrite Hi, Z.eqb_refl.
Qed.
(** An install call either answers its intent, or leaves the tables alone for
    a reason that is not the state of the intent. *)
Lemma InstallAtOperation_inv cfg w now id owner actor app op a a' r :
  InstallAtOperation cfg w now id owner actor app op a = (a', r) →
  (∃ o, r = outcome_result o ∧ ValidateInstallOperationID op = Ok tt ∧ ValidateOwner owner = Ok tt
     ∧ installAtOperationInTxAfterAuthorization w now id owner app op a = Ok (o, a'))
  ∨ a' = a ∧ ∃ e, r = Err e
     ∧ (readInstallOperationReceipt a owner app op = Some (Err e)
        ∨ e ≠ ErrInstallIntentAlreadyInstalled ∧ e ≠ ErrInstallIntentIncomplete).
Proof.
  unfold InstallAtOperation, then_call, ret_call, install.
  destruct (ValidateInstallOperationID op) as [[]|e0] eqn:Hop; simpl.
  2: { intros [= <- <-]. right. split; [done|]. exists e0. split; [done|]. right.
       unfold ValidateInstallOperationID, operation_of_version in Hop. repeat case_match; naive_solver. }
  match goal with |- context [match ?m with Ok _ => _ | Err _ => _ end] => destruct m as [[o x]|e1] eqn:Hm end; simpl;
    intros [= <- <-].
  - left. apply bind_ok in Hm as (? & ? & [_ ->]%lift_ok & Hm). apply bind_ok in Hm as ([] & ? & [Ha ->]%lift_ok & Hm).
    exists o. eauto using authorize_owner.
  - right. split; [done|]. exists e1. split; [done|].
    apply fails_bind in Hm as [H%fails_lift%acquire_err|(? & ? & [_ ->]%lift_ok & Hm)]; [right; by rewrite H|].
    apply fails_bind in Hm as [H%fails_lift%authorize_err|([] & ? & [Ha ->]%lift_ok & Hm)]; [naive_solver|].
    apply install_err in Hm as [Hm|Hm]; [by auto| |by eapply authorize_owner].
    right. unfold is_database_error in Hm. naive_solver.
Qed.
End facts.
