(* ===== verification/AppsAuthority.v ===== *)
(** * Apps and the authority of their owners

    The workspace service behind the interface the app service declares, and
    whom the app service lets change what. *)

From Stdlib Require Import Ascii ZArith Lia.
From S2P Require Import Prelude Json State WorkspaceState Workspaces WorkspaceFacts WorkspaceSystem.
From S2P Require Import WorkspaceAuthority Apps AppsSystem AppsFacts.
Local Open Scope string_scope.
Local Open Scope list_scope.
Local Open Scope Z_scope.

(** ** The interface *)

(** What an app service may conclude from an answer of its authorizer:
    [holds] is what the authorizer takes authority to be. *)
Class AuthorizerLaws (W : Type) `{WA : WorkspaceAuthorizer W} := {
  holds : W → string → Ref → string → Prop;
  permission_held w ws actor p : LockAndRequirePermission w ws actor p = Ok tt → holds w ws actor p
}.

(** The workspace service behind it. *)
Section workspace.
Context `{GL : GoLib} `{WL : WsLib}.
#[global] Instance ws_authorizer : WorkspaceAuthorizer WDB := {|
  LockAndRequirePermission db ws actor p := _ ← lockAndRequirePermission db ws actor p; Ok tt;
  RequireMembershipInTx db ws actor := _ ← activeMembership db ws actor; Ok tt
|}.
#[global] Instance ws_registry : Registry WDB := {|
  participant_row := registered;
  workspace_row db ws := bool_decide (is_Some (w_workspaces db !! ws))
|}.
Lemma known_permission p : isKnownPermission p = true → p ∈ knownPermissions.
Proof. apply bool_decide_eq_true_1. Qed.
#[global] Program Instance ws_laws : AuthorizerLaws WDB := {|
  holds db ws actor p := p ∈ capabilities db ws actor
|}.
Next Obligation.
  simpl. intros db ws actor p. unfold lockAndRequirePermission, requireEffectiveCapabilityAfterWorkspaceLock.
  destruct (isKnownPermission p) eqn:Hk; [|done]. simpl. destruct (lockWorkspace db ws); [|done]. simpl.
  destruct (activeMembership db ws actor) as [ms|] eqn:Ha; [|done]. simpl.
  destruct (Owner ms) eqn:Ho; intros H.
  - eapply owner_caps; eauto using known_permission.
  - apply (caps_of_membership _ _ _ _ _ Ha). by case_bool_decide.
Qed.
End workspace.

Section authority.
Context `{WL : WsLib} `{NL : NameLib} {W : Type} `{WA : WorkspaceAuthorizer W} `{RG : Registry W}.
Context `{!AuthorizerLaws W}.

(** Whom [authorizeMutation] lets through. *)
Lemma authorized cfg w owner actor :
  authorizeMutation cfg w owner actor = Ok tt →
  (∃ ws, owner = WorkspaceOwner ws ∧ holds w ws actor PermissionManageApps)
  ∨ owner = ParticipantOwner actor ∧ participant_row w actor = true.
Proof.
  destruct owner as [k ws ref]. unfold authorizeMutation, ValidateOwner, owner_Participant, LockOwnIdentity. simpl.
  case_bool_decide as Hk; simpl.
  - case_bool_decide as Hz; [|done]. destruct (isCanonicalUUIDv7 ws); [|done]. simpl.
    destruct (Validate actor); [|done]. simpl. destruct (cfg_workspaces cfg); [|done]. simpl.
    destruct (LockAndRequirePermission w ws actor _) as [[]|] eqn:Hl; [|done]. intros _. left. exists ws.
    split; [by subst|by apply permission_held].
  - destruct (bool_decide (k = OwnerParticipant)) eqn:Hp; [|done].
    destruct (bool_decide (ws = "")) eqn:He; [|done]. simpl. reflect_bools. destruct (foreign (Validate ref)); [|done]. simpl. destruct (foreign (Validate actor)); [|done]. simpl.
    case_bool_decide as Ha; [|done]. subst k ws ref. intros H. right. split; [done|].
    destruct (Validate actor); [|done]. simpl in H. by destruct (participant_row w actor).
Qed.
(** A change concerns the rows of its owner only. *)
Lemma change_rows key a a' id :
  change key a a' → a_installations a !! id ≠ a_installations a' !! id →
  ∃ row, (a_installations a !! id = Some row ∨ a_installations a' !! id = Some row) ∧ in_owner row = key.
Proof.
  destruct 1 as [op app now Hr|op app j now owner Hr Hc Hn _ _ Hu|j row b t Hrow Ho Hb|j row Hrow Ho];
    simpl; intros Hne; [done|..]; (destruct (decide (id = j)) as [->|]; [|by rewrite ?lookup_insert_ne, ?lookup_delete_ne in Hne]).
  - rewrite lookup_insert_eq. eexists. split; [by right|done].
  - eauto.
  - eauto.
Qed.
Lemma call_authority w c a id :
  (∀ i, draws c = Some i → unused a i) → a_installations a !! id ≠ a_installations (arun w c a).1 !! id →
  ∃ row owner, (a_installations a !! id = Some row ∨ a_installations (arun w c a).1 !! id = Some row)
    ∧ in_owner row = ownerStorageKey owner
    ∧ ((∃ ws, owner = WorkspaceOwner ws ∧ holds w ws (acaller c) PermissionManageApps)
       ∨ owner = ParticipantOwner (acaller c) ∧ participant_row w (acaller c) = true).
Proof.
  intros Hf Hne. destruct (arun_moved w c a Hf) as [E|(owner & Ha & Hc)]; [by rewrite E in Hne|].
  destruct (change_rows _ _ _ _ Hc Hne) as (row & Hrow & Ho). exists row, owner. eauto using authorized.
Qed.
End authority.
