(* ===== verification/AppsSamples.v ===== *)
(** * A concrete installation

    Parameters under which a text that begins with [op] is an operation and
    any other an identity, a workspace, and its messaging app: installed,
    closed and opened again, or removed. *)

From Stdlib Require Import Ascii ZArith Lia.
From S2P Require Import Prelude Json State Samples WorkspaceState WorkspaceSystem.
From S2P Require Import Apps AppsSystem AppsFacts AppsAuthority.
Local Open Scope string_scope.
Local Open Scope list_scope.
Local Open Scope Z_scope.

#[export] Instance shop_ids : WsLib := {|
  uuid_Parse := λ s, Some (mkUUID s (if HasPrefix s "op" then 4 else 7) true);
  text_le := λ a b, match String.compare a b with Gt => false | _ => true end
|}.
#[export] Instance shop_names : NameLib := {| uuid_NewSHA1 := λ s, "op:" +:+ s |}.

Definition dora : Ref := Human "dora".
Definition atelier : OwnerRef := WorkspaceOwner "w".
Definition shop_cfg : AppsConfig := mkAppsConfig true true.
Definition host : WDB := Eval vm_compute in
  (commit (wrun (CallCreate 10 "w" "m1" "Atelier" dora))
     (wempty <| w_humans := {["dora" := "Dora"]} |>)).1.

Definition shop_catalog : gmap string CatalogRow := {["messaging" := mkCatalogRow "Messaging" true false]}.
Definition shop_empty : ADB := aempty <| a_catalog := shop_catalog |> <| a_capabilities := ∅ |>.
Definition open_shop : acall := CallInstall shop_cfg 100 "i1" atelier dora "messaging" "op1".
Definition close_shop : acall := CallSetEnabled shop_cfg 110 atelier dora "messaging" false.
Definition reopen_shop : acall := CallSetEnabled shop_cfg 120 atelier dora "messaging" true.
Definition remove_shop : acall := CallUninstall shop_cfg atelier dora "messaging".
Definition shop : ADB := Eval vm_compute in (arun host open_shop shop_empty).1.
Definition shop_closed : ADB := Eval vm_compute in (arun host close_shop shop).1.
Definition shop_again : ADB := Eval vm_compute in (arun host reopen_shop shop_closed).1.
Definition shop_gone : ADB := Eval vm_compute in (arun host remove_shop shop).1.

Lemma shop_run : (arun host open_shop shop_empty).1 = shop.
Proof. vm_eq. Qed.
Lemma shop_closed_run : (arun host close_shop shop).1 = shop_closed.
Proof. vm_eq. Qed.
Lemma shop_again_run : (arun host reopen_shop shop_closed).1 = shop_again.
Proof. vm_eq. Qed.
Lemma shop_gone_run : (arun host remove_shop shop).1 = shop_gone.
Proof. vm_eq. Qed.
Lemma shop_install :
  InstallAtOperation shop_cfg host 100 "i1" atelier dora "messaging" "op1" shop_empty
  = (shop, Ok (mkInstallation "i1" atelier "messaging" StateEnabled 1 100 100)).
Proof. vm_eq. Qed.
Lemma shop_admits :
  RequireEnabledInstallationEpochInTx shop "i1" 1 atelier "messaging"
  = Ok (mkInstallation "i1" atelier "messaging" StateEnabled 1 100 100).
Proof. vm_eq. Qed.
Lemma shop_closed_refuses :
  RequireEnabledInstallationEpochInTx shop_closed "i1" 1 atelier "messaging" = Err ErrInstallationNotFound.
Proof. vm_eq. Qed.
Lemma dora_may : authorizeMutation shop_cfg host atelier dora = Ok tt.
Proof. vm_eq. Qed.

Lemma shop_empty_unused id : unused shop_empty id.
Proof. intros key r H. discriminate H. Qed.
Lemma shop_reach : areach (host, shop).
Proof.
  exists host. eapply rtc_l; [apply (step_catalog host aempty shop_catalog ∅)|]. apply rtc_once.
  rewrite <- shop_run. apply (step_app host shop_empty open_shop). intros id _. apply shop_empty_unused.
Qed.
Lemma shop_closed_step : astep (host, shop) (host, shop_closed).
Proof. rewrite <- shop_closed_run. by apply (step_app host shop close_shop). Qed.
Lemma shop_again_step : astep (host, shop_closed) (host, shop_again).
Proof. rewrite <- shop_again_run. by apply (step_app host shop_closed reopen_shop). Qed.
Lemma shop_gone_step : astep (host, shop) (host, shop_gone).
Proof. rewrite <- shop_gone_run. by apply (step_app host shop remove_shop). Qed.
