(* ===== verification/AppsTheorems.v ===== *)
(** * Theorems about apps

    What the app service promises the owners of installations and the apps
    that act under them. *)

From Stdlib Require Import Ascii ZArith Lia.
From S2P Require Import Prelude Json State Samples WorkspaceState WorkspaceAuthority.
From S2P Require Import Apps AppsSystem AppsFacts AppsAuthority AppsSamples.
Local Open Scope string_scope.
Local Open Scope list_scope.
Local Open Scope Z_scope.

Section theorems.
Context `{WL : WsLib} `{NL : NameLib} {W : Type} `{WA : WorkspaceAuthorizer W} `{RG : Registry W}.

(** C27: a withdrawn authority never comes back.  An installation and epoch
    that were admitted once and are refused later, because the app was
    disabled, uninstalled or replaced, are refused ever after, whatever calls
    are made in between. *)
Theorem stale_authority_never_revives w0 a0 w1 a1 w2 a2 id epoch owner app i0 e1 :
  areach (w0, a0) → rtc astep (w0, a0) (w1, a1) → rtc astep (w1, a1) (w2, a2) →
  RequireEnabledInstallationEpochInTx a0 id epoch owner app = Ok i0 →
  RequireEnabledInstallationEpochInTx a1 id epoch owner app = Err e1 →
  ∃ e2, RequireEnabledInstallationEpochInTx a2 id epoch owner app = Err e2.
Proof.
  intros Hr%areach_ok H1%arun_hist H2%arun_hist Hi0 He1. simpl in *.
  destruct (RequireEnabledInstallationEpochInTx a2 id epoch owner app) as [i2|] eqn:Hi2; [exfalso|eauto].
  apply admission_spec in Hi0 as (He & Hc & Hv & Hn & r0 & Hr0 & Ho0 & Ha0 & <- & Hen0 & _).
  apply admission_spec in Hi2 as (_ & _ & _ & _ & r2 & Hr2 & Ho2 & Ha2 & He2 & Hen2 & _).
  destruct (ao_row _ Hr _ _ Hr0) as (_ & _ & _ & op & Hop).
  destruct (ah_row _ _ H2 _ _ Hr2) as [Hu|(r1 & Hr1 & Eo & Ea & _ & Hle2 & _)].
  { eapply granted_used; [|exact Hu]. eapply lookup_weaken; [exact Hop|apply H1]. }
  destruct (ah_row _ _ H1 _ _ Hr1) as [Hu|(r0' & Hr0' & _ & _ & _ & Hle1 & Hk)]; [by eapply granted_used|].
  assert (r0' = r0) as -> by congruence.
  assert (RequireEnabledInstallationEpochInTx a1 id (in_epoch r0) owner app
          = Ok (mkInstallation id owner app StateEnabled (in_epoch r0) (in_installed r1) (in_updated r1))) as E.
  { apply admission_spec. split_and!; try done. exists r1. split_and!; try done; [congruence..|lia|apply Hk; [lia|done]]. }
  congruence.
Qed.

Lemma install_again cfg w now id owner actor app op a r :
  ValidateInstallOperationID op = Ok tt → cfg_fence cfg = true → authorizeMutation cfg w owner actor = Ok tt →
  readInstallOperationReceipt a owner app op = Some r →
  InstallAtOperation cfg w now id owner actor app op a = (a, o ← r; outcome_result o).
Proof.
  intros Hv Hf Ha Hr. unfold InstallAtOperation, then_call, ret_call, install. rewrite Hv.
  unfold mbind, M_bind, res_bind. unfold lift at 1, acquireLifecycleMutation. rewrite Hf.
  replace (if _ || _ then _ else _) with (Ok tt : res aerr unit) by by destruct (_ || _).
  unfold lift. rewrite Ha, (install_known _ _ _ _ _ _ _ _ Hr). unfold mbind, res_bind. by destruct r.
Qed.
(** C28: an install intent is answered once and for all.  Whether it installed
    the app or found it installed, the same operation sent again at any later
    time, by anybody the owner's authority extends to, gets the same answer
    and changes nothing, also after the app was uninstalled; under the name
    of another app it is refused. *)
Theorem install_intents_replay cfg w now id owner actor app op a a' r w2 a2 cfg2 now2 id2 actor2 :
  InstallAtOperation cfg w now id owner actor app op a = (a', r) →
  r = Err ErrInstallIntentAlreadyInstalled ∨ (∃ i, r = Ok i) →
  rtc astep (w, a') (w2, a2) →
  authorizeMutation cfg2 w2 owner actor2 = Ok tt → cfg_fence cfg2 = true →
  InstallAtOperation cfg2 w2 now2 id2 owner actor2 app op a2 = (a2, r)
  ∧ ∀ app2, app2 ≠ app →
      InstallAtOperation cfg2 w2 now2 id2 owner actor2 app2 op a2 = (a2, Err ErrInstallIntentMismatch).
Proof.
  intros H Hr Hrun%arun_hist Ha Hf. simpl in Hrun.
  apply InstallAtOperation_inv in H as [(o & -> & Hop & Hv & Hin)|(-> & e & -> & He)].
  - assert (readInstallOperationReceipt a2 owner app op = Some (Ok o)) as Hread.
    { eapply read_stable; [apply Hrun|by eapply install_read]. }
    split; [by rewrite (install_again _ _ _ _ _ _ _ _ _ _ Hop Hf Ha Hread)|]. intros app2 Hne.
    by rewrite (install_again _ _ _ _ _ _ _ _ _ _ Hop Hf Ha (read_other _ _ _ _ _ _ Hread Hne)).
  - exfalso. destruct Hr as [[= ->]|[? ?]]; [|done]. destruct He as [He%read_err|[? _]]; [by destruct He|done].
Qed.

(** C30: the tables of the apps are well formed in every reachable state: an
    owner has an app at most once, every installation has the receipt of the
    intent that made it and a valid address at which it is found again, its
    epoch is a positive [bigint], no two receipts name one installation, and
    no intent is left half done, so that no install is answered
    [ErrInstallIntentIncomplete]. *)
Theorem apps_wellformed w a :
  areach (w, a) →
  apps_ok a
  ∧ (∀ id row, a_installations a !! id = Some row → ∃ owner,
       installationAddress a id = Ok (owner, in_app row) ∧ ownerStorageKey owner = in_owner row
       ∧ (contains_nul (in_app row) = false → in_enabled row = true →
          ∃ i, RequireEnabledInstallationEpochInTx a id (in_epoch row) owner (in_app row) = Ok i))
  ∧ ∀ cfg now id owner actor app op,
      (InstallAtOperation cfg w now id owner actor app op a).2 ≠ Err ErrInstallIntentIncomplete.
Proof.
  intros Hok%areach_ok. simpl in Hok. split_and!; [done|..].
  - intros id row Hr. destruct (ao_row _ Hok _ _ Hr) as (Hc & He & (owner & Ho) & _). exists owner.
    pose proof (storage_key _ _ _ Ho) as Hk. rewrite <- surjective_pairing in Hk. split_and!; [|done|].
    + unfold installationAddress. rewrite Hc. simpl. rewrite Hr. simpl. by rewrite Ho.
    + intros Hn Hen. eexists. apply admission_spec. split_and!; [lia|done|by eapply storage_valid|done|].
      exists row. by split_and!.
  - intros cfg now id owner actor app op H.
    destruct (InstallAtOperation cfg w now id owner actor app op a) as [a' r] eqn:E. simpl in H. subst r.
    apply InstallAtOperation_inv in E as [([] & H & _)|(_ & e & [= <-] & [H|[_ ?]])]; try done.
    by apply (read_complete _ _ _ _ _ Hok) in H.
Qed.
End theorems.

Section workspaces.
Context `{GL : GoLib} `{WL : WsLib} `{NL : NameLib}.

(** C29: only an owner's authority touches its installations.  Whatever row a
    call creates, switches or removes belongs to a workspace in which the
    caller holds [manage_apps], or to the caller, a registered participant;
    and the tables of the workspace service are what decides it. *)
Theorem installations_need_authority db a c id :
  (∀ i, draws c = Some i → unused a i) →
  a_installations a !! id ≠ a_installations (arun db c a).1 !! id →
  ∃ row owner, (a_installations a !! id = Some row ∨ a_installations (arun db c a).1 !! id = Some row)
    ∧ in_owner row = ownerStorageKey owner
    ∧ ((∃ ws, owner = WorkspaceOwner ws ∧ PermissionManageApps ∈ capabilities db ws (acaller c))
       ∨ owner = ParticipantOwner (acaller c) ∧ registered db (acaller c) = true).
Proof. exact (call_authority db c a id). Qed.
End workspaces.

(** ** Witnesses *)

Lemma stale_authority_never_revives_witness :
  ∃ e2, RequireEnabledInstallationEpochInTx shop_again "i1" 1 atelier "messaging" = Err e2.
Proof.
  apply (stale_authority_never_revives host shop host shop_closed host shop_again "i1" 1 atelier "messaging"
           (mkInstallation "i1" atelier "messaging" StateEnabled 1 100 100) ErrInstallationNotFound).
  - apply shop_reach.
  - apply rtc_once, shop_closed_step.
  - apply rtc_once, shop_again_step.
  - apply shop_admits.
  - apply shop_closed_refuses.
Defined.
Lemma install_intents_replay_witness :
  InstallAtOperation shop_cfg host 150 "i9" atelier dora "messaging" "op1" shop_gone
  = (shop_gone, Ok (mkInstallation "i1" atelier "messaging" StateEnabled 1 100 100)).
Proof.
  apply (install_intents_replay shop_cfg host 100 "i1" atelier dora "messaging" "op1" shop_empty shop
           (Ok (mkInstallation "i1" atelier "messaging" StateEnabled 1 100 100)) host shop_gone shop_cfg 150 "i9" dora).
  - apply shop_install.
  - right. eauto.
  - apply rtc_once, shop_gone_step.
  - apply dora_may.
  - reflexivity.
Defined.
Lemma apps_wellformed_witness : apps_ok shop.
Proof. apply (apps_wellformed host shop), shop_reach. Defined.
Lemma installations_need_authority_witness :
  ∃ row owner, (a_installations shop_empty !! "i1" = Some row ∨ a_installations (arun host open_shop shop_empty).1 !! "i1" = Some row)
    ∧ in_owner row = ownerStorageKey owner
    ∧ ((∃ ws, owner = WorkspaceOwner ws ∧ PermissionManageApps ∈ capabilities host ws dora)
       ∨ owner = ParticipantOwner dora ∧ registered host dora = true).
Proof.
  apply (installations_need_authority host shop_empty open_shop "i1").
  - intros i _. apply shop_empty_unused.
  - rewrite shop_run. discriminate.
Defined.
